(* ===== verification/_CoqProject ===== *)
-Q . S2P
Prelude.v
DList.v
Timer.v
TimerFacts.v
Registry.v
Tables.v
Mem.v
MemFacts.v
Sort.v
CString.v
Bytes.v
Rules.v
RulesFacts.v
CText.v
CTextFacts.v
Users.v
Cache.v
UsersFacts.v
Db.v
DbFacts.v
DbPool.v
Store.v
ThreadPool.v
PoolFacts.v
Server.v
ServerFacts.v
CJson.v
CJsonFacts.v
Allocator.v
AllocatorFacts.v
AllocatorBounds.v
Save.v
SaveCalc.v
SaveCheck.v
SaveHour.v
SaveDay.v
PurgeFacts.v
CalcFacts.v
DayFacts.v
HourFacts.v
XServer.v
XServerFacts.v
Startup.v
StartupFacts.v
Exercises.v
ExercisesFacts.v
JsonTree.v
JsonTreeFacts.v
JsonList.v
JsonValues.v
JsonParse.v
JsonParseFacts.v
JsonPrint.v
JsonPrintFacts.v
