(* ===== verification/Prelude.v ===== *)
(** * Verification of the [TCP_C] server

    [src/TCP_C] is the server of a monitoring product: clients report what
    users do, a web front end queries and configures it.  One thread polls the
    connections; the JSON texts cut out of a connection's stream become tasks
    for worker threads; rules, users, activities, chats and web sessions live
    in global tables of records that hang on intrusive lists and hash chains;
    sessions and periodic work are driven by a wheel of timers.  The files of
    this development follow those parts, and a part is written on top of the
    parts its code calls.

    ** Parts and files

    - [Prelude]: machine integers with explicit wrap-around, the type
      [outcome] of code that may fault, loops bounded by their counter.
    - [DList]: [list.h] at the level of pointers, [Module ListHead] for the
      circular lists and [Module HList] for the chains with back pointers.
      Programs of list operations refine operations on sequences.
    - [Timer], [TimerFacts]: [timer.c], the five-level wheel, cascading, the
      [jiffies] clock.  A timer fires exactly when due and never early, every
      reachable wheel is consistent, [__run_timers] catches up.
    - [Registry]: the view of tables of records on several lists that the
      components of [hash.c] share.
    - [Tables]: the interface [PointerLists] between the two views, its
      instances for the lists and the chains of [DList], and the theorem that
      an index of [Registry] is implemented by them.
    - [Mem], [MemFacts]: [mem.c], the allocator that records every block; it
      refines a map from blocks to sizes.
    - [Sort]: the quick sort on lists of [hash.c], down to pointers.
    - [CString], [Bytes]: C strings and decimal numerals; blocks of bytes with
      the fields of packed structures.
    - [Rules], [RulesFacts]: [hash.c], the tables of forbidden activities,
      encryption rules and work rules (Modules [Forbid], [Encrypt],
      [WorkRule]) with refinement and functional theorems per operation.
    - [CText], [CTextFacts]: [public.c], splitting, escaping, number parsing,
      byte order and calendar helpers; round trips and bounds.
    - [Users], [Cache], [UsersFacts]: [hash.c], groups, connections, users and
      their activities, activity records, chats, sessions, classification and
      the initialisation of all tables.
    - [Db], [DbFacts], [DbPool]: [db.c], the client of the SSDB record store.
      [Module Wire] sends, receives and takes replies apart, [Module Db] is the
      pool of connections, the retries and the calls.  Requests are the
      encoding of their arguments, replies come back as they were encoded, the
      pool survives every behaviour of the server; and where it goes wrong.
    - [ThreadPool], [PoolFacts]: [thread.c] as a transition system of workers,
      callers and the destroyer; safety, order and progress in every
      interleaving, and the interleaving in which [pool_destroy] hangs.
    - [Server], [ServerFacts]: [main.c], [Module Framing] cuts requests out of
      a buffer, [Module Server] is the table of connections and [an_poll].
    - [CJson], [CJsonFacts]: [cJSON.c], parser, printer and accessors on
      values; the parser ends and inverts the printer.
    - [JsonTree], [JsonTreeFacts], [JsonList], [JsonValues]: [cJSON.c] on a
      memory of blocks, items that point to each other and texts of their own.
      The functions that create, link, search, detach, replace and delete
      items refine operations on lists of trees; [cJSON_Delete] releases a
      tree exactly; the searches agree with those of [CJson].
    - [JsonParse], [JsonParseFacts], [JsonPrint], [JsonPrintFacts]: the parser
      and the printer of [cJSON.c] on that memory.  Whatever the allocator
      answers, they do what [CJson] says or fail for want of memory, and leave
      nothing behind; what is printed fits into its block.
    - [Allocator], [AllocatorFacts], [AllocatorBounds]: [allocator.c], URI
      decoding in place, the parsers that fill the C structures of [head.h],
      the dispatch on the command, session and hand-over.  Decoding is correct
      and inverts encoding, members land in their fields, a request prolongs
      its session; and when the parsers with loops end or leave their block.
    - [Store]: what [auto_data_save.c] needs of [Db], as classes.
      [RecordStore] has the calls, [StoreContract] the documented behaviour of
      the server (a failed call has done its work or nothing), [Reliable] that
      calls do not fail; a map is an instance of all three.
    - [Save], [SaveCalc], [SaveCheck], [SaveHour], [SaveDay]:
      [auto_data_save.c] over any [RecordStore], in that order the monad, the
      state and the removal of old records ([ww_del_...]); the statistics of a
      day ([ww_save_..._calc_act_to_db]); their repair after a restart
      ([ww_user_calc_action_save_check], [resave_...]); the records of an hour
      ([ww_save_all_user_detail_act_to_db], [..._qq_msg_to_db]); the daily run
      [an_auto_data_save], its timer and the comparison of clocks
      [ww_time_init].
    - [PurgeFacts]: the removal touches only old records of its user whatever
      fails, removes exactly those when nothing does, and wipes a kind whose
      keys it misreads.  [CalcFacts]: a saved day decodes to its activities;
      with more than 1024 of them the block is lost; groups the repair
      forgets.  [DayFacts]: the clock follows any majority of users that
      agree; the clean-up needs a user.  [HourFacts]: the full hours of all
      users move from the tables to the store, value by value.
    - [XServer], [XServerFacts]: the older server of [TCP_SERVER], its table of
      descriptors and poll loop ([x-poll.c]), sessions ([x-session.c]) and the
      call of the script ([x-lua.c]).  An accepted connection gets a session,
      an answer goes out once and in order however it is cut; and the
      situations in which a connection starves, the table or the send buffer
      is overrun or a request is lost.
    - [Startup], [StartupFacts]: the rest of [main.c] and [x-core.c], [x-http.c].
      [Sockets], [Signals] and [Conf] (the configuration file) are what the
      start does, [Main] and [XCore] the order it does it in and the loops.
      The loop keeps the connections and the wheel of timers consistent
      whatever the kernel answers and a lawful worker does; a configuration of
      the documented shape is read exactly, and one of another shape never
      refused but read past its block.
    - [Exercises], [ExercisesFacts]: the data structures at the top of the
      repository, one Module per file.  [Lnode.c] implements lists; a queue,
      a doubly linked list, a stack and an ordered array, and what is wrong
      with them.

    ** Conventions

    State is passed explicitly.  A step the C program must not take (a null or
    dangling pointer, an access out of bounds, a failed assertion, an
    undefined operation) is a [Fault], so a theorem that concludes [Done]
    also says that the code is safe there.  Addresses are integers, 0 is the
    null pointer; what [malloc] returns, what the kernel answers and which
    thread moves next are arguments, so the theorems hold for all of them.
    Unsigned and signed conversions are [wrapu] and [wraps] at the width of
    the type; [unsigned long] has the width [W], any from 32 bits on.

    Loops that are not structural take fuel.  Where a measure is at hand (the
    length of a text or list, the distance the timer wheel lags behind) the
    definition computes the fuel itself and a theorem shows that it suffices
    ([run_timers_catches_up], [parse_total], [split_total], the sort, the
    decoder).  The loops over a reply in [Db] have the bytes of the buffer as
    fuel, and [listing_roundtrip] shows all records are taken.  The loops along
    the pointers of [JsonTree] may take as many steps as there are blocks,
    which is enough for every tree ([delete_exact], [json_refines]).  The two
    request parsers that are bounded by an [int] counter only run with 2^31
    rounds of binary fuel, the whole range of the counter ([int_loop_ends]).
    The fuel 1,024 of [events_loop] is the size of the table of connections;
    the loops of [Startup] run for as many rounds as there are answers.

    Parameters stand for what is not in the repository or is hardware: doubles
    ([CJson] and the files on it, with the exactness of small integers as the
    hypothesis [exact_ints]), the time zone ([CText], [Save.Env]), timer functions
    ([Timer]), and the functions of the worker that [auto_data_save.c] calls
    (the classes [Worker] and [Refresh]).  [Env] also has the fuel of the
    loops of [auto_data_save.c] that end only because the store runs out of
    records; [purge_exact] shows that one more than the number of records is
    enough.

    ** Not modelled

    [worker.c] holds only a copy of its header, so a task ends where it is
    handed over.  [x-timer.c] and [x-memory.c] of the older server are copies
    of [timer.c] and [mem.c]; its Lua interpreter is a stream of results.  In
    [Db] the blocks one call allocates are not tracked and allocation succeeds;
    in [Save] and the files on top of it allocation may fail, but what is
    released is not followed.
    Printing and logging are left out.  In [Startup] the worker is a relation
    on states that may do what [lawful] says; threads that interleave within a
    round are only modelled in [ThreadPool].  OpenResty, the Lua
    modules and the sources of text books are third-party trees, [gateway.c] is
    one file of a third-party program, [hello2.c] only prints.

    This file is the shared vocabulary. *)

From Stdlib Require Export ZArith Lia.
From stdpp Require Export base list gmap.

#[global] Open Scope Z_scope.

(** ** Machine integers

    A C integer of width [w] is a [Z] in the range of its type; every
    conversion to the type is written out as one of these functions. *)

Definition wrapu (w x : Z) : Z := x mod 2 ^ w.
Definition wraps (w x : Z) : Z := (x + 2 ^ (w - 1)) mod 2 ^ w - 2 ^ (w - 1).

Abbreviation u8 := (wrapu 8).
Abbreviation u16 := (wrapu 16).
Abbreviation u32 := (wrapu 32).
Abbreviation u64 := (wrapu 64).
Abbreviation s8 := (wraps 8).
Abbreviation s32 := (wraps 32).
Abbreviation s64 := (wraps 64).

Lemma wrapu_range w x : 0 <= w -> 0 <= wrapu w x < 2 ^ w.
Proof. intros Hw. apply Z.mod_pos_bound. lia. Qed.

Lemma wrapu_small w x : 0 <= x < 2 ^ w -> wrapu w x = x.
Proof. apply Z.mod_small. Qed.

Lemma wraps_range w x :
  1 <= w -> - 2 ^ (w - 1) <= wraps w x < 2 ^ (w - 1).
Proof.
  intros Hw. unfold wraps.
  assert (2 ^ w = 2 * 2 ^ (w - 1)) as E
    by (rewrite <- Z.pow_succ_r by lia; f_equal; lia).
  pose proof (Z.mod_pos_bound (x + 2 ^ (w - 1)) (2 ^ w)). lia.
Qed.

Lemma wraps_small w x :
  1 <= w -> - 2 ^ (w - 1) <= x < 2 ^ (w - 1) -> wraps w x = x.
Proof.
  intros Hw Hx. unfold wraps.
  assert (2 ^ w = 2 * 2 ^ (w - 1)) as E
    by (rewrite <- Z.pow_succ_r by lia; f_equal; lia).
  rewrite Z.mod_small; lia.
Qed.

(** Conversions depend on the value modulo the width only. *)
Lemma wraps_cong w x y : x mod 2 ^ w = y mod 2 ^ w -> wraps w x = wraps w y.
Proof. intros E. unfold wraps. by rewrite <- Zplus_mod_idemp_l, E, Zplus_mod_idemp_l. Qed.

Lemma wraps_modulo w x : wraps w x mod 2 ^ w = x mod 2 ^ w.
Proof. unfold wraps. rewrite Zminus_mod_idemp_l. f_equal. lia. Qed.

Lemma wraps_plus_l w x y : wraps w (wraps w x + y) = wraps w (x + y).
Proof. apply wraps_cong. by rewrite <- Zplus_mod_idemp_l, wraps_modulo, Zplus_mod_idemp_l. Qed.

Lemma wraps_plus_wrapu w x y : wraps w (x + wrapu w y) = wraps w (x + y).
Proof. apply wraps_cong. unfold wrapu. by rewrite Zplus_mod_idemp_r. Qed.

Lemma wraps_minus_l w x y : wraps w (wraps w x - y) = wraps w (x - y).
Proof. apply (wraps_plus_l w x (- y)). Qed.

(** A mask of [n] low bits is a remainder. *)
Lemma land_mask x n : 0 <= n -> Z.land x (2 ^ n - 1) = x mod 2 ^ n.
Proof. intros Hn. rewrite <- Z.land_ones by done. f_equal. by rewrite Z.ones_equiv. Qed.

Lemma land_255 x : Z.land x 255 = x mod 256.
Proof. exact (land_mask x 8 ltac:(lia)). Qed.

Lemma land_63 x : Z.land x 63 = x mod 64.
Proof. exact (land_mask x 6 ltac:(lia)). Qed.

Lemma land_1023 x : Z.land x 1023 = x mod 1024.
Proof. exact (land_mask x 10 ltac:(lia)). Qed.

Lemma mod_mod_divide x a b : 0 < a -> 0 < b -> (x mod (a * b)) mod a = x mod a.
Proof.
  intros Ha Hb. rewrite Z.rem_mul_r by lia.
  rewrite (Z.mul_comm a), Z.mod_add by lia. apply Z.mod_mod; lia.
Qed.

(** ** Outcomes of code that can go wrong

    [Done a] is a normal return; [Fault f] is a step the C program must not
    take: its behaviour there is undefined, or the process is aborted. *)

Inductive fault := NullDeref | OutOfBounds | UseAfterFree | AssertFailed | ArithUB.

#[global] Instance fault_eq_dec : EqDecision fault.
Proof. solve_decision. Defined.

Inductive outcome (A : Type) := Done (a : A) | Fault (f : fault).
Arguments Done {A} a.
Arguments Fault {A} f.

#[global] Instance outcome_ret : MRet outcome := @Done.
#[global] Instance outcome_bind : MBind outcome := fun A B k m =>
  match m with Done a => k a | Fault f => Fault f end.

Definition get_or {A} (f : fault) (o : option A) : outcome A :=
  match o with Some a => Done a | None => Fault f end.

Lemma bind_Done {A B} (a : A) (k : A -> outcome B) : (Done a ≫= k) = k a.
Proof. done. Qed.

Lemma outcome_bind_done {A B} (m : outcome A) (k : A -> outcome B) b :
  m ≫= k = Done b <-> exists a, m = Done a /\ k a = Done b.
Proof. destruct m; simpl; naive_solver. Qed.

(** ** Addresses *)

Abbreviation addr := Z (only parsing).
Definition NULL : Z := 0.

(** ** Removing one address from a list of addresses *)

Definition remove_addr (a : addr) (l : list addr) : list addr :=
  filter (fun x => x <> a) l.

Lemma elem_of_remove_addr a x l : x ∈ remove_addr a l <-> x <> a /\ x ∈ l.
Proof. unfold remove_addr. by rewrite list_elem_of_filter. Qed.

Lemma remove_addr_notin a l : a ∉ l -> remove_addr a l = l.
Proof.
  induction l as [|x l IH]; [done|]. rewrite not_elem_of_cons. intros [Hx Hl].
  unfold remove_addr in *. rewrite filter_cons_True by congruence. by rewrite IH.
Qed.

Lemma remove_addr_app a l1 l2 :
  remove_addr a (l1 ++ l2) = remove_addr a l1 ++ remove_addr a l2.
Proof. unfold remove_addr. apply filter_app. Qed.

Lemma remove_addr_mid a l1 l2 :
  NoDup (l1 ++ a :: l2) -> remove_addr a (l1 ++ a :: l2) = l1 ++ l2.
Proof.
  intros (_ & H1 & Ha)%NoDup_app. inversion Ha as [|?? Hn _]; subst.
  rewrite remove_addr_app. rewrite remove_addr_notin by (intros ?; apply (H1 a); set_solver).
  f_equal. change (a :: l2) with ([a] ++ l2). rewrite remove_addr_app.
  rewrite (remove_addr_notin a l2) by done.
  unfold remove_addr. by rewrite filter_cons_False by (intros Hne; by apply Hne).
Qed.

Lemma NoDup_remove_addr a l : NoDup l -> NoDup (remove_addr a l).
Proof. unfold remove_addr. apply NoDup_filter. Qed.

Lemma length_remove_addr a l :
  NoDup l -> a ∈ l -> S (length (remove_addr a l)) = length l.
Proof.
  intros Hnd Ha. apply list_elem_of_split in Ha as (l1 & l2 & ->).
  rewrite remove_addr_mid by done. rewrite !length_app. simpl. lia.
Qed.

(** ** Loops

    [step] continues with a new state or leaves the loop with a result.  The
    number of iterations is binary, so that a loop whose only bound is the
    range of its counter can still be evaluated. *)

Fixpoint loop {S R} (n : positive) (step : S -> S + R) (s : S) : S + R :=
  match n with
  | xH => step s
  | xO n => match loop n step s with inl s => loop n step s | r => r end
  | xI n =>
    match step s with
    | inl s => match loop n step s with inl s => loop n step s | r => r end
    | r => r
    end
  end.

(** The same with iterations counted one by one. *)
Fixpoint loop_nat {S R} (n : nat) (step : S -> S + R) (s : S) : S + R :=
  match n with
  | O => inl s
  | Datatypes.S n => match step s with inl s => loop_nat n step s | r => r end
  end.

Lemma loop_nat_add {S R} (step : S -> S + R) n m : forall s,
  loop_nat (n + m) step s = match loop_nat n step s with inl s => loop_nat m step s | r => r end.
Proof. induction n as [|n IH]; intros s; simpl; [done|]. by destruct (step s). Qed.

Lemma loop_counts {S R} (step : S -> S + R) n : forall s, loop n step s = loop_nat (Pos.to_nat n) step s.
Proof.
  induction n as [n IH|n IH|]; intros s; simpl loop.
  - rewrite Pos2Nat.inj_xI. simpl. destruct (step s) as [s'|]; [|done]. rewrite Nat.add_0_r, loop_nat_add, IH.
    destruct (loop_nat _ step s'); [by rewrite IH|done].
  - rewrite Pos2Nat.inj_xO. simpl. rewrite Nat.add_0_r, loop_nat_add, IH.
    destruct (loop_nat _ step s); [by rewrite IH|done].
  - change (Pos.to_nat 1) with 1%nat. simpl. by destruct (step s).
Qed.

(** Enough iterations are as good as any number of them. *)
Lemma loop_nat_mono {S R} (step : S -> S + R) n m s r :
  loop_nat n step s = inr r -> (n <= m)%nat -> loop_nat m step s = inr r.
Proof. intros E Hm. replace m with (n + (m - n))%nat by lia. by rewrite loop_nat_add, E. Qed.

(** ** Tactics *)

(** Split every conjunction in sight and try to close the goals. *)
Ltac split_all := repeat match goal with |- _ /\ _ => split end.

(** Case analysis on the boolean comparisons of [Z] in the goal. *)
Ltac zcases :=
  repeat match goal with
  | |- context [Z.eqb ?a ?b] => destruct (Z.eqb_spec a b)
  | |- context [Z.ltb ?a ?b] => destruct (Z.ltb_spec a b)
  | |- context [Z.leb ?a ?b] => destruct (Z.leb_spec a b)
  end.

Create HintDb ww discriminated.
#[export] Hint Resolve NoDup_remove_addr : ww.
