(* ===== verification/DList.v ===== *)
(** * DList: the intrusive lists of [TCP_C/list.h]

    [struct list_head] and [struct hlist_node] are modelled field by field:
    the memory is one finite map per field, keyed by the address of the
    structure, so that every assignment of the C code is one update.  A read
    or a write at an address the map does not hold is the value [None].

    Each operation is first translated pointer by pointer; [dll] and [hll]
    then say when a memory holds the circular list (the hash chain) whose
    nodes are the given addresses in order, and the lemmas show that the
    pointer code computes the list operation its callers rely on. *)

From S2P Require Import Prelude.
Local Open Scope Z_scope.

Module ListHead.

(** ** [struct list_head] *)

Record mem := Mem { next : gmap Z Z; prev : gmap Z Z }.

Definition rd (m : gmap Z Z) (a : addr) : option Z := m !! a.
Definition wr (m : gmap Z Z) (a : addr) (v : Z) : option (gmap Z Z) :=
  match m !! a with Some _ => Some (<[a := v]> m) | None => None end.

Definition set_next (a v : addr) (h : mem) : option mem :=
  n ← wr (next h) a v; Some (Mem n (prev h)).
Definition set_prev (a v : addr) (h : mem) : option mem :=
  p ← wr (prev h) a v; Some (Mem (next h) p).

Definition LIST_POISON1 : addr := 0x00100100.
Definition LIST_POISON2 : addr := 0x00200200.

Definition INIT_LIST_HEAD (p : addr) (h : mem) : option mem :=
  h ← set_next p p h; set_prev p p h.

Definition __list_add (new prv nxt : addr) (h : mem) : option mem :=
  h ← set_prev nxt new h;
  h ← set_next new nxt h;
  h ← set_prev new prv h;
  set_next prv new h.

Definition list_add (new head : addr) (h : mem) : option mem :=
  n ← rd (next h) head; __list_add new head n h.

Definition list_add_tail (new head : addr) (h : mem) : option mem :=
  p ← rd (prev h) head; __list_add new p head h.

Definition __list_del (prv nxt : addr) (h : mem) : option mem :=
  h ← set_prev nxt prv h; set_next prv nxt h.

Definition list_del (entry : addr) (h : mem) : option mem :=
  p ← rd (prev h) entry; n ← rd (next h) entry;
  h ← __list_del p n h;
  h ← set_next entry LIST_POISON1 h;
  set_prev entry LIST_POISON2 h.

Definition list_del_init (entry : addr) (h : mem) : option mem :=
  p ← rd (prev h) entry; n ← rd (next h) entry;
  h ← __list_del p n h; INIT_LIST_HEAD entry h.

Definition list_move (l head : addr) (h : mem) : option mem :=
  p ← rd (prev h) l; n ← rd (next h) l;
  h ← __list_del p n h; list_add l head h.

Definition list_move_tail (l head : addr) (h : mem) : option mem :=
  p ← rd (prev h) l; n ← rd (next h) l;
  h ← __list_del p n h; list_add_tail l head h.

Definition list_empty (head : addr) (h : mem) : option bool :=
  n ← rd (next h) head; Some (n =? head).

Definition list_empty_careful (head : addr) (h : mem) : option bool :=
  n ← rd (next h) head;
  p ← rd (prev h) head; Some ((n =? head) && (n =? p)).

Definition __list_splice (l head : addr) (h : mem) : option mem :=
  first ← rd (next h) l; last ← rd (prev h) l; at_ ← rd (next h) head;
  h ← set_prev first head h;
  h ← set_next head first h;
  h ← set_next last at_ h;
  set_prev at_ last h.

Definition list_splice (l head : addr) (h : mem) : option mem :=
  e ← list_empty l h;
  if (e : bool) then Some h else __list_splice l head h.

Definition list_splice_init (l head : addr) (h : mem) : option mem :=
  e ← list_empty l h;
  if (e : bool) then Some h else h ← __list_splice l head h; INIT_LIST_HEAD l h.

Definition list_replace (old new : addr) (h : mem) : option mem :=
  n ← rd (next h) old;
  h ← set_next new n h;
  h ← set_prev n new h;
  p ← rd (prev h) old;
  h ← set_prev new p h;
  set_next p new h.

Definition list_replace_init (old new : addr) (h : mem) : option mem :=
  h ← list_replace old new h; INIT_LIST_HEAD old h.

(** [list_for_each (pos, head)]: the addresses [pos] takes, in order; the
    fuel bounds the number of iterations. *)
Fixpoint list_for_each_from (fuel : nat) (pos head : addr) (h : mem)
    : option (list addr) :=
  if pos =? head then Some []
  else match fuel with
       | O => None
       | S fuel =>
           n ← rd (next h) pos;
           l ← list_for_each_from fuel n head h; Some (pos :: l)
       end.

Definition list_for_each (fuel : nat) (head : addr) (h : mem) : option (list addr) :=
  n ← rd (next h) head; list_for_each_from fuel n head h.

(** ** The abstraction: which list a memory holds *)

Definition link (h : mem) (a b : addr) : Prop :=
  next h !! a = Some b /\ prev h !! b = Some a.

(** Consecutive addresses of [l] are linked in both directions. *)
Fixpoint chain (h : mem) (l : list addr) : Prop :=
  match l with
  | a :: (b :: _) as t => link h a b /\ chain h t
  | _ => True
  end.

Definition dll (h : mem) (head : addr) (xs : list addr) : Prop :=
  NoDup (head :: xs) /\ chain h (head :: xs ++ [head]).

(** An allocated node, on a list or not. *)
Definition node (h : mem) (a : addr) : Prop :=
  is_Some (next h !! a) /\ is_Some (prev h !! a).

(** [h'] differs from [h] at most at the addresses of [S], and no address
    is allocated or freed. *)
Definition frame (S : list addr) (h h' : mem) : Prop :=
  (forall a, a ∉ S -> next h' !! a = next h !! a /\ prev h' !! a = prev h !! a) /\
  (forall a, node h a -> node h' a).

Lemma last_cons (x d : addr) l : List.last (x :: l) d = List.last l x.
Proof.
  revert x d. induction l as [|a l IH]; intros x d; [done|].
  change (List.last (a :: l) d = List.last (a :: l) x). by rewrite !IH.
Qed.

Lemma last_in (x : addr) l : List.last l x ∈ x :: l.
Proof.
  revert x. induction l as [|a l IH]; intros x; [set_solver|].
  rewrite last_cons. set_solver.
Qed.

Lemma chain_app h l1 a b l2 :
  chain h (l1 ++ a :: b :: l2) <-> chain h (l1 ++ [a]) /\ link h a b /\ chain h (b :: l2).
Proof.
  induction l1 as [|x l1 IH]; [simpl; tauto|].
  destruct l1 as [|y l1]; simpl in *; [tauto|]. rewrite IH. tauto.
Qed.

(** The same decomposition with the boundary named by [last] and [hd]. *)
Lemma chain_join_iff h x l1 l2 d :
  chain h (x :: l1 ++ l2 ++ [d]) <->
  chain h (x :: l1) /\ link h (List.last l1 x) (hd d l2) /\ chain h (l2 ++ [d]).
Proof.
  revert x. induction l1 as [|y l1 IH]; intros x.
  - destruct l2; simpl; tauto.
  - rewrite last_cons. specialize (IH y).
    change (link h x y /\ chain h (y :: l1 ++ l2 ++ [d]) <->
            (link h x y /\ chain h (y :: l1)) /\ link h (List.last l1 y) (hd d l2) /\
            chain h (l2 ++ [d])). tauto.
Qed.

Lemma chain_ext_l h h' x l :
  (forall a, a ∈ x :: l -> a <> List.last l x -> next h' !! a = next h !! a) ->
  (forall a, a ∈ l -> prev h' !! a = prev h !! a) ->
  NoDup (x :: l) -> chain h (x :: l) -> chain h' (x :: l).
Proof.
  revert x. induction l as [|y l IH]; intros x Hn Hp Hnd; [done|].
  inversion Hnd as [|?? Hx Hnd']; subst. intros [Hl Hc]. rewrite last_cons in Hn.
  pose proof (last_in y l). split.
  - unfold link. rewrite Hn, Hp by set_solver. exact Hl.
  - apply IH; [| |done|exact Hc]; intros a Ha; [intros; apply Hn|apply Hp]; set_solver.
Qed.

Lemma chain_ext_r h h' l d :
  (forall a, a ∈ l -> next h' !! a = next h !! a) ->
  (forall a, a ∈ l ++ [d] -> a <> hd d l -> prev h' !! a = prev h !! a) ->
  NoDup (l ++ [d]) -> chain h (l ++ [d]) -> chain h' (l ++ [d]).
Proof.
  induction l as [|y l IH]; intros Hn Hp Hnd; [done|].
  inversion Hnd as [|?? Hx Hnd']; subst. simpl in *.
  destruct (l ++ [d]) as [|z r] eqn:E; [done|]. intros [Hl Hc].
  assert (z = hd d l) as Hz by (destruct l; simpl in *; congruence).
  split.
  - unfold link. rewrite Hn, Hp by set_solver. exact Hl.
  - apply IH; [intros; apply Hn; set_solver| |done|exact Hc].
    intros a Ha Hne. apply Hp; [set_solver|]. set_solver.
Qed.

(** Relinking around one cut of the ring: the two halves survive a memory
    change that only touches [next] of the left end and [prev] of the right
    end of the cut. *)
Lemma ring_relink h h' head xs ys :
  NoDup (head :: xs ++ ys) ->
  chain h (head :: xs) -> chain h (ys ++ [head]) ->
  (forall a, a ∈ head :: xs ++ ys -> a <> List.last xs head ->
     next h' !! a = next h !! a) ->
  (forall a, a ∈ head :: xs ++ ys -> a <> hd head ys ->
     prev h' !! a = prev h !! a) ->
  chain h' (head :: xs) /\ chain h' (ys ++ [head]).
Proof.
  intros Hnd Hl Hr Hn Hp. pose proof (last_in head xs) as Hlast.
  inversion Hnd as [|?? Hh Hnd']; subst. apply NoDup_app in Hnd' as (Hx & Hd & Hy).
  split.
  - apply (chain_ext_l h); [| |constructor; [set_solver|done]|done].
    + intros a Ha. apply Hn. set_solver.
    + intros a Ha. apply Hp; [set_solver|]. intros ->.
      destruct ys as [|y ys]; simpl in *; [set_solver|]. apply (Hd y); set_solver.
  - apply (chain_ext_r h); [| | |done].
    + intros a Ha. apply Hn; [set_solver|]. intros ->.
      apply elem_of_cons in Hlast as [E|?]; [rewrite E in Ha; set_solver|].
      by eapply Hd.
    + intros a Ha. apply Hp. set_solver.
    + apply NoDup_app. split_all; [done|set_solver|apply NoDup_singleton].
Qed.
(** *** Reads and writes that succeed *)

Lemma wr_some m a v : is_Some (m !! a) -> wr m a v = Some (<[a := v]> m).
Proof. unfold wr. by intros [? ->]. Qed.

Lemma set_next_some h a v :
  is_Some (next h !! a) -> set_next a v h = Some (Mem (<[a := v]> (next h)) (prev h)).
Proof. intros H. unfold set_next. by rewrite wr_some. Qed.

Lemma set_prev_some h a v :
  is_Some (prev h !! a) -> set_prev a v h = Some (Mem (next h) (<[a := v]> (prev h))).
Proof. intros H. unfold set_prev. by rewrite wr_some. Qed.

Lemma chain_node_next h x l d a :
  chain h (x :: l ++ [d]) -> a ∈ x :: l -> is_Some (next h !! a).
Proof.
  revert x. induction l as [|y l IH]; intros x; simpl.
  - intros [[? ?] _] ->%list_elem_of_singleton. by eexists.
  - intros [[? ?] Hc] [->|Ha]%elem_of_cons; [by eexists|eauto].
Qed.

Lemma chain_node_prev h x l d a :
  chain h (x :: l ++ [d]) -> a ∈ l ++ [d] -> is_Some (prev h !! a).
Proof.
  revert x. induction l as [|y l IH]; intros x; simpl.
  - intros [[? ?] _] ->%list_elem_of_singleton. by eexists.
  - intros [[? ?] Hc] [->|Ha]%elem_of_cons; [by eexists|eauto].
Qed.

Lemma dll_node h head xs a : dll h head xs -> a ∈ head :: xs -> node h a.
Proof.
  intros [_ Hc] Ha. split; [by eapply chain_node_next|].
  eapply chain_node_prev; [done|]. set_solver.
Qed.

Lemma dll_last h head xs ys :
  dll h head (xs ++ ys) -> next h !! List.last xs head = Some (hd head ys).
Proof.
  intros [_ Hc]. rewrite <- app_assoc in Hc. apply chain_join_iff in Hc as (_ & [? _] & _). done.
Qed.

Lemma dll_hd h head xs ys :
  dll h head (xs ++ ys) -> prev h !! hd head ys = Some (List.last xs head).
Proof.
  intros [_ Hc]. rewrite <- app_assoc in Hc. apply chain_join_iff in Hc as (_ & [_ ?] & _). done.
Qed.

Lemma ring_ends head (xs ys : list addr) :
  List.last xs head ∈ head :: xs ++ ys /\ hd head ys ∈ head :: xs ++ ys.
Proof.
  split; [pose proof (last_in head xs); set_solver|]. destruct ys; set_solver.
Qed.

(** [__list_add] between the two ends of a cut of the ring. *)
Lemma __list_add_spec h head xs ys new :
  dll h head (xs ++ ys) -> node h new -> new ∉ head :: xs ++ ys ->
  exists h', __list_add new (List.last xs head) (hd head ys) h = Some h' /\
    dll h' head (xs ++ new :: ys) /\ frame (new :: head :: xs ++ ys) h h'.
Proof.
  intros Hd Hnew Hni. destruct (ring_ends head xs ys) as [Hp Hq].
  pose proof (dll_node _ _ _ _ Hd Hp) as [Np _]. pose proof (dll_node _ _ _ _ Hd Hq) as [_ Nq].
  destruct Hnew as [Nn Nn']. destruct Hd as [Hnd Hc].
  rewrite <- app_assoc in Hc. apply chain_join_iff in Hc as (Hl & _ & Hr).
  set (p := List.last xs head) in *. set (q := hd head ys) in *.
  assert (new <> p /\ new <> q) as [? ?] by set_solver.
  unfold __list_add. rewrite set_prev_some by done. simpl.
  rewrite set_next_some by done. simpl.
  rewrite set_prev_some by (simpl; by rewrite lookup_insert_ne). simpl.
  rewrite set_next_some by (simpl; by rewrite lookup_insert_ne).
  eexists; split; [done|]. split.
  - destruct (ring_relink h (Mem (<[p:=new]> (<[new:=q]> (next h)))
       (<[new:=p]> (<[q:=new]> (prev h)))) head xs ys) as [Hl' Hr']; try done; simpl.
    + intros a Ha Hne. rewrite !lookup_insert_ne by set_solver. done.
    + intros a Ha Hne. rewrite !lookup_insert_ne by set_solver. done.
    + split.
      * apply NoDup_cons in Hnd as [? Hnd]. apply NoDup_app in Hnd as (?&?&?).
        constructor; [set_solver|]. apply NoDup_app. split_all; [done|set_solver|].
        constructor; [set_solver|done].
      * rewrite <- app_assoc. apply chain_join_iff. split_all; [done| |].
        -- unfold link; simpl. by rewrite lookup_insert_eq, lookup_insert_eq.
        -- change ((new :: ys) ++ [head]) with (new :: [] ++ ys ++ [head]).
           apply chain_join_iff. split_all; [done| |done].
           unfold link; simpl. rewrite lookup_insert_ne, lookup_insert_eq by done.
           by rewrite lookup_insert_ne, lookup_insert_eq by done.
  - split.
    + intros a Ha. simpl. rewrite !lookup_insert_ne by set_solver. done.
    + intros a [? ?]. unfold node. simpl. rewrite !lookup_insert_is_Some'. tauto.
Qed.

(** [__list_del] of the node between the two ends of a cut. *)
Lemma __list_del_spec h head xs a ys :
  dll h head (xs ++ a :: ys) ->
  exists h', __list_del (List.last xs head) (hd head ys) h = Some h' /\
    dll h' head (xs ++ ys) /\ frame (head :: xs ++ ys) h h' /\ node h' a.
Proof.
  intros Hd. pose proof (dll_node _ _ _ a Hd ltac:(set_solver)) as Na.
  destruct (ring_ends head xs ys) as [Hp Hq].
  pose proof (dll_node _ _ _ (List.last xs head) Hd ltac:(set_solver)) as [Np _].
  pose proof (dll_node _ _ _ (hd head ys) Hd ltac:(set_solver)) as [_ Nq].
  destruct Hd as [Hnd Hc].
  rewrite <- app_assoc in Hc. apply chain_join_iff in Hc as (Hl & _ & Hc).
  change ((a :: ys) ++ [head]) with (a :: [] ++ ys ++ [head]) in Hc.
  apply chain_join_iff in Hc as (_ & _ & Hr).
  set (p := List.last xs head) in *. set (q := hd head ys) in *.
  assert (NoDup (head :: xs ++ ys)) as Hnd'.
  { apply NoDup_cons in Hnd as [? Hnd]. apply NoDup_app in Hnd as (?&Hdj&Hnd).
    apply NoDup_cons in Hnd as [? ?]. constructor; [set_solver|].
    apply NoDup_app. split_all; [done|set_solver|done]. }
  unfold __list_del. rewrite set_prev_some by done. simpl. rewrite set_next_some by done.
  eexists; split; [done|]. split_all.
  - destruct (ring_relink h (Mem (<[p:=q]> (next h)) (<[q:=p]> (prev h))) head xs ys)
      as [Hl' Hr']; try done; simpl.
    + intros b Hb Hne. by rewrite lookup_insert_ne by set_solver.
    + intros b Hb Hne. by rewrite lookup_insert_ne by set_solver.
    + split; [done|]. rewrite <- app_assoc. apply chain_join_iff. split_all; [done| |done].
      unfold link; simpl. by rewrite !lookup_insert_eq.
  - split.
    + intros b Hb. simpl. rewrite !lookup_insert_ne by set_solver. done.
    + intros b [? ?]. unfold node. simpl. rewrite !lookup_insert_is_Some'. tauto.
  - unfold node. simpl. rewrite !lookup_insert_is_Some'. destruct Na. tauto.
Qed.

(** ** What the public operations do to the list *)

Lemma frame_trans S h1 h2 h3 : frame S h1 h2 -> frame S h2 h3 -> frame S h1 h3.
Proof.
  intros [F1 N1] [F2 N2]. split; [|by eauto].
  intros a Ha. destruct (F1 a Ha), (F2 a Ha). split; congruence.
Qed.

Lemma frame_weaken S S' h h' : S ⊆ S' -> frame S h h' -> frame S' h h'.
Proof. intros HS [F N]. split; [|done]. intros a Ha. apply F. set_solver. Qed.

(** Lists that share no address with the changed ones are untouched. *)
Lemma dll_frame S h h' head xs :
  frame S h h' -> dll h head xs -> (forall a, a ∈ head :: xs -> a ∉ S) -> dll h' head xs.
Proof.
  intros [F _] [Hnd Hc] Hdis. split; [done|]. revert Hc.
  assert (forall l, (forall a, a ∈ l -> a ∈ head :: xs) -> chain h l -> chain h' l) as Haux.
  { induction l as [|a [|b l] IH]; [done..|]. intros Hsub [[Hn Hp] Hc]. split.
    - unfold link. destruct (F a ltac:(set_solver)) as [-> _].
      by destruct (F b ltac:(set_solver)) as [_ ->].
    - apply IH; [set_solver|done]. }
  apply Haux. set_solver.
Qed.

(** C: [INIT_LIST_HEAD] makes an allocated node an empty list. *)
Lemma INIT_LIST_HEAD_spec h p :
  node h p -> exists h', INIT_LIST_HEAD p h = Some h' /\ dll h' p [] /\ frame [p] h h'.
Proof.
  intros [Hn Hp]. unfold INIT_LIST_HEAD. rewrite set_next_some by done. simpl.
  rewrite set_prev_some by done. eexists; split; [done|]. split.
  - split; [apply NoDup_singleton|]. simpl. unfold link; simpl.
    by rewrite !lookup_insert_eq.
  - split.
    + intros a Ha. simpl. rewrite !lookup_insert_ne by set_solver. done.
    + intros a [? ?]. unfold node; simpl. rewrite !lookup_insert_is_Some'. tauto.
Qed.

(** [list_add] pushes at the front. *)
Lemma list_add_spec h head xs new :
  dll h head xs -> node h new -> new ∉ head :: xs ->
  exists h', list_add new head h = Some h' /\ dll h' head (new :: xs) /\
    frame (new :: head :: xs) h h'.
Proof.
  intros Hd Hn Hni. unfold list_add, rd.
  pose proof (dll_last h head [] xs Hd) as En. simpl in En. rewrite En. simpl.
  destruct (__list_add_spec h head [] xs new) as (h' & E & ? & ?); eauto.
Qed.

(** [list_add_tail] appends at the back. *)
Lemma list_add_tail_spec h head xs new :
  dll h head xs -> node h new -> new ∉ head :: xs ->
  exists h', list_add_tail new head h = Some h' /\ dll h' head (xs ++ [new]) /\
    frame (new :: head :: xs) h h'.
Proof.
  intros Hd Hn Hni. rewrite <- (app_nil_r xs) in Hd, Hni.
  unfold list_add_tail, rd.
  pose proof (dll_hd h head xs [] Hd) as Ep. simpl in Ep. rewrite Ep. simpl.
  destruct (__list_add_spec h head xs [] new) as (h' & E & ? & Hf); eauto.
  exists h'. split_all; [done|done|]. by rewrite app_nil_r in Hf.
Qed.

(** The neighbours a node reads from its own fields. *)
Lemma dll_neighbours h head xs a ys :
  dll h head (xs ++ a :: ys) ->
  prev h !! a = Some (List.last xs head) /\ next h !! a = Some (hd head ys).
Proof.
  intros Hd. split; [exact (dll_hd h head xs (a :: ys) Hd)|].
  pose proof (dll_last h head (xs ++ [a]) ys) as H.
  rewrite <- app_assoc in H. simpl in H. specialize (H Hd).
  by rewrite List.last_last in H.
Qed.

Lemma dll_notin h head xs a ys : dll h head (xs ++ a :: ys) -> a ∉ head :: xs ++ ys.
Proof.
  intros [Hnd _]. apply NoDup_cons in Hnd as [? Hnd].
  apply NoDup_app in Hnd as (?&Hdj&Hnd). apply NoDup_cons in Hnd as [? ?]. set_solver.
Qed.

(** [list_del] removes the node, wherever it is, and poisons it. *)
Lemma list_del_spec h head xs a ys :
  dll h head (xs ++ a :: ys) ->
  exists h', list_del a h = Some h' /\ dll h' head (xs ++ ys) /\
    frame (a :: head :: xs ++ ys) h h' /\
    next h' !! a = Some LIST_POISON1 /\ prev h' !! a = Some LIST_POISON2.
Proof.
  intros Hd. destruct (dll_neighbours _ _ _ _ _ Hd) as [Ep En].
  pose proof (dll_notin _ _ _ _ _ Hd) as Hna.
  destruct (__list_del_spec _ _ _ _ _ Hd) as (h1 & E & Hd1 & Hf & [Nn Np]).
  unfold list_del, rd. rewrite Ep, En. simpl. rewrite E. simpl.
  rewrite set_next_some by done. simpl. rewrite set_prev_some by done.
  set (h2 := Mem _ _).
  assert (frame [a] h1 h2) as Hf2.
  { split.
    - intros b Hb. simpl. rewrite !lookup_insert_ne by set_solver. done.
    - intros b [? ?]. unfold node; simpl. rewrite !lookup_insert_is_Some'. tauto. }
  exists h2. split_all; [done| | | |].
  - eapply dll_frame; [exact Hf2|done|]. set_solver.
  - eapply frame_trans; [eapply frame_weaken; [|exact Hf]; set_solver|].
    eapply frame_weaken; [|exact Hf2]. set_solver.
  - simpl. by rewrite lookup_insert_eq.
  - simpl. by rewrite lookup_insert_eq.
Qed.

(** [list_del_init] removes the node and leaves it an empty list of its own. *)
Lemma list_del_init_spec h head xs a ys :
  dll h head (xs ++ a :: ys) ->
  exists h', list_del_init a h = Some h' /\ dll h' head (xs ++ ys) /\ dll h' a [] /\
    frame (a :: head :: xs ++ ys) h h'.
Proof.
  intros Hd. destruct (dll_neighbours _ _ _ _ _ Hd) as [Ep En].
  pose proof (dll_notin _ _ _ _ _ Hd) as Hna.
  destruct (__list_del_spec _ _ _ _ _ Hd) as (h1 & E & Hd1 & Hf & Na).
  destruct (INIT_LIST_HEAD_spec h1 a Na) as (h2 & E2 & Hd2 & Hf2).
  unfold list_del_init, rd. rewrite Ep, En. simpl. rewrite E. simpl. rewrite E2.
  exists h2. split_all; [done| |done|].
  - eapply dll_frame; [exact Hf2|done|]. set_solver.
  - eapply frame_trans; [eapply frame_weaken; [|exact Hf]; set_solver|].
    eapply frame_weaken; [|exact Hf2]. set_solver.
Qed.

(** Appending before any node of the ring, the head included: the code
    passes an inner node as "head" to insert in front of it. *)
Lemma list_add_tail_before h head xs ys new :
  dll h head (xs ++ ys) -> node h new -> new ∉ head :: xs ++ ys ->
  exists h', list_add_tail new (hd head ys) h = Some h' /\
    dll h' head (xs ++ new :: ys) /\ frame (new :: head :: xs ++ ys) h h'.
Proof.
  intros Hd Hn Hni. unfold list_add_tail, rd. rewrite (dll_hd h head xs ys Hd). simpl.
  by apply __list_add_spec.
Qed.

(** Unlinking a node that is alone changes nothing. *)
Lemma __list_del_self h a : dll h a [] -> __list_del a a h = Some h.
Proof.
  intros [_ [[Hn Hp] _]]. unfold __list_del. rewrite set_prev_some by (by eexists). simpl.
  rewrite set_next_some by (by eexists). rewrite !insert_id by done. by destruct h.
Qed.

Lemma list_move_tail_self h a b :
  dll h a [] -> list_move_tail a b h = list_add_tail a b h.
Proof.
  intros Hd. unfold list_move_tail, rd. pose proof Hd as [_ [[-> ->] _]]. simpl.
  by rewrite __list_del_self.
Qed.

(** [list_move_tail] from one list to the back of another. *)
Lemma list_move_tail_spec h head1 xs a ys head2 zs :
  dll h head1 (xs ++ a :: ys) -> dll h head2 zs ->
  (forall b, b ∈ head1 :: xs ++ a :: ys -> b ∉ head2 :: zs) ->
  exists h', list_move_tail a head2 h = Some h' /\
    dll h' head1 (xs ++ ys) /\ dll h' head2 (zs ++ [a]) /\
    frame (a :: head1 :: head2 :: xs ++ ys ++ zs) h h'.
Proof.
  intros Hd1 Hd2 Hdis. destruct (dll_neighbours _ _ _ _ _ Hd1) as [Ep En].
  pose proof (dll_notin _ _ _ _ _ Hd1) as Hna.
  destruct (__list_del_spec _ _ _ _ _ Hd1) as (h1 & E & Hd1' & Hf & Na).
  assert (dll h1 head2 zs) as Hd2' by (eapply dll_frame; [exact Hf|done|]; set_solver).
  destruct (list_add_tail_spec h1 head2 zs a Hd2' Na) as (h2 & E2 & Hd3 & Hf2);
    [set_solver|].
  unfold list_move_tail, rd. rewrite Ep, En. simpl. rewrite E. simpl.
  exists h2. split_all; [done| |done|].
  - eapply dll_frame; [exact Hf2|done|]. set_solver.
  - eapply frame_trans; [eapply frame_weaken; [|exact Hf]; set_solver|].
    eapply frame_weaken; [|exact Hf2]. set_solver.
Qed.

(** [list_for_each] visits the nodes of the list, in order, and stops. *)
Lemma list_for_each_from_spec h head ys fuel p :
  head ∉ ys -> chain h (p :: ys ++ [head]) -> (length ys <= fuel)%nat ->
  (n ← rd (next h) p; list_for_each_from fuel n head h) = Some ys.
Proof.
  revert p fuel. induction ys as [|y ys IH]; intros p fuel Hni.
  - intros [[Hn _] _] _. unfold rd. rewrite Hn. simpl. destruct fuel; simpl; by rewrite Z.eqb_refl.
  - intros [[Hn _] Hc] Hf. simpl in Hf. destruct fuel as [|fuel]; [lia|].
    unfold rd at 1. rewrite Hn. simpl. destruct (Z.eqb_spec y head); [set_solver|].
    specialize (IH y fuel ltac:(set_solver) Hc ltac:(lia)).
    destruct (rd (next h) y) as [n'|]; [|done]. simpl in *. by rewrite IH.
Qed.

Lemma list_for_each_spec h head xs fuel :
  dll h head xs -> (length xs <= fuel)%nat -> list_for_each fuel head h = Some xs.
Proof.
  intros [Hnd Hc] Hf. apply list_for_each_from_spec; [|done|done].
  by apply NoDup_cons in Hnd as [? _].
Qed.

Lemma list_empty_spec h head xs :
  dll h head xs -> list_empty head h = Some (bool_decide (xs = [])).
Proof.
  intros Hd. pose proof (dll_last h head [] xs Hd) as E. simpl in E.
  unfold list_empty, rd. rewrite E. simpl. destruct xs as [|x xs]; simpl.
  - by rewrite Z.eqb_refl.
  - destruct Hd as [Hnd _]. destruct (Z.eqb_spec x head); [|done].
    apply NoDup_cons in Hnd as [? _]. set_solver.
Qed.

(** [list_replace] moves the whole list under a new head, also when the old
    list is empty. *)
Lemma list_replace_spec h old xs new :
  dll h old xs -> node h new -> new ∉ old :: xs ->
  exists h', list_replace old new h = Some h' /\ dll h' new xs /\
    frame (new :: old :: xs) h h'.
Proof.
  intros Hd [Nn Np] Hni. pose proof Hd as [Hnd Hc].
  pose proof (dll_last h old [] xs Hd) as On. simpl in On.
  pose proof (dll_hd h old xs []) as Op. rewrite app_nil_r in Op. specialize (Op Hd).
  simpl in Op. pose proof (dll_node _ _ _ (hd old xs) Hd ltac:(destruct xs; set_solver)) as [_ N1].
  pose proof (dll_node _ _ _ (List.last xs old) Hd (last_in old xs)) as [N2 _].
  unfold list_replace, rd. rewrite On. simpl. rewrite set_next_some by done. simpl.
  rewrite set_prev_some by done. simpl.
  destruct xs as [|x l]; cbn [hd] in *.
  - rewrite lookup_insert_eq. simpl. rewrite set_prev_some
      by (simpl; rewrite lookup_insert_ne by set_solver; done). simpl.
    rewrite set_next_some by (simpl; by rewrite lookup_insert_eq).
    eexists; split; [done|]. split.
    + split; [apply NoDup_singleton|]. simpl. unfold link; simpl. by rewrite !lookup_insert_eq.
    + split; simpl.
      * intros a Ha. rewrite !lookup_insert_ne by set_solver. done.
      * intros a [? ?]. unfold node; simpl. rewrite !lookup_insert_is_Some'. tauto.
  - rewrite last_cons in *. pose proof (last_in x l) as Hlast.
    apply NoDup_cons in Hnd as [Ho Hnd].
    rewrite lookup_insert_ne by set_solver. rewrite Op. simpl.
    rewrite set_prev_some by (simpl; rewrite lookup_insert_ne by set_solver; done). simpl.
    rewrite set_next_some by (simpl; rewrite lookup_insert_ne by set_solver; done).
    apply (proj1 (chain_join_iff h old [] (x :: l) old)) in Hc as (_ & _ & Hc).
    change ((x :: l) ++ [old]) with (x :: l ++ [] ++ [old]) in Hc.
    apply chain_join_iff in Hc as (Hc & _ & _).
    eexists; split; [done|]. split.
    + split; [constructor; [set_solver|done]|].
      change (new :: (x :: l) ++ [new]) with (new :: [] ++ (x :: l) ++ [new]).
      apply chain_join_iff. split_all; [done| |].
      * unfold link; simpl. rewrite lookup_insert_ne, lookup_insert_eq by set_solver.
        by rewrite lookup_insert_ne, lookup_insert_eq by set_solver.
      * change ((x :: l) ++ [new]) with (x :: l ++ [] ++ [new]).
        apply chain_join_iff. split_all; [| |done].
        -- apply (chain_ext_l h); [| |done|done]; simpl.
           ++ intros a Ha Hne. rewrite !lookup_insert_ne by set_solver. done.
           ++ apply NoDup_cons in Hnd as [? ?]. intros a Ha.
              rewrite !lookup_insert_ne by set_solver. done.
        -- unfold link; simpl. by rewrite !lookup_insert_eq.
    + split; simpl.
      * intros a Ha. rewrite !lookup_insert_ne by set_solver. done.
      * intros a [? ?]. unfold node; simpl. rewrite !lookup_insert_is_Some'. tauto.
Qed.

(** [list_replace_init] also reinitialises the old head. *)
Lemma list_replace_init_spec h old xs new :
  dll h old xs -> node h new -> new ∉ old :: xs ->
  exists h', list_replace_init old new h = Some h' /\ dll h' new xs /\ dll h' old [] /\
    frame (new :: old :: xs) h h'.
Proof.
  intros Hd Hn Hni. destruct (list_replace_spec h old xs new Hd Hn Hni) as (h1 & E & Hd1 & Hf).
  pose proof (dll_node _ _ _ old Hd ltac:(set_solver)) as No.
  destruct Hf as [Hf1 Hf2]. destruct (INIT_LIST_HEAD_spec h1 old (Hf2 _ No)) as (h2 & E2 & Hd2 & Hf').
  unfold list_replace_init. rewrite E. simpl. exists h2. split_all; [done| |done|].
  - eapply dll_frame; [exact Hf'|done|]. destruct Hd as [Hnd _].
    apply NoDup_cons in Hnd as [? _]. set_solver.
  - eapply (frame_trans _ _ h1); [by split|]. eapply frame_weaken; [|exact Hf']. set_solver.
Qed.

(** ** The contract: a store of lists

    What the rest of the program relies on: a set of named lists of nodes,
    and a set of loose nodes that are on none. *)

Record store := Store { lists : gmap Z (list addr); loose : gset Z }.

Inductive cmd :=
| CInit (p : addr)
| CAdd (n head : addr)
| CAddTail (n head : addr)
| CDel (n head : addr)
| CMoveTail (n head1 head2 : addr)
| CReplaceInit (old new : addr).

(** The abstract meaning of a command; [None] when its precondition fails. *)
Definition astep (c : cmd) (s : store) : option store :=
  match c with
  | CInit p =>
      if bool_decide (p ∈ loose s)
      then Some (Store (<[p := []]> (lists s)) (loose s ∖ {[p]})) else None
  | CAdd n head =>
      xs ← lists s !! head;
      if bool_decide (n ∈ loose s)
      then Some (Store (<[head := n :: xs]> (lists s)) (loose s ∖ {[n]})) else None
  | CAddTail n head =>
      xs ← lists s !! head;
      if bool_decide (n ∈ loose s)
      then Some (Store (<[head := xs ++ [n]]> (lists s)) (loose s ∖ {[n]})) else None
  | CDel n head =>
      xs ← lists s !! head;
      if bool_decide (n ∈ xs)
      then Some (Store (<[head := remove_addr n xs]> (lists s)) (loose s ∪ {[n]})) else None
  | CMoveTail n head1 head2 =>
      xs ← lists s !! head1; ys ← lists s !! head2;
      if bool_decide (n ∈ xs /\ head1 <> head2)
      then Some (Store (<[head2 := ys ++ [n]]> (<[head1 := remove_addr n xs]> (lists s)))
                       (loose s)) else None
  | CReplaceInit old new =>
      xs ← lists s !! old;
      if bool_decide (new ∈ loose s)
      then Some (Store (<[new := xs]> (<[old := []]> (lists s))) (loose s ∖ {[new]})) else None
  end.

(** The pointer code a command stands for. *)
Definition cstep (c : cmd) (h : mem) : option mem :=
  match c with
  | CInit p => INIT_LIST_HEAD p h
  | CAdd n head => list_add n head h
  | CAddTail n head => list_add_tail n head h
  | CDel n _ => list_del n h
  | CMoveTail n _ head2 => list_move_tail n head2 h
  | CReplaceInit old new => list_replace_init old new h
  end.

Fixpoint run {S} (step : cmd -> S -> option S) (cs : list cmd) (s : S) : option S :=
  match cs with [] => Some s | c :: cs => s ← step c s; run step cs s end.

Definition owned (s : store) (a : addr) (head : addr) : Prop :=
  exists xs, lists s !! head = Some xs /\ a ∈ head :: xs.

Record represents (h : mem) (s : store) : Prop := {
  rep_lists : forall head xs, lists s !! head = Some xs -> dll h head xs;
  rep_loose : forall a, a ∈ loose s -> node h a;
  rep_sep : forall a head1 head2, owned s a head1 -> owned s a head2 -> head1 = head2;
  rep_free : forall a head, a ∈ loose s -> ~ owned s a head
}.

Lemma owned_intro s a head xs :
  lists s !! head = Some xs -> a ∈ head :: xs -> owned s a head.
Proof. intros. by exists xs. Qed.

Lemma loose_not_in h s a head xs :
  represents h s -> a ∈ loose s -> lists s !! head = Some xs -> a ∉ head :: xs.
Proof. intros Hr Ha E Hin. eapply (rep_free _ _ Hr a head Ha). by exists xs. Qed.

Lemma loose_no_list h s a : represents h s -> a ∈ loose s -> lists s !! a = None.
Proof.
  intros Hr Ha. destruct (lists s !! a) as [xs|] eqn:E; [|done]. exfalso.
  eapply loose_not_in; [done..|]. set_solver.
Qed.

Lemma lists_disjoint h s head1 head2 xs1 xs2 a :
  represents h s -> head1 <> head2 ->
  lists s !! head1 = Some xs1 -> lists s !! head2 = Some xs2 ->
  a ∈ head1 :: xs1 -> a ∉ head2 :: xs2.
Proof.
  intros Hr Hne E1 E2 H1 H2. apply Hne. eapply (rep_sep _ _ Hr a); by eexists.
Qed.

(** A change confined to the lists named in [T] and to loose nodes: the
    lists outside [T] are carried over by the frame. *)
Lemma represents_change h h' s L F (T S : list addr) :
  let U a := a ∈ loose s \/ exists head, head ∈ T /\ owned s a head in
  represents h s -> frame S h h' -> (forall a, a ∈ S -> U a) ->
  (forall head, head ∉ T -> L !! head = lists s !! head) ->
  (forall head xs, head ∈ T -> L !! head = Some xs ->
     dll h' head xs /\ forall a, a ∈ head :: xs -> U a) ->
  (forall a head1 head2, head1 ∈ T -> head2 ∈ T ->
     owned (Store L F) a head1 -> owned (Store L F) a head2 -> head1 = head2) ->
  (forall a, a ∈ F -> U a /\ forall head, head ∈ T -> ~ owned (Store L F) a head) ->
  represents h' (Store L F).
Proof.
  intros U Hr Hf HS Hout Hin Hsep HF.
  assert (forall a head, U a -> head ∉ T -> ~ owned (Store L F) a head) as HU.
  { intros a head Ha Hh (xs & E & Hx). simpl in E. rewrite Hout in E by done.
    destruct Ha as [Ha|(hd' & Ht & Ho)].
    - by eapply (loose_not_in _ _ a head xs Hr).
    - apply Hh. replace head with hd'; [done|]. eapply (rep_sep _ _ Hr a); [done|by exists xs]. }
  split; simpl.
  - intros head xs E. destruct (decide (head ∈ T)) as [Ht|Ht]; [by apply Hin|].
    rewrite Hout in E by done. eapply dll_frame; [exact Hf|by apply (rep_lists _ _ Hr)|].
    intros a Ha Hs. apply (HU a head); [by apply HS|done|]. exists xs. simpl.
    by rewrite Hout.
  - intros a Ha. apply Hf. destruct (HF a Ha) as [[?|(hd' & _ & xs & E & Hx)] _].
    + by apply (rep_loose _ _ Hr).
    + eapply dll_node; [by apply (rep_lists _ _ Hr)|done].
  - intros a h1 h2 O1 O2.
    destruct (decide (h1 ∈ T)) as [T1|T1], (decide (h2 ∈ T)) as [T2|T2].
    + by eapply Hsep.
    + exfalso. destruct O1 as (xs & E & Hx). apply (HU a h2); [by eapply Hin|done|done].
    + exfalso. destruct O2 as (xs & E & Hx). apply (HU a h1); [by eapply Hin|done|done].
    + destruct O1 as (xs & E & Hx), O2 as (ys & E' & Hy). simpl in *.
      rewrite Hout in E, E' by done. eapply (rep_sep _ _ Hr a); by eexists.
  - intros a head Ha Ho. destruct (HF a Ha) as [Hu Hn].
    destruct (decide (head ∈ T)); [by eapply Hn|by eapply HU].
Qed.

(** The special case of one list and the loose nodes. *)
Lemma represents_change1 h h' s head xs xs' F (S : list addr) :
  represents h s -> lists s !! head = Some xs -> frame S h h' ->
  (forall a, a ∈ S ++ xs' -> a ∈ loose s \/ a ∈ head :: xs) ->
  dll h' head xs' ->
  (forall a, a ∈ F -> (a ∈ loose s \/ a ∈ head :: xs) /\ a ∉ head :: xs') ->
  represents h' (Store (<[head := xs']> (lists s)) F).
Proof.
  intros Hr E Hf HS Hd HF.
  assert (forall a, a ∈ loose s \/ a ∈ head :: xs ->
    a ∈ loose s \/ exists hd', hd' ∈ [head] /\ owned s a hd') as HU.
  { intros a [?|?]; [by left|right]. exists head. split; [set_solver|by exists xs]. }
  apply (represents_change h h' s _ _ [head] S); try done.
  - intros a Ha. apply HU, HS. set_solver.
  - intros hd' Hn. rewrite lookup_insert_ne by set_solver. done.
  - intros hd' ys ->%list_elem_of_singleton. rewrite lookup_insert_eq. intros [= <-].
    split; [done|]. intros a [->|Ha]%elem_of_cons; apply HU; [set_solver|apply HS; set_solver].
  - intros a h1 h2 ->%list_elem_of_singleton ->%list_elem_of_singleton. done.
  - intros a Ha. destruct (HF a Ha) as [Hu Hn]. split; [by apply HU|].
    intros hd' ->%list_elem_of_singleton (ys & E' & Hy). simpl in E'.
    rewrite lookup_insert_eq in E'. by simplify_eq.
Qed.

Lemma in_split_remove h head xs n :
  dll h head xs -> n ∈ xs ->
  exists l1 l2, xs = l1 ++ n :: l2 /\ remove_addr n xs = l1 ++ l2.
Proof.
  intros [Hnd _] (l1 & l2 & ->)%list_elem_of_split. exists l1, l2. split; [done|].
  apply remove_addr_mid. by apply NoDup_cons in Hnd as [_ ?].
Qed.

Ltac astep_inv :=
  repeat match goal with
  | H : (_ ≫= _) = Some _ |- _ => apply bind_Some in H as (? & ? & H)
  | H : (if bool_decide _ then _ else _) = Some _ |- _ =>
      case_bool_decide; [|discriminate H]
  | H : Some _ = Some _ |- _ => injection H as <-
  end.

Lemma step_move_tail h s s' n head1 head2 :
  represents h s -> astep (CMoveTail n head1 head2) s = Some s' ->
  exists h', cstep (CMoveTail n head1 head2) h = Some h' /\ represents h' s'.
Proof.
  intros Hr Ha. simpl in Ha. astep_inv. destruct H1 as [Hin Hne].
  pose proof (rep_lists _ _ Hr _ _ H) as Hd1. pose proof (rep_lists _ _ Hr _ _ H0) as Hd2.
  assert (forall b, b ∈ head1 :: x -> b ∉ head2 :: x0) as Hdis
    by (intros b; by apply (lists_disjoint h s head1 head2)).
  destruct (in_split_remove _ _ _ _ Hd1 Hin) as (l1 & l2 & -> & Er).
  destruct (list_move_tail_spec h head1 l1 n l2 head2 x0 Hd1 Hd2 Hdis)
    as (h' & E & D1 & D2 & Hf).
  exists h'. split; [exact E|]. rewrite Er.
  pose proof (dll_notin _ _ _ _ _ Hd1) as Hnn.
  assert (forall a, a ∈ n :: head1 :: head2 :: l1 ++ l2 ++ x0 ->
    a ∈ loose s \/ exists hd', hd' ∈ [head1; head2] /\ owned s a hd') as HU.
  { intros a Ha. right. destruct (decide (a ∈ head2 :: x0)) as [Hi|Hi].
    - exists head2. split; [set_solver|by eexists].
    - exists head1. split; [set_solver|]. eexists; split; [exact H|set_solver]. }
  eapply (represents_change h h' s _ _ [head1; head2]); [done|exact Hf|done| | | |].
  - intros hd' Hn. rewrite !lookup_insert_ne by set_solver. done.
  - intros hd' ys [->| ->%list_elem_of_singleton]%elem_of_cons.
    + rewrite lookup_insert_ne, lookup_insert_eq by done. intros [= <-].
      split; [done|]. intros a Ha. apply HU. set_solver.
    + rewrite lookup_insert_eq. intros [= <-]. split; [done|].
      intros a Ha. apply HU. set_solver.
  - assert (forall a, owned (Store (<[head2:=x0 ++ [n]]> (<[head1:=l1 ++ l2]> (lists s))) (loose s)) a head1 ->
      owned (Store (<[head2:=x0 ++ [n]]> (<[head1:=l1 ++ l2]> (lists s))) (loose s)) a head2 -> False) as Hx.
    { intros a (xs & E1 & I1) (ys & E2 & I2). simpl in *.
      rewrite lookup_insert_ne, lookup_insert_eq in E1 by done.
      rewrite lookup_insert_eq in E2. simplify_eq. specialize (Hdis a). set_solver. }
    intros a h1 h2 [->| ->%list_elem_of_singleton]%elem_of_cons
      [->| ->%list_elem_of_singleton]%elem_of_cons ? ?; [done| | |done]; exfalso; by eapply Hx.
  - intros a Ha. split; [by left|]. intros hd' _ (ys & E1 & I1). simpl in E1.
    destruct (decide (hd' = head2)) as [->|]; [rewrite lookup_insert_eq in E1|
      rewrite lookup_insert_ne in E1 by done; destruct (decide (hd' = head1)) as [->|];
      [rewrite lookup_insert_eq in E1|rewrite lookup_insert_ne in E1 by done]]; simplify_eq.
    + pose proof (loose_not_in _ _ _ _ _ Hr Ha H0). pose proof (loose_not_in _ _ _ _ _ Hr Ha H). set_solver.
    + pose proof (loose_not_in _ _ _ _ _ Hr Ha H). set_solver.
    + by eapply (loose_not_in _ _ _ _ _ Hr Ha E1).
Qed.

(** A loose node [p] becomes the head of a new list made of the nodes
    [xs] that the list [old] gives up. *)
Lemma represents_new h h' s old xs ys p :
  represents h s -> p ∈ loose s -> frame (p :: old :: xs) h h' ->
  lists s !! old = Some xs ->
  dll h' p ys -> (ys = xs /\ dll h' old []) ->
  represents h' (Store (<[p := ys]> (<[old := []]> (lists s))) (loose s ∖ {[p]})).
Proof.
  intros Hr Hp Hf E Dp [-> Do]. pose proof (loose_not_in _ _ _ _ _ Hr Hp E) as Hnp.
  assert (p <> old) as Hpo by set_solver.
  assert (forall a, a ∈ p :: old :: xs ->
    a ∈ loose s \/ exists hd', hd' ∈ [p; old] /\ owned s a hd') as HU.
  { intros a [->|Ha]%elem_of_cons; [by left|]. right. exists old.
    split; [set_solver|by eexists]. }
  eapply (represents_change h h' s _ _ [p; old]); [done|exact Hf|done| | | |].
  - intros hd' Hn. rewrite !lookup_insert_ne by set_solver. done.
  - intros hd' zs [->| ->%list_elem_of_singleton]%elem_of_cons.
    + rewrite lookup_insert_eq. intros [= <-]. split; [done|]. intros a Ha. apply HU. set_solver.
    + rewrite lookup_insert_ne, lookup_insert_eq by done. intros [= <-].
      split; [done|]. intros a Ha. apply HU. set_solver.
  - assert (forall a F, owned (Store (<[p:=xs]> (<[old:=[]]> (lists s))) F) a p ->
      owned (Store (<[p:=xs]> (<[old:=[]]> (lists s))) F) a old -> False) as Hx.
    { intros a F (l1 & E1 & I1) (l2 & E2 & I2). simpl in *. rewrite lookup_insert_eq in E1.
      rewrite lookup_insert_ne, lookup_insert_eq in E2 by done. simplify_eq.
      pose proof (rep_lists _ _ Hr _ _ E) as [Hnd _]. apply NoDup_cons in Hnd as [? _].
      set_solver. }
    intros a h1 h2 [->| ->%list_elem_of_singleton]%elem_of_cons
      [->| ->%list_elem_of_singleton]%elem_of_cons ? ?; [done| | |done]; exfalso; by eapply Hx.
  - intros a Ha. assert (a ∈ loose s) as Ha' by set_solver. split; [by left|].
    pose proof (loose_not_in _ _ _ _ _ Hr Ha' E).
    intros hd' [->| ->%list_elem_of_singleton]%elem_of_cons (l1 & E1 & I1); simpl in E1.
    + rewrite lookup_insert_eq in E1. simplify_eq. set_solver.
    + rewrite lookup_insert_ne, lookup_insert_eq in E1 by done. simplify_eq. set_solver.
Qed.

Lemma represents_init h h' s p :
  represents h s -> p ∈ loose s -> frame [p] h h' -> dll h' p [] ->
  represents h' (Store (<[p := []]> (lists s)) (loose s ∖ {[p]})).
Proof.
  intros Hr Hp Hf Hd.
  eapply (represents_change h h' s _ _ [p]); [done|exact Hf| | | | |].
  - intros a ->%list_elem_of_singleton. by left.
  - intros hd' Hn. rewrite lookup_insert_ne by set_solver. done.
  - intros hd' zs ->%list_elem_of_singleton. rewrite lookup_insert_eq. intros [= <-].
    split; [done|]. intros a ->%list_elem_of_singleton. by left.
  - intros a h1 h2 ->%list_elem_of_singleton ->%list_elem_of_singleton. done.
  - intros a Ha. split; [left; set_solver|].
    intros hd' ->%list_elem_of_singleton (l1 & E1 & I1); simpl in E1.
    rewrite lookup_insert_eq in E1. simplify_eq. set_solver.
Qed.

(** Every abstract step is matched by the pointer code of its command. *)
Lemma step_simulation h s c s' :
  represents h s -> astep c s = Some s' ->
  exists h', cstep c h = Some h' /\ represents h' s'.
Proof.
  intros Hr Ha. destruct c as [p|n head|n head|n head|n head1 head2|old new];
    [..|by eapply step_move_tail|]; simpl in Ha; astep_inv; simpl.
  - destruct (INIT_LIST_HEAD_spec h p (rep_loose _ _ Hr _ H)) as (h' & E & D & Hf).
    exists h'. split; [done|]. by eapply represents_init.
  - pose proof (loose_not_in _ _ _ _ _ Hr H0 H) as Hni.
    destruct (list_add_spec h head x n) as (h' & E & D & Hf);
      [by apply (rep_lists _ _ Hr)|by apply (rep_loose _ _ Hr)|done|].
    exists h'. split; [done|]. eapply represents_change1; [done..| |done|].
    + intros a Ha'. destruct (decide (a = n)) as [->|]; [by left|right; set_solver].
    + intros a Ha'. assert (a ∈ loose s) as Hl by set_solver.
      pose proof (loose_not_in _ _ _ _ _ Hr Hl H). set_solver.
  - pose proof (loose_not_in _ _ _ _ _ Hr H0 H) as Hni.
    destruct (list_add_tail_spec h head x n) as (h' & E & D & Hf);
      [by apply (rep_lists _ _ Hr)|by apply (rep_loose _ _ Hr)|done|].
    exists h'. split; [done|]. eapply represents_change1; [done..| |done|].
    + intros a Ha'. destruct (decide (a = n)) as [->|]; [by left|right; set_solver].
    + intros a Ha'. assert (a ∈ loose s) as Hl by set_solver.
      pose proof (loose_not_in _ _ _ _ _ Hr Hl H). set_solver.
  - pose proof (rep_lists _ _ Hr _ _ H) as Hd.
    destruct (in_split_remove _ _ _ _ Hd H0) as (l1 & l2 & -> & Er).
    destruct (list_del_spec _ _ _ _ _ Hd) as (h' & E & D & Hf & _).
    pose proof (dll_notin _ _ _ _ _ Hd) as Hnn.
    exists h'. split; [done|]. rewrite Er. eapply represents_change1; [done..| |done|].
    + intros a Ha'. right. set_solver.
    + intros a [Ha'|Ha']%elem_of_union.
      * pose proof (loose_not_in _ _ _ _ _ Hr Ha' H). set_solver.
      * apply elem_of_singleton in Ha' as ->. set_solver.
  - pose proof (loose_not_in _ _ _ _ _ Hr H0 H) as Hni.
    destruct (list_replace_init_spec h old x new) as (h' & E & Dn & Do & Hf);
      [by apply (rep_lists _ _ Hr)|by apply (rep_loose _ _ Hr)|done|].
    exists h'. split; [done|]. by eapply represents_new.
Qed.

(** C1. The pointer code of list.h implements a store of lists: starting from
    memory that represents the store [s], any program of list operations
    that the abstract store accepts runs without a bad access, and the
    memory it leaves represents the abstract result. *)
Theorem list_program_refines cs : forall h s s',
  represents h s -> run astep cs s = Some s' ->
  exists h', run cstep cs h = Some h' /\ represents h' s'.
Proof.
  induction cs as [|c cs IH]; intros h s s' Hr Hrun; simpl in *.
  - simplify_eq. by eexists.
  - apply bind_Some in Hrun as (s1 & E1 & Hrun).
    destruct (step_simulation _ _ _ _ Hr E1) as (h1 & -> & Hr1). by eapply IH.
Qed.

(** Four zeroed structures: all loose, none on a list. *)
Definition demo_mem : mem :=
  let m := list_to_map [(16, 0); (32, 0); (48, 0); (64, 0)] in Mem m m.
Definition demo_store : store := Store ∅ {[16; 32; 48; 64]}.
Definition demo_prog : list cmd :=
  [CInit 16; CAddTail 32 16; CAdd 48 16; CReplaceInit 16 64; CDel 48 64; CMoveTail 32 64 16].

Lemma demo_represents : represents demo_mem demo_store.
Proof.
  split.
  - intros head xs E. simpl in E. by rewrite lookup_empty in E.
  - intros a Ha. simpl in Ha.
    rewrite !elem_of_union, !elem_of_singleton in Ha.
    destruct Ha as [[[->| ->]| ->]| ->]; split; vm_compute; by eexists.
  - intros a h1 h2 (xs & E & _). simpl in E. by rewrite lookup_empty in E.
  - intros a head _ (xs & E & _). simpl in E. by rewrite lookup_empty in E.
Qed.

Lemma list_program_refines_witness :
  exists s' h', run astep demo_prog demo_store = Some s' /\
    run cstep demo_prog demo_mem = Some h' /\ represents h' s' /\
    list_for_each 5 16 h' = Some [32].
Proof.
  destruct (run astep demo_prog demo_store) as [s'|] eqn:E; [|vm_compute in E; discriminate].
  destruct (list_program_refines demo_prog demo_mem demo_store s' demo_represents E)
    as (h' & E' & Hr).
  exists s', h'. split; [reflexivity|]. split; [exact E'|]. split; [exact Hr|].
  assert (Some h' = run cstep demo_prog demo_mem) as Hh by (symmetry; exact E').
  vm_compute in Hh. injection Hh as ->. vm_compute. reflexivity.
Defined.

End ListHead.

Module HList.

(** ** [struct hlist_head] and [struct hlist_node]

    [first] and [next] are the first words of their structures and [pprev]
    holds the address of such a word, so both live in one map [cell] keyed
    by the address of the structure. *)

Record mem := Mem { cell : gmap Z Z; pprev : gmap Z Z }.

Definition set_cell (a v : addr) (h : mem) : option mem :=
  c ← ListHead.wr (cell h) a v; Some (Mem c (pprev h)).
Definition set_pprev (a v : addr) (h : mem) : option mem :=
  p ← ListHead.wr (pprev h) a v; Some (Mem (cell h) p).

Definition INIT_HLIST_HEAD (p : addr) (h : mem) : option mem := set_cell p NULL h.

Definition INIT_HLIST_NODE (p : addr) (h : mem) : option mem :=
  h ← set_cell p NULL h; set_pprev p NULL h.

Definition hlist_unhashed (n : addr) (h : mem) : option bool :=
  p ← pprev h !! n; Some (p =? NULL).

Definition hlist_empty (head : addr) (h : mem) : option bool :=
  f ← cell h !! head; Some (f =? NULL).

Definition __hlist_del (n : addr) (h : mem) : option mem :=
  nxt ← cell h !! n; pp ← pprev h !! n;
  h ← set_cell pp nxt h;
  if nxt =? NULL then Some h else set_pprev nxt pp h.

Definition hlist_del (n : addr) (h : mem) : option mem :=
  h ← __hlist_del n h;
  h ← set_cell n ListHead.LIST_POISON1 h;
  set_pprev n ListHead.LIST_POISON2 h.

Definition hlist_del_init (n : addr) (h : mem) : option mem :=
  p ← pprev h !! n;
  if p =? NULL then Some h else h ← __hlist_del n h; INIT_HLIST_NODE n h.

Definition hlist_add_head (n head : addr) (h : mem) : option mem :=
  first ← cell h !! head;
  h ← set_cell n first h;
  h ← (if first =? NULL then Some h else set_pprev first n h);
  h ← set_cell head n h;
  set_pprev n head h.

Definition hlist_add_before (n nxt : addr) (h : mem) : option mem :=
  p ← pprev h !! nxt;
  h ← set_pprev n p h;
  h ← set_cell n nxt h;
  h ← set_pprev nxt n h;
  set_cell p n h.

Definition hlist_add_after (n nxt : addr) (h : mem) : option mem :=
  c ← cell h !! n;
  h ← set_cell nxt c h;
  h ← set_cell n nxt h;
  h ← set_pprev nxt n h;
  if c =? NULL then Some h else set_pprev c nxt h.

(** [hlist_for_each (pos, head)]: the addresses [pos] takes. *)
Fixpoint hlist_for_each_from (fuel : nat) (pos : addr) (h : mem) : option (list addr) :=
  if pos =? NULL then Some []
  else match fuel with
       | O => None
       | S fuel => n ← cell h !! pos; l ← hlist_for_each_from fuel n h; Some (pos :: l)
       end.

Definition hlist_for_each (fuel : nat) (head : addr) (h : mem) : option (list addr) :=
  f ← cell h !! head; hlist_for_each_from fuel f h.

(** ** The abstraction *)

Fixpoint hchain (h : mem) (p : addr) (xs : list addr) : Prop :=
  match xs with
  | [] => cell h !! p = Some NULL
  | x :: xs => cell h !! p = Some x /\ pprev h !! x = Some p /\ hchain h x xs
  end.

Definition hll (h : mem) (head : addr) (xs : list addr) : Prop :=
  NoDup (head :: xs) /\ NULL ∉ xs /\ hchain h head xs.

Lemma hll_intro h head xs :
  NoDup (head :: xs) -> NULL ∉ xs -> hchain h head xs -> hll h head xs.
Proof. by repeat split. Qed.

Definition node (h : mem) (a : addr) : Prop :=
  is_Some (cell h !! a) /\ is_Some (pprev h !! a).

Definition frame (S : list addr) (h h' : mem) : Prop :=
  forall a, a ∉ S -> cell h' !! a = cell h !! a /\ pprev h' !! a = pprev h !! a.

Lemma set_cell_some h a v :
  is_Some (cell h !! a) -> set_cell a v h = Some (Mem (<[a := v]> (cell h)) (pprev h)).
Proof. intros H. unfold set_cell. by rewrite ListHead.wr_some. Qed.

Lemma set_pprev_some h a v :
  is_Some (pprev h !! a) -> set_pprev a v h = Some (Mem (cell h) (<[a := v]> (pprev h))).
Proof. intros H. unfold set_pprev. by rewrite ListHead.wr_some. Qed.

Lemma hchain_ext h h' p xs :
  (forall a, a ∈ p :: xs -> cell h' !! a = cell h !! a) ->
  (forall a, a ∈ xs -> pprev h' !! a = pprev h !! a) ->
  hchain h p xs -> hchain h' p xs.
Proof.
  revert p. induction xs as [|x xs IH]; intros p Hc Hp; simpl.
  - rewrite Hc by set_solver. done.
  - rewrite Hc, Hp by set_solver. intros (? & ? & ?). split_all; [done..|].
    apply IH; [| |done]; intros a Ha; [apply Hc|apply Hp]; set_solver.
Qed.

Lemma hll_frame S h h' head xs :
  frame S h h' -> hll h head xs -> (forall a, a ∈ head :: xs -> a ∉ S) -> hll h' head xs.
Proof.
  intros Hf (Hnd & H0 & Hc) Hd. apply hll_intro; [done..|].
  apply (hchain_ext h); [| |done]; intros a Ha; apply Hf, Hd; set_solver.
Qed.

Lemma hchain_first h p xs : hchain h p xs -> cell h !! p = Some (hd NULL xs).
Proof. destruct xs; simpl; tauto. Qed.

(** The links of a prefix, without the [next] of its last node. *)
Fixpoint hpre (h : mem) (p : addr) (xs : list addr) : Prop :=
  match xs with
  | [] => True
  | x :: xs => cell h !! p = Some x /\ pprev h !! x = Some p /\ hpre h x xs
  end.

Lemma hchain_app h p xs zs :
  hchain h p (xs ++ zs) <-> hpre h p xs /\ hchain h (List.last xs p) zs.
Proof.
  revert p. induction xs as [|x xs IH]; intros p; [simpl; tauto|].
  rewrite ListHead.last_cons. simpl. rewrite IH. tauto.
Qed.

Lemma hpre_ext h h' p xs :
  NoDup (p :: xs) ->
  (forall a, a ∈ p :: xs -> a <> List.last xs p -> cell h' !! a = cell h !! a) ->
  (forall a, a ∈ xs -> pprev h' !! a = pprev h !! a) ->
  hpre h p xs -> hpre h' p xs.
Proof.
  revert p. induction xs as [|x xs IH]; intros p Hnd Hc Hp; [done|].
  rewrite ListHead.last_cons in Hc. pose proof (ListHead.last_in x xs).
  apply NoDup_cons in Hnd as [? Hnd]. simpl. rewrite Hc, Hp by set_solver.
  intros (? & ? & ?). split_all; [done..|].
  apply IH; [done| | |done]; intros a Ha; [intros; apply Hc|apply Hp]; set_solver.
Qed.

(** [hlist_add_head] pushes at the front of the chain. *)
Lemma hlist_add_head_spec h head xs n :
  hll h head xs -> node h n -> n ∉ head :: xs -> n <> NULL ->
  exists h', hlist_add_head n head h = Some h' /\ hll h' head (n :: xs) /\
    frame (n :: head :: xs) h h'.
Proof.
  intros (Hnd & H0 & Hc) [Nc Np] Hni Hn0. pose proof (hchain_first _ _ _ Hc) as E.
  unfold hlist_add_head. rewrite E. simpl. rewrite set_cell_some by done. simpl.
  assert (NoDup (head :: n :: xs)) as Hnd'.
  { apply NoDup_cons in Hnd as [? ?]. constructor; [set_solver|constructor; [set_solver|done]]. }
  destruct xs as [|x xs]; simpl.
  - rewrite set_cell_some
      by (simpl; rewrite lookup_insert_ne by set_solver; by eexists). simpl.
    rewrite set_pprev_some by done. eexists; split; [done|]. split.
    + apply hll_intro; [done|set_solver|]. simpl. rewrite !lookup_insert_eq.
      rewrite lookup_insert_ne, lookup_insert_eq by set_solver. done.
    + intros a Ha. simpl. rewrite !lookup_insert_ne by set_solver. done.
  - destruct Hc as (_ & Px & Hc). destruct (Z.eqb_spec x NULL); [set_solver|].
    rewrite set_pprev_some by (by eexists). simpl.
    rewrite set_cell_some by (simpl; rewrite lookup_insert_ne by set_solver; by eexists). simpl.
    rewrite set_pprev_some by (simpl; rewrite lookup_insert_ne by set_solver; done).
    eexists; split; [done|]. split.
    + apply hll_intro; [done|set_solver|]. simpl. rewrite !lookup_insert_eq.
      rewrite lookup_insert_ne, lookup_insert_eq by set_solver.
      rewrite lookup_insert_ne, lookup_insert_eq by set_solver. split_all; [done..|].
      apply NoDup_cons in Hnd as [? Hnd]. apply NoDup_cons in Hnd as [? _].
      apply (hchain_ext h); [| |done]; intros a Ha; simpl;
        rewrite !lookup_insert_ne by set_solver; done.
    + intros a Ha. simpl. rewrite !lookup_insert_ne by set_solver. done.
Qed.

Lemma __hlist_del_spec h head xs n ys :
  hll h head (xs ++ n :: ys) ->
  exists h', __hlist_del n h = Some h' /\ hll h' head (xs ++ ys) /\
    frame (head :: xs ++ ys) h h' /\ n ∉ head :: xs ++ ys /\ node h' n.
Proof.
  intros (Hnd & H0 & Hc). apply hchain_app in Hc as [Hpre (Cp & Pn & Hc)].
  pose proof (hchain_first _ _ _ Hc) as Cn. pose proof (ListHead.last_in head xs) as Hlast.
  remember (List.last xs head) as p eqn:Elast.
  apply NoDup_cons in Hnd as [Hh Hnd]. apply NoDup_app in Hnd as (Hx & Hxy & Hnd).
  apply NoDup_cons in Hnd as [Hn Hy].
  assert (n ∉ head :: xs ++ ys) as Hni.
  { intros [->|[Hi|Hi]%elem_of_app]%elem_of_cons;
      [apply Hh; set_solver|apply (Hxy n Hi); set_solver|done]. }
  assert (p ∉ n :: ys) as Hpy.
  { intros Hi. apply elem_of_cons in Hlast as [->|Hl];
      [apply Hh; set_solver|by apply (Hxy p Hl)]. }
  assert (NoDup (head :: xs ++ ys)) as Hnd'.
  { constructor; [set_solver|]. apply NoDup_app. split_all; [done|set_solver|done]. }
  unfold __hlist_del. rewrite Cn, Pn. simpl. rewrite set_cell_some by (by eexists). simpl.
  assert (forall h', cell h' = <[p := hd NULL ys]> (cell h) ->
    (forall a, a ∈ xs -> pprev h' !! a = pprev h !! a) -> hpre h' head xs) as Hpre'.
  { intros h' Ec Ep. apply (hpre_ext h); [constructor; [set_solver|done]| |done|done].
    intros a Ha Hne. rewrite Ec, lookup_insert_ne by set_solver. done. }
  destruct ys as [|y ys]; simpl in *.
  - eexists; split; [done|]. split_all; [|intros a Ha|done|].
    + apply hll_intro; [done|set_solver|]. apply hchain_app. split; [by apply Hpre'|].
      simpl. rewrite <- Elast. by rewrite lookup_insert_eq.
    + simpl. rewrite lookup_insert_ne by set_solver. done.
    + split; simpl; [rewrite lookup_insert_ne by set_solver|]; by eexists.
  - destruct Hc as (_ & Py & Hc). destruct (Z.eqb_spec y NULL); [set_solver|].
    rewrite set_pprev_some by (by eexists). eexists; split; [done|].
    split_all; [|intros a Ha|done|].
    + apply hll_intro; [done|set_solver|]. apply hchain_app. split.
      * apply Hpre'; [done|]. intros a Ha. simpl. rewrite lookup_insert_ne by set_solver. done.
      * simpl. rewrite <- Elast. rewrite !lookup_insert_eq. split_all; [done..|].
        apply NoDup_cons in Hy as [? _].
        apply (hchain_ext h); [| |done]; intros a Ha; simpl;
          rewrite lookup_insert_ne by set_solver; done.
    + simpl. rewrite !lookup_insert_ne by set_solver. done.
    + split; simpl; rewrite lookup_insert_ne by set_solver; by eexists.
Qed.

Lemma set_both_frame h n v w :
  node h n ->
  exists h', (h ← set_cell n v h; set_pprev n w h) = Some h' /\ frame [n] h h'.
Proof.
  intros [Hc Hp]. rewrite set_cell_some by done. simpl. rewrite set_pprev_some by done.
  eexists; split; [done|]. intros a Ha. simpl. rewrite !lookup_insert_ne by set_solver. done.
Qed.

(** [hlist_del] and [hlist_del_init] remove the node from its chain. *)
Lemma hlist_del_spec h head xs n ys :
  hll h head (xs ++ n :: ys) ->
  exists h', hlist_del n h = Some h' /\ hll h' head (xs ++ ys) /\
    frame (n :: head :: xs ++ ys) h h'.
Proof.
  intros Hl. destruct (__hlist_del_spec _ _ _ _ _ Hl) as (h1 & E & Hl1 & Hf & Hni & Hnode).
  destruct (set_both_frame h1 n ListHead.LIST_POISON1 ListHead.LIST_POISON2 Hnode)
    as (h2 & E2 & Hf2).
  unfold hlist_del. rewrite E. simpl. exists h2. split_all; [done| |].
  - eapply hll_frame; [exact Hf2|done|]. set_solver.
  - intros a Ha. destruct (Hf a ltac:(set_solver)), (Hf2 a ltac:(set_solver)).
    split; congruence.
Qed.

Lemma hlist_del_init_spec h head xs n ys :
  hll h head (xs ++ n :: ys) -> head <> NULL ->
  exists h', hlist_del_init n h = Some h' /\ hll h' head (xs ++ ys) /\
    frame (n :: head :: xs ++ ys) h h'.
Proof.
  intros Hl Hh. destruct (__hlist_del_spec _ _ _ _ _ Hl) as (h1 & E & Hl1 & Hf & Hni & Hnode).
  destruct (set_both_frame h1 n NULL NULL Hnode) as (h2 & E2 & Hf2).
  assert (pprev h !! n = Some (List.last xs head) /\ List.last xs head <> NULL) as [Ep Hp].
  { destruct Hl as (_ & H0 & Hc). apply hchain_app in Hc as [_ (_ & ? & _)]. split; [done|].
    intros E0. pose proof (ListHead.last_in head xs) as Hi. rewrite E0 in Hi. set_solver. }
  unfold hlist_del_init. rewrite Ep. simpl. destruct (Z.eqb_spec (List.last xs head) NULL); [done|].
  rewrite E. simpl. exists h2. split_all; [done| |].
  - eapply hll_frame; [exact Hf2|done|]. set_solver.
  - intros a Ha. destruct (Hf a ltac:(set_solver)), (Hf2 a ltac:(set_solver)).
    split; congruence.
Qed.

Lemma hlist_for_each_spec h head xs fuel :
  hll h head xs -> (length xs <= fuel)%nat -> hlist_for_each fuel head h = Some xs.
Proof.
  intros (_ & H0 & Hc). revert head fuel Hc.
  induction xs as [|x xs IH]; intros head fuel Hc Hf; unfold hlist_for_each; simpl in *.
  - rewrite Hc. by destruct fuel.
  - destruct Hc as (-> & _ & Hc). destruct fuel as [|fuel]; [lia|]. simpl.
    destruct (Z.eqb_spec x NULL); [set_solver|].
    specialize (IH ltac:(set_solver) x fuel Hc ltac:(lia)). unfold hlist_for_each in IH.
    destruct (cell h !! x); [|done]. simpl in *. by rewrite IH.
Qed.

(** Hash chains behave as lists: on a well-formed chain, adding a fresh
    node at the head and later deleting any node of the chain through the
    node alone both succeed, and a traversal then visits exactly the
    remaining nodes in order, leaving every other chain as it was. *)
Theorem hlist_add_del_traverse h head xs ys n m head' zs :
  hll h head (xs ++ n :: ys) -> node h m -> m <> NULL -> m ∉ head :: xs ++ n :: ys ->
  hll h head' zs -> (forall a, a ∈ head' :: zs -> a ∉ m :: head :: xs ++ n :: ys) ->
  exists h1 h2,
    hlist_add_head m head h = Some h1 /\ hlist_del n h1 = Some h2 /\
    hlist_for_each (S (length (xs ++ ys))) head h2 = Some (m :: xs ++ ys) /\
    hlist_for_each (length zs) head' h2 = Some zs.
Proof.
  intros Hl Hm Hm0 Hmi Hz Hdis.
  destruct (hlist_add_head_spec h head (xs ++ n :: ys) m Hl Hm Hmi Hm0) as (h1 & E1 & Hl1 & Hf1).
  destruct (hlist_del_spec h1 head (m :: xs) n ys Hl1) as (h2 & E2 & Hl2 & Hf2).
  exists h1, h2. split_all; [done|done| |].
  - by apply hlist_for_each_spec.
  - apply hlist_for_each_spec; [|done].
    eapply hll_frame; [exact Hf2| |intros a Ha; specialize (Hdis a Ha); set_solver].
    eapply hll_frame; [exact Hf1|done|]. done.
Qed.

(** Two buckets at 8 and 16; nodes 32 and 48 on the first, 64 on the second,
    80 not hashed. *)
Definition demo_mem : mem :=
  Mem (list_to_map [(8, 32); (32, 48); (48, 0); (16, 64); (64, 0); (80, 0)])
      (list_to_map [(32, 8); (48, 32); (64, 16); (80, 0)]).

Lemma hlist_add_del_traverse_witness :
  exists h1 h2, hlist_add_head 80 8 demo_mem = Some h1 /\ hlist_del 48 h1 = Some h2 /\
    hlist_for_each 2 8 h2 = Some [80; 32] /\ hlist_for_each 1 16 h2 = Some [64].
Proof.
  apply (hlist_add_del_traverse demo_mem 8 [32] [] 48 80 16 [64]).
  - apply hll_intro; [by apply (bool_decide_unpack _); vm_compute|
                by apply (bool_decide_unpack _); vm_compute|vm_compute; split_all; reflexivity].
  - split; vm_compute; by eexists.
  - done.
  - by apply (bool_decide_unpack _); vm_compute.
  - apply hll_intro; [by apply (bool_decide_unpack _); vm_compute|
                by apply (bool_decide_unpack _); vm_compute|vm_compute; split_all; reflexivity].
  - intros a Ha. rewrite !elem_of_cons in Ha. destruct Ha as [->|[->|Ha]];
      [by apply (bool_decide_unpack _); vm_compute..|]. by apply not_elem_of_nil in Ha.
Defined.

End HList.
