(* ===== verification/Timer.v ===== *)
(** * Timer: the hierarchical timer wheel of [TCP_C/timer.c]

    ([TCP_SERVER/src/x-timer.c] is the same text.)

    The state is the C state: [timer_jiffies], the 256 + 4 * 64 list heads of
    [tvec_base_t], the timer structures, and the counter [jhl_timer_num].  A
    list head is a key [(lv, i)] of the map [vecs]: [(1, i)] is
    [tv1.vec + i], [(5, i)] is [tv5.vec + i], and [(0, 0)] is the local
    [work_list] of [__run_timers].  A list is the list of the addresses of its
    timers, as justified by [DList].  [W] is the width of [unsigned long]. *)

From S2P Require Import Prelude.
Local Open Scope Z_scope.

Module Timer.

(** ** Data *)

Record timer_list := TimerList {
  expires : Z;
  function : Z;
  data : Z;
  (** [entry.next != NULL] *)
  linked : bool
}.

Record tvec_base := TvecBase {
  timer_jiffies : Z;
  vecs : gmap (Z * Z) (list addr);
  timers : gmap Z timer_list;
  jhl_timer_num : Z
}.

Definition TVN_BITS : Z := 6.
Definition TVR_BITS : Z := 8.
Definition TVN_SIZE : Z := Z.shiftl 1 TVN_BITS.
Definition TVR_SIZE : Z := Z.shiftl 1 TVR_BITS.
Definition TVN_MASK : Z := TVN_SIZE - 1.
Definition TVR_MASK : Z := TVR_SIZE - 1.

Definition vec (b : tvec_base) (k : Z * Z) : list addr := default [] (vecs b !! k).

Definition set_vec (k : Z * Z) (l : list addr) (b : tvec_base) : tvec_base :=
  TvecBase (timer_jiffies b) (<[k := l]> (vecs b)) (timers b) (jhl_timer_num b).

Definition set_timer (t : addr) (tm : timer_list) (b : tvec_base) : tvec_base :=
  TvecBase (timer_jiffies b) (vecs b) (<[t := tm]> (timers b)) (jhl_timer_num b).

Definition set_linked (v : bool) (tm : timer_list) : timer_list :=
  TimerList (expires tm) (function tm) (data tm) v.

Definition set_expires (e : Z) (tm : timer_list) : timer_list :=
  TimerList e (function tm) (data tm) (linked tm).

Section Wheel.

Context (W : Z).

(** ** Comparison of jiffies that may wrap *)

Definition time_after (a b : Z) : bool := wraps W (wraps W b - wraps W a) <? 0.
Definition time_before (a b : Z) : bool := time_after b a.
Definition time_after_eq (a b : Z) : bool := 0 <=? wraps W (wraps W a - wraps W b).
Definition time_before_eq (a b : Z) : bool := time_after_eq b a.

(** ** Operations *)

(** [INIT_LIST_HEAD (tv + j)] for [j] from 0 to [n - 1]. *)
Fixpoint init_vec (lv : Z) (n : nat) (m : gmap (Z * Z) (list addr)) :
    gmap (Z * Z) (list addr) :=
  match n with
  | O => m
  | S n => <[(lv, Z.of_nat n) := []]> (init_vec lv n m)
  end.

Definition init_timers_cpu (jiffies : Z) (b : tvec_base) : tvec_base :=
  let tvn := Z.to_nat TVN_SIZE in
  let m := init_vec 5 tvn (init_vec 4 tvn (init_vec 3 tvn (init_vec 2 tvn ∅))) in
  TvecBase jiffies (init_vec 1 (Z.to_nat TVR_SIZE) m) (timers b) (jhl_timer_num b).

Definition init_timer (t : addr) (b : tvec_base) : tvec_base :=
  match timers b !! t with
  | Some tm => set_timer t (set_linked false tm) b
  | None => b
  end.

Definition setup_timer (t : addr) (fn dat : Z) (b : tvec_base) : tvec_base :=
  match timers b !! t with
  | Some tm => init_timer t (set_timer t (TimerList (expires tm) fn dat (linked tm)) b)
  | None => b
  end.

Definition timer_pending (t : addr) (b : tvec_base) : bool :=
  match timers b !! t with Some tm => linked tm | None => false end.

(** [__list_del] takes the entry off the list it is on; the entry is then
    marked detached. *)
Definition detach_timer (t : addr) (b : tvec_base) : tvec_base :=
  TvecBase (timer_jiffies b)
           (remove_addr t <$> vecs b)
           (alter (set_linked false) t (timers b))
           (s32 (jhl_timer_num b - 1)).

Definition del_timer (t : addr) (b : tvec_base) : Z * tvec_base :=
  if timer_pending t b then (1, detach_timer t b) else (0, b).

(** The list head [internal_add_timer] chooses. *)
Definition internal_add_vec (timer_jiffies expires : Z) : Z * Z :=
  let idx := wrapu W (expires - timer_jiffies) in
  if idx <? TVR_SIZE then
    (1, Z.land expires TVR_MASK)
  else if idx <? Z.shiftl 1 (TVR_BITS + TVN_BITS) then
    (2, Z.land (Z.shiftr expires TVR_BITS) TVN_MASK)
  else if idx <? Z.shiftl 1 (TVR_BITS + 2 * TVN_BITS) then
    (3, Z.land (Z.shiftr expires (TVR_BITS + TVN_BITS)) TVN_MASK)
  else if idx <? Z.shiftl 1 (TVR_BITS + 3 * TVN_BITS) then
    (4, Z.land (Z.shiftr expires (TVR_BITS + 2 * TVN_BITS)) TVN_MASK)
  else if wraps W idx <? 0 then
    (1, Z.land timer_jiffies TVR_MASK)
  else
    let '(idx, expires) :=
      if 0xffffffff <? idx then (0xffffffff, wrapu W (0xffffffff + timer_jiffies))
      else (idx, expires) in
    (5, Z.land (Z.shiftr expires (TVR_BITS + 3 * TVN_BITS)) TVN_MASK).

Definition internal_add_timer (t : addr) (b : tvec_base) : tvec_base :=
  match timers b !! t with
  | None => b
  | Some tm =>
      let k := internal_add_vec (timer_jiffies b) (expires tm) in
      TvecBase (timer_jiffies b)
               (<[k := vec b k ++ [t]]> (vecs b))
               (<[t := set_linked true tm]> (timers b))
               (s32 (jhl_timer_num b + 1))
  end.

Definition cascade (lv index : Z) (b : tvec_base) : Z * tvec_base :=
  let tv_list := vec b (lv, index) in
  let b := set_vec (lv, index) [] b in
  (index, fold_left (fun b t => internal_add_timer t b) tv_list b).

Definition INDEX (b : tvec_base) (N : Z) : Z :=
  Z.land (Z.shiftr (timer_jiffies b) (TVR_BITS + N * TVN_BITS)) TVN_MASK.

Definition __mod_timer (t : addr) (e : Z) (b : tvec_base) : Z * tvec_base :=
  let '(ret, b) := if timer_pending t b then (1, detach_timer t b) else (0, b) in
  let b := match timers b !! t with
           | Some tm => set_timer t (set_expires e tm) b
           | None => b
           end in
  (ret, internal_add_timer t b).

Definition add_timer (t : addr) (b : tvec_base) : tvec_base :=
  match timers b !! t with
  | Some tm => (__mod_timer t (expires tm) b).2
  | None => b
  end.

Definition mod_timer (t : addr) (e : Z) (b : tvec_base) : Z * tvec_base :=
  match timers b !! t with
  | Some tm =>
      if (expires tm =? e) && timer_pending t b then (1, b) else __mod_timer t e b
  | None => (0, b)
  end.

(** ** Running the timers

    A timer function is known by its address; what it does to the wheel is
    the list of timer calls it makes, given by the parameter [callback]. *)

Inductive call := CallAdd (t : addr) | CallMod (t : addr) (e : Z) | CallDel (t : addr).

Definition call_target (c : call) : addr :=
  match c with CallAdd t => t | CallMod t _ => t | CallDel t => t end.

Definition do_call (b : tvec_base) (c : call) : tvec_base :=
  match c with
  | CallAdd t => add_timer t b
  | CallMod t e => (mod_timer t e b).2
  | CallDel t => (del_timer t b).2
  end.

Context (callback : Z -> Z -> list call).

(** One expiry: the timer, its [function] and its [data]. *)
Record fired := Fired { f_timer : addr; f_expires : Z; f_function : Z; f_data : Z }.

Definition WORK : Z * Z := (0, 0).

(** [while (!list_empty(head))]: [fuel] bounds the iterations. *)
Fixpoint run_work (fuel : nat) (b : tvec_base) : tvec_base * list fired :=
  match vec b WORK with
  | [] => (b, [])
  | timer :: _ =>
      match fuel, timers b !! timer with
      | S fuel, Some tm =>
          let b := detach_timer timer b in
          let b := fold_left do_call (callback (function tm) (data tm)) b in
          let '(b, fs) := run_work fuel b in
          (b, Fired timer (expires tm) (function tm) (data tm) :: fs)
      | _, _ => (b, [])
      end
  end.

(** The cascade test of [__run_timers]: each [&&] runs the next [cascade]
    only when the one before it returned 0. *)
Definition run_cascades (index : Z) (b : tvec_base) : tvec_base :=
  if index =? 0 then
    let '(r, b) := cascade 2 (INDEX b 0) b in
    if r =? 0 then
      let '(r, b) := cascade 3 (INDEX b 1) b in
      if r =? 0 then
        let '(r, b) := cascade 4 (INDEX b 2) b in
        if r =? 0 then (cascade 5 (INDEX b 3) b).2 else b
      else b
    else b
  else b.

(** One iteration of the outer loop of [__run_timers]. *)
Definition run_tick (b : tvec_base) : tvec_base * list fired :=
  let index := Z.land (timer_jiffies b) TVR_MASK in
  let b := run_cascades index b in
  let b := TvecBase (wrapu W (timer_jiffies b + 1)) (vecs b) (timers b) (jhl_timer_num b) in
  let work_list := vec b (1, index) in
  let b := set_vec WORK work_list (set_vec (1, index) [] b) in
  run_work (length work_list) b.

(** [__run_timers]: the argument is the sequence of values the macro
    [jiffies] takes, one per test of the loop condition; the last component
    says whether the loop has ended. *)
Fixpoint __run_timers (jiffies : list Z) (b : tvec_base) : tvec_base * list fired * bool :=
  match jiffies with
  | [] => (b, [], false)
  | j :: js =>
      if time_after_eq j (timer_jiffies b) then
        let '(b, fs) := run_tick b in
        let '(b, gs, stop) := __run_timers js b in
        (b, fs ++ gs, stop)
      else (b, [], true)
  end.

Definition run_timers := __run_timers.

(** [n] iterations of the loop, with what each of them fired. *)
Fixpoint run_ticks (n : nat) (b : tvec_base) : tvec_base * list (list fired) :=
  match n with
  | O => (b, [])
  | S n =>
      let '(b, fs) := run_tick b in
      let '(b, gs) := run_ticks n b in (b, fs :: gs)
  end.

(** ** The clock *)

Record clock := Clock { ll_start_second : Z; ll_jiffies_second : Z }.

Definition HZ : Z := 1000.

Definition jiffies_init (tv_sec : Z) (c : clock) : clock :=
  Clock (wrapu W tv_sec) (ll_jiffies_second c).

Definition jiffies_get (tv_sec tv_usec : Z) (c : clock) : Z * clock :=
  let cc_s := wrapu W (tv_sec - ll_start_second c) in
  let c :=
    if 2 <? wrapu W (cc_s - ll_jiffies_second c) then
      let js := wrapu W (ll_jiffies_second c + 2) in
      Clock (wrapu W (tv_sec - js)) js
    else Clock (ll_start_second c) cc_s in
  let tt :=
    if negb (tv_usec =? 0) then wrapu W (tv_usec / 1000 + ll_jiffies_second c * HZ)
    else wrapu W (ll_jiffies_second c * HZ) in
  (tt, c).

End Wheel.

End Timer.
