(* ===== verification/TimerFacts.v ===== *)
(** * TimerFacts: the timer wheel fires every timer at its expiry

    The proofs use an unwrapped time [T], with
    [timer_jiffies = T mod 2 ^ W], so that the wrap-around of the jiffies
    counter needs no special case. *)

From S2P Require Import Prelude Timer.
Local Open Scope Z_scope.
Import Timer.

Section Facts.

Context (W : Z) (HW : 32 <= W) (callback : Z -> Z -> list call).

(** ** When a timer is due

    [rem T e] is the number of ticks left at time [T] for a timer with
    [expires = e]; a timer set in the past (the signed difference is
    negative) is due at once. *)

Definition rem (T e : Z) : Z :=
  let D := wrapu W (e - T) in if D <? 2 ^ (W - 1) then D else 0.

Definition due (T e : Z) : Z := T + rem T e.

Definition shift (lv : Z) : Z := 8 + 6 * (lv - 2).

Lemma pow_half : 2 ^ W = 2 * 2 ^ (W - 1) /\ 2 ^ 31 <= 2 ^ (W - 1).
Proof.
  split; [rewrite <- Z.pow_succ_r by lia; f_equal; lia|].
  apply Z.pow_le_mono_r; lia.
Qed.

Lemma rem_range T e : 0 <= rem T e < 2 ^ (W - 1).
Proof.
  unfold rem. pose proof (wrapu_range W (e - T) ltac:(lia)). pose proof pow_half.
  destruct (Z.ltb_spec (wrapu W (e - T)) (2 ^ (W - 1))); lia.
Qed.

Lemma due_ge T e : T <= due T e.
Proof. unfold due. pose proof (rem_range T e). lia. Qed.

(** A due time in the future does not move as time passes. *)
Lemma due_succ T e : T < due T e -> due (T + 1) e = due T e.
Proof.
  unfold due, rem. pose proof pow_half as [HM Hh].
  pose proof (wrapu_range W (e - T) ltac:(lia)) as HD.
  destruct (Z.ltb_spec (wrapu W (e - T)) (2 ^ (W - 1))); [|lia]. intros Hd.
  assert (wrapu W (e - (T + 1)) = wrapu W (e - T) - 1) as ->.
  { unfold wrapu in *. replace (e - (T + 1)) with (e - T - 1) by lia.
    rewrite <- Zminus_mod_idemp_l. apply Z.mod_small. lia. }
  destruct (Z.ltb_spec (wrapu W (e - T) - 1) (2 ^ (W - 1))); lia.
Qed.

(** ** Bit fields of congruent numbers *)

Lemma wrapu_sub_r x y : wrapu W (x - wrapu W y) = wrapu W (x - y).
Proof. unfold wrapu. by rewrite Zminus_mod_idemp_r. Qed.

Lemma pow_split s : 0 <= s -> s <= W -> 2 ^ W = 2 ^ s * 2 ^ (W - s).
Proof. intros. rewrite <- Z.pow_add_r by lia. f_equal. lia. Qed.

Lemma mod_pow_cong a b s :
  0 <= s <= W -> a mod 2 ^ W = b mod 2 ^ W -> a mod 2 ^ s = b mod 2 ^ s.
Proof.
  intros Hs E. rewrite (pow_split s) in E by lia.
  apply (f_equal (fun x => x mod 2 ^ s)) in E.
  rewrite !mod_mod_divide in E by lia. exact E.
Qed.

Lemma field_cong a b s :
  0 <= s -> s + 6 <= W -> a mod 2 ^ W = b mod 2 ^ W ->
  (a / 2 ^ s) mod 64 = (b / 2 ^ s) mod 64.
Proof.
  intros Hs HsW E. apply (mod_pow_cong _ _ (s + 6)) in E; [|lia].
  rewrite Z.pow_add_r in E by lia. change (2 ^ 6) with 64 in E.
  rewrite !Z.rem_mul_r in E by lia.
  assert (a mod 2 ^ s = b mod 2 ^ s) as E'.
  { apply (f_equal (fun x => x mod 2 ^ s)) in E.
    rewrite !(Z.mul_comm (2 ^ s)), !Z.mod_add, !Z.mod_mod in E by lia. done. }
  rewrite E' in E. assert (0 < 2 ^ s) by lia. nia.
Qed.

Lemma due_cong T e :
  wrapu W (e - T) < 2 ^ (W - 1) -> (T + wrapu W (e - T)) mod 2 ^ W = e mod 2 ^ W.
Proof.
  intros _. unfold wrapu. rewrite Zplus_mod_idemp_r. f_equal. lia.
Qed.

(** ** Where a timer may be *)

Definition fits (lo : Z -> Z) (T e : Z) (k : Z * Z) : Prop :=
  match k with
  | (0, i) => i = 0 /\ due (T - 1) e = T - 1
  | (1, i) => due T e < T + 256 /\ i = due T e mod 256
  | (lv, i) => 2 <= lv <= 5 /\
      exists X, lo lv < X /\ X <= (T - 1) / 2 ^ shift lv + 64 /\
                i = X mod 64 /\ X * 2 ^ shift lv <= due T e
  end.

Lemma fits_level lo T e lv i :
  2 <= lv <= 5 ->
  fits lo T e (lv, i) <->
  exists X, lo lv < X /\ X <= (T - 1) / 2 ^ shift lv + 64 /\
            i = X mod 64 /\ X * 2 ^ shift lv <= due T e.
Proof.
  intros Hlv. assert (lv = 2 \/ lv = 3 \/ lv = 4 \/ lv = 5) as [->|[->|[->| ->]]] by lia;
    simpl; (split; [by intros [_ ?]|intros HX; split; [lia|exact HX]]).
Qed.

(** A delay of at least one block and less than 64 blocks ahead. *)
Lemma level_bounds T D s :
  0 <= s -> 2 ^ s <= D < 64 * 2 ^ s ->
  T / 2 ^ s < (T + D) / 2 ^ s /\ (T + D) / 2 ^ s <= (T - 1) / 2 ^ s + 64 /\
  (T + D) / 2 ^ s * 2 ^ s <= T + D.
Proof.
  intros Hs HD. assert (0 < 2 ^ s) as Hp by lia. split_all.
  - assert (T / 2 ^ s + 1 <= (T + D) / 2 ^ s); [|lia].
    rewrite <- Z.div_add by lia. apply Z.div_le_mono; lia.
  - rewrite <- Z.div_add by lia. apply Z.div_le_mono; lia.
  - pose proof (Z.mul_div_le (T + D) (2 ^ s)). lia.
Qed.

Lemma internal_add_vec_fits lo T e :
  (forall lv, 2 <= lv <= 5 -> lo lv <= T / 2 ^ shift lv) ->
  fits lo T e (internal_add_vec W (wrapu W T) e).
Proof.
  intros Hlo. pose proof pow_half as [HM Hh]. unfold internal_add_vec.
  rewrite wrapu_sub_r. set (D := wrapu W (e - T)).
  pose proof (wrapu_range W (e - T) ltac:(lia)) as HD. fold D in HD.
  pose proof (due_cong T e) as Hcong. fold D in Hcong.
  assert (D < 2 ^ (W - 1) -> due T e = T + D) as Hdue.
  { intros Hlt. unfold due, rem. fold D. destruct (Z.ltb_spec D (2 ^ (W - 1))); [done|lia]. }
  assert (forall lv D', 2 <= lv <= 5 -> D < 2 ^ (W - 1) -> D' <= D ->
    2 ^ shift lv <= D' < 64 * 2 ^ shift lv -> forall x, x mod 2 ^ W = (T + D') mod 2 ^ W ->
    fits lo T e (lv, Z.land (Z.shiftr x (shift lv)) TVN_MASK)) as Hlevel.
  { intros lv D' Hlv Hlt HD' HDs x Hx. rewrite fits_level by lia.
    change TVN_MASK with 63. rewrite land_63, Z.shiftr_div_pow2 by (unfold shift; lia).
    destruct (level_bounds T D' (shift lv)) as (B1 & B2 & B3); [unfold shift; lia|done|].
    exists ((T + D') / 2 ^ shift lv). specialize (Hlo lv Hlv).
    rewrite (field_cong x (T + D')) by (unfold shift; lia || done).
    rewrite (Hdue Hlt). split_all; [lia|lia|done|lia]. }
  change TVR_SIZE with 256. change (Z.shiftl 1 (TVR_BITS + TVN_BITS)) with (2 ^ 14).
  change (Z.shiftl 1 (TVR_BITS + 2 * TVN_BITS)) with (2 ^ 20).
  change (Z.shiftl 1 (TVR_BITS + 3 * TVN_BITS)) with (2 ^ 26).
  destruct (Z.ltb_spec D 256) as [H1|H1].
  { simpl. change TVR_MASK with 255. rewrite land_255, Hdue by lia. split; [lia|].
    specialize (Hcong ltac:(lia)). symmetry. change 256 with (2 ^ 8).
    apply mod_pow_cong; [lia|done]. }
  destruct (Z.ltb_spec D (2 ^ 14)) as [H2|H2].
  { apply (Hlevel 2 D); [lia|lia|lia|change (2 ^ shift 2) with 256; lia|].
    symmetry. apply Hcong. lia. }
  destruct (Z.ltb_spec D (2 ^ 20)) as [H3|H3].
  { apply (Hlevel 3 D); [lia|lia|lia|change (2 ^ shift 3) with (2 ^ 14); lia|].
    symmetry. apply Hcong. lia. }
  destruct (Z.ltb_spec D (2 ^ 26)) as [H4|H4].
  { apply (Hlevel 4 D); [lia|lia|lia|change (2 ^ shift 4) with (2 ^ 20); lia|].
    symmetry. apply Hcong. lia. }
  destruct (Z.ltb_spec (wraps W D) 0) as [H5|H5].
  - assert (2 ^ (W - 1) <= D) as Hpast.
    { destruct (Z.le_gt_cases (2 ^ (W - 1)) D); [done|].
      rewrite wraps_small in H5; lia. }
    assert (due T e = T) as Ed.
    { unfold due, rem. fold D. destruct (Z.ltb_spec D (2 ^ (W - 1))); lia. }
    simpl. rewrite Ed. split; [lia|]. change TVR_MASK with 255. rewrite land_255.
    change 256 with (2 ^ 8). apply mod_pow_cong; [lia|]. unfold wrapu. by rewrite Zmod_mod.
  - assert (D < 2 ^ (W - 1)) as Hlt.
    { destruct (Z.le_gt_cases (2 ^ (W - 1)) D); [|lia]. exfalso.
      unfold wraps in H5. replace (D + 2 ^ (W - 1)) with (D - 2 ^ (W - 1) + 1 * 2 ^ W) in H5 by lia.
      rewrite Z.mod_add, Z.mod_small in H5; lia. }
    destruct (Z.ltb_spec 0xffffffff D) as [H6|H6].
    + apply (Hlevel 5 0xffffffff); [lia|lia|lia|change (2 ^ shift 5) with (2 ^ 26); lia|].
      unfold wrapu. rewrite Zmod_mod. rewrite Zplus_mod_idemp_r. f_equal. lia.
    + apply (Hlevel 5 D); [lia|lia|lia|change (2 ^ shift 5) with (2 ^ 26); lia|].
      symmetry. apply Hcong. lia.
Qed.

(** ** The invariant

    [ex] lists timers that the code is holding between two lists. *)

Record inv (lo : Z -> Z) (T : Z) (b : tvec_base) (ex : list addr) : Prop := {
  inv_now : timer_jiffies b = wrapu W T;
  inv_in : forall k t, t ∈ vec b k ->
    exists tm, timers b !! t = Some tm /\ linked tm = true /\ fits lo T (expires tm) k;
  inv_once : forall k k' t, t ∈ vec b k -> t ∈ vec b k' -> k = k';
  inv_nodup : forall k, NoDup (vec b k);
  inv_linked : forall t tm, timers b !! t = Some tm -> linked tm = true ->
    t ∈ ex \/ exists k, t ∈ vec b k;
  inv_ex : forall t, t ∈ ex -> is_Some (timers b !! t) /\ forall k, t ∉ vec b k;
  inv_ex_nodup : NoDup ex
}.

Lemma inv_lo lo lo' T b ex :
  (forall lv, 2 <= lv <= 5 -> lo' lv <= lo lv) -> inv lo T b ex -> inv lo' T b ex.
Proof.
  intros Hlo [? Hin ? ? ? ? ?]. split; try done. intros k t Ht.
  destruct (Hin k t Ht) as (tm & E & L & F). exists tm. split_all; [done..|].
  destruct k as [lv i]. destruct (decide (2 <= lv <= 5)) as [Hl|Hl].
  - rewrite fits_level in * by done. destruct F as (X & ? & ?). exists X.
    specialize (Hlo lv Hl). split; [lia|done].
  - destruct lv as [|[p|p|]|]; simpl in *; try done; lia.
Qed.

(** *** Lists after an update *)

Lemma vec_insert b k l k' n tms :
  vec (TvecBase n (<[k := l]> (vecs b)) tms (jhl_timer_num b)) k' =
  if decide (k = k') then l else vec b k'.
Proof. unfold vec. simpl. rewrite lookup_insert. by case_decide. Qed.

Lemma vec_eq b b' k : vecs b' !! k = vecs b !! k -> vec b' k = vec b k.
Proof. unfold vec. by intros ->. Qed.

Lemma vec_detach t b k : vec (detach_timer t b) k = remove_addr t (vec b k).
Proof. unfold vec, detach_timer. simpl. rewrite lookup_fmap. by destruct (vecs b !! k). Qed.

Lemma vec_add t b k tm :
  timers b !! t = Some tm ->
  vec (internal_add_timer W t b) k =
  if decide (internal_add_vec W (timer_jiffies b) (expires tm) = k)
  then vec b k ++ [t] else vec b k.
Proof.
  intros E. unfold internal_add_timer. rewrite E. unfold vec at 1. simpl.
  rewrite lookup_insert. case_decide as Hk; [by subst|done].
Qed.

(** *** Each operation *)

Lemma detach_inv lo T b ex t :
  inv lo T b ex -> t ∉ ex -> inv lo T (detach_timer t b) ex.
Proof.
  intros [Hn Hin Ho Hnd Hl Hx Hxn] Ht. split; simpl.
  - done.
  - intros k u. rewrite vec_detach, elem_of_remove_addr. intros [Hne Hu].
    rewrite lookup_alter_ne by done. by apply Hin.
  - intros k k' u. rewrite !vec_detach, !elem_of_remove_addr. intros [_ ?] [_ ?]. by eapply Ho.
  - intros k. rewrite vec_detach. auto with ww.
  - intros u tm. destruct (decide (u = t)) as [->|Hne].
    + rewrite lookup_alter_eq. destruct (timers b !! t); [|done]. simpl. by intros [= <-].
    + rewrite lookup_alter_ne by done. intros E L. destruct (Hl u tm E L) as [?|[k Hk]]; [by left|].
      right. exists k. by rewrite vec_detach, elem_of_remove_addr.
  - intros u Hu. destruct (Hx u Hu) as [Hs Hnk]. split.
    + rewrite lookup_alter_ne by set_solver. done.
    + intros k. rewrite vec_detach, elem_of_remove_addr. naive_solver.
  - done.
Qed.

Lemma add_inv lo T b ex t :
  (forall lv, 2 <= lv <= 5 -> lo lv <= T / 2 ^ shift lv) ->
  inv lo T b (t :: ex) -> inv lo T (internal_add_timer W t b) ex.
Proof.
  intros Hlo [Hn Hin Ho Hnd Hl Hx Hxn].
  destruct (Hx t ltac:(set_solver)) as [[tm E] Htk].
  assert (timers (internal_add_timer W t b) = <[t := set_linked true tm]> (timers b)) as Etm.
  { unfold internal_add_timer. by rewrite E. }
  apply NoDup_cons in Hxn as [Htx Hxn].
  pose proof (fun k => vec_add t b k tm E) as Hv.
  assert (forall u k, u ∈ vec (internal_add_timer W t b) k ->
    u ∈ vec b k \/ u = t /\ internal_add_vec W (timer_jiffies b) (expires tm) = k) as Hu.
  { intros u k. rewrite Hv. case_decide; set_solver. }
  split.
  - unfold internal_add_timer. by rewrite E.
  - intros k u Hk. rewrite Etm. destruct (Hu u k Hk) as [Hk'|[-> <-]].
    + rewrite lookup_insert_ne by (intros ->; by eapply Htk). by apply Hin.
    + rewrite lookup_insert_eq. exists (set_linked true tm). split_all; [done..|].
      simpl. rewrite Hn. by apply internal_add_vec_fits.
  - intros k k' u Hk Hk'. destruct (Hu u k Hk) as [?|[Eu <-]], (Hu u k' Hk') as [?|[Eu' <-]];
      [by eapply Ho|subst; by edestruct Htk|subst; by edestruct Htk|done].
  - intros k. rewrite Hv. case_decide; [|done]. apply NoDup_app. split_all; [done| |apply NoDup_singleton].
    intros u Hk ->%list_elem_of_singleton. by eapply Htk.
  - intros u tm'. rewrite Etm. destruct (decide (u = t)) as [->|Hne].
    + intros _ _. right. eexists. rewrite Hv. rewrite decide_True by done. set_solver.
    + rewrite lookup_insert_ne by done. intros E' L.
      destruct (Hl u tm' E' L) as [?|[k Hk]]; [left; set_solver|]. right. exists k.
      rewrite Hv. case_decide; set_solver.
  - intros u Hux. rewrite Etm. destruct (Hx u ltac:(set_solver)) as [Hs Hnk].
    split; [rewrite lookup_insert_ne by set_solver; done|].
    intros k Hk. destruct (Hu u k Hk) as [?|[-> _]]; [by eapply Hnk|done].
  - done.
Qed.

(** Giving a detached timer a new expiry time. *)
Lemma set_timer_inv lo T b t tm :
  inv lo T b [] -> is_Some (timers b !! t) -> (forall k, t ∉ vec b k) ->
  inv lo T (set_timer t tm b) [t].
Proof.
  intros [Hn Hin Ho Hnd Hl Hx Hxn] Hs Htk. split; try done; simpl.
  - intros k u Hk. assert (u <> t) by (intros ->; by eapply Htk).
    rewrite lookup_insert_ne by done. by apply Hin.
  - intros u tm'. destruct (decide (u = t)) as [->|]; [left; set_solver|].
    rewrite lookup_insert_ne by done. intros E L. right.
    destruct (Hl u tm' E L) as [Hu|?]; [by apply not_elem_of_nil in Hu|done].
  - intros u ->%list_elem_of_singleton. rewrite lookup_insert_eq. split; [by eexists|done].
  - apply NoDup_singleton.
Qed.

Lemma pending_vec lo T b ex t :
  inv lo T b ex -> timer_pending t b = false -> forall k, t ∉ vec b k.
Proof.
  intros Hi Hp k Hk. destruct (inv_in _ _ _ _ Hi k t Hk) as (tm & E & L & _).
  unfold timer_pending in Hp. rewrite E in Hp. congruence.
Qed.

Lemma __mod_timer_inv lo T b t e :
  (forall lv, 2 <= lv <= 5 -> lo lv <= T / 2 ^ shift lv) ->
  inv lo T b [] -> inv lo T (__mod_timer W t e b).2 [].
Proof.
  intros Hlo Hi. unfold __mod_timer.
  assert (exists r b', (if timer_pending t b then (1, detach_timer t b) else (0, b)) = (r, b') /\
    inv lo T b' [] /\ (forall k, t ∉ vec b' k)) as (r & b' & -> & Hi' & Hk).
  { destruct (timer_pending t b) eqn:Ep; eexists _, _; (split; [done|]).
    - split; [apply detach_inv; [done|set_solver]|].
      intros k. rewrite vec_detach, elem_of_remove_addr. naive_solver.
    - split; [done|by eapply pending_vec]. }
  simpl. destruct (timers b' !! t) as [tm|] eqn:E.
  - apply add_inv; [done|]. apply set_timer_inv; [done|by eexists|done].
  - unfold internal_add_timer. by rewrite E.
Qed.

Lemma do_call_inv lo T b c :
  (forall lv, 2 <= lv <= 5 -> lo lv <= T / 2 ^ shift lv) ->
  inv lo T b [] -> inv lo T (do_call W b c) [].
Proof.
  intros Hlo Hi. destruct c as [t|t e|t]; simpl.
  - unfold add_timer. destruct (timers b !! t); [by apply __mod_timer_inv|done].
  - unfold mod_timer. destruct (timers b !! t); [|done].
    destruct (_ && _); [done|by apply __mod_timer_inv].
  - unfold del_timer. destruct (timer_pending t b); [apply detach_inv; [done|set_solver]|done].
Qed.

Lemma do_calls_inv lo T cs : forall b,
  (forall lv, 2 <= lv <= 5 -> lo lv <= T / 2 ^ shift lv) ->
  inv lo T b [] -> inv lo T (fold_left (do_call W) cs b) [].
Proof. induction cs as [|c cs IH]; intros b Hlo Hi; [done|]. simpl. by apply IH, do_call_inv. Qed.

(** ** Cascading *)

Lemma div_pred m T : 0 < m ->
  (T - 1) / m = if T mod m =? 0 then T / m - 1 else T / m.
Proof.
  intros Hm. pose proof (Z.div_mod T m ltac:(lia)) as E. pose proof (Z.mod_pos_bound T m Hm) as B.
  destruct (Z.eqb_spec (T mod m) 0) as [H0|H0].
  - symmetry. apply (Z.div_unique _ _ _ (m - 1)); lia.
  - symmetry. apply (Z.div_unique _ _ _ (T mod m - 1)); lia.
Qed.

(** Lower bounds once the levels below [n] have been cascaded at [T]. *)
Definition lo_n (n T lv : Z) : Z :=
  if lv <? n then T / 2 ^ shift lv else (T - 1) / 2 ^ shift lv.

Lemma shift_pos lv : 2 <= lv -> 0 < 2 ^ shift lv.
Proof. intros. apply Z.pow_pos_nonneg; unfold shift; lia. Qed.

Lemma lo_n_le n T lv : 2 <= lv <= 5 -> lo_n n T lv <= T / 2 ^ shift lv.
Proof.
  intros Hlv. unfold lo_n. destruct (lv <? n); [lia|].
  apply Z.div_le_mono; [apply shift_pos|]; lia.
Qed.

Lemma adds_inv lo T L : forall b,
  (forall lv, 2 <= lv <= 5 -> lo lv <= T / 2 ^ shift lv) ->
  inv lo T b L -> inv lo T (fold_left (fun b t => internal_add_timer W t b) L b) [].
Proof. induction L as [|t L IH]; intros b Hlo Hi; [done|]. simpl. by apply IH, add_inv. Qed.

(** Emptying a list: its timers become the ones the code holds. *)
Lemma take_list_inv lo lo' T b k :
  inv lo T b [] ->
  (forall k' e, k' <> k -> fits lo T e k' -> fits lo' T e k') ->
  inv lo' T (set_vec k [] b) (vec b k).
Proof.
  intros [Hn Hin Ho Hnd Hl Hx Hxn] Hf.
  assert (forall k', vec (set_vec k [] b) k' = if decide (k = k') then [] else vec b k') as Hv.
  { intros k'. apply vec_insert. }
  split; try done; simpl.
  - intros k' t. rewrite Hv. case_decide as Hk; [by intros ?%not_elem_of_nil|].
    intros Ht. destruct (Hin k' t Ht) as (tm & ? & ? & ?). exists tm. split_all; [done..|].
    by apply Hf.
  - intros k1 k2 t. rewrite !Hv. repeat case_decide; try (by intros ?%not_elem_of_nil).
    + intros _ ?%not_elem_of_nil. done.
    + by apply Ho.
  - intros k'. rewrite Hv. case_decide; [apply NoDup_nil_2|done].
  - intros t tm E L. destruct (Hl t tm E L) as [?%not_elem_of_nil|[k' Hk']]; [done|].
    destruct (decide (k = k')) as [->|Hne]; [by left|right]. exists k'.
    by rewrite Hv, decide_False.
  - intros t Ht. split.
    + destruct (Hin k t Ht) as (tm & ? & _). by eexists.
    + intros k'. rewrite Hv. case_decide as Hk; [apply not_elem_of_nil|].
      intros Ht'. apply Hk. by eapply Ho.
Qed.

Lemma tj_index T b N :
  timer_jiffies b = wrapu W T -> 0 <= N <= 3 ->
  INDEX b N = (T / 2 ^ shift (N + 2)) mod 64.
Proof.
  intros E HN. unfold INDEX. rewrite E. change TVN_MASK with 63. change TVR_BITS with 8.
  change TVN_BITS with 6. rewrite land_63, Z.shiftr_div_pow2 by lia.
  replace (8 + N * 6) with (shift (N + 2)) by (unfold shift; lia).
  apply field_cong; [unfold shift; lia..|]. unfold wrapu. by rewrite Zmod_mod.
Qed.

Lemma cascade_step n T b :
  2 <= n <= 5 -> T mod 2 ^ shift n = 0 -> inv (lo_n n T) T b [] ->
  (cascade W n (INDEX b (n - 2)) b).1 = (T / 2 ^ shift n) mod 64 /\
  inv (lo_n (n + 1) T) T (cascade W n (INDEX b (n - 2)) b).2 [].
Proof.
  intros Hnr Hdiv Hi. rewrite (tj_index T) by (by apply Hi) || lia.
  replace (n - 2 + 2) with n by lia. split; [done|]. simpl.
  apply adds_inv; [apply lo_n_le|]. apply (take_list_inv (lo_n n T)); [done|].
  intros [lv i] e Hne F. destruct (decide (2 <= lv <= 5)) as [Hl|Hl].
  - rewrite fits_level in * by done. destruct F as (X & HX & HX' & Ei & HE). exists X.
    split_all; [|done..]. revert HX. unfold lo_n.
    destruct (Z.ltb_spec lv n), (Z.ltb_spec lv (n + 1)); try lia.
    assert (lv = n) as -> by lia. pose proof (shift_pos n ltac:(lia)) as Hp.
    rewrite div_pred, Hdiv in * by done. simpl. intros HX.
    destruct (decide (X = T / 2 ^ shift n)) as [->|]; [|lia]. by subst i.
  - destruct lv as [|[p|p|]|]; simpl in *; try done; lia.
Qed.

Lemma cascade_now n i b : timer_jiffies (cascade W n i b).2 = timer_jiffies b.
Proof.
  simpl. generalize (vec b (n, i)) as L. intros L.
  change (timer_jiffies b) with (timer_jiffies (set_vec (n, i) [] b)).
  generalize (set_vec (n, i) [] b). clear. induction L as [|t L IH]; intros b; [done|].
  simpl. rewrite IH. unfold internal_add_timer. by destruct (timers b !! t).
Qed.

(** When the low bits are not all zero, no level from [n] on is due. *)
Lemma cascade_skip n T b :
  2 <= n <= 6 -> (n = 6 \/ T mod 2 ^ shift n <> 0) ->
  inv (lo_n n T) T b [] -> inv (lo_n 6 T) T b [].
Proof.
  intros Hn Hdiv. apply inv_lo. intros lv Hlv. unfold lo_n.
  destruct (Z.ltb_spec lv 6), (Z.ltb_spec lv n); try lia.
  pose proof (shift_pos lv ltac:(lia)). pose proof (shift_pos n ltac:(lia)).
  rewrite div_pred by done. destruct (Z.eqb_spec (T mod 2 ^ shift lv) 0) as [Hz|]; [|lia]. exfalso.
  destruct Hdiv as [|Hdiv]; [lia|]. apply Hdiv.
  apply Z.mod_divide; [lia|]. apply Z.mod_divide in Hz; [|lia].
  etrans; [|exact Hz]. exists (2 ^ (shift lv - shift n)).
  rewrite <- Z.pow_add_r by (unfold shift; lia). f_equal. lia.
Qed.

Lemma next_level n T :
  2 <= n <= 5 -> T mod 2 ^ shift n = 0 ->
  (T / 2 ^ shift n) mod 64 = 0 <-> T mod 2 ^ shift (n + 1) = 0.
Proof.
  intros Hn Hz. replace (shift (n + 1)) with (shift n + 6) by (unfold shift; lia).
  rewrite Z.pow_add_r by (unfold shift; lia). change (2 ^ 6) with 64.
  pose proof (shift_pos n ltac:(lia)). rewrite Z.rem_mul_r, Hz by lia. nia.
Qed.

Lemma run_cascades_inv T b :
  inv (lo_n 2 T) T b [] ->
  inv (lo_n 6 T) T (run_cascades W (Z.land (timer_jiffies b) TVR_MASK) b) [].
Proof.
  intros Hi. pose proof (inv_now _ _ _ _ Hi) as En. unfold run_cascades.
  change TVR_MASK with 255. rewrite land_255, En.
  assert (wrapu W T mod 256 = T mod 2 ^ shift 2) as ->.
  { change (shift 2) with 8. change 256 with (2 ^ 8). apply mod_pow_cong; [lia|]. unfold wrapu. by rewrite Zmod_mod. }
  destruct (Z.eqb_spec (T mod 2 ^ shift 2) 0) as [H2|H2];
    [|by apply (cascade_skip 2); [lia|right|]].
  destruct (cascade_step 2 T b ltac:(lia) H2 Hi) as [R2 I2]. change (2 - 2) with 0 in *.
  destruct (cascade W 2 (INDEX b 0) b) as [r b2]. simpl in R2, I2. subst r.
  destruct (Z.eqb_spec ((T / 2 ^ shift 2) mod 64) 0) as [H3|H3];
    rewrite (next_level 2 T) in H3 by (lia || done); change (2 + 1) with 3 in *;
    [|by apply (cascade_skip 3); [lia|right|]].
  destruct (cascade_step 3 T b2 ltac:(lia) H3 I2) as [R3 I3]. change (3 - 2) with 1 in *.
  destruct (cascade W 3 (INDEX b2 1) b2) as [r b3]. simpl in R3, I3. subst r.
  destruct (Z.eqb_spec ((T / 2 ^ shift 3) mod 64) 0) as [H4|H4];
    rewrite (next_level 3 T) in H4 by (lia || done); change (3 + 1) with 4 in *;
    [|by apply (cascade_skip 4); [lia|right|]].
  destruct (cascade_step 4 T b3 ltac:(lia) H4 I3) as [R4 I4]. change (4 - 2) with 2 in *.
  destruct (cascade W 4 (INDEX b3 2) b3) as [r b4]. simpl in R4, I4. subst r.
  destruct (Z.eqb_spec ((T / 2 ^ shift 4) mod 64) 0) as [H5|H5];
    rewrite (next_level 4 T) in H5 by (lia || done); change (4 + 1) with 5 in *;
    [|by apply (cascade_skip 5); [lia|right|]].
  by destruct (cascade_step 5 T b4 ltac:(lia) H5 I4) as [_ I5].
Qed.

(** ** One tick *)

Lemma mod_eq_in_window T E : T <= E < T + 256 -> E mod 256 = T mod 256 -> E = T.
Proof.
  intros HE Hm. pose proof (Z.div_mod E 256 ltac:(lia)). pose proof (Z.div_mod T 256 ltac:(lia)). lia.
Qed.

Lemma fits_advance T e k :
  k <> (1, T mod 256) -> k <> WORK ->
  fits (lo_n 6 T) T e k -> fits (lo_n 2 (T + 1)) (T + 1) e k.
Proof.
  intros Hk Hw F. destruct k as [lv i]. destruct (decide (2 <= lv <= 5)) as [Hl|Hl].
  - rewrite fits_level in * by done. destruct F as (X & HX & HX' & Ei & HE). exists X.
    revert HX. unfold lo_n. destruct (Z.ltb_spec lv 6), (Z.ltb_spec lv 2); try lia. intros HX.
    pose proof (shift_pos lv ltac:(lia)) as Hp. replace (T + 1 - 1) with T by lia.
    assert (T < X * 2 ^ shift lv) as HT.
    { pose proof (Z.mul_succ_div_gt T (2 ^ shift lv) Hp). nia. }
    rewrite due_succ by lia. split_all; [lia| |done|lia].
    pose proof (Z.div_le_mono (T - 1) T (2 ^ shift lv)). lia.
  - destruct lv as [|[p|p|]|]; simpl in *; try lia; [by destruct F as [-> _]|].
    destruct F as [Hlt Ei]. pose proof (due_ge T e).
    assert (T < due T e).
    { destruct (decide (due T e = T)) as [E|]; [|lia]. rewrite E in Ei. by subst i. }
    rewrite due_succ by done. split; [lia|done].
Qed.

(** Moving the timers of the current slot to [work_list]. *)
Lemma advance_inv T b :
  inv (lo_n 6 T) T b [] -> vec b WORK = [] ->
  let b1 := TvecBase (wrapu W (timer_jiffies b + 1)) (vecs b) (timers b) (jhl_timer_num b) in
  let index := T mod 256 in
  inv (lo_n 2 (T + 1)) (T + 1)
    (set_vec WORK (vec b1 (1, index)) (set_vec (1, index) [] b1)) [].
Proof.
  intros [Hn Hin Ho Hnd Hl Hx Hxn] Hw b1 index.
  set (b2 := set_vec WORK (vec b1 (1, index)) (set_vec (1, index) [] b1)).
  assert (forall k, vec b2 k = if decide (WORK = k) then vec b (1, index)
     else if decide ((1, index) = k) then [] else vec b k) as Hv.
  { intros k. unfold b2, set_vec, b1. rewrite vec_insert. simpl. case_decide; [done|].
    apply (vec_insert b). }
  assert (forall k t, t ∈ vec b2 k -> exists k0, t ∈ vec b k0 /\
    (k = WORK /\ k0 = (1, index) \/ k = k0 /\ k <> WORK /\ k <> (1, index))) as Hfrom.
  { intros k t. rewrite Hv. case_decide; [intros; exists (1, index); naive_solver|].
    case_decide; [by intros ?%not_elem_of_nil|]. intros; exists k. naive_solver. }
  split; try done.
  - simpl. rewrite Hn. unfold wrapu. apply Zplus_mod_idemp_l.
  - intros k t Ht. destruct (Hfrom k t Ht) as (k0 & Ht0 & Hk).
    destruct (Hin k0 t Ht0) as (tm & E & L & F). exists tm. split_all; [done..|].
    destruct Hk as [[-> ->]|(-> & ? & ?)]; [|by apply fits_advance].
    simpl in F. simpl. destruct F as [F1 F2]. split; [done|].
    replace (T + 1 - 1) with T by lia. apply mod_eq_in_window; [|done].
    pose proof (due_ge T (expires tm)). lia.
  - intros k k' t Ht Ht'. destruct (Hfrom k t Ht) as (k0 & H0 & Hk), (Hfrom k' t Ht') as (k1 & H1 & Hk').
    pose proof (Ho _ _ _ H0 H1). naive_solver.
  - intros k. rewrite Hv. repeat case_decide; [done|apply NoDup_nil_2|done].
  - intros t tm E L. right. destruct (Hl t tm E L) as [?%not_elem_of_nil|[k Hk]]; [done|].
    destruct (decide (k = (1, index))) as [->|Hne].
    + exists WORK. rewrite Hv. by rewrite decide_True.
    + exists k. rewrite Hv. rewrite !decide_False; [done|done|]. intros <-. rewrite Hw in Hk. set_solver.
  - intros t Ht. by apply not_elem_of_nil in Ht.
Qed.

(** *** What a timer call does to [work_list] and to other timers *)

Lemma internal_add_not_work tj e : internal_add_vec W tj e <> WORK.
Proof.
  unfold internal_add_vec, WORK. intros E. apply (f_equal fst) in E. revert E.
  repeat match goal with |- context [if ?c then _ else _] => destruct c end; done.
Qed.

Lemma internal_add_work t b : vec (internal_add_timer W t b) WORK = vec b WORK.
Proof.
  destruct (timers b !! t) as [tm|] eqn:E.
  - rewrite (vec_add t b WORK tm E). case_decide as H; [by apply internal_add_not_work in H|done].
  - unfold internal_add_timer. by rewrite E.
Qed.

Lemma __mod_timer_work t e b :
  vec (__mod_timer W t e b).2 WORK = if timer_pending t b then remove_addr t (vec b WORK) else vec b WORK.
Proof.
  unfold __mod_timer. destruct (timer_pending t b); simpl; rewrite internal_add_work.
  - rewrite <- vec_detach. by destruct (alter _ _ _ !! t).
  - by destruct (timers b !! t).
Qed.

Lemma do_call_work b c :
  vec (do_call W b c) WORK = vec b WORK \/
  vec (do_call W b c) WORK = remove_addr (call_target c) (vec b WORK).
Proof.
  destruct c as [t|t e|t]; simpl.
  - unfold add_timer. destruct (timers b !! t); [|by left]. rewrite __mod_timer_work.
    destruct (timer_pending t b); [by right|by left].
  - unfold mod_timer. destruct (timers b !! t); [|by left].
    destruct (_ && _); [by left|]. rewrite __mod_timer_work.
    destruct (timer_pending t b); [by right|by left].
  - unfold del_timer. destruct (timer_pending t b); [right; apply vec_detach|by left].
Qed.

Lemma internal_add_timers_ne t u b :
  t <> u -> timers (internal_add_timer W t b) !! u = timers b !! u.
Proof.
  intros Hne. unfold internal_add_timer. destruct (timers b !! t); [|done].
  simpl. by rewrite lookup_insert_ne.
Qed.

Lemma __mod_timer_ne t e u b : t <> u -> timers (__mod_timer W t e b).2 !! u = timers b !! u.
Proof.
  intros Hne. unfold __mod_timer.
  assert (exists r b', (if timer_pending t b then (1, detach_timer t b) else (0, b)) = (r, b') /\
    timers b' !! u = timers b !! u) as (r & b' & -> & <-).
  { destruct (timer_pending t b); eexists _, _; (split; [done|]); [|done].
    simpl. by rewrite lookup_alter_ne. }
  simpl. rewrite internal_add_timers_ne by done. destruct (timers b' !! t); [|done].
  simpl. by rewrite lookup_insert_ne.
Qed.

Lemma do_call_ne b c u : call_target c <> u -> timers (do_call W b c) !! u = timers b !! u.
Proof.
  intros Hne. destruct c as [t|t e|t]; simpl in *.
  - unfold add_timer. destruct (timers b !! t); [by apply __mod_timer_ne|done].
  - unfold mod_timer. destruct (timers b !! t); [|done].
    destruct (_ && _); [done|by apply __mod_timer_ne].
  - unfold del_timer. destruct (timer_pending t b); [|done]. simpl. by rewrite lookup_alter_ne.
Qed.

Lemma remove_addr_length a l : (length (remove_addr a l) <= length l)%nat.
Proof. unfold remove_addr. apply length_filter. Qed.

Lemma do_calls_work cs : forall b,
  let b' := fold_left (do_call W) cs b in
  (length (vec b' WORK) <= length (vec b WORK))%nat /\
  (forall t, t ∈ vec b' WORK -> t ∈ vec b WORK) /\
  (forall t, (forall c, c ∈ cs -> call_target c <> t) ->
     (t ∈ vec b WORK -> t ∈ vec b' WORK) /\ timers b' !! t = timers b !! t).
Proof.
  induction cs as [|c cs IH]; intros b; simpl; [naive_solver|].
  destruct (IH (do_call W b c)) as (IH1 & IH2 & IH3).
  assert ((length (vec (do_call W b c) WORK) <= length (vec b WORK))%nat /\
    (forall t, t ∈ vec (do_call W b c) WORK -> t ∈ vec b WORK) /\
    (forall t, call_target c <> t -> t ∈ vec b WORK -> t ∈ vec (do_call W b c) WORK)) as (C1 & C2 & C3).
  { destruct (do_call_work b c) as [-> | ->]; [naive_solver|].
    split_all; [apply remove_addr_length|intros t; rewrite elem_of_remove_addr; tauto|].
    intros t Hne Ht. apply elem_of_remove_addr. split; [congruence|done]. }
  split_all; [lia|by eauto|]. intros t Ht.
  assert (call_target c <> t) as Hc by (apply Ht; set_solver).
  destruct (IH3 t) as [H3 H4]; [intros; apply Ht; set_solver|].
  split; [by eauto|]. rewrite H4. by apply do_call_ne.
Qed.

(** ** The work list *)

(** No timer function makes a call on timer [t]. *)
Definition untouched (t : addr) : Prop :=
  forall fn dat c, c ∈ callback fn dat -> call_target c <> t.

Record ran (T : Z) (b b' : tvec_base) (fs : list fired) : Prop := {
  ran_empty : vec b' WORK = [];
  ran_fired : forall f, f ∈ fs ->
    f_timer f ∈ vec b WORK /\ due (T - 1) (f_expires f) = T - 1;
  ran_untouched : forall t, untouched t ->
    (t ∈ vec b WORK -> t ∈ f_timer <$> fs /\ linked <$> timers b' !! t = Some false) /\
    (t ∉ vec b WORK -> timers b' !! t = timers b !! t)
}.

Lemma run_work_spec lo T fuel : forall b,
  (forall lv, 2 <= lv <= 5 -> lo lv <= T / 2 ^ shift lv) ->
  inv lo T b [] -> (length (vec b WORK) <= fuel)%nat ->
  let '(b', fs) := run_work W callback fuel b in
  inv lo T b' [] /\ ran T b b' fs.
Proof.
  induction fuel as [|fuel IH]; intros b Hlo Hi Hlen.
  - simpl. destruct (vec b WORK) as [|t l] eqn:Ew; [|simpl in Hlen; lia].
    split; [done|]. split; [done|set_solver|]. intros t _. rewrite Ew. split; [set_solver|done].
  - simpl. destruct (vec b WORK) as [|t l] eqn:Ew.
    { split; [done|]. split; [done|set_solver|]. intros t _. rewrite Ew. split; [set_solver|done]. }
    destruct (inv_in _ _ _ _ Hi WORK t) as (tm & E & L & F); [rewrite Ew; set_solver|].
    rewrite E. set (b1 := detach_timer t b). set (cs := callback (function tm) (data tm)).
    assert (inv lo T b1 []) as Hi1 by (apply detach_inv; [done|set_solver]).
    assert (vec b1 WORK = l) as Ew1.
    { unfold b1. rewrite vec_detach, Ew. change (t :: l) with ([] ++ t :: l).
      rewrite remove_addr_mid; [done|]. pose proof (inv_nodup _ _ _ _ Hi WORK). by rewrite Ew in *. }
    destruct (do_calls_work cs b1) as (D1 & D2 & D3).
    set (b2 := fold_left (do_call W) cs b1) in *. rewrite Ew1 in *.
    specialize (IH b2 Hlo ltac:(by apply do_calls_inv) ltac:(simpl in *; lia)).
    destruct (run_work W callback fuel b2) as [b' fs].
    destruct IH as [Hi' [Re Rf Ru]]. split; [done|]. split; [done| |].
    + intros f [->|Hf]%elem_of_cons; simpl; rewrite Ew.
      * split; [set_solver|]. by destruct F.
      * destruct (Rf f Hf) as [Hf1 Hf2]. split; [|done]. set_solver.
    + intros u Hu. assert (forall c, c ∈ cs -> call_target c <> u) as Hcs by (intros; by eapply Hu).
      destruct (D3 u Hcs) as [W3 E3]. destruct (Ru u Hu) as [R1 R2]. rewrite Ew.
      destruct (decide (u = t)) as [->|Hne].
      * split; [|set_solver]. intros _. split; [set_solver|].
        rewrite R2; [|intros Hin; apply D2 in Hin; rewrite <- Ew1 in Hin; unfold b1 in Hin;
          rewrite vec_detach, elem_of_remove_addr in Hin; naive_solver].
        rewrite E3. unfold b1. simpl. by rewrite lookup_alter_eq, E.
      * split.
        -- intros [?|Hl]%elem_of_cons; [done|]. destruct (R1 (W3 Hl)) as [? ?]. set_solver.
        -- intros Hl. rewrite R2; [|intros Hin; apply D2 in Hin; set_solver].
           rewrite E3. unfold b1. simpl. by rewrite lookup_alter_ne.
Qed.

(** The state between two ticks. *)
Record wf (T : Z) (b : tvec_base) : Prop := {
  wf_inv : inv (lo_n 2 T) T b [];
  wf_work : vec b WORK = []
}.

(** *** Cascading moves timers between lists and changes nothing else *)

Definition all_linked (b : tvec_base) : Prop :=
  forall k t, t ∈ vec b k -> linked <$> timers b !! t = Some true.

Record same (b b' : tvec_base) : Prop := {
  same_linked : all_linked b';
  same_timers : timers b' = timers b;
  same_work : vec b' WORK = vec b WORK;
  same_now : timer_jiffies b' = timer_jiffies b
}.

Lemma same_refl b : all_linked b -> same b b.
Proof. by split. Qed.

Lemma same_trans b1 b2 b3 : same b1 b2 -> same b2 b3 -> same b1 b3.
Proof. intros [? ? ? ?] [? ? ? ?]. split; congruence || done. Qed.

Lemma add_same t b :
  all_linked b -> linked <$> timers b !! t = Some true -> same b (internal_add_timer W t b).
Proof.
  intros Ha Ht. destruct (timers b !! t) as [tm|] eqn:E; [|done].
  assert (timers (internal_add_timer W t b) = timers b) as Et.
  { unfold internal_add_timer. rewrite E. simpl. apply insert_id. rewrite E.
    simpl in Ht. destruct tm; simpl in *. unfold set_linked. simpl. congruence. }
  split; [|done|apply internal_add_work|].
  - intros k u. rewrite Et, (vec_add t b k tm E). case_decide; [|apply Ha].
    intros [?| ->%list_elem_of_singleton]%elem_of_app; [by eapply Ha|by rewrite E].
  - unfold internal_add_timer. by rewrite E.
Qed.

Lemma adds_same L : forall b,
  all_linked b -> (forall t, t ∈ L -> linked <$> timers b !! t = Some true) ->
  same b (fold_left (fun b t => internal_add_timer W t b) L b).
Proof.
  induction L as [|t L IH]; intros b Ha HL; [by apply same_refl|]. simpl.
  pose proof (add_same t b Ha (HL t ltac:(set_solver))) as Hs.
  eapply same_trans; [exact Hs|]. apply IH; [apply Hs|].
  intros u Hu. rewrite (same_timers _ _ Hs). apply HL. set_solver.
Qed.

Lemma cascade_same n i b : n <> 0 -> all_linked b -> same b (cascade W n i b).2.
Proof.
  intros Hn Ha. assert (same b (set_vec (n, i) [] b)) as Hs.
  { assert (forall k, vec (set_vec (n, i) [] b) k = if decide ((n, i) = k) then [] else vec b k)
      as Hv by (intros; apply vec_insert).
    split; [|done| |done].
    - intros k t. rewrite Hv. case_decide; [by intros ?%not_elem_of_nil|]. apply Ha.
    - rewrite Hv, decide_False; [done|]. unfold WORK. congruence. }
  eapply same_trans; [exact Hs|]. apply adds_same; [apply Hs|].
  intros t Ht. rewrite (same_timers _ _ Hs). by eapply Ha.
Qed.

Lemma run_cascades_same index b : all_linked b -> same b (run_cascades W index b).
Proof.
  intros Ha. unfold run_cascades. destruct (index =? 0); [|by apply same_refl].
  pose proof (cascade_same 2 (INDEX b 0) b ltac:(done) Ha) as S2.
  destruct (cascade W 2 (INDEX b 0) b) as [r2 b2]. simpl in S2.
  destruct (r2 =? 0); [|done].
  pose proof (cascade_same 3 (INDEX b2 1) b2 ltac:(done) (same_linked _ _ S2)) as S3.
  destruct (cascade W 3 (INDEX b2 1) b2) as [r3 b3]. simpl in S3.
  assert (same b b3) as S3' by (by eapply same_trans). destruct (r3 =? 0); [|done].
  pose proof (cascade_same 4 (INDEX b3 2) b3 ltac:(done) (same_linked _ _ S3)) as S4.
  destruct (cascade W 4 (INDEX b3 2) b3) as [r4 b4]. simpl in S4.
  assert (same b b4) as S4' by (by eapply same_trans). destruct (r4 =? 0); [|done].
  eapply same_trans; [exact S4'|]. apply cascade_same; [done|apply S4].
Qed.

(** ** A whole tick *)

Lemma inv_all_linked lo T b ex : inv lo T b ex -> all_linked b.
Proof.
  intros Hi k t Ht. destruct (inv_in _ _ _ _ Hi k t Ht) as (tm & -> & L & _). simpl. by rewrite L.
Qed.

(** After the cascades, a timer that is due now is in the current slot. *)
Lemma fits_due_now T e k :
  fits (lo_n 6 T) T e k -> k <> WORK -> due T e = T -> k = (1, T mod 256).
Proof.
  intros F Hw Hd. destruct k as [lv i]. destruct (decide (2 <= lv <= 5)) as [Hl|Hl].
  - rewrite fits_level in F by done. destruct F as (X & HX & _ & _ & HE).
    unfold lo_n in HX. destruct (Z.ltb_spec lv 6); [|lia].
    pose proof (shift_pos lv ltac:(lia)) as Hp.
    pose proof (Z.mul_succ_div_gt T (2 ^ shift lv) Hp). nia.
  - destruct lv as [|[p|p|]|]; simpl in F; try lia; [by destruct F as [-> _]|].
    destruct F as [_ ->]. by rewrite Hd.
Qed.

Record ticked (T : Z) (b b' : tvec_base) (fs : list fired) : Prop := {
  ticked_wf : wf (T + 1) b';
  ticked_due : forall f, f ∈ fs -> due T (f_expires f) = T;
  ticked_was : forall f, f ∈ fs -> timer_pending (f_timer f) b = true;
  ticked_now : forall t tm, untouched t -> timers b !! t = Some tm -> linked tm = true ->
    due T (expires tm) = T -> t ∈ f_timer <$> fs /\ linked <$> timers b' !! t = Some false;
  ticked_later : forall t tm, untouched t -> timers b !! t = Some tm ->
    (linked tm = true -> T < due T (expires tm)) ->
    t ∉ f_timer <$> fs /\ timers b' !! t = Some tm
}.

Lemma run_tick_spec T b :
  wf T b -> let '(b', fs) := run_tick W callback b in ticked T b b' fs.
Proof.
  intros [Hi Hw]. unfold run_tick. pose proof (inv_now _ _ _ _ Hi) as En.
  assert (Z.land (timer_jiffies b) TVR_MASK = T mod 256) as Eidx.
  { rewrite En. change TVR_MASK with 255. rewrite land_255. change 256 with (2 ^ 8).
    apply mod_pow_cong; [lia|]. unfold wrapu. by rewrite Zmod_mod. }
  pose proof (run_cascades_inv T b Hi) as Hc.
  pose proof (run_cascades_same (Z.land (timer_jiffies b) TVR_MASK) b (inv_all_linked _ _ _ _ Hi))
    as [_ Sm Sw Sn].
  set (bc := run_cascades W (Z.land (timer_jiffies b) TVR_MASK) b) in *. rewrite Eidx.
  pose proof (advance_inv T bc Hc ltac:(by rewrite Sw)) as Ha. cbv zeta in Ha.
  set (b1 := TvecBase _ _ _ _) in *. set (b2 := set_vec WORK _ _) in *.
  assert (vec b2 WORK = vec b1 (1, T mod 256)) as Ew.
  { unfold b2, set_vec. rewrite vec_insert. by rewrite decide_True. }
  pose proof (run_work_spec (lo_n 2 (T + 1)) (T + 1) (length (vec b1 (1, T mod 256))) b2
    ltac:(intros; by apply lo_n_le) Ha ltac:(by rewrite Ew)) as Hr.
  destruct (run_work W callback _ b2) as [b' fs]. destruct Hr as [Hi' [Re Rf Ru]].
  replace (T + 1 - 1) with T in Rf by lia.
  assert (timers b2 = timers b) as Et2 by (simpl; done).
  assert (forall t, t ∈ vec b2 WORK -> exists tm, timers b !! t = Some tm /\ linked tm = true /\
    due T (expires tm) = T) as Hin.
  { intros t Ht. destruct (inv_in _ _ _ _ Ha WORK t Ht) as (tm & E & L & _ & F).
    exists tm. rewrite <- Et2. replace (T + 1 - 1) with T in F by lia. done. }
  split.
  - by split.
  - intros f Hf. by apply Rf.
  - intros f Hf. destruct (Rf f Hf) as [Hfw _]. destruct (Hin _ Hfw) as (tm & E & L & _).
    unfold timer_pending. by rewrite E.
  - intros t tm Hu E L Hd. apply Ru; [done|].
    destruct (inv_linked _ _ _ _ Ha t tm) as [?%not_elem_of_nil|[k Hk]]; [by rewrite Et2|done|done|].
    destruct (decide (k = WORK)) as [->|Hne]; [done|exfalso].
    destruct (inv_in _ _ _ _ Ha k t Hk) as (tm' & E' & _ & F). rewrite Et2, E in E'. injection E' as <-.
    pose proof (due_ge (T + 1) (expires tm)) as Hge.
    destruct (inv_linked _ _ _ _ Hc t tm) as [?%not_elem_of_nil|[k0 Hk0]]; [by rewrite Sm|done|done|].
    destruct (inv_in _ _ _ _ Hc k0 t Hk0) as (tm' & E' & _ & F0). rewrite Sm, E in E'. injection E' as <-.
    destruct (decide (k0 = (1, T mod 256))) as [->|Hne0].
    + assert (t ∈ vec b2 WORK) as Htw by (rewrite Ew; exact Hk0).
      by pose proof (inv_once _ _ _ _ Ha _ _ _ Hk Htw).
    + assert (k0 <> WORK) as Hk0w by (intros ->; rewrite Sw, Hw in Hk0; set_solver).
      apply Hne0. by eapply fits_due_now.
  - intros t tm Hu E Hd. destruct (Ru t Hu) as [_ R2].
    assert (t ∉ vec b2 WORK) as Hnw.
    { intros Hw'. destruct (Hin t Hw') as (tm' & E' & L' & Hd'). rewrite E in E'. injection E' as <-.
      specialize (Hd L'). lia. }
    split; [|by rewrite R2, Et2].
    intros (f & -> & Hf)%list_elem_of_fmap. by apply Hnw, Rf.
Qed.

(** ** Reachable states *)

Inductive reachable : Z -> tvec_base -> Prop :=
| reach_init T b :
    (forall t tm, timers b !! t = Some tm -> linked tm = false) ->
    reachable T (init_timers_cpu (wrapu W T) b)
| reach_setup T b t fn dat :
    reachable T b -> timer_pending t b = false -> reachable T (setup_timer t fn dat b)
| reach_alloc T b t tm :
    reachable T b -> timer_pending t b = false -> linked tm = false -> reachable T (set_timer t tm b)
| reach_call T b c : reachable T b -> reachable T (do_call W b c)
| reach_tick T b : reachable T b -> reachable (T + 1) (run_tick W callback b).1.

Lemma vec_init_vec lv n m k :
  (forall k, default [] (m !! k) = [] :> list addr) -> default [] (init_vec lv n m !! k) = [] :> list addr.
Proof.
  intros Hm. induction n as [|n IH]; [done|]. simpl. rewrite lookup_insert. by case_decide.
Qed.

Lemma init_empty j b k : vec (init_timers_cpu j b) k = [].
Proof. unfold vec, init_timers_cpu. cbn [vecs].
  do 5 (apply vec_init_vec; intros ?). by rewrite lookup_empty.
Qed.

(** A timer that is not pending may be (re)written. *)
Lemma set_unlinked_wf T b t tm :
  wf T b -> timer_pending t b = false -> linked tm = false -> wf T (set_timer t tm b).
Proof.
  intros [Hi Hw] Hp Hl. assert (forall k, t ∉ vec b k) as Hk by (by eapply pending_vec).
  split; [|done]. destruct Hi as [Hn Hin Ho Hnd Hli Hx Hxn]. split; try done; simpl.
  - intros k u Hu. assert (t <> u) by (intros ->; by eapply Hk).
    rewrite lookup_insert_ne by done. by apply Hin.
  - intros u tm'. destruct (decide (t = u)) as [->|]; [rewrite lookup_insert_eq; intros [= <-]; congruence|].
    rewrite lookup_insert_ne by done. apply Hli.
  - intros u Hu. by apply not_elem_of_nil in Hu.
Qed.

Lemma setup_unlinked_wf T b t fn dat :
  wf T b -> timer_pending t b = false -> wf T (setup_timer t fn dat b).
Proof.
  intros Hwf Hp. unfold setup_timer. destruct (timers b !! t) as [tm|] eqn:E; [|done].
  unfold timer_pending in Hp. rewrite E in Hp.
  unfold init_timer. simpl. rewrite lookup_insert_eq.
  apply set_unlinked_wf; [apply set_unlinked_wf; [done|unfold timer_pending; by rewrite E|done]| |done].
  unfold timer_pending, set_timer. simpl. by rewrite lookup_insert_eq.
Qed.

Lemma call_wf T b c : wf T b -> wf T (do_call W b c).
Proof.
  intros [Hi Hw]. split; [apply do_call_inv; [intros; by apply lo_n_le|done]|].
  destruct (do_call_work b c) as [-> | ->]; [done|]. by rewrite Hw.
Qed.

Lemma reachable_wf T b : reachable T b -> wf T b.
Proof.
  induction 1 as [T b Hb|T b t fn dat _ IH Hp|T b t tm _ IH Hp Hl|T b c _ IH|T b _ IH].
  - split; [|apply init_empty]. split; simpl; try done.
    + intros k t. rewrite init_empty. by intros ?%not_elem_of_nil.
    + intros k k' t. rewrite init_empty. by intros ?%not_elem_of_nil.
    + intros k. rewrite init_empty. apply NoDup_nil_2.
    + intros t tm E L. specialize (Hb t tm E). congruence.
    + intros t Ht. by apply not_elem_of_nil in Ht.
    + apply NoDup_nil_2.
  - by apply setup_unlinked_wf.
  - by apply set_unlinked_wf.
  - by apply call_wf.
  - pose proof (run_tick_spec T b IH) as Ht. destruct (run_tick W callback b). apply Ht.
Qed.

(** An unlinked, untouched timer is never fired. *)
Lemma unlinked_never n : forall T b t tm i,
  wf T b -> untouched t -> timers b !! t = Some tm -> linked tm = false ->
  t ∉ f_timer <$> nth i (run_ticks W callback n b).2 [].
Proof.
  induction n as [|n IH]; intros T b t tm i Hwf Hu E L; simpl; [destruct i; set_solver|].
  pose proof (run_tick_spec T b Hwf) as Ht. destruct (run_tick W callback b) as [b1 fs].
  destruct (ticked_later _ _ _ _ Ht t tm Hu E ltac:(congruence)) as [Hn E'].
  specialize (IH (T + 1) b1 t tm (pred i) (ticked_wf _ _ _ _ Ht) Hu E' L).
  destruct (run_ticks W callback n b1) as [b2 gs]. by destruct i.
Qed.

Lemma fires_at_due n : forall T b t tm i,
  wf T b -> untouched t -> timers b !! t = Some tm -> linked tm = true -> (i < n)%nat ->
  t ∈ f_timer <$> nth i (run_ticks W callback n b).2 [] <-> Z.of_nat i = rem T (expires tm).
Proof.
  induction n as [|n IH]; intros T b t tm i Hwf Hu E L Hin; [lia|]. simpl.
  pose proof (run_tick_spec T b Hwf) as Ht. destruct (run_tick W callback b) as [b1 fs].
  pose proof (due_ge T (expires tm)) as Hge.
  destruct (decide (due T (expires tm) = T)) as [Hd|Hd].
  - destruct (ticked_now _ _ _ _ Ht t tm Hu E L Hd) as [Hf Hl].
    assert (rem T (expires tm) = 0) as -> by (unfold due in Hd; lia).
    destruct (timers b1 !! t) as [tm1|] eqn:E1; [|done]. simpl in Hl.
    pose proof (unlinked_never n (T + 1) b1 t tm1 (pred i) (ticked_wf _ _ _ _ Ht) Hu E1
      ltac:(congruence)) as Hnever.
    destruct (run_ticks W callback n b1) as [b2 gs]. destruct i as [|i]; simpl in *; [naive_solver|].
    split; [done|lia].
  - destruct (ticked_later _ _ _ _ Ht t tm Hu E ltac:(lia)) as [Hn E'].
    assert (rem (T + 1) (expires tm) = rem T (expires tm) - 1) as Er.
    { pose proof (due_succ T (expires tm) ltac:(lia)). unfold due in *. lia. }
    specialize (IH (T + 1) b1 t tm (pred i) (ticked_wf _ _ _ _ Ht) Hu E' L).
    destruct (run_ticks W callback n b1) as [b2 gs]. unfold due in Hd.
    destruct i as [|i]; simpl in *; [split; [done|intros H0; lia]|].
    rewrite IH, Er by lia. lia.
Qed.

Lemma ticks_due n : forall T b i f,
  wf T b -> f ∈ nth i (run_ticks W callback n b).2 [] ->
  rem (T + Z.of_nat i) (f_expires f) = 0.
Proof.
  induction n as [|n IH]; intros T b i f Hwf; simpl; [destruct i; set_solver|].
  pose proof (run_tick_spec T b Hwf) as Ht. destruct (run_tick W callback b) as [b1 fs].
  specialize (IH (T + 1) b1 (pred i) f (ticked_wf _ _ _ _ Ht)).
  destruct (run_ticks W callback n b1) as [b2 gs]. destruct i as [|i]; simpl in *.
  - intros Hf. pose proof (ticked_due _ _ _ _ Ht f Hf) as Hd. unfold due in Hd.
    replace (T + Z.of_nat 0) with T by lia. lia.
  - replace (T + Z.of_nat (S i)) with (T + 1 + Z.of_nat i) by lia. exact IH.
Qed.

(** ** The properties *)

(** C3. The wheel fires a timer exactly when it expires.  In every reachable
    state, a pending timer that no timer function touches is fired by the
    iteration in which [timer_jiffies] equals its expiry time (by the next one
    if it was set in the past), and by no earlier and no later iteration,
    whatever its level in the wheel, however often it is cascaded, and across
    a wrap-around of the jiffies counter. *)
Theorem timer_fires_on_time T b t tm n i :
  reachable T b -> untouched t ->
  timers b !! t = Some tm -> linked tm = true -> (i < n)%nat ->
  t ∈ f_timer <$> nth i (run_ticks W callback n b).2 [] <->
  Z.of_nat i = rem T (expires tm).
Proof. intros Hr. apply fires_at_due. by apply reachable_wf. Qed.

(** C4. No timer is ever fired early, even when the timer functions add,
    modify and delete timers: what the [i]-th iteration fires is due then,
    that is, has no ticks left. *)
Theorem timer_never_early T b n i f :
  reachable T b -> f ∈ nth i (run_ticks W callback n b).2 [] ->
  rem (T + Z.of_nat i) (f_expires f) = 0.
Proof. intros Hr. apply ticks_due. by apply reachable_wf. Qed.

(** C5. The wheel stays consistent: in every reachable state each pending
    timer is on exactly one list, each list is duplicate free and holds only
    pending timers, the work list is empty between iterations, and
    [timer_jiffies] is the current time modulo the word size. *)
Theorem wheel_consistent T b :
  reachable T b ->
  timer_jiffies b = wrapu W T /\ vec b WORK = [] /\
  (forall k, NoDup (vec b k)) /\
  (forall t, timer_pending t b = true <-> exists k, t ∈ vec b k) /\
  (forall k k' t, t ∈ vec b k -> t ∈ vec b k' -> k = k').
Proof.
  intros Hr. destruct (reachable_wf T b Hr) as [Hi Hw]. destruct Hi as [Hn Hin Ho Hnd Hl _ _].
  split_all; [done..| |done]. intros t. unfold timer_pending. split.
  - destruct (timers b !! t) as [tm|] eqn:E; [|done]. intros L.
    by destruct (Hl t tm E L) as [?%not_elem_of_nil|?].
  - intros [k Hk]. by destruct (Hin k t Hk) as (tm & -> & L & _).
Qed.

Lemma time_after_eq_spec j T d :
  - 2 ^ (W - 1) <= d < 2 ^ (W - 1) -> j mod 2 ^ W = (T + d) mod 2 ^ W ->
  time_after_eq W j (wrapu W T) = (0 <=? d).
Proof.
  intros Hd E. unfold time_after_eq. f_equal.
  rewrite (wraps_cong W _ d); [by apply wraps_small; [lia|]|].
  rewrite Zminus_mod, !wraps_modulo, E. unfold wrapu. rewrite Zmod_mod, <- Zminus_mod. f_equal. lia.
Qed.

Lemma run_timers_loop n : forall m T b,
  reachable T b -> Z.of_nat n <= 2 ^ (W - 1) -> Z.of_nat n = m + 1 ->
  let j := wrapu W (T + m) in
  let '(b', fs, stop) := __run_timers W callback (replicate (S n) j) b in
  stop = true /\ timer_jiffies b' = wrapu W (T + m + 1) /\
  (b', fs) = let '(c, gs) := run_ticks W callback n b in (c, concat gs).
Proof.
  induction n as [|n IH]; intros m T b Hr Hn Hm; pose proof pow_half as [HM Hh];
    pose proof (inv_now _ _ _ _ (wf_inv _ _ (reachable_wf T b Hr))) as En; simpl;
    rewrite En, (time_after_eq_spec _ T m) by (lia || (unfold wrapu; by rewrite Zmod_mod)).
  - assert (m = -1) as -> by lia. simpl. split_all; [done| |done].
    rewrite En. f_equal. lia.
  - destruct (Z.leb_spec 0 m); [|lia].
    pose proof (reach_tick T b Hr) as Hr1. destruct (run_tick W callback b) as [b1 fs]. simpl in Hr1.
    specialize (IH (m - 1) (T + 1) b1 Hr1 ltac:(lia) ltac:(lia)).
    replace (T + 1 + (m - 1)) with (T + m) in IH by lia.
    simpl in IH. destruct (if time_after_eq _ _ _ then _ else _) as [[b2 gs] stop].
    destruct IH as (-> & E2 & E3). split_all; [done|rewrite E2; f_equal; lia|].
    destruct (run_ticks W callback n b1) as [c gs']. simpl. congruence.
Qed.

(** C6. [__run_timers] ends and catches up: when the clock stays at [j], [d]
    jiffies ahead of the wheel, the loop runs exactly [d + 1] iterations, ends,
    leaves [timer_jiffies] at [j + 1], and fires what those iterations fire,
    in order. *)
Theorem run_timers_catches_up d T b :
  reachable T b -> Z.of_nat d < 2 ^ (W - 1) ->
  let j := wrapu W (T + Z.of_nat d) in
  let '(b', fs, stop) := __run_timers W callback (replicate (d + 2) j) b in
  stop = true /\ timer_jiffies b' = wrapu W (T + Z.of_nat d + 1) /\
  (b', fs) = let '(c, gs) := run_ticks W callback (S d) b in (c, concat gs).
Proof.
  intros Hr Hd. replace (d + 2)%nat with (S (S d)) by lia.
  apply run_timers_loop; [done|lia|lia].
Qed.

End Facts.

(** ** The clock *)

Section ClockFacts.

Context (W : Z) (HW : 32 <= W).

(** The jiffies clock is driven by wall-clock readings that may jump
    either way, and each call of [jiffies_get] advances it by at most two
    seconds and never takes seconds back; afterwards [ll_start_second] and
    [ll_jiffies_second] add up to the wall clock again, and the value returned
    is that many seconds plus the milliseconds of the reading. *)
Theorem jiffies_get_bounded tv_sec tv_usec c :
  0 <= tv_usec < 1000000 ->
  let '(jf, c') := jiffies_get W tv_sec tv_usec c in
  0 <= wrapu W (ll_jiffies_second c' - ll_jiffies_second c) <= 2 /\
  wrapu W (ll_start_second c' + ll_jiffies_second c') = wrapu W tv_sec /\
  jf = wrapu W (tv_usec / 1000 + ll_jiffies_second c' * HZ).
Proof.
  intros Hu. pose proof (pow_half W HW) as [HM Hh].
  assert (2 ^ 2 < 2 ^ W) as H2 by (apply Z.pow_lt_mono_r; lia).
  unfold jiffies_get. set (cc := wrapu W (tv_sec - ll_start_second c)).
  destruct (Z.ltb_spec 2 (wrapu W (cc - ll_jiffies_second c))) as [Hj|Hj]; simpl; split_all.
  - apply wrapu_range. lia.
  - unfold wrapu. rewrite Zminus_mod_idemp_l.
    replace (ll_jiffies_second c + 2 - ll_jiffies_second c) with 2 by lia. rewrite Zmod_small; lia.
  - unfold wrapu. rewrite Zplus_mod_idemp_l. f_equal. lia.
  - destruct (Z.eqb_spec tv_usec 0) as [->|]; done.
  - apply wrapu_range. lia.
  - done.
  - unfold cc, wrapu. rewrite Zplus_mod_idemp_r. f_equal. lia.
  - destruct (Z.eqb_spec tv_usec 0) as [->|]; done.
Qed.

End ClockFacts.

Lemma jiffies_get_bounded_witness :
  (0 <= 250000 < 1000000) /\
  let '(jf, c') := jiffies_get 32 1700000007 250000 (Clock 1700000000 1) in
  0 <= wrapu 32 (ll_jiffies_second c' - 1) <= 2 /\
  wrapu 32 (ll_start_second c' + ll_jiffies_second c') = wrapu 32 1700000007 /\
  jf = wrapu 32 (250000 / 1000 + ll_jiffies_second c' * HZ).
Proof.
  split; [lia|].
  exact (jiffies_get_bounded 32 ltac:(lia) 1700000007 250000 (Clock 1700000000 1) ltac:(lia)).
Defined.

(** ** A concrete run

    Two timers on a 64-bit machine: timer 7 is set 300 jiffies ahead (level 2
    of the wheel) and timer 8 five jiffies ahead; their functions make no
    timer calls. *)

Definition ex_base : tvec_base :=
  TvecBase 0 ∅ {[ 7 := TimerList 1300 1 0 false; 8 := TimerList 1005 2 0 false ]} 0.

Definition ex_state : tvec_base :=
  do_call 64 (do_call 64 (init_timers_cpu (wrapu 64 1000) ex_base) (CallAdd 7)) (CallAdd 8).

Lemma ex_reachable : reachable 64 (fun _ _ => []) 1000 ex_state.
Proof.
  apply reach_call, reach_call, reach_init. intros t tm. unfold ex_base, timers.
  rewrite lookup_insert_Some, lookup_singleton_Some. naive_solver.
Qed.

Lemma ex_untouched t : untouched (fun _ _ => []) t.
Proof. intros fn dat c Hc. by apply not_elem_of_nil in Hc. Qed.

Lemma timer_fires_on_time_witness :
  7 ∈ f_timer <$> nth 300 (run_ticks 64 (fun _ _ => []) 310 ex_state).2 [].
Proof.
  apply (timer_fires_on_time 64 ltac:(lia) (fun _ _ => []) 1000 ex_state 7 (TimerList 1300 1 0 true) 310 300);
    [exact ex_reachable|apply ex_untouched|vm_compute; reflexivity|reflexivity|lia|vm_compute; reflexivity].
Defined.

Lemma timer_never_early_witness :
  rem 64 (1000 + Z.of_nat 5) 1005 = 0.
Proof.
  apply (timer_never_early 64 ltac:(lia) (fun _ _ => []) 1000 ex_state 6 5 (Fired 8 1005 2 0));
    [exact ex_reachable|vm_compute; left].
Defined.

Lemma wheel_consistent_witness :
  timer_jiffies ex_state = wrapu 64 1000 /\ timer_pending 8 ex_state = true.
Proof.
  split; [apply (wheel_consistent 64 ltac:(lia) (fun _ _ => []) 1000 ex_state ex_reachable)|].
  vm_compute; reflexivity.
Defined.

Lemma run_timers_catches_up_witness :
  timer_jiffies (__run_timers 64 (fun _ _ => []) (replicate 12 1010) ex_state).1.1 = 1011.
Proof.
  pose proof (run_timers_catches_up 64 ltac:(lia) (fun _ _ => []) 10 1000 ex_state ex_reachable
    ltac:(vm_compute; reflexivity)) as H.
  cbv zeta in H. change (wrapu 64 (1000 + Z.of_nat 10)) with 1010 in H.
  change (10 + 2)%nat with 12%nat in H.
  destruct (__run_timers 64 (fun _ _ => []) (replicate 12 1010) ex_state) as [[b' fs] stop].
  destruct H as (_ & H & _). exact H.
Defined.

(** The counter [jhl_timer_num] is not the number of pending timers:
    [cascade] re-adds a timer that it did not detach, so a timer that changes
    level is counted once more than it is discounted.  After the run above no
    timer is pending and the counter is 1. *)
Theorem timer_num_drifts :
  let b := (run_ticks 64 (fun _ _ => []) 310 ex_state).1 in
  jhl_timer_num ex_state = 2 /\
  timer_pending 7 b = false /\ timer_pending 8 b = false /\ jhl_timer_num b = 1.
Proof. vm_compute. auto. Qed.
