(* ===== verification/Registry.v ===== *)
(** * Registry: objects linked into hash chains and lists

    Most of the server's data ([TCP_C/hash.c], [TCP_C/mem.c]) is kept in the
    same way: a heap object embeds one [hlist_node] or [list_head] per index
    it belongs to, and is reached through a chain of a hash table, through a
    list of all objects and through a list per group.  This file holds what
    these indexes have in common.

    An index is named by the embedded field it goes through.  A list head is a
    key [(field, (owner, i))]: element [i] of the head array of object
    [owner], with owner 0 for the global arrays.  A chain or list is the list
    of the addresses of its objects, in traversal order, which is what the
    pointer-level operations of [DList] implement. *)

From S2P Require Import Prelude.
Local Open Scope Z_scope.

Module Registry.

Abbreviation place := (Z * Z)%type.
Abbreviation key := (Z * (Z * Z))%type.

Abbreviation table := (gmap key (list addr)).

Definition tget (t : table) (k : key) : list addr := default [] (t !! k).

(** [INIT_LIST_HEAD], [INIT_HLIST_HEAD] on the [n] heads of an array. *)
Fixpoint init_heads (f owner : Z) (n : nat) (t : table) : table :=
  match n with
  | O => t
  | S n => <[(f, (owner, Z.of_nat n)) := []]> (init_heads f owner n t)
  end.

(** [hlist_add_head] *)
Definition add_head (k : key) (a : addr) (t : table) : table := <[k := a :: tget t k]> t.

(** [list_add_tail] *)
Definition add_tail (k : key) (a : addr) (t : table) : table := <[k := tget t k ++ [a]]> t.

(** [list_del], [list_del_init] and the unlinking of [hlist_del]: the node
    leaves whichever list it is on through field [f]. *)
Definition unlink (f : Z) (a : addr) (t : table) : table :=
  map_imap (fun k l => Some (if decide (k.1 = f) then remove_addr a l else l)) t.

(** [pprev != NULL] for a node that was initialised. *)
Definition is_linked (f : Z) (a : addr) (t : table) : bool :=
  bool_decide (map_Exists (fun k l => k.1 = f /\ a ∈ l) t).

(** [hlist_del] follows [pprev] without a test, so an unhashed node is a null
    dereference; [hlist_del_init] tests it. *)
Definition hlist_del (f : Z) (a : addr) (t : table) : outcome table :=
  if is_linked f a t then Done (unlink f a t) else Fault NullDeref.

Definition hlist_del_init (f : Z) (a : addr) (t : table) : table := unlink f a t.

(** First object of a chain that satisfies a test; every object visited is
    dereferenced. *)
Fixpoint find {T} (h : gmap addr T) (p : T -> bool) (l : list addr) : outcome (option addr) :=
  match l with
  | [] => Done None
  | a :: l =>
      x ← get_or UseAfterFree (h !! a);
      if p x then Done (Some a) else find h p l
  end.

(** [while (pos != head) { x = list_entry(pos); pos = pos->next; del x }]: the
    successor is read before the node is deleted, so the nodes visited are
    those of the list at entry. *)
Fixpoint for_each_safe {S} (body : addr -> S -> outcome S) (l : list addr) (s : S) : outcome S :=
  match l with
  | [] => Done s
  | a :: l => s ← body a s; for_each_safe body l s
  end.

(** A registry: the live objects of one type and the heads that reach them. *)
Record reg (T : Type) := Reg { objs : gmap addr T; tbl : table }.
Arguments Reg {T} objs tbl.
Arguments objs {T} r.
Arguments tbl {T} r.

(** [p->field] for a pointer to an object. *)
Definition deref {T} (s : reg T) (a : addr) : outcome T :=
  if a =? NULL then Fault NullDeref else get_or UseAfterFree (objs s !! a).

(** ** What an index promises

    [indexed t f m]: the lists of field [f] hold exactly the objects of the
    domain of [m], each once, and each at the place [m] gives. *)
Record indexed (t : table) (f : Z) (m : gmap addr place) : Prop := Indexed {
  indexed_nodup : forall k, NoDup (tget t (f, k));
  indexed_at : forall k a, a ∈ tget t (f, k) <-> m !! a = Some k
}.

Lemma tget_insert k k' l t : tget (<[k := l]> t) k' = if decide (k = k') then l else tget t k'.
Proof. unfold tget. rewrite lookup_insert. by case_decide. Qed.

Lemma tget_unlink f a t k :
  tget (unlink f a t) k = if decide (k.1 = f) then remove_addr a (tget t k) else tget t k.
Proof.
  unfold tget, unlink. rewrite map_lookup_imap.
  destruct (t !! k); simpl; by case_decide.
Qed.

Lemma tget_init_heads f o n t k :
  tget t k = [] -> tget (init_heads f o n t) k = [].
Proof.
  intros Ht. induction n as [|n IH]; [done|]. simpl. rewrite tget_insert. by case_decide.
Qed.

Lemma is_linked_spec f a t : is_linked f a t = true <-> exists k, a ∈ tget t (f, k).
Proof.
  unfold is_linked. rewrite bool_decide_eq_true. split.
  - intros ([f' k] & l & E & <- & Ha). exists k. simpl. unfold tget. by rewrite E.
  - intros [k Hk]. unfold tget in Hk. destruct (t !! (f, k)) as [l|] eqn:E.
    + by exists (f, k), l.
    + by apply not_elem_of_nil in Hk.
Qed.

Lemma indexed_empty f : indexed ∅ f ∅.
Proof.
  split; intros; unfold tget; rewrite lookup_empty; [apply NoDup_nil_2|].
  rewrite lookup_empty. simpl. split; [by intros ?%not_elem_of_nil|done].
Qed.

(** Any table whose [f] lists are empty indexes nothing. *)
Lemma indexed_nil t f : (forall k, tget t (f, k) = []) -> indexed t f ∅.
Proof.
  intros Ht. split; intros; rewrite Ht; [apply NoDup_nil_2|].
  rewrite lookup_empty. split; [by intros ?%not_elem_of_nil|done].
Qed.

Lemma indexed_add_head t f m k a :
  m !! a = None -> indexed t f m -> indexed (add_head (f, k) a t) f (<[a := k]> m).
Proof.
  intros Hm [Hn Ha]. split; intros k'; unfold add_head; rewrite tget_insert.
  - case_decide as E; [|apply Hn]. constructor; [|apply Hn]. rewrite Ha. congruence.
  - intros b. rewrite lookup_insert. repeat case_decide; simplify_eq; rewrite ?elem_of_cons, ?Ha;
      naive_solver.
Qed.

Lemma indexed_add_tail t f m k a :
  m !! a = None -> indexed t f m -> indexed (add_tail (f, k) a t) f (<[a := k]> m).
Proof.
  intros Hm [Hn Ha]. split; intros k'; unfold add_tail; rewrite tget_insert.
  - case_decide as E; [|apply Hn]. apply NoDup_app. split_all; [apply Hn| |apply NoDup_singleton].
    intros b Hb ->%list_elem_of_singleton. apply Ha in Hb. congruence.
  - intros b. rewrite lookup_insert.
    repeat case_decide; simplify_eq; rewrite ?elem_of_app, ?list_elem_of_singleton, ?Ha; naive_solver.
Qed.

Lemma indexed_unlink t f m a : indexed t f m -> indexed (unlink f a t) f (delete a m).
Proof.
  intros [Hn Ha]. split; intros k; rewrite tget_unlink; simpl; rewrite decide_True by done.
  - by apply NoDup_remove_addr.
  - intros b. rewrite elem_of_remove_addr, lookup_delete, Ha. case_decide; naive_solver.
Qed.

Lemma indexed_insert_ne t f f' m k l :
  f <> f' -> indexed t f m -> indexed (<[(f', k) := l]> t) f m.
Proof.
  intros Hne [Hn Ha]. split; intros k'; rewrite tget_insert, decide_False by congruence; done.
Qed.

Lemma indexed_unlink_ne t f f' m a : f <> f' -> indexed t f m -> indexed (unlink f' a t) f m.
Proof.
  intros Hne [Hn Ha]. split; intros k'; rewrite tget_unlink; simpl;
    rewrite decide_False by done; done.
Qed.

Lemma indexed_add_head_ne t f f' m k a :
  f <> f' -> indexed t f m -> indexed (add_head (f', k) a t) f m.
Proof. apply indexed_insert_ne. Qed.

Lemma indexed_add_tail_ne t f f' m k a :
  f <> f' -> indexed t f m -> indexed (add_tail (f', k) a t) f m.
Proof. apply indexed_insert_ne. Qed.

(** An indexed object is linked, so [hlist_del] succeeds on it. *)
Lemma indexed_linked t f m a :
  indexed t f m -> is_linked f a t = true <-> is_Some (m !! a).
Proof.
  intros [_ Ha]. rewrite is_linked_spec. split.
  - intros [k Hk]. apply Ha in Hk. by eexists.
  - intros [k Hk]. exists k. by apply Ha.
Qed.

Lemma hlist_del_indexed t f m a :
  indexed t f m -> is_Some (m !! a) -> hlist_del f a t = Done (unlink f a t).
Proof.
  intros Hi Ha. unfold hlist_del. by rewrite (proj2 (indexed_linked t f m a Hi) Ha).
Qed.

(** Two fields of one table index the same heap. *)
Lemma indexed_dom_nil t f m k :
  indexed t f m -> (forall a, m !! a <> Some k) -> tget t (f, k) = [].
Proof.
  intros [_ Ha] Hm. destruct (tget t (f, k)) as [|a l] eqn:E; [done|].
  exfalso. apply (Hm a), Ha. rewrite E. left.
Qed.

Section Find.

Context {T : Type} (h : gmap addr T) (p : T -> bool).

(** On a chain of live objects [find] never faults, and finds an object with
    the property exactly when there is one. *)
Lemma find_spec l :
  (forall a, a ∈ l -> is_Some (h !! a)) ->
  exists r, find h p l = Done r /\
    match r with
    | Some a => a ∈ l /\ exists x, h !! a = Some x /\ p x = true
    | None => forall a x, a ∈ l -> h !! a = Some x -> p x = false
    end.
Proof.
  induction l as [|a l IH]; intros Hl; simpl.
  { exists None. split; [done|]. intros a x Ha. by apply not_elem_of_nil in Ha. }
  destruct (Hl a ltac:(left)) as [x E]. rewrite E. simpl.
  destruct (p x) eqn:Ep; [exists (Some a); split; [done|]; split; [left|eauto]|].
  destruct IH as (r & Er & Hr); [intros; apply Hl; by right|].
  exists r. split; [done|]. destruct r as [b|].
  - destruct Hr as [Hb ?]. split; [by right|done].
  - intros b y [->|Hb]%elem_of_cons Ey; [congruence|by eapply Hr].
Qed.

End Find.

(** Through an index, [find] on the chain where objects with the property
    must be is a search of the whole heap. *)
Lemma find_indexed {T} (h : gmap addr T) (idx : T -> place) t f p k :
  indexed t f (idx <$> h) -> (forall a x, h !! a = Some x -> p x = true -> idx x = k) ->
  exists r, find h p (tget t (f, k)) = Done r /\
    match r with
    | Some a => exists x, h !! a = Some x /\ p x = true
    | None => forall a x, h !! a = Some x -> p x = false
    end.
Proof.
  intros [_ Ha] Hp.
  destruct (find_spec h p (tget t (f, k))) as (r & Er & Hr).
  { intros a Hin. apply Ha in Hin. rewrite lookup_fmap in Hin.
    destruct (h !! a); [by eexists|done]. }
  exists r. split; [done|]. destruct r as [a|]; [by destruct Hr|].
  intros a x E. destruct (p x) eqn:Ep; [|done]. rewrite <- Ep. eapply Hr; [|done].
  apply Ha. rewrite lookup_fmap, E. simpl. f_equal. by eapply Hp.
Qed.

(** Deleting the objects of a list one by one. *)
Lemma for_each_safe_ind {S} (P : list addr -> S -> Prop) body l s :
  P l s ->
  (forall a l s, P (a :: l) s -> exists s', body a s = Done s' /\ P l s') ->
  exists s', for_each_safe body l s = Done s' /\ P [] s'.
Proof.
  intros HP Hstep. revert s HP. induction l as [|a l IH]; intros s HP; simpl; [by eauto|].
  destruct (Hstep a l s HP) as (s' & -> & HP'). simpl. by apply IH.
Qed.

(** A loop that removes the objects of one list removes exactly the objects
    the list selects, and keeps what each removal keeps. *)
Lemma remove_selected {T} (inv : reg T -> Prop) (remove : addr -> reg T -> outcome (reg T))
    (sel : T -> Prop) l s0 :
  (forall s a x, inv s -> objs s !! a = Some x ->
     exists s', remove a s = Done s' /\ inv s' /\ objs s' = delete a (objs s)) ->
  inv s0 -> NoDup l -> (forall a, a ∈ l <-> exists x, objs s0 !! a = Some x /\ sel x) ->
  exists s', for_each_safe remove l s0 = Done s' /\ inv s' /\
    forall a x, objs s' !! a = Some x <-> objs s0 !! a = Some x /\ ~ sel x.
Proof.
  intros Hrm Hinv Hnd Hl.
  destruct (for_each_safe_ind (fun l s => inv s /\ NoDup l /\
    (forall a, a ∈ l -> exists x, objs s0 !! a = Some x /\ sel x) /\
    (forall a x, objs s !! a = Some x <-> objs s0 !! a = Some x /\ (sel x -> a ∈ l))) remove l s0)
    as (s' & E & Hi & _ & _ & Hs').
  - split_all; [done..|intros a; apply Hl|].
    intros a x. split; [|tauto]. intros E. split; [done|]. intros Hs. apply Hl. by exists x.
  - intros a l' s (Hi & Hn & Hsel & Ho). apply NoDup_cons in Hn as [Ha Hn].
    destruct (Hsel a ltac:(left)) as (x & Ex & Hx).
    assert (objs s !! a = Some x) as Ex' by (apply Ho; split; [done|left]).
    destruct (Hrm s a x Hi Ex') as (s' & E & Hi' & Eo).
    exists s'. split; [done|]. split_all; [done..|intros b Hb; apply Hsel; by right|].
    intros b y. rewrite Eo, lookup_delete_Some, Ho, elem_of_cons. split.
    + intros (Hne & E0 & Hin). split; [done|]. intros Hs. destruct (Hin Hs); [congruence|done].
    + intros [E0 Hin]. split_all; [|done|tauto]. intros <-.
      rewrite Ex in E0. injection E0 as <-. by apply Ha, Hin.
  - exists s'. split_all; [done..|]. intros a x. rewrite Hs'. split; [|tauto].
    intros [E0 Hin]. split; [done|]. intros Hs. by apply Hin, not_elem_of_nil in Hs.
Qed.

End Registry.

(** Proves that an index survives a sequence of updates of the table, from
    the index before them. *)
Ltac indexed_tac :=
  lazymatch goal with
  | |- Registry.indexed (Registry.add_head (?f, _) _ _) ?f _ => apply Registry.indexed_add_head
  | |- Registry.indexed (Registry.add_tail (?f, _) _ _) ?f _ => apply Registry.indexed_add_tail
  | |- Registry.indexed (Registry.unlink ?f _ _) ?f _ => apply Registry.indexed_unlink
  | |- Registry.indexed (Registry.add_head _ _ _) _ _ =>
      apply Registry.indexed_add_head_ne; [discriminate|]
  | |- Registry.indexed (Registry.add_tail _ _ _) _ _ =>
      apply Registry.indexed_add_tail_ne; [discriminate|]
  | |- Registry.indexed (Registry.unlink _ _ _) _ _ =>
      apply Registry.indexed_unlink_ne; [discriminate|]
  end.

#[export] Hint Resolve Registry.indexed_add_head_ne Registry.indexed_add_tail_ne
  Registry.indexed_unlink_ne Registry.indexed_unlink : ww.
