(* ===== verification/Tables.v ===== *)
(** * Tables: the pointer code behind the tables of records

    The components of [hash.c] are written on the tables of [Registry]: a list
    of objects per list head.  Their code works on memory, with the operations
    of [list.h] on nodes embedded in the objects.  [PointerLists] is what the
    tables ask of such an implementation; the circular lists and the hash
    chains of [DList] are its two instances; and [table_implemented] is the
    refinement that follows from the interface alone. *)

From S2P Require Import Prelude DList Registry.
Import Registry.
Local Open Scope Z_scope.

(** ** The interface *)

(** A memory [M] with lists of nodes that hang on list heads. *)
Class PointerLists (M : Type) := {
  holds_list : M -> addr -> list addr -> Prop;
  allocated : M -> addr -> Prop;
  insert_node : addr -> addr -> M -> option M;       (** the node, the head *)
  delete_node : addr -> M -> option M;
  walk : nat -> addr -> M -> option (list addr);
  (** where an inserted node ends up, and the operation on tables it is *)
  inserted : addr -> list addr -> list addr;
  table_add : key -> addr -> table -> table;

  holds_nodup h head xs : holds_list h head xs -> NoDup (head :: xs);
  insert_law h head xs n :
    holds_list h head xs -> allocated h n -> n <> NULL -> n ∉ head :: xs ->
    exists h', insert_node n head h = Some h' /\ holds_list h' head (inserted n xs) /\
      (forall head' ys, holds_list h head' ys -> (forall a, a ∈ head' :: ys -> a ∉ n :: head :: xs) ->
         holds_list h' head' ys) /\
      (forall a, allocated h a -> allocated h' a);
  delete_law h head xs n ys :
    holds_list h head (xs ++ n :: ys) ->
    exists h', delete_node n h = Some h' /\ holds_list h' head (xs ++ ys) /\
      (forall head' zs, holds_list h head' zs -> (forall a, a ∈ head' :: zs -> a ∉ n :: head :: xs ++ ys) ->
         holds_list h' head' zs) /\
      (forall a, allocated h a -> allocated h' a);
  walk_law h head xs fuel : holds_list h head xs -> (length xs <= fuel)%nat -> walk fuel head h = Some xs;
  inserted_elem n xs a : a ∈ inserted n xs <-> a = n \/ a ∈ xs;
  inserted_map (g : addr -> addr) n xs : inserted (g n) (g <$> xs) = g <$> inserted n xs;
  table_add_spec k a t : table_add k a t = <[k := inserted a (tget t k)]> t
}.

(** ** The circular lists *)

#[global] Instance list_head_lists : PointerLists ListHead.mem.
Proof.
  refine {|
    holds_list := ListHead.dll; allocated := ListHead.node; insert_node := ListHead.list_add_tail;
    delete_node := ListHead.list_del; walk := ListHead.list_for_each;
    inserted := fun n xs => xs ++ [n]; table_add := add_tail |}.
  - by intros h head xs [? _].
  - intros h head xs n Hl Hn _ Hni. destruct (ListHead.list_add_tail_spec h head xs n Hl Hn Hni) as (h' & E & Hl' & Hf).
    exists h'. split; [done|]. split; [done|]. split; [|apply Hf]. intros head' ys Hy Hd. by eapply ListHead.dll_frame.
  - intros h head xs n ys Hl. destruct (ListHead.list_del_spec h head xs n ys Hl) as (h' & E & Hl' & Hf & _).
    exists h'. split; [done|]. split; [done|]. split; [|apply Hf]. intros head' zs Hy Hd. by eapply ListHead.dll_frame.
  - intros h head xs fuel. apply ListHead.list_for_each_spec.
  - intros n xs a. rewrite elem_of_app, list_elem_of_singleton. tauto.
  - intros g n xs. by rewrite fmap_app.
  - done.
Defined.

(** ** The hash chains *)

Lemma set_cell_node a v h h' x : HList.set_cell a v h = Some h' -> HList.node h x -> HList.node h' x.
Proof.
  unfold HList.set_cell, HList.node. intros (m & E & [= <-])%bind_Some [Hc Hp]. simpl. split; [|done].
  unfold ListHead.wr in E. destruct (HList.cell h !! a); [|done]. injection E as <-.
  rewrite lookup_insert. case_decide; [by eexists|done].
Qed.

Lemma set_pprev_node a v h h' x : HList.set_pprev a v h = Some h' -> HList.node h x -> HList.node h' x.
Proof.
  unfold HList.set_pprev, HList.node. intros (m & E & [= <-])%bind_Some [Hc Hp]. simpl. split; [done|].
  unfold ListHead.wr in E. destruct (HList.pprev h !! a); [|done]. injection E as <-.
  rewrite lookup_insert. case_decide; [by eexists|done].
Qed.

(** Run a sequence of stores through the two lemmas. *)
Ltac nodes_kept :=
  repeat match goal with
  | H : _ ≫= _ = Some _ |- _ => apply bind_Some in H as (? & ? & H)
  | H : (if ?c then _ else _) = Some _ |- _ => destruct c
  | H : Some _ = Some _ |- _ => injection H as <-
  end;
  repeat match goal with
  | H : HList.set_cell _ _ _ = Some ?h |- HList.node ?h _ => eapply set_cell_node; [exact H|]
  | H : HList.set_pprev _ _ _ = Some ?h |- HList.node ?h _ => eapply set_pprev_node; [exact H|]
  end; try done.

Lemma add_head_node n head h h' a : HList.hlist_add_head n head h = Some h' -> HList.node h a -> HList.node h' a.
Proof. unfold HList.hlist_add_head. intros H Ha. nodes_kept. Qed.

Lemma hdel_node n h h' a : HList.hlist_del n h = Some h' -> HList.node h a -> HList.node h' a.
Proof. unfold HList.hlist_del, HList.__hlist_del. intros H Ha. nodes_kept. Qed.

#[global] Instance hlist_lists : PointerLists HList.mem.
Proof.
  refine {|
    holds_list := HList.hll; allocated := HList.node; insert_node := HList.hlist_add_head;
    delete_node := HList.hlist_del; walk := HList.hlist_for_each;
    inserted := cons; table_add := add_head |}.
  - by intros h head xs [? _].
  - intros h head xs n Hl Hn H0 Hni. destruct (HList.hlist_add_head_spec h head xs n Hl Hn Hni H0) as (h' & E & Hl' & Hf).
    exists h'. split; [done|]. split; [done|]. split; [|intros a; by apply (add_head_node n head)].
    intros head' ys Hy Hd. by eapply HList.hll_frame.
  - intros h head xs n ys Hl. destruct (HList.hlist_del_spec h head xs n ys Hl) as (h' & E & Hl' & Hf).
    exists h'. split; [done|]. split; [done|]. split; [|intros a; by apply (hdel_node n)].
    intros head' zs Hy Hd. by eapply HList.hll_frame.
  - intros h head xs fuel. apply HList.hlist_for_each_spec.
  - intros n xs a. apply elem_of_cons.
  - done.
  - done.
Defined.

(** ** Tables in memory *)

Inductive tcmd := TAdd (k : place) (a : addr) | TDel (a : addr).

Section Implemented.

Context {M : Type} `{!PointerLists M}.

(** The index [f] of the objects [O] with the list heads [K]: where a head is,
    and where the node of an object is. *)
Context (f : Z) (O : gset Z) (K : gset place) (wh : place -> addr) (nd : addr -> addr).

(** The operation on the table; [None] when the object is not one of the
    table's, is on a list already, or on none when it is to be deleted. *)
Definition tstep (c : tcmd) (t : table) : option table :=
  match c with
  | TAdd k a =>
    if bool_decide (is_Some (t !! (f, k)) /\ a ∈ O) && negb (is_linked f a t) then Some (table_add (f, k) a t) else None
  | TDel a => if is_linked f a t then Some (unlink f a t) else None
  end.

(** The pointer code. *)
Definition pstep (c : tcmd) (h : M) : option M :=
  match c with
  | TAdd k a => insert_node (nd a) (wh k) h
  | TDel a => delete_node (nd a) h
  end.

Fixpoint runs {S} (step : tcmd -> S -> option S) (cs : list tcmd) (s : S) : option S :=
  match cs with [] => Some s | c :: cs => s ← step c s; runs step cs s end.

(** Heads and nodes are different places in memory. *)
Record layout : Prop := {
  heads_inj k k' : k ∈ K -> k' ∈ K -> wh k = wh k' -> k = k';
  nodes_inj a a' : a ∈ O -> a' ∈ O -> nd a = nd a' -> a = a';
  heads_nodes k a : k ∈ K -> a ∈ O -> wh k <> nd a;
  nodes_real a : a ∈ O -> nd a <> NULL
}.

Record shows (h : M) (t : table) : Prop := {
  shows_lists k l : t !! (f, k) = Some l -> holds_list h (wh k) (nd <$> l);
  shows_head k l : t !! (f, k) = Some l -> k ∈ K /\ forall a, a ∈ l -> a ∈ O;
  shows_alloc a : a ∈ O -> allocated h (nd a);
  shows_once k k' a : a ∈ tget t (f, k) -> a ∈ tget t (f, k') -> k = k'
}.

Hypothesis Hlay : layout.

Lemma node_in a (l : list addr) : a ∈ O -> (forall x, x ∈ l -> x ∈ O) -> nd a ∈ nd <$> l <-> a ∈ l.
Proof.
  intros Ha Hl. rewrite list_elem_of_fmap. split; [|by eexists]. intros (b & E & Hb).
  by apply (nodes_inj Hlay) in E as ->; [| |apply Hl].
Qed.

Lemma tget_some t k l : t !! (f, k) = Some l -> tget t (f, k) = l.
Proof. unfold tget. by intros ->. Qed.

Lemma head_not_node k a (l : list addr) : k ∈ K -> (forall x, x ∈ l -> x ∈ O) -> wh k = a -> a ∉ nd <$> l.
Proof.
  intros Hk Hl <- Hx. apply list_elem_of_fmap in Hx as (b & E & Hb). by apply (heads_nodes Hlay) in E; [| |apply Hl].
Qed.

(** Lists of different places share neither a node nor a head. *)
Lemma lists_apart h t k k' l l' :
  shows h t -> t !! (f, k) = Some l -> t !! (f, k') = Some l' -> k <> k' ->
  forall x, x ∈ wh k' :: (nd <$> l') -> x ∉ wh k :: (nd <$> l).
Proof.
  intros Hs El El' Hne x Hx Hx'. destruct (shows_head h t Hs _ _ El) as [HK HO].
  destruct (shows_head h t Hs _ _ El') as [HK' HO'].
  apply elem_of_cons in Hx as [->|Hx]; apply elem_of_cons in Hx' as [E|Hx'].
  - by apply (heads_inj Hlay) in E.
  - by apply (head_not_node k' _ l HK' HO eq_refl) in Hx'.
  - subst x. by apply (head_not_node k _ l' HK HO' eq_refl) in Hx.
  - apply list_elem_of_fmap in Hx as (a & -> & Ha). apply (node_in a l (HO' a Ha) HO) in Hx'. apply Hne.
    apply (shows_once h t Hs k k' a); [by rewrite (tget_some _ _ _ El)|by rewrite (tget_some _ _ _ El')].
Qed.

Lemma add_shows h t k a t' :
  shows h t -> tstep (TAdd k a) t = Some t' -> exists h', pstep (TAdd k a) h = Some h' /\ shows h' t'.
Proof.
  intros Hs E. unfold tstep in E. destruct (bool_decide_reflect (is_Some (t !! (f, k)) /\ a ∈ O)) as [[[l El] Ha]|]; [|done].
  simpl in E. destruct (is_linked f a t) eqn:Hlk; [done|]. injection E as <-.
  assert (forall k, a ∉ tget t (f, k)) as Hfree.
  { intros k' Hk. assert (is_linked f a t = true) by (apply is_linked_spec; eauto). congruence. }
  pose proof (Hfree k) as Hal. rewrite (tget_some _ _ _ El) in Hal. destruct (shows_head h t Hs _ _ El) as [HK HO].
  destruct (insert_law h (wh k) (nd <$> l) (nd a)) as (h' & E & Hl & Hfr & Hal').
  { by apply (shows_lists h t Hs). }
  { by apply (shows_alloc h t Hs). }
  { by apply (nodes_real Hlay). }
  { rewrite elem_of_cons, node_in by done. intros [E|?]; [|done]. by apply eq_sym, (heads_nodes Hlay) in E. }
  exists h'. split; [done|]. rewrite table_add_spec, (tget_some _ _ _ El). split.
  - intros k' l'. rewrite lookup_insert. case_decide as Hk.
    + injection Hk as <-. intros [= <-]. by rewrite <- inserted_map.
    + intros El'. destruct (shows_head h t Hs _ _ El') as [HK' HO'].
      apply Hfr; [by apply (shows_lists h t Hs)|]. intros x Hx. rewrite not_elem_of_cons. split.
      * intros ->. apply elem_of_cons in Hx as [E'|Hx]; [by apply eq_sym, (heads_nodes Hlay) in E'|].
        apply (node_in a l' Ha HO') in Hx. apply (Hfree k'). by rewrite (tget_some _ _ _ El').
      * apply (lists_apart h t k k' l l' Hs El El'); [congruence|done].
  - intros k' l'. rewrite lookup_insert. case_decide as Hk; [|by apply (shows_head h t Hs)].
    injection Hk as <-. intros [= <-]. split; [done|]. intros x. rewrite inserted_elem. intros [->|]; auto.
  - intros x Hx. by apply Hal', (shows_alloc h t Hs).
  - intros k1 k2 x. rewrite !tget_insert. pose proof (shows_once h t Hs) as Ho. rewrite <- (tget_some _ _ _ El).
    repeat case_decide; rewrite ?inserted_elem; intros; naive_solver.
Qed.

Lemma del_shows h t a t' :
  shows h t -> tstep (TDel a) t = Some t' -> exists h', pstep (TDel a) h = Some h' /\ shows h' t'.
Proof.
  intros Hs E. unfold tstep in E. destruct (is_linked f a t) eqn:Hlk; [|done]. injection E as <-.
  apply is_linked_spec in Hlk as [k Hk]. pose proof Hk as Hk'. unfold tget in Hk'.
  destruct (t !! (f, k)) as [l|] eqn:El; [|by apply not_elem_of_nil in Hk']. simpl in Hk'.
  apply list_elem_of_split in Hk' as (l1 & l2 & ->). pose proof (shows_lists h t Hs k _ El) as Hl.
  pose proof (holds_nodup _ _ _ Hl) as Hnd. apply NoDup_cons in Hnd as [_ Hnd]. apply NoDup_fmap_1 in Hnd.
  rewrite fmap_app in Hl. simpl in Hl. destruct (delete_law _ _ _ _ _ Hl) as (h' & E & Hl' & Hfr & Hal').
  assert (forall k' l', unlink f a t !! (f, k') = Some l' -> exists l0, t !! (f, k') = Some l0 /\ l' = remove_addr a l0) as Hun.
  { intros k' l'. unfold unlink. rewrite map_lookup_imap. intros (l0 & El0 & E0)%bind_Some. exists l0. split; [done|].
    rewrite decide_True in E0 by done. by injection E0 as <-. }
  exists h'. split; [done|]. split.
  - intros k' l' (l0 & El0 & ->)%Hun. destruct (decide (k' = k)) as [->|Hne].
    + rewrite El in El0. injection El0 as <-. rewrite remove_addr_mid by done. by rewrite fmap_app.
    + rewrite remove_addr_notin.
      * apply Hfr; [by apply (shows_lists h t Hs)|]. intros x Hx Hx'.
        apply (lists_apart h t k k' _ _ Hs El El0 ltac:(congruence) x Hx). rewrite fmap_app. simpl. set_solver.
      * intros Ha. apply Hne, (shows_once h t Hs k' k a); [by rewrite (tget_some _ _ _ El0)|done].
  - intros k' l' (l0 & El0 & ->)%Hun. destruct (shows_head h t Hs _ _ El0) as [HK HO]. split; [done|].
    intros x [_ Hx]%elem_of_remove_addr. auto.
  - intros x Hx. by apply Hal', (shows_alloc h t Hs).
  - intros k1 k2 x. rewrite !tget_unlink, !decide_True by done. rewrite !elem_of_remove_addr.
    intros [_ H1] [_ H2]. by apply (shows_once h t Hs k1 k2 x).
Qed.

Lemma table_runs cs : forall h t t',
  shows h t -> runs tstep cs t = Some t' -> exists h', runs pstep cs h = Some h' /\ shows h' t'.
Proof.
  induction cs as [|c cs IH]; intros h t t' Hs E; simpl in E.
  { injection E as <-. by exists h. }
  apply bind_Some in E as (t1 & E1 & E).
  assert (exists h1, pstep c h = Some h1 /\ shows h1 t1) as (h1 & E2 & Hs1)
    by (destruct c; [by apply (add_shows h t)|by apply (del_shows h t)]).
  destruct (IH _ _ _ Hs1 E) as (h' & E' & Hs'). exists h'. cbn [runs]. by rewrite E2.
Qed.

(** C2. The tables are implemented by the pointer code: whichever sequence of
    insertions and deletions an index goes through, the operations of [list.h]
    on the embedded nodes succeed, and traversing a list head afterwards
    visits the nodes of exactly the objects the table lists there, in its
    order.  It holds for every implementation of the interface, so for the
    circular lists and for the hash chains. *)
Theorem table_implemented cs h t t' :
  shows h t -> runs tstep cs t = Some t' ->
  exists h', runs pstep cs h = Some h' /\
    forall k l fuel, t' !! (f, k) = Some l -> (length l <= fuel)%nat -> walk fuel (wh k) h' = Some (nd <$> l).
Proof.
  intros Hs E. destruct (table_runs cs h t t' Hs E) as (h' & E' & Hs'). exists h'. split; [done|].
  intros k l fuel El Hf. apply walk_law; [by apply (shows_lists h' t' Hs')|by rewrite length_fmap].
Qed.

End Implemented.

(** ** Instances *)

(** Two chains with heads at 8 and 16, two objects with the node 4 bytes in. *)
Definition ex_wh (k : place) : addr := 8 + 8 * k.2.
Definition ex_nd (a : addr) : addr := a + 4.
Definition ex_K : gset place := {[(0, 0); (0, 1)]}.
Definition ex_O : gset Z := {[100; 200]}.
Definition ex_table : table := {[(1, (0, 0)) := []; (1, (0, 1)) := []]}.
Definition ex_after : table := {[(1, (0, 0)) := [100]; (1, (0, 1)) := [200]]}.
Definition ex_mem : HList.mem :=
  HList.Mem (list_to_map [(8, 0); (16, 0); (104, 0); (204, 0)]) (list_to_map [(104, 0); (204, 0)]).

Lemma ex_layout : layout ex_O ex_K ex_wh ex_nd.
Proof.
  unfold ex_O, ex_K, ex_wh, ex_nd. split.
  - intros k k' Hk Hk'. rewrite !elem_of_union, !elem_of_singleton in *. destruct Hk as [->| ->], Hk' as [->| ->]; done.
  - intros. lia.
  - intros k a Hk Ha. rewrite !elem_of_union, !elem_of_singleton in *. destruct Hk as [->| ->], Ha as [->| ->]; done.
  - intros a Ha. rewrite !elem_of_union, !elem_of_singleton in *. destruct Ha as [->| ->]; done.
Qed.

Lemma ex_table_empty k l : ex_table !! (1, k) = Some l -> (k = (0, 0) \/ k = (0, 1)) /\ l = [].
Proof.
  unfold ex_table. rewrite lookup_insert_Some, lookup_singleton_Some. naive_solver.
Qed.

Lemma ex_shows : shows 1 ex_O ex_K ex_wh ex_nd ex_mem ex_table.
Proof.
  split.
  - intros k l ([->| ->] & ->)%ex_table_empty; apply HList.hll_intro; try reflexivity; simpl;
      try apply NoDup_singleton; apply not_elem_of_nil.
  - intros k l (Hk & ->)%ex_table_empty. split; [destruct Hk as [->| ->]; vm_compute; reflexivity|].
    by intros a ?%not_elem_of_nil.
  - intros a Ha. unfold ex_O in Ha. rewrite !elem_of_union, !elem_of_singleton in Ha.
    destruct Ha as [->| ->]; split; vm_compute; by eexists.
  - intros k k' a Ha. unfold tget in Ha. destruct (ex_table !! (1, k)) as [l|] eqn:E; [|by apply not_elem_of_nil in Ha].
    apply ex_table_empty in E as [_ ->]. by apply not_elem_of_nil in Ha.
Qed.

Lemma table_implemented_witness :
  exists h', runs (pstep ex_wh ex_nd) [TAdd (0, 1) 100; TAdd (0, 1) 200; TDel 100; TAdd (0, 0) 100] ex_mem = Some h' /\
    HList.hlist_for_each 5 16 h' = Some [204] /\ HList.hlist_for_each 5 8 h' = Some [104].
Proof.
  destruct (table_implemented 1 ex_O ex_K ex_wh ex_nd ex_layout
    [TAdd (0, 1) 100; TAdd (0, 1) 200; TDel 100; TAdd (0, 0) 100] ex_mem ex_table
    ex_after ex_shows ltac:(vm_compute; reflexivity)) as (h' & E & Hw).
  exists h'. split; [exact E|]. split.
  - apply (Hw (0, 1) [200] 5%nat); [reflexivity|simpl; lia].
  - apply (Hw (0, 0) [100] 5%nat); [reflexivity|simpl; lia].
Defined.
