(* ===== verification/Mem.v ===== *)
(** * Mem: the tracking allocator of [TCP_C/mem.c]

    Every block handed out by [_malloc] has a [mem_info] record in the hash
    table [wys_meminfo_hash], keyed by the low bits of the block's address;
    [total_mem_size] is meant to be the number of bytes handed out.  The
    results of the C library's [malloc] and [realloc] are arguments of the
    operations; [live] is the C library's heap, so that releasing a block that
    is not allocated is a fault.  The read/write locks are not modelled: the
    operations are run one at a time. *)

From S2P Require Import Prelude Registry.
Import Registry.
Local Open Scope Z_scope.

Module Mem.

Definition MEM_HASH_MASK : Z := 0x3FF.
Definition MEM_HASH_MAX : Z := MEM_HASH_MASK + 1.
Definition FNAME_MAX_LEN : Z := 0x20.

Record mem_info := MemInfo {
  mi_addr : addr;
  mi_size : Z;
  mi_line : Z;
  mi_fname : list Z
}.

Record mem := MkMem {
  infos : gmap addr mem_info;
  meminfo_hash : table;
  total_mem_size : Z;
  (** the C library's heap: block and size *)
  live : gmap addr Z;
  (** the lines of the failed [ASSERT]s, which print "Double Free!" *)
  reports : list Z
}.

(** ** The C library *)

Definition malloc (r size : Z) (s : mem) : mem :=
  if r =? NULL then s
  else MkMem (infos s) (meminfo_hash s) (total_mem_size s) (<[r := size]> (live s)) (reports s).

Definition free (a : addr) (s : mem) : outcome mem :=
  if a =? NULL then Done s
  else match live s !! a with
       | None => Fault UseAfterFree
       | Some _ => Done (MkMem (infos s) (meminfo_hash s) (total_mem_size s)
                               (delete a (live s)) (reports s))
       end.

Definition realloc (a size r : Z) (s : mem) : outcome mem :=
  match live s !! a with
  | None => Fault UseAfterFree
  | Some _ =>
      if r =? NULL then Done s
      else Done (MkMem (infos s) (meminfo_hash s) (total_mem_size s)
                       (<[r := size]> (delete a (live s))) (reports s))
  end.

(** ** The hash table of records *)

Definition F_INFO : Z := 0.

Definition _get_hash (a : addr) : key := (F_INFO, (0, Z.land (u32 a) MEM_HASH_MASK)).

Definition _enter_hash (i : addr) (s : mem) : outcome mem :=
  x ← get_or UseAfterFree (infos s !! i);
  Done (MkMem (infos s) (add_head (_get_hash (mi_addr x)) i (meminfo_hash s))
              (total_mem_size s) (live s) (reports s)).

(** [_out_hash] on a null pointer reads [info->hash_to.pprev]. *)
Definition _out_hash (i : addr) (s : mem) : outcome mem :=
  if i =? NULL then Fault NullDeref
  else Done (MkMem (infos s) (hlist_del_init F_INFO i (meminfo_hash s))
                   (total_mem_size s) (live s) (reports s)).

Definition _find_hash (a : addr) (s : mem) : outcome (option addr) :=
  find (infos s) (fun x => mi_addr x =? a) (tget (meminfo_hash s) (_get_hash a)).

Definition set_total (z : Z) (s : mem) : mem :=
  MkMem (infos s) (meminfo_hash s) z (live s) (reports s).

Definition set_info (i : addr) (x : mem_info) (s : mem) : mem :=
  MkMem (<[i := x]> (infos s)) (meminfo_hash s) (total_mem_size s) (live s) (reports s).

(** The record itself is a block of the C library. *)
Definition free_info (i : addr) (s : mem) : outcome mem :=
  s ← free i s;
  Done (MkMem (delete i (infos s)) (meminfo_hash s) (total_mem_size s) (live s) (reports s)).

Definition ASSERT (ok : bool) (line : Z) (s : mem) : mem :=
  if ok then s
  else MkMem (infos s) (meminfo_hash s) (total_mem_size s) (live s) (reports s ++ [line]).

(** [strncpy (dst, fname, FNAME_MAX_LEN)] and the terminator in the last byte. *)
Definition copy_fname (fname : list Z) : list Z := take (Z.to_nat (FNAME_MAX_LEN - 1)) fname.

Section Alloc.

(** [sizeof (mem_info_t)] *)
Context (sizeof_info : Z).

(** [a] and [i] are the results of the two calls of [malloc]. *)
Definition _malloc (size : Z) (fname : list Z) (line : Z) (a i : addr) (s : mem) :
    outcome (addr * mem) :=
  let s := malloc a size s in
  if a =? NULL then Done (NULL, s) else
  let s := malloc i sizeof_info s in
  if i =? NULL then
    s ← free a s; Done (NULL, s)
  else
    let s := set_info i (MemInfo a size line (copy_fname fname)) s in
    let s := set_total (s32 (total_mem_size s + size)) s in
    s ← _enter_hash i s; Done (a, s).

(** The three statements that end the life of a tracked block. *)
Definition forget (i ptr : addr) (s : mem) : outcome mem :=
  s ← _out_hash i s;
  x ← get_or UseAfterFree (infos s !! i);
  let s := set_total (s32 (total_mem_size s - mi_size x)) s in
  s ← free_info i s; free ptr s.

(** [r] is the result of the C library's [realloc]. *)
Definition _realloc (ptr size : Z) (fname : list Z) (line : Z) (a i r : addr) (s : mem) :
    outcome (addr * mem) :=
  if ptr =? NULL then _malloc size fname line a i s
  else if size =? 0 then
    info ← _find_hash ptr s;
    let s := ASSERT (bool_decide (info <> None)) line s in
    s ← forget (default NULL info) ptr s;
    Done (NULL, s)
  else
    info ← _find_hash ptr s;
    match info with
    | None => Done (NULL, s)
    | Some i =>
        x ← get_or UseAfterFree (infos s !! i);
        let s := ASSERT (mi_size x <=? size) line s in
        if mi_size x =? size then Done (mi_addr x, s)
        else
          s ← realloc ptr size r s;
          if r =? NULL then
            tmp ← _find_hash ptr s;
            let s := ASSERT (bool_decide (tmp <> None)) line s in
            s ← forget (default NULL tmp) ptr s;
            Done (NULL, s)
          else
            let s := set_total (s32 (total_mem_size s + u32 (size - mi_size x))) s in
            if r =? mi_addr x then
              Done (r, set_info i (MemInfo (mi_addr x) size (mi_line x) (mi_fname x)) s)
            else
              s ← _out_hash i s;
              s ← _enter_hash i (set_info i (MemInfo r size line (copy_fname fname)) s);
              Done (r, s)
    end.

Definition _free (ptr : addr) (line : Z) (s : mem) : outcome mem :=
  if ptr =? NULL then Done s
  else
    info ← _find_hash ptr s;
    let s := ASSERT (bool_decide (info <> None)) line s in
    match info with
    | None => Done s
    | Some i =>
        x ← get_or UseAfterFree (infos s !! i);
        let s := set_total (s32 (total_mem_size s - mi_size x)) s in
        s ← _out_hash i s; s ← free_info i s; free ptr s
    end.

Definition wys_mem_init (s : mem) : mem :=
  MkMem (infos s) (init_heads F_INFO 0 (Z.to_nat MEM_HASH_MAX) (meminfo_hash s))
        (total_mem_size s) (live s) (reports s).

(** The table [wys_show_mem_info] prints: the total and one row per record,
    bucket by bucket. *)
Definition wys_show_mem_info (s : mem) : outcome (Z * list mem_info) :=
  let fix rows (l : list addr) : outcome (list mem_info) :=
    match l with
    | [] => Done []
    | i :: l => x ← get_or UseAfterFree (infos s !! i); xs ← rows l; Done (x :: xs)
    end in
  let heads := (fun i => (F_INFO, (0, Z.of_nat i))) <$> seq 0 (Z.to_nat MEM_HASH_MAX) in
  xs ← rows (concat (tget (meminfo_hash s) <$> heads));
  Done (total_mem_size s, xs).

End Alloc.

End Mem.
