(* ===== verification/MemFacts.v ===== *)
(** * MemFacts: the tracking allocator keeps exact books

    The abstract view of the allocator is a map from the blocks handed out to
    their sizes.  Every operation of [Mem] implements the corresponding update
    of that map, [total_mem_size] is its sum (in an [int]), and the C
    library's heap is never misused. *)

From S2P Require Import Prelude Registry Mem.
Import Registry Mem.
Local Open Scope Z_scope.

Section Facts.

Context (sizeof_info : Z).

(** ** Specification *)

Abbreviation blocks := (gmap addr Z).

Definition total (B : blocks) : Z := map_fold (fun _ n acc => n + acc) 0 B.

Inductive cmd :=
| Malloc (size : Z) (fname : list Z) (line : Z) (a i : addr)
| Realloc (ptr size : Z) (fname : list Z) (line : Z) (a i r : addr)
| Free (ptr line : Z).

Definition spec_malloc (size a i : Z) (B : blocks) : addr * blocks :=
  if (a =? NULL) || (i =? NULL) then (NULL, B) else (a, <[a := size]> B).

Definition spec_step (c : cmd) (B : blocks) : addr * blocks :=
  match c with
  | Malloc size _ _ a i => spec_malloc size a i B
  | Realloc ptr size _ _ a i r =>
      if ptr =? NULL then spec_malloc size a i B
      else if size =? 0 then (NULL, delete ptr B)
      else match B !! ptr with
           | None => (NULL, B)
           | Some n =>
               if n =? size then (ptr, B)
               else if r =? NULL then (NULL, delete ptr B)
               else (r, <[r := size]> (delete ptr B))
           end
  | Free ptr _ => (NULL, delete ptr B)
  end.

Definition step (c : cmd) (s : mem) : outcome (addr * mem) :=
  match c with
  | Malloc size fname line a i => _malloc sizeof_info size fname line a i s
  | Realloc ptr size fname line a i r => _realloc sizeof_info ptr size fname line a i r s
  | Free ptr line => s ← _free ptr line s; Done (NULL, s)
  end.

Fixpoint run (cs : list cmd) (s : mem) : outcome (list addr * mem) :=
  match cs with
  | [] => Done ([], s)
  | c :: cs => '(r, s) ← step c s; '(rs, s) ← run cs s; Done (r :: rs, s)
  end.

Fixpoint spec_run (cs : list cmd) (B : blocks) : list addr * blocks :=
  match cs with
  | [] => ([], B)
  | c :: cs =>
      let '(r, B) := spec_step c B in
      let '(rs, B) := spec_run cs B in (r :: rs, B)
  end.

(** What the C library promises about its results: a new block is not in use. *)
Definition fresh_pair (a i : addr) (s : mem) : Prop :=
  (a <> NULL -> live s !! a = None) /\ (i <> NULL -> live s !! i = None /\ i <> a).

(** A block the allocator has a record of. *)
Definition tracked (s : mem) (a : addr) (n : Z) : Prop :=
  exists i x, infos s !! i = Some x /\ mi_addr x = a /\ mi_size x = n.

Definition allowed (c : cmd) (s : mem) : Prop :=
  match c with
  | Malloc _ _ _ a i => fresh_pair a i s
  | Realloc ptr size _ _ a i r =>
      (ptr = NULL -> fresh_pair a i s) /\
      (r <> NULL -> r = ptr \/ live s !! r = None) /\
      (ptr <> NULL -> size = 0 -> exists n, tracked s ptr n)
  | Free _ _ => True
  end.

Fixpoint valid (cs : list cmd) (s : mem) : Prop :=
  match cs with
  | [] => True
  | c :: cs => allowed c s /\ forall r s', step c s = Done (r, s') -> valid cs s'
  end.

(** ** The invariant *)

Definition info_place (x : mem_info) : place := (_get_hash (mi_addr x)).2.

Record inv (s : mem) (B : blocks) : Prop := {
  inv_hash : indexed (meminfo_hash s) F_INFO (info_place <$> infos s);
  inv_blocks : forall a n, B !! a = Some n <-> tracked s a n;
  inv_uniq : forall i j x y, infos s !! i = Some x -> infos s !! j = Some y ->
    mi_addr x = mi_addr y -> i = j;
  inv_live : forall i x, infos s !! i = Some x ->
    is_Some (live s !! i) /\ is_Some (live s !! mi_addr x) /\ i <> NULL /\ mi_addr x <> NULL;
  inv_disj : forall i j x y, infos s !! i = Some x -> infos s !! j = Some y -> i <> mi_addr y;
  inv_total : total_mem_size s = s32 (total B)
}.

Lemma total_insert a n B : B !! a = None -> total (<[a := n]> B) = n + total B.
Proof. intros HB. unfold total. rewrite map_fold_insert_L; [done|lia|done]. Qed.

Lemma total_delete a n B : B !! a = Some n -> total B = n + total (delete a B).
Proof.
  intros HB. rewrite <- (insert_delete_id B a n) at 1 by done.
  by rewrite total_insert by apply lookup_delete_eq.
Qed.

(** [_find_hash] finds the record of a block, if there is one. *)
Lemma find_hash_spec s B a :
  inv s B ->
  exists r, _find_hash a s = Done r /\
    match r with
    | Some i => exists x, infos s !! i = Some x /\ mi_addr x = a /\ B !! a = Some (mi_size x)
    | None => B !! a = None
    end.
Proof.
  intros Hi. unfold _find_hash.
  destruct (find_indexed (infos s) info_place (meminfo_hash s) F_INFO
    (fun x => mi_addr x =? a) (_get_hash a).2 (inv_hash _ _ Hi)) as (r & E & Hr).
  { intros j x _ Ea%Z.eqb_eq. unfold info_place. by rewrite Ea. }
  exists r. split; [exact E|]. destruct r as [i|].
  - destruct Hr as (x & Ex & Ea%Z.eqb_eq). exists x. split_all; [done..|].
    apply (inv_blocks _ _ Hi). by exists i, x.
  - destruct (B !! a) as [n|] eqn:EB; [|done]. exfalso.
    apply (inv_blocks _ _ Hi) in EB as (i & x & Ex & <- & _).
    specialize (Hr i x Ex). simpl in Hr. lia.
Qed.

Lemma inv_ASSERT b l s B : inv s B -> inv (ASSERT b l s) B.
Proof. intros [? ? ? ? ? ?]. by destruct b. Qed.

(** Adding the record of a new block, and changing the C heap by blocks the
    allocator does not know. *)
Lemma malloc_step s B size fname line a i :
  inv s B -> fresh_pair a i s ->
  exists s', _malloc sizeof_info size fname line a i s = Done ((spec_malloc size a i B).1, s') /\
    inv s' (spec_malloc size a i B).2.
Proof.
  intros Hi [Ha Hb]. unfold _malloc, spec_malloc, malloc.
  destruct (Z.eqb_spec a NULL) as [->|Hna]; [by exists s|]. simpl.
  specialize (Ha Hna). destruct (Z.eqb_spec i NULL) as [->|Hni]; simpl.
  { unfold free. rewrite (proj2 (Z.eqb_neq a NULL) Hna). simpl. rewrite lookup_insert_eq. simpl.
    eexists. split; [reflexivity|]. rewrite delete_insert_id by done.
    destruct s. by destruct Hi. }
  destruct (Hb Hni) as [Hfi Hia]. unfold _enter_hash. simpl. rewrite lookup_insert_eq. simpl.
  eexists. split; [reflexivity|]. destruct Hi as [Ih Ib Iu Il Id It].
  assert (infos s !! i = None) as Ni.
  { destruct (infos s !! i) as [x|] eqn:E; [|done]. destruct (Il i x E) as [[? ?] _]. congruence. }
  assert (forall j x, infos s !! j = Some x -> mi_addr x <> a /\ j <> a /\ mi_addr x <> i) as Hne.
  { intros j x E. destruct (Il j x E) as ([? E1] & [? E2] & _). split_all; intros E'; rewrite E' in *; congruence. }
  assert (B !! a = None) as NB.
  { destruct (B !! a) as [n|] eqn:E; [|done]. apply Ib in E as (j & x & E & Ej & _).
    by destruct (Hne j x E) as [? _]. }
  split; simpl.
  - rewrite fmap_insert. apply indexed_add_head; [by rewrite lookup_fmap, Ni|done].
  - intros b n. rewrite lookup_insert_Some, Ib. unfold tracked. simpl. split.
    + intros [[-> ->]|[Hab (j & x & E & <- & <-)]].
      * exists i, (MemInfo b n line (copy_fname fname)). by rewrite lookup_insert_eq.
      * exists j, x. rewrite lookup_insert_ne by congruence. done.
    + intros (j & x & E & <- & <-). apply lookup_insert_Some in E as [[<- <-]|[Hj E]]; [by left|].
      right. destruct (Hne j x E) as [? _]. split; [congruence|]. by exists j, x.
  - intros j k x y. rewrite !lookup_insert_Some.
    intros [[<- <-]|[? E1]] [[<- <-]|[? E2]] E; simpl in E; [done|..].
    + destruct (Hne k y E2) as [? _]. congruence.
    + destruct (Hne j x E1) as [? _]. congruence.
    + by eapply Iu.
  - intros j x. rewrite lookup_insert_Some. intros [[<- <-]|[? E]]; simpl.
    + rewrite lookup_insert_eq, lookup_insert_ne, lookup_insert_eq by congruence. by eauto.
    + destruct (Il j x E) as (? & ? & ? & ?), (Hne j x E) as (? & ? & ?).
      rewrite !lookup_insert_ne by congruence. done.
  - intros j k x y. rewrite !lookup_insert_Some.
    intros [[<- <-]|[? E1]] [[<- <-]|[? E2]]; simpl.
    + congruence.
    + by destruct (Hne k y E2) as (_ & _ & ?).
    + by destruct (Hne j x E1) as (_ & ? & _).
    + by eapply Id.
  - rewrite It, wraps_plus_l, total_insert by done. f_equal. lia.
Qed.

(** The end of a block: its record leaves the table, both blocks go back to
    the C library. *)
Lemma drop_inv s B i x rep :
  inv s B -> infos s !! i = Some x ->
  inv (MkMem (delete i (infos s)) (unlink F_INFO i (meminfo_hash s))
             (s32 (total_mem_size s - mi_size x))
             (delete (mi_addr x) (delete i (live s))) rep)
      (delete (mi_addr x) B).
Proof.
  intros [Ih Ib Iu Il Id It] E.
  assert (B !! mi_addr x = Some (mi_size x)) as EB by (apply Ib; by exists i, x).
  split; simpl.
  - rewrite fmap_delete. by apply indexed_unlink.
  - intros a n. rewrite lookup_delete_Some, Ib. unfold tracked. simpl. split.
    + intros [Hne (j & y & Ey & <- & <-)]. exists j, y.
      rewrite lookup_delete_ne; [done|]. intros ->. congruence.
    + intros (j & y & [Hj Ey]%lookup_delete_Some & <- & <-). split; [|by exists j, y].
      intros Ea. apply Hj. by eapply Iu.
  - intros j k y z [_ E1]%lookup_delete_Some [_ E2]%lookup_delete_Some. by apply Iu.
  - intros j y [Hj Ey]%lookup_delete_Some. destruct (Il j y Ey) as (? & ? & ? & ?).
    rewrite (lookup_delete_ne _ (mi_addr x) j) by (pose proof (Id _ _ _ _ Ey E); congruence).
    rewrite (lookup_delete_ne _ i j) by done.
    rewrite (lookup_delete_ne _ (mi_addr x) (mi_addr y)) by (intros Ea; by apply Hj, (Iu _ _ _ _ E Ey)).
    rewrite (lookup_delete_ne _ i) by (by apply (Id _ _ _ _ E Ey)). done.
  - intros j k y z [_ E1]%lookup_delete_Some [_ E2]%lookup_delete_Some. by eapply Id.
  - rewrite It, wraps_minus_l, (total_delete _ _ _ EB). f_equal. lia.
Qed.

Lemma free_pair s B i x f :
  inv s B -> infos s !! i = Some x -> live f = live s -> infos f = infos s ->
  (s ← free_info i f; free (mi_addr x) s) =
  Done (MkMem (delete i (infos f)) (meminfo_hash f) (total_mem_size f)
              (delete (mi_addr x) (delete i (live f))) (reports f)).
Proof.
  intros Hi E El Ei. destruct (inv_live _ _ Hi i x E) as ([n En] & [m Em] & H1 & H2).
  pose proof (inv_disj _ _ Hi i i x x E E).
  unfold free_info, free. rewrite (proj2 (Z.eqb_neq _ _) H1), El, En. simpl.
  by rewrite (proj2 (Z.eqb_neq _ _) H2), lookup_delete_ne, Em by done.
Qed.

Lemma forget_step s B i x :
  inv s B -> infos s !! i = Some x ->
  exists s', forget i (mi_addr x) s = Done s' /\ inv s' (delete (mi_addr x) B).
Proof.
  intros Hi E. destruct (inv_live _ _ Hi i x E) as (_ & _ & H1 & _).
  unfold forget, _out_hash. rewrite (proj2 (Z.eqb_neq _ _) H1). simpl. rewrite E. simpl.
  rewrite (free_pair s B i x) by done. eexists. split; [reflexivity|]. exact (drop_inv s B i x _ Hi E).
Qed.

Lemma free_step s B ptr line :
  inv s B -> exists s', _free ptr line s = Done s' /\ inv s' (delete ptr B).
Proof.
  intros Hi. unfold _free. destruct (Z.eqb_spec ptr NULL) as [->|Hp].
  { exists s. split; [done|]. rewrite delete_id; [done|].
    destruct (B !! NULL) as [n|] eqn:E; [|done]. exfalso.
    apply (inv_blocks _ _ Hi) in E as (i & x & E & Ex & _).
    by destruct (inv_live _ _ Hi i x E) as (_ & _ & _ & ?). }
  destruct (find_hash_spec s B ptr Hi) as (r & -> & Hr). simpl. destruct r as [i|].
  - destruct Hr as (x & E & <- & _). simpl. rewrite E. simpl.
    destruct (inv_live _ _ Hi i x E) as (_ & _ & H1 & _).
    unfold _out_hash. rewrite (proj2 (Z.eqb_neq _ _) H1). simpl.
    rewrite (free_pair s B i x) by done. eexists. split; [reflexivity|]. exact (drop_inv s B i x _ Hi E).
  - eexists. split; [reflexivity|]. rewrite delete_id by done. by apply inv_ASSERT.
Qed.

(** A block that moves or is resized keeps its record. *)
Lemma move_inv s B i x x' rep h :
  inv s B -> infos s !! i = Some x ->
  mi_addr x' <> NULL -> mi_addr x' = mi_addr x \/ live s !! mi_addr x' = None ->
  indexed h F_INFO (info_place <$> <[i := x']> (infos s)) ->
  inv (MkMem (<[i := x']> (infos s)) h
             (s32 (total_mem_size s + u32 (mi_size x' - mi_size x)))
             (<[mi_addr x' := mi_size x']> (delete (mi_addr x) (live s))) rep)
      (<[mi_addr x' := mi_size x']> (delete (mi_addr x) B)).
Proof.
  intros [Ih Ib Iu Il Id It] E Hnn Hr Hidx.
  assert (B !! mi_addr x = Some (mi_size x)) as EB by (apply Ib; by exists i, x).
  assert (forall j y, infos s !! j = Some y -> j <> i -> mi_addr y <> mi_addr x' /\ mi_addr y <> mi_addr x)
    as Hother.
  { intros j y Ey Hj. assert (mi_addr y <> mi_addr x) by (intros Ea; by apply Hj, (Iu _ _ _ _ Ey E)).
    split; [|done]. destruct Hr as [-> | Hr]; [done|]. intros Ea.
    destruct (Il j y Ey) as (_ & [? El] & _). congruence. }
  assert (forall j y, infos s !! j = Some y -> j <> mi_addr x') as Hinfo.
  { intros j y Ey ->. destruct Hr as [Ea|Hr]; [by apply (Id _ _ _ _ Ey E)|].
    destruct (Il _ y Ey) as ([? El] & _). congruence. }
  split; simpl; [done|..].
  - intros a n. rewrite lookup_insert_Some, lookup_delete_Some, Ib. unfold tracked. simpl. split.
    + intros [[<- <-]|(Ha & Hax & j & y & Ey & <- & <-)].
      * exists i, x'. by rewrite lookup_insert_eq.
      * exists j, y. rewrite lookup_insert_ne; [done|]. intros ->. congruence.
    + intros (j & y & [[<- <-]|[Hj Ey]]%lookup_insert_Some & <- & <-); [by left|].
      right. destruct (Hother j y Ey) as [? ?]; [done|]. split_all; [congruence..|]. by exists j, y.
  - intros j k y z. rewrite !lookup_insert_Some.
    intros [[<- <-]|[? E1]] [[<- <-]|[? E2]] Ea; [done|..].
    + by destruct (Hother k z E2) as [? _].
    + by destruct (Hother j y E1) as [? _].
    + by eapply Iu.
  - intros j y. rewrite lookup_insert_Some. intros [[<- <-]|[Hj Ey]].
    + destruct (Il i x E) as (? & ? & ? & ?). rewrite lookup_insert_eq.
      rewrite lookup_insert_ne by (intros Ea; by apply (Hinfo i x E)).
      rewrite lookup_delete_ne by (intros Ea; by apply (Id _ _ _ _ E E)). by eauto.
    + destruct (Il j y Ey) as (? & ? & ? & ?), (Hother j y Ey) as [? ?]; [done|].
      rewrite (lookup_insert_ne _ _ j) by (intros Ea; by apply (Hinfo j y Ey)).
      rewrite lookup_delete_ne by (intros Ea; by apply (Id _ _ _ _ Ey E)).
      rewrite lookup_insert_ne, lookup_delete_ne by congruence. done.
  - intros j k y z. rewrite !lookup_insert_Some.
    intros [[<- <-]|[? E1]] [[<- <-]|[? E2]]; try (by eapply Id); [by eapply Hinfo..|].
    by eapply Hinfo.
  - rewrite It, wraps_plus_l, wraps_plus_wrapu, total_insert, (total_delete _ _ _ EB); [f_equal; lia|].
    apply lookup_delete_None. destruct Hr as [-> | Hr]; [by left|]. right.
    destruct (B !! mi_addr x') as [n|] eqn:E'; [|done].
    apply Ib in E' as (j & y & Ey & Ea & _). destruct (Il j y Ey) as (_ & [? El] & _). congruence.
Qed.

Lemma realloc_tracked s B ptr size fname line r i x :
  inv s B -> infos s !! i = Some x -> mi_addr x = ptr -> mi_size x <> size ->
  r <> NULL -> r = ptr \/ live s !! r = None ->
  let s1 := ASSERT (mi_size x <=? size) line s in
  exists s', (s ← realloc ptr size r s1;
    let s := set_total (s32 (total_mem_size s + u32 (size - mi_size x))) s in
    if r =? mi_addr x then
      Done (r, set_info i (MemInfo (mi_addr x) size (mi_line x) (mi_fname x)) s)
    else
      s ← _out_hash i s;
      s ← _enter_hash i (set_info i (MemInfo r size line (copy_fname fname)) s);
      Done (r, s)) = Done (r, s') /\ inv s' (<[r := size]> (delete ptr B)).
Proof.
  intros Hi E <- Hsz Hrn Hr s1.
  assert (inv s1 B) as Hi1 by (by apply inv_ASSERT).
  assert (infos s1 = infos s /\ live s1 = live s) as [Ei El] by (subst s1; by destruct (_ <=? _)).
  rewrite <- Ei in E. rewrite <- El in Hr.
  destruct (inv_live _ _ Hi1 i x E) as (_ & [n En] & H1 & _).
  unfold realloc. rewrite En, (proj2 (Z.eqb_neq _ _) Hrn). simpl.
  pose proof (inv_hash _ _ Hi1) as Ih.
  destruct (Z.eqb_spec r (mi_addr x)) as [->|Hne].
  - eexists. split; [reflexivity|].
    apply (move_inv s1 B i x (MemInfo (mi_addr x) size (mi_line x) (mi_fname x)) (reports s1)
      (meminfo_hash s1)); [done..|]. rewrite fmap_insert.
    rewrite insert_id; [done|]. by rewrite lookup_fmap, E.
  - unfold _out_hash. rewrite (proj2 (Z.eqb_neq _ _) H1). simpl.
    unfold _enter_hash. simpl. rewrite lookup_insert_eq. simpl.
    eexists. split; [reflexivity|].
    apply (move_inv s1 B i x (MemInfo r size line (copy_fname fname)) (reports s1)); [done..|].
    rewrite fmap_insert, <- insert_delete_eq. apply indexed_add_head; [apply lookup_delete_eq|].
    by apply indexed_unlink.
Qed.

Lemma realloc_step s B ptr size fname line a i r :
  inv s B -> allowed (Realloc ptr size fname line a i r) s ->
  let '(v, B') := spec_step (Realloc ptr size fname line a i r) B in
  exists s', _realloc sizeof_info ptr size fname line a i r s = Done (v, s') /\ inv s' B'.
Proof.
  intros Hi (Hfresh & Hr & Hz). simpl. unfold _realloc. destruct (Z.eqb_spec ptr NULL) as [->|Hp].
  { pose proof (malloc_step s B size fname line a i Hi (Hfresh eq_refl)) as Hm.
    by destruct (spec_malloc size a i B). }
  destruct (find_hash_spec s B ptr Hi) as (f & Ef & Hf). rewrite Ef. simpl.
  destruct (Z.eqb_spec size 0) as [->|Hsz].
  - destruct f as [j|].
    + destruct Hf as (x & E & <- & _). simpl.
      destruct (forget_step s B j x Hi E) as (s' & -> & Hi'). simpl. by eauto.
    + exfalso. destruct (Hz Hp eq_refl) as [n Hn%(inv_blocks _ _ Hi)]. congruence.
  - destruct f as [j|]; [|rewrite Hf; by eauto].
    destruct Hf as (x & E & Ea & EB). rewrite E, EB. simpl.
    destruct (Z.eqb_spec (mi_size x) size) as [Es|Hs].
    { rewrite Ea. eexists. split; [reflexivity|]. by apply inv_ASSERT. }
    destruct (Z.eqb_spec r NULL) as [->|Hrn].
    + assert (inv (ASSERT (mi_size x <=? size) line s) B) as Hi1 by (by apply inv_ASSERT).
      set (s1 := ASSERT (mi_size x <=? size) line s) in *.
      assert (infos s1 !! j = Some x) as E1 by (subst s1; by destruct (_ <=? _)).
      destruct (inv_live _ _ Hi1 j x E1) as (_ & [n En] & _). unfold realloc. rewrite Ea in En.
      rewrite En. simpl. destruct (find_hash_spec s1 B ptr Hi1) as (g & -> & Hg). simpl.
      destruct g as [k|]; [|congruence]. destruct Hg as (y & Ey & Eya & _). simpl.
      destruct (forget_step s1 B k y Hi1 Ey) as (s' & Es' & Hi'). rewrite Eya in Es', Hi'.
      rewrite Es'. simpl. by eauto.
    + pose proof (realloc_tracked s B ptr size fname line r j x Hi E Ea Hs Hrn (Hr Hrn)) as Ht.
      exact Ht.
Qed.

Lemma step_refines c s B :
  inv s B -> allowed c s ->
  exists s', step c s = Done ((spec_step c B).1, s') /\ inv s' (spec_step c B).2.
Proof.
  intros Hi Ha. destruct c as [size fname line a i|ptr size fname line a i r|ptr line].
  - by apply malloc_step.
  - pose proof (realloc_step s B ptr size fname line a i r Hi Ha) as Hr.
    by destruct (spec_step _ B).
  - simpl. destruct (free_step s B ptr line Hi) as (s' & -> & Hi'). simpl. by eauto.
Qed.

Lemma run_refines cs : forall s B,
  inv s B -> valid cs s ->
  exists s', run cs s = Done ((spec_run cs B).1, s') /\ inv s' (spec_run cs B).2.
Proof.
  induction cs as [|c cs IH]; intros s B Hi Hv; simpl; [by eauto|].
  destruct Hv as [Ha Hv]. destruct (step_refines c s B Hi Ha) as (s1 & E1 & Hi1).
  rewrite E1. simpl. specialize (Hv _ _ E1). destruct (spec_step c B) as [v B1]. simpl in *.
  destruct (IH s1 B1 Hi1 Hv) as (s2 & E2 & Hi2). rewrite E2. simpl.
  destruct (spec_run cs B1) as [rs B2]. by eauto.
Qed.

Lemma init_inv lv : inv (wys_mem_init (MkMem ∅ ∅ 0 lv [])) ∅.
Proof.
  unfold wys_mem_init. cbn [infos meminfo_hash total_mem_size live reports].
  assert (forall k, tget (init_heads F_INFO 0 (Z.to_nat MEM_HASH_MAX) ∅) k = []) as Ht
    by (intros; by apply tget_init_heads).
  set (t := init_heads _ _ _ _) in *. clearbody t.
  split; simpl; try (intros *; rewrite lookup_empty; done).
  - rewrite fmap_empty. by apply indexed_nil.
  - intros a n. rewrite lookup_empty. split; [done|]. intros (i & x & E & _).
    simpl in E. by rewrite lookup_empty in E.
  - done.
Qed.

(** ** The properties *)

(** C7. The allocator implements a map of blocks to sizes: whatever sequence
    of [_malloc], [_realloc] and [_free] runs after [wys_mem_init], with any
    results of the C library it may give (failures included), the operations
    return what the map says, the records are exactly the map, and
    [total_mem_size] is the sum of the sizes as an [int].  No operation
    releases a block twice or reads a released record.  The one call that is
    not allowed is [_realloc] of an unknown block to size 0. *)
Theorem mem_refines cs lv :
  valid cs (wys_mem_init (MkMem ∅ ∅ 0 lv [])) ->
  let '(rs, B) := spec_run cs ∅ in
  exists s, run cs (wys_mem_init (MkMem ∅ ∅ 0 lv [])) = Done (rs, s) /\
    (forall a n, B !! a = Some n <-> tracked s a n) /\
    total_mem_size s = s32 (total B).
Proof.
  intros Hv. destruct (run_refines cs _ ∅ (init_inv lv) Hv) as (s & E & Hi).
  destruct (spec_run cs ∅) as [rs B]. exists s. split_all; [done|apply Hi..].
Qed.

(** A double free is detected and harmless: when a block is freed, a
    second [_free] of the same pointer (with no allocation in between) reports
    its line and changes nothing else. *)
Theorem double_free_reported s B ptr l1 l2 :
  inv s B -> ptr <> NULL ->
  exists s1, _free ptr l1 s = Done s1 /\
    _free ptr l2 s1 = Done (MkMem (infos s1) (meminfo_hash s1) (total_mem_size s1) (live s1)
                                  (reports s1 ++ [l2])).
Proof.
  intros Hi Hp. destruct (free_step s B ptr l1 Hi) as (s1 & E1 & Hi1). exists s1. split; [done|].
  unfold _free. rewrite (proj2 (Z.eqb_neq _ _) Hp).
  destruct (find_hash_spec s1 _ ptr Hi1) as (r & -> & Hr). simpl. destruct r as [i|]; [|done].
  destruct Hr as (x & _ & _ & Hx). by rewrite lookup_delete_eq in Hx.
Qed.

(** [_realloc (ptr, 0)] of a pointer the allocator does not know is not
    handled the way [_free] handles it: the failed [ASSERT] only prints, and
    the next statement dereferences the null record. *)
Theorem realloc_zero_unknown s B ptr fname line a i r :
  inv s B -> ptr <> NULL -> B !! ptr = None ->
  _realloc sizeof_info ptr 0 fname line a i r s = Fault NullDeref.
Proof.
  intros Hi Hp HB. unfold _realloc. rewrite (proj2 (Z.eqb_neq _ _) Hp). simpl.
  destruct (find_hash_spec s B ptr Hi) as (f & -> & Hf). simpl. destruct f as [j|]; [|done].
  destruct Hf as (x & _ & _ & Hx). congruence.
Qed.

End Facts.

(** ** A concrete run: a block is allocated, grown (it moves) and freed. *)

Definition ex_cmds : list cmd :=
  [Malloc 100 [109] 7 4096 8192; Realloc 4096 160 [109] 9 0 0 12288; Free 12288 11].

Lemma mem_refines_witness :
  exists s, run 48 ex_cmds (wys_mem_init (MkMem ∅ ∅ 0 ∅ [])) = Done ([4096; 12288; NULL], s) /\
    total_mem_size s = 0.
Proof.
  assert (valid 48 ex_cmds (wys_mem_init (MkMem ∅ ∅ 0 ∅ []))) as Hv.
  { split; [split; [intros _; apply lookup_empty|intros _; split; [apply lookup_empty|lia]]|].
    intros r s E. split; [|by split].
    apply (f_equal (fun o => match o with Done (_, s) => live s !! 12288 | Fault _ => None end)) in E.
    split; [by intros [=]|split; [intros _; right|by intros _ [=]]].
    rewrite <- E. vm_compute. reflexivity. }
  destruct (mem_refines 48 ex_cmds ∅ Hv) as (s & E & _ & Et). exists s. split; [exact E|].
  rewrite Et. vm_compute. reflexivity.
Defined.

Lemma double_free_reported_witness :
  exists s1, _free 64 5 (wys_mem_init (MkMem ∅ ∅ 0 ∅ [])) = Done s1 /\
    _free 64 6 s1 = Done (MkMem (infos s1) (meminfo_hash s1) (total_mem_size s1) (live s1)
                                (reports s1 ++ [6])).
Proof. apply (double_free_reported _ ∅ 64 5 6 (init_inv ∅)). vm_compute. discriminate. Defined.

Lemma realloc_zero_unknown_witness :
  _realloc 48 64 0 [] 1 0 0 0 (wys_mem_init (MkMem ∅ ∅ 0 ∅ [])) = Fault NullDeref.
Proof.
  apply (realloc_zero_unknown 48 _ ∅ 64 [] 1 0 0 0 (init_inv ∅)); [vm_compute; discriminate|].
  reflexivity.
Defined.
