(* ===== verification/Sort.v ===== *)
(** * Sort: the in-place quick sort of [TCP_C/hash.c]

    [list_quick_sort] sorts a circular list by exchanging nodes, driven by
    pointers to the first and last node of a segment.  The code is translated
    on the pointer memory of [DList]; the recursion and the scan carry fuel.
    The proof follows the segments: what lies before and after the one being
    sorted is not touched, and the code's end test [q->prev != *end] is sound
    because the last node of a segment is either the last of the whole list or
    not smaller than any node of the segment. *)

From Stdlib Require Import Sorted.
From S2P Require Import Prelude DList.
Import ListHead.
Local Open Scope Z_scope.

Module Sort.

(** ** The code *)

Definition LIST_QQ_WK_MSG_SORT : Z := 0.
Definition LIST_DETAIL_WK_ACT_SORT : Z := 1.
Definition LIST_GROUP_BASE_INFO_SORT : Z := 2.

(** [list_commen_compare]: the difference of the keys, stored in an [_s32].
    [key ty a] is the sort key ([time] or [gid]) of the object that embeds the
    list node [a]. *)
Definition list_commen_compare_fun (key : Z -> addr -> Z) (a b : addr) (compare_type : Z) : Z :=
  if (compare_type =? LIST_QQ_WK_MSG_SORT) || (compare_type =? LIST_DETAIL_WK_ACT_SORT)
     || (compare_type =? LIST_GROUP_BASE_INFO_SORT)
  then s32 (key compare_type a - key compare_type b)
  else 0.

Definition list_swap (a b : addr) (h : mem) : option mem :=
  if a =? b then Some h else
  bn ← rd (next h) b;
  let pos := if b =? bn then NULL else bn in
  if a =? bn then
    h ← list_del_init a h; list_move_tail a b h
  else
    bp ← rd (prev h) b;
    if a =? bp then
      h ← list_del_init a h; bn ← rd (next h) b; list_move_tail a bn h
    else
      h ← list_del_init b h;
      an ← rd (next h) a;
      h ← list_move_tail b an h;
      if pos =? NULL then list_del_init a h
      else h ← list_del_init a h; list_move_tail a pos h.

Section Code.

(** [compare_fun] applied to its type argument. *)
Context (compare_fun : addr -> addr -> Z).

(** The [while] loop of [list_get_partion]. *)
Fixpoint partion_loop (fuel : nat) (head begin end_ p q : addr) (h : mem) :
    option (mem * addr * addr) :=
  qp ← rd (prev h) q;
  if (qp =? end_) || (q =? head) then Some (h, p, q)
  else match fuel with
  | O => None
  | S fuel =>
      if compare_fun q begin <? 0 then
        p ← rd (next h) p;
        if negb (p =? q) then
          q_next ← rd (next h) q;
          p_prev ← rd (prev h) p;
          h ← list_swap p q h;
          p ← rd (next h) p_prev;
          partion_loop fuel head begin end_ p q_next h
        else q ← rd (next h) q; partion_loop fuel head begin end_ p q h
      else q ← rd (next h) q; partion_loop fuel head begin end_ p q h
  end.

(** The result is the memory, the new [*begin] and [*end], and the node of
    the pivot. *)
Definition list_get_partion (fuel : nat) (head begin end_ : addr) (h : mem) :
    option (mem * addr * addr * addr) :=
  let p := begin in
  q ← rd (next h) p;
  '(h, p, q) ← partion_loop fuel head begin end_ p q h;
  h ← if negb (p =? begin) then list_swap p begin h else Some h;
  let partion_temp := begin in
  end_ ← rd (prev h) q;
  let begin := p in
  Some (h, begin, end_, partion_temp).

Fixpoint list_quick_sort (fuel : nat) (head begin end_ : addr) (h : mem) : option mem :=
  if begin =? end_ then Some h
  else match fuel with
  | O => None
  | S fuel =>
      '(h, begin, end_, partion) ← list_get_partion fuel head begin end_ h;
      h ← if begin =? partion then Some h else list_quick_sort fuel head begin partion h;
      n ← rd (next h) partion;
      if (n =? end_) || (n =? head) then Some h
      else list_quick_sort fuel head n end_ h
  end.

End Code.

(** ** Exchanging two nodes *)

Section Swap.

Context (head : addr).

(** [list_del_init] and [list_move_tail] in a row: a node of the ring moves
    to any other place of it. *)
Lemma relink_spec h a xs ys :
  dll h head (xs ++ ys) -> dll h a [] -> a ∉ head :: xs ++ ys ->
  exists h', list_move_tail a (hd head ys) h = Some h' /\ dll h' head (xs ++ a :: ys) /\
    frame (a :: head :: xs ++ ys) h h'.
Proof.
  intros Hd Ha Hni. rewrite list_move_tail_self by done.
  apply list_add_tail_before; [done|eapply dll_node; [exact Ha|set_solver]|done].
Qed.

Lemma move_spec h l a r xs ys :
  dll h head (l ++ a :: r) -> l ++ r = xs ++ ys ->
  exists h', (h ← list_del_init a h; list_move_tail a (hd head ys) h) = Some h' /\
    dll h' head (xs ++ a :: ys) /\ frame (a :: head :: l ++ r) h h'.
Proof.
  intros Hd E. pose proof (dll_notin _ _ _ _ _ Hd) as Hni.
  destruct (list_del_init_spec _ _ _ _ _ Hd) as (h1 & -> & Hd1 & Ha & Hf1). simpl.
  rewrite E in Hd1, Hni. destruct (relink_spec h1 a xs ys Hd1 Ha Hni) as (h2 & E2 & Hd2 & Hf2).
  exists h2. split_all; [done..|]. eapply frame_trans; [exact Hf1|]. by rewrite E.
Qed.

Definition ring_nonnull (xs : list addr) : Prop := NULL ∉ head :: xs.

Lemma hd_in (ys : list addr) : hd head ys ∈ head :: ys.
Proof. destruct ys; set_solver. Qed.

Lemma hd_nonnull xs ys : ring_nonnull xs -> (forall x, x ∈ ys -> x ∈ xs) -> hd head ys <> NULL.
Proof.
  unfold ring_nonnull. intros Hn Hs E. apply Hn. rewrite <- E.
  destruct ys as [|y ys]; simpl; [left|right]. apply Hs. left.
Qed.

Lemma dll_distinct h l1 x l2 y l3 :
  dll h head (l1 ++ x :: l2 ++ y :: l3) ->
  x <> y /\ x <> head /\ y <> head /\ x ∉ l1 ++ l2 ++ l3 /\ y ∉ l1 ++ l2 ++ l3.
Proof.
  intros Hd. pose proof (dll_notin _ _ _ _ _ Hd) as H1.
  change (x :: l2 ++ y :: l3) with ((x :: l2) ++ y :: l3) in Hd.
  rewrite app_assoc in Hd. pose proof (dll_notin _ _ _ _ _ Hd) as H2. set_solver.
Qed.

(** [list_swap (a, b)] with [a] before [b]. *)
Lemma list_swap_forward h l1 a l2 b l3 :
  dll h head (l1 ++ a :: l2 ++ b :: l3) -> ring_nonnull (l1 ++ a :: l2 ++ b :: l3) ->
  exists h', list_swap a b h = Some h' /\ dll h' head (l1 ++ b :: l2 ++ a :: l3) /\
    frame (head :: l1 ++ a :: l2 ++ b :: l3) h h'.
Proof.
  intros Hd Hnn. destruct (dll_distinct _ _ _ _ _ _ Hd) as (Hab & Ha & Hb & Ia & Ib).
  unfold list_swap, rd. rewrite (proj2 (Z.eqb_neq _ _) Hab).
  assert (dll h head ((l1 ++ a :: l2) ++ b :: l3)) as Hd' by (by rewrite <- app_assoc).
  destruct (dll_neighbours _ _ _ _ _ Hd') as [Ep En]. rewrite En. simpl.
  pose proof (hd_in l3) as H3.
  rewrite (proj2 (Z.eqb_neq a (hd head l3))) by set_solver.
  rewrite Ep. simpl.
  assert (List.last (l1 ++ a :: l2) head = List.last l2 a) as El.
  { clear. induction l1 as [|x l1 IH]; simpl; [apply last_cons|].
    destruct (l1 ++ a :: l2) eqn:E; [by destruct l1|done]. }
  rewrite El. destruct (Z.eqb_spec a (List.last l2 a)) as [Eq|Hne].
  - assert (l2 = []) as ->.
    { destruct l2 as [|x l2]; [done|]. exfalso. rewrite last_cons in Eq.
      pose proof (last_in x l2). set_solver. }
    destruct (list_del_init_spec _ _ _ _ _ Hd) as (h1 & -> & Hd1 & Da & Hf1). simpl in *.
    destruct (dll_neighbours _ _ _ _ _ Hd1) as [_ En1]. rewrite En1. simpl.
    assert (dll h1 head ((l1 ++ [b]) ++ l3)) as Hd1' by (by rewrite <- app_assoc).
    destruct (relink_spec h1 a (l1 ++ [b]) l3 Hd1' Da) as (h2 & -> & Hd2 & Hf2); [set_solver|].
    exists h2. split_all; [done|by rewrite <- app_assoc in Hd2|].
    eapply frame_trans; [eapply frame_weaken; [|exact Hf1]|eapply frame_weaken; [|exact Hf2]]; set_solver.
  - assert (l2 <> []) as Hl2 by (by intros ->).
    rewrite (proj2 (Z.eqb_neq b (hd head l3))) by set_solver.
    destruct (list_del_init_spec _ _ _ _ _ Hd') as (h1 & -> & Hd1 & Db & Hf1). simpl.
    rewrite <- app_assoc in Hd1. simpl in Hd1.
    destruct (dll_neighbours _ _ _ _ _ Hd1) as [_ En1]. rewrite En1. simpl.
    assert (dll h1 head ((l1 ++ [a]) ++ (l2 ++ l3))) as Hd1' by (by rewrite <- app_assoc).
    destruct (relink_spec h1 b (l1 ++ [a]) (l2 ++ l3) Hd1' Db) as (h2 & -> & Hd2 & Hf2); [set_solver|].
    simpl. rewrite (proj2 (Z.eqb_neq (hd head l3) NULL))
      by (apply (hd_nonnull _ l3 Hnn); clear; set_solver).
    rewrite <- app_assoc in Hd2. simpl in Hd2.
    destruct (move_spec h2 l1 a (b :: l2 ++ l3) (l1 ++ b :: l2) l3 Hd2) as (h3 & -> & Hd3 & Hf3).
    { by rewrite <- app_assoc. }
    exists h3. split_all; [done|by rewrite <- app_assoc in Hd3|].
    eapply frame_trans; [eapply frame_weaken; [|exact Hf1]; set_solver|].
    eapply frame_trans; [eapply frame_weaken; [|exact Hf2]|eapply frame_weaken; [|exact Hf3]]; set_solver.
Qed.

(** [list_swap (a, b)] with [a] after [b]. *)
Lemma list_swap_backward h l1 b l2 a l3 :
  dll h head (l1 ++ b :: l2 ++ a :: l3) -> ring_nonnull (l1 ++ b :: l2 ++ a :: l3) ->
  exists h', list_swap a b h = Some h' /\ dll h' head (l1 ++ a :: l2 ++ b :: l3) /\
    frame (head :: l1 ++ b :: l2 ++ a :: l3) h h'.
Proof.
  intros Hd Hnn. destruct (dll_distinct _ _ _ _ _ _ Hd) as (Hba & Hb & Ha & Ib & Ia).
  unfold list_swap, rd. rewrite (proj2 (Z.eqb_neq a b)) by congruence.
  destruct (dll_neighbours _ _ _ _ _ Hd) as [Ep En]. rewrite En. simpl.
  assert (dll h head ((l1 ++ b :: l2) ++ a :: l3)) as Hd' by (by rewrite <- app_assoc).
  destruct l2 as [|x l2]; simpl.
  - rewrite Z.eqb_refl.
    destruct (move_spec h (l1 ++ [b]) a l3 l1 (b :: l3) Hd') as (h1 & E1 & Hd1 & Hf1);
      [by rewrite <- app_assoc|]. simpl in E1. rewrite E1. exists h1. split_all; [done..|].
    eapply frame_weaken; [|exact Hf1]. set_solver.
  - rewrite (proj2 (Z.eqb_neq a x)) by set_solver. rewrite Ep. simpl.
    pose proof (last_in head l1).
    rewrite (proj2 (Z.eqb_neq a (List.last l1 head))) by set_solver.
    rewrite (proj2 (Z.eqb_neq b x)) by set_solver.
    destruct (list_del_init_spec _ _ _ _ _ Hd) as (h1 & -> & Hd1 & Db & Hf1). simpl.
    assert (dll h1 head ((l1 ++ x :: l2) ++ a :: l3)) as Hd1' by (by rewrite <- app_assoc).
    destruct (dll_neighbours _ _ _ _ _ Hd1') as [_ En1]. rewrite En1. simpl.
    assert (dll h1 head ((l1 ++ x :: l2 ++ [a]) ++ l3)) as Hd1'' by (by rewrite <- app_assoc; simpl; rewrite <- app_assoc).
    destruct (relink_spec h1 b (l1 ++ x :: l2 ++ [a]) l3 Hd1'' Db) as (h2 & -> & Hd2 & Hf2); [set_solver|].
    simpl. rewrite (proj2 (Z.eqb_neq x NULL)) by (apply (hd_nonnull _ [x] Hnn); clear; set_solver).
    assert (dll h2 head ((l1 ++ x :: l2) ++ a :: b :: l3)) as Hd2'.
    { replace ((l1 ++ x :: l2) ++ a :: b :: l3) with ((l1 ++ x :: l2 ++ [a]) ++ b :: l3); [done|].
      by rewrite <- !app_assoc; simpl; rewrite <- app_assoc. }
    destruct (move_spec h2 (l1 ++ x :: l2) a (b :: l3) l1 (x :: l2 ++ b :: l3) Hd2')
      as (h3 & E3 & Hd3 & Hf3); [by rewrite <- app_assoc|]. simpl in E3. rewrite E3.
    exists h3. split_all; [done..|].
    eapply frame_trans; [eapply frame_weaken; [|exact Hf1]; set_solver|].
    eapply frame_trans; [eapply frame_weaken; [|exact Hf2]|eapply frame_weaken; [|exact Hf3]]; set_solver.
Qed.

End Swap.

(** ** Partitioning a segment *)

Section Partition.

Context (head : addr) (compare_fun : addr -> addr -> Z) (key : addr -> Z).

(** The comparison agrees with the order of the keys on the nodes of [xs]. *)
Definition compares (xs : list addr) : Prop :=
  forall x y, x ∈ xs -> y ∈ xs -> compare_fun x y < 0 <-> key x < key y.

Lemma compares_sub xs ys : (forall x, x ∈ ys -> x ∈ xs) -> compares xs -> compares ys.
Proof. intros Hs Hc x y Hx Hy. by apply Hc; apply Hs. Qed.

Lemma last_snoc (l : list addr) x d : List.last (l ++ [x]) d = x.
Proof. apply List.last_last. Qed.

Lemma last_app_cons (l : list addr) x r d : List.last (l ++ x :: r) d = List.last r x.
Proof.
  induction l as [|y l IH]; simpl; [apply last_cons|].
  destruct (l ++ x :: r) eqn:E; [by destruct l|done].
Qed.

Section Scan.

(** A segment [b :: rest] ending in [e], between [pre] and [post]. *)
Context (pre : list addr) (b : addr) (rest post : list addr) (e : addr).
Context (Hnn : ring_nonnull head (pre ++ b :: rest ++ post)).
Context (Hcmp : compares (b :: rest)).
Context (Hsent : post <> [] -> key b <= key e).

(** What the scan has established: [lo] and [hi] are the nodes seen so far
    that are below the pivot [b] and not below it, [todo] is still to come. *)
Record scan (h : mem) (lo hi todo : list addr) : Prop := {
  scan_dll : dll h head (pre ++ b :: lo ++ hi ++ todo ++ post);
  scan_perm : lo ++ hi ++ todo ≡ₚ rest;
  scan_lo : forall x, x ∈ lo -> key x < key b;
  scan_hi : forall x, x ∈ hi -> key b <= key x;
  scan_end : todo <> [] -> List.last todo b = e;
  scan_post : post <> [] -> todo = [] -> List.last (lo ++ hi) b = e
}.

Lemma scan_in h lo hi todo x : scan h lo hi todo -> x ∈ lo ++ hi ++ todo -> x ∈ rest.
Proof. intros Hs. by rewrite (scan_perm _ _ _ _ Hs). Qed.

Lemma scan_nonnull h lo hi todo :
  scan h lo hi todo -> ring_nonnull head (pre ++ b :: lo ++ hi ++ todo ++ post).
Proof.
  intros Hs. unfold ring_nonnull in *. pose proof (scan_in h lo hi todo NULL Hs).
  rewrite !elem_of_cons, !elem_of_app, !elem_of_cons, !elem_of_app in *. tauto.
Qed.

(** The scanned prefix of the ring, whose last node [q->prev] reads. *)
Lemma scan_split h lo hi todo :
  scan h lo hi todo -> dll h head ((pre ++ b :: lo ++ hi) ++ todo ++ post).
Proof.
  intros Hs. pose proof (scan_dll _ _ _ _ Hs) as Hd.
  by rewrite <- app_assoc; simpl; rewrite <- app_assoc.
Qed.

Lemma scan_prev h lo hi todo :
  scan h lo hi todo ->
  prev h !! hd head (todo ++ post) = Some (List.last (lo ++ hi) b).
Proof.
  intros Hs. rewrite (dll_hd _ _ _ _ (scan_split _ _ _ _ Hs)). f_equal. apply last_app_cons.
Qed.

Lemma scan_next_q h lo hi q t :
  scan h lo hi (q :: t) -> next h !! q = Some (hd head (t ++ post)).
Proof.
  intros Hs. exact (proj2 (dll_neighbours _ _ _ _ _ (scan_split _ _ _ _ Hs))).
Qed.

Lemma scan_next_p h lo hi todo :
  scan h lo hi todo -> next h !! List.last lo b = Some (hd head (hi ++ todo ++ post)).
Proof.
  intros Hs. pose proof (scan_dll _ _ _ _ Hs) as Hd.
  assert (dll h head ((pre ++ b :: lo) ++ hi ++ todo ++ post)) as Hd'
    by (by rewrite <- app_assoc).
  by rewrite <- (dll_last _ _ _ _ Hd'), last_app_cons.
Qed.

(** The scan goes on exactly while there is something left. *)
Lemma scan_test h lo hi todo :
  scan h lo hi todo ->
  (List.last (lo ++ hi) b =? e) || (hd head (todo ++ post) =? head) =
  match todo with [] => true | _ => false end.
Proof.
  intros Hs. pose proof (scan_split _ _ _ _ Hs) as [Hnd _]. destruct todo as [|q t].
  - destruct (decide (post = [])) as [E|E].
    + simpl. by rewrite E, Z.eqb_refl, orb_true_r.
    + rewrite (scan_post _ _ _ _ Hs) by done. by rewrite Z.eqb_refl.
  - apply orb_false_iff. split; apply Z.eqb_neq; intros E.
    + rewrite <- (scan_end _ _ _ _ Hs), last_cons in E by done.
      pose proof (last_in b (lo ++ hi)) as H1. pose proof (last_in q t) as H2. rewrite E in H1.
      apply NoDup_cons in Hnd as [_ Hnd]. apply NoDup_app in Hnd as (_ & Hdis & _).
      apply (Hdis (List.last t q)).
      * apply elem_of_app. by right.
      * apply elem_of_app. by left.
    + simpl in E. subst q. apply NoDup_cons in Hnd as [Hh _]. apply Hh.
      apply elem_of_app. right. left.
Qed.

Lemma scan_advance h lo hi q t lo' hi' h' :
  scan h lo hi (q :: t) ->
  dll h' head (pre ++ b :: lo' ++ hi' ++ t ++ post) ->
  lo' ++ hi' ≡ₚ lo ++ hi ++ [q] ->
  (forall x, x ∈ lo' -> key x < key b) -> (forall x, x ∈ hi' -> key b <= key x) ->
  (key b <= key q -> List.last (lo' ++ hi') b = q) ->
  scan h' lo' hi' t.
Proof.
  intros Hs Hd Hp Hlo Hhi Hq. split; [done| |done|done| |].
  - rewrite <- (scan_perm _ _ _ _ Hs), app_assoc, Hp. by rewrite <- !app_assoc.
  - intros Ht. rewrite <- (scan_end _ _ _ _ Hs), last_cons by done. destruct t; [done|].
    by rewrite !last_cons.
  - intros Hpo ->. pose proof (scan_end _ _ _ _ Hs ltac:(done)) as He. simpl in He. subst q.
    by apply Hq, Hsent.
Qed.

Definition ring : list addr := head :: pre ++ b :: rest ++ post.

Lemma scan_ring h lo hi todo x :
  scan h lo hi todo -> x ∈ head :: pre ++ b :: lo ++ hi ++ todo ++ post -> x ∈ ring.
Proof.
  intros Hs. unfold ring. pose proof (scan_in h lo hi todo x Hs) as Hx.
  rewrite !elem_of_cons, !elem_of_app, !elem_of_cons, !elem_of_app in *. tauto.
Qed.

Lemma scan_swap_step h lo y hi q t :
  scan h lo (y :: hi) (q :: t) -> key q < key b ->
  exists h', list_swap y q h = Some h' /\ frame ring h h' /\
    next h' !! List.last lo b = Some q /\ scan h' (lo ++ [q]) (hi ++ [y]) t.
Proof.
  intros Hs Hq. pose proof (scan_dll _ _ _ _ Hs) as Hd. pose proof (scan_nonnull _ _ _ _ Hs) as Hn.
  assert (pre ++ b :: lo ++ (y :: hi) ++ (q :: t) ++ post =
    (pre ++ b :: lo) ++ y :: hi ++ q :: t ++ post) as E by (by rewrite <- app_assoc).
  rewrite E in Hd, Hn.
  destruct (list_swap_forward head h _ y hi q (t ++ post) Hd Hn) as (h' & Esw & Hd' & Hf).
  exists h'. split_all; [done| | |].
  - eapply frame_weaken; [|exact Hf]. intros x Hx. eapply scan_ring; [exact Hs|]. by rewrite E.
  - rewrite <- (last_app_cons pre b lo head). rewrite (dll_last _ _ _ _ Hd'). done.
  - apply (scan_advance h lo (y :: hi) q t); [done| | | | |].
    + by rewrite <- !app_assoc in *.
    + rewrite <- !app_assoc. apply Permutation_app_head. simpl.
      rewrite Permutation_app_comm. simpl. rewrite (Permutation_app_comm hi [q]). constructor.
    + intros x [?| ->%list_elem_of_singleton]%elem_of_app; [by apply (scan_lo _ _ _ _ Hs)|done].
    + intros x Hx. apply (scan_hi _ _ _ _ Hs). rewrite elem_of_app, list_elem_of_singleton in Hx.
      apply elem_of_cons. tauto.
    + lia.
Qed.

Lemma partion_loop_spec fuel : forall todo h lo hi,
  scan h lo hi todo -> (length todo <= fuel)%nat ->
  exists h' lo' hi',
    partion_loop compare_fun fuel head b e (List.last lo b) (hd head (todo ++ post)) h =
      Some (h', List.last lo' b, hd head post) /\
    scan h' lo' hi' [] /\ frame ring h h'.
Proof.
  induction fuel as [|fuel IH]; intros todo h lo hi Hs Hf; cbn [partion_loop];
    unfold rd; rewrite (scan_prev _ _ _ _ Hs); cbn [mbind option_bind];
    rewrite (scan_test _ _ _ _ Hs);
    (destruct todo as [|q t]; [exists h, lo, hi; split_all; [done..|by split]|]); [simpl in Hf; lia|].
  simpl in Hf. simpl (hd head _).
  assert (forall h' lo' hi', frame ring h h' -> scan h' lo' hi' t ->
    exists h2 lo2 hi2,
      partion_loop compare_fun fuel head b e (List.last lo' b) (hd head (t ++ post)) h' =
        Some (h2, List.last lo2 b, hd head post) /\ scan h2 lo2 hi2 [] /\ frame ring h h2) as IH'.
  { intros h' lo' hi' Hfr Hs'. destruct (IH t h' lo' hi' Hs' ltac:(lia)) as (h2 & lo2 & hi2 & ? & ? & ?).
    exists h2, lo2, hi2. split_all; [done..|]. by eapply frame_trans. }
  assert (frame ring h h) as Hrefl by (by split).
  assert (compare_fun q b < 0 <-> key q < key b) as Hqb.
  { apply Hcmp; [|left]. right. eapply scan_in; [exact Hs|]. rewrite !elem_of_app. right. right. left. }
  destruct (Z.ltb_spec (compare_fun q b) 0) as [Hc|Hc].
  - apply Hqb in Hc. rewrite (scan_next_p _ _ _ _ Hs). simpl. destruct hi as [|y hi]; simpl.
    + rewrite Z.eqb_refl. simpl. rewrite (scan_next_q _ _ _ _ _ Hs). simpl.
      rewrite <- (last_snoc lo q b). apply (IH' h (lo ++ [q]) [] Hrefl).
      apply (scan_advance h lo [] q t); [done| |by rewrite !app_nil_r| |by intros x Hx%not_elem_of_nil|lia].
      * pose proof (scan_dll _ _ _ _ Hs) as Hd. by rewrite <- app_assoc.
      * intros x [?| ->%list_elem_of_singleton]%elem_of_app; [by apply (scan_lo _ _ _ _ Hs)|done].
    + assert (y <> q) as Hyq.
      { pose proof (scan_split _ _ _ _ Hs) as Hd. apply dll_notin in Hd. intros ->. apply Hd.
        rewrite !elem_of_cons, !elem_of_app, !elem_of_cons, !elem_of_app, elem_of_cons. tauto. }
      rewrite (proj2 (Z.eqb_neq y q)) by done. simpl. rewrite (scan_next_q _ _ _ _ _ Hs). simpl.
      assert (prev h !! y = Some (List.last lo b)) as ->.
      { pose proof (scan_dll _ _ _ _ Hs) as Hd. rewrite <- (last_app_cons pre b lo head).
        apply (dll_hd h head (pre ++ b :: lo) (y :: hi ++ (q :: t) ++ post)). by rewrite <- app_assoc. }
      simpl. destruct (scan_swap_step h lo y hi q t Hs Hc) as (h' & -> & Hfr & En & Hs'). simpl.
      rewrite En. simpl. rewrite <- (last_snoc lo q b). by eapply IH'.
  - rewrite (scan_next_q _ _ _ _ _ Hs). simpl. apply (IH' h lo (hi ++ [q]) Hrefl).
    apply (scan_advance h lo hi q t); [done| |done| | |].
    + pose proof (scan_dll _ _ _ _ Hs) as Hd. by rewrite <- !app_assoc.
    + apply (scan_lo _ _ _ _ Hs).
    + intros x [?| ->%list_elem_of_singleton]%elem_of_app; [by apply (scan_hi _ _ _ _ Hs)|]. lia.
    + intros _. rewrite app_assoc. apply last_snoc.
Qed.

(** After the scan, the sentinel of a segment that is followed by others is
    still its last node. *)
Lemma scan_done_end h lo hi :
  scan h lo hi [] -> rest <> [] -> post <> [] -> hi <> [] /\ List.last hi b = e.
Proof.
  intros Hs Hr Hp. pose proof (scan_post _ _ _ _ Hs Hp eq_refl) as He.
  destruct hi as [|y hi]; [|by rewrite last_app_cons in He; rewrite last_cons].
  exfalso. rewrite app_nil_r in He. destruct lo as [|x lo].
  - apply Hr, Permutation_nil. by rewrite <- (scan_perm _ _ _ _ Hs).
  - rewrite last_cons in He. pose proof (scan_lo _ _ _ _ Hs _ (last_in x lo)) as Hlt.
    rewrite He in Hlt. specialize (Hsent Hp). lia.
Qed.

Record parted (h' : mem) (lo hi : list addr) : Prop := {
  parted_dll : dll h' head (pre ++ lo ++ b :: hi ++ post);
  parted_perm : lo ++ hi ≡ₚ rest;
  parted_lo : forall x, x ∈ lo -> key x < key b;
  parted_hi : forall x, x ∈ hi -> key b <= key x;
  parted_end : post <> [] -> hi <> [] /\ List.last hi b = e
}.

Lemma list_get_partion_spec fuel h :
  dll h head (pre ++ b :: rest ++ post) -> rest <> [] -> List.last rest b = e ->
  (length rest <= fuel)%nat ->
  exists h' lo hi,
    list_get_partion compare_fun fuel head b e h = Some (h', hd b lo, List.last hi b, b) /\
    parted h' lo hi /\ frame ring h h'.
Proof.
  intros Hd Hr He Hf. unfold list_get_partion, rd.
  assert (scan h [] [] rest) as Hs.
  { split; [done|done|by intros x Hx%not_elem_of_nil..|done|done]. }
  rewrite (scan_next_p _ _ _ _ Hs : next h !! b = _). simpl.
  destruct (partion_loop_spec fuel rest h [] [] Hs Hf) as (h1 & lo & hi & E & Hs1 & Hf1).
  simpl in E. rewrite E. simpl. clear E Hs Hd.
  pose proof (fun Hp => scan_done_end h1 lo hi Hs1 Hr Hp) as Hend.
  assert (forall h' lo', dll h' head (pre ++ lo' ++ b :: hi ++ post) -> lo' ≡ₚ lo ->
    prev h' !! hd head post = Some (List.last hi b) /\ parted h' lo' hi) as Hfin.
  { intros h' lo' Hd Hp. split.
    - assert (dll h' head ((pre ++ lo' ++ b :: hi) ++ post)) as Hd'
        by (rewrite <- !app_assoc; simpl; exact Hd).
      rewrite (dll_hd _ _ _ _ Hd'). f_equal. by rewrite app_assoc, last_app_cons.
    - split; [done| | | |done].
      + rewrite <- (scan_perm _ _ _ _ Hs1), Hp. by rewrite app_nil_r.
      + intros x. rewrite Hp. apply (scan_lo _ _ _ _ Hs1).
      + apply (scan_hi _ _ _ _ Hs1). }
  pose proof (scan_dll _ _ _ _ Hs1) as Hd1. simpl in Hd1.
  destruct lo as [|p lo _] using rev_ind.
  - simpl. rewrite Z.eqb_refl. simpl. destruct (Hfin h1 [] Hd1) as [-> Hpt]; [done|]. simpl.
    by exists h1, [], hi.
  - rewrite last_snoc. pose proof (scan_nonnull _ _ _ _ Hs1) as Hn.
    rewrite <- app_assoc in Hd1, Hn. simpl in Hd1, Hn.
    destruct (dll_distinct _ _ _ _ _ _ _ Hd1) as (Hne & _).
    rewrite (proj2 (Z.eqb_neq p b)) by congruence. simpl.
    destruct (list_swap_backward head h1 pre b lo p (hi ++ post) Hd1 Hn) as (h2 & -> & Hd2 & Hf2).
    simpl. destruct (Hfin h2 (p :: lo) Hd2) as [-> Hpt]; [apply Permutation_cons_append|]. simpl.
    exists h2, (p :: lo), hi. split_all; [done..|]. eapply frame_trans; [exact Hf1|].
    eapply frame_weaken; [|exact Hf2]. intros x Hx. eapply scan_ring; [exact Hs1|].
    by rewrite <- app_assoc.
Qed.

End Scan.

(** ** The recursion *)

Definition sorted : list addr -> Prop := StronglySorted (fun x y => key x <= key y).

Lemma sorted_app_cons l1 x l2 :
  sorted l1 -> sorted l2 -> (forall y, y ∈ l1 -> key y <= key x) ->
  (forall y, y ∈ l2 -> key x <= key y) -> sorted (l1 ++ x :: l2).
Proof.
  intros H1 H2 Hl Hr. induction H1 as [|y l1 H1 IH Hy]; simpl.
  - constructor; [done|]. apply List.Forall_forall. intros y Hy. apply Hr. by apply list_elem_of_In.
  - constructor; [apply IH; intros; apply Hl; by right|]. apply List.Forall_forall.
    intros z [Hz|[->|Hz]]%in_app_iff.
    + by apply (proj1 (List.Forall_forall _ _) Hy).
    + apply Hl. left.
    + transitivity (key x); [apply Hl; left|]. apply Hr. by apply list_elem_of_In.
Qed.

(** A sorted permutation of a segment whose last node is the strict maximum
    ends in that node. *)
Lemma sorted_max_last l x ys :
  sorted ys -> ys ≡ₚ l ++ [x] -> (forall y, y ∈ l -> key y < key x) ->
  exists l', ys = l' ++ [x] /\ l' ≡ₚ l.
Proof.
  intros Hs Hp Hmax. destruct ys as [|z ys _] using rev_ind.
  { exfalso. apply Permutation_nil in Hp. by destruct l. }
  assert (z = x) as ->; [|exists ys; split; [done|]; by apply Permutation_app_inv_r in Hp].
  assert (x ∈ ys ++ [z]) as [Hx| ->%list_elem_of_singleton]%elem_of_app
    by (rewrite Hp; apply elem_of_app; right; left); [|done].
  assert (z ∈ l ++ [x]) as [Hz| ->%list_elem_of_singleton]%elem_of_app
    by (rewrite <- Hp; apply elem_of_app; right; left); [|done].
  exfalso. specialize (Hmax z Hz). clear Hp Hz. induction ys as [|y ys IH].
  - by apply not_elem_of_nil in Hx.
  - inversion Hs as [|?? Hs' Hf]; subst. apply elem_of_cons in Hx as [->|Hx]; [|by apply IH].
    rewrite List.Forall_forall in Hf. specialize (Hf z ltac:(apply in_app_iff; right; left; done)).
    simpl in Hf. lia.
Qed.

Definition strict_end (seg : list addr) (e : addr) : Prop :=
  forall x, x ∈ seg -> x <> e -> key x < key e.

(** [k] is 1 on a segment whose end is its strict maximum: such a segment
    loses at least its end to the right part. *)
Definition credit (k : nat) (seg : list addr) (e : addr) : Prop :=
  k = 0%nat \/ (k = 1%nat /\ strict_end seg e).

Record qsorted (h h' : mem) (pre seg seg' post : list addr) : Prop := {
  qs_dll : dll h' head (pre ++ seg' ++ post);
  qs_perm : seg' ≡ₚ seg;
  qs_sorted : sorted seg';
  qs_frame : frame (head :: pre ++ seg ++ post) h h'
}.

Lemma frame_perm pre seg seg' post h h' :
  seg' ≡ₚ seg -> frame (head :: pre ++ seg' ++ post) h h' -> frame (head :: pre ++ seg ++ post) h h'.
Proof. intros Hp. apply frame_weaken. intros x. by rewrite Hp. Qed.

Lemma nonnull_perm pre seg seg' post :
  seg' ≡ₚ seg -> ring_nonnull head (pre ++ seg ++ post) -> ring_nonnull head (pre ++ seg' ++ post).
Proof. unfold ring_nonnull. intros Hp. by rewrite Hp. Qed.

Definition sorts (fuel : nat) : Prop := forall h pre seg post k,
  dll h head (pre ++ seg ++ post) -> ring_nonnull head (pre ++ seg ++ post) ->
  compares seg -> seg <> [] ->
  (post <> [] -> forall x, x ∈ seg -> key x <= key (List.last seg NULL)) ->
  credit k seg (List.last seg NULL) -> (2 * length seg <= S (fuel + k))%nat ->
  exists h' seg',
    list_quick_sort compare_fun fuel head (hd NULL seg) (List.last seg NULL) h = Some h' /\
    qsorted h h' pre seg seg' post.

(** The first recursive call sorts the nodes below the pivot; the pivot is
    the end of its segment and stays there. *)
Lemma left_phase fuel h pre lo b post :
  sorts fuel ->
  dll h head (pre ++ lo ++ b :: post) -> ring_nonnull head (pre ++ lo ++ b :: post) ->
  compares (lo ++ [b]) -> (forall x, x ∈ lo -> key x < key b) ->
  (2 * S (length lo) <= S (fuel + 1))%nat ->
  exists h' lo',
    (if hd b lo =? b then Some h else list_quick_sort compare_fun fuel head (hd b lo) b h) = Some h' /\
    dll h' head (pre ++ lo' ++ b :: post) /\ lo' ≡ₚ lo /\ sorted lo' /\
    frame (head :: pre ++ lo ++ b :: post) h h'.
Proof.
  intros IH Hd Hnn Hcmp Hlo Hlen. destruct lo as [|x lo].
  { simpl. rewrite Z.eqb_refl. exists h, []. split_all; [done..|constructor|by split]. }
  assert (x <> b) as Hxb by (intros ->; specialize (Hlo b ltac:(left)); lia).
  simpl hd. rewrite (proj2 (Z.eqb_neq _ _) Hxb).
  assert (pre ++ (x :: lo) ++ b :: post = pre ++ ((x :: lo) ++ [b]) ++ post) as E
    by (by rewrite <- (app_assoc (x :: lo))).
  rewrite E in Hd, Hnn.
  destruct (IH h pre ((x :: lo) ++ [b]) post 1%nat Hd Hnn Hcmp) as (h' & seg' & Es & [Qd Qp Qs Qf]).
  - by destruct lo.
  - intros _ y Hy. rewrite last_snoc. apply elem_of_app in Hy as [Hy| ->%list_elem_of_singleton]; [|done].
    specialize (Hlo y Hy). lia.
  - right. split; [done|]. rewrite last_snoc.
    intros y [Hy| ->%list_elem_of_singleton]%elem_of_app Hne; [by apply Hlo|done].
  - rewrite length_app. simpl in *. lia.
  - rewrite last_snoc in Es. simpl in Es. rewrite Es.
    destruct (sorted_max_last _ _ _ Qs Qp Hlo) as (lo' & -> & Hp). exists h', lo'.
    rewrite <- app_assoc in Qd. split_all; [done..| |by rewrite E].
    clear -Qs. induction lo' as [|y l IH]; [constructor|]. inversion Qs as [|?? Hs Hf]; subst.
    constructor; [by apply IH|]. by apply List.Forall_app in Hf as [? _].
Qed.

(** The second recursive call sorts the nodes after the pivot, if there are
    at least two. *)
Lemma right_phase fuel h pre b hi post :
  sorts fuel ->
  dll h head (pre ++ b :: hi ++ post) -> ring_nonnull head (pre ++ b :: hi ++ post) ->
  compares hi ->
  (post <> [] -> hi <> [] /\ forall x, x ∈ hi -> key x <= key (List.last hi b)) ->
  (2 * length hi <= S fuel)%nat ->
  exists h' hi',
    (n ← rd (next h) b;
     if (n =? List.last hi b) || (n =? head) then Some h
     else list_quick_sort compare_fun fuel head n (List.last hi b) h) = Some h' /\
    dll h' head (pre ++ b :: hi' ++ post) /\ hi' ≡ₚ hi /\ sorted hi' /\
    frame (head :: pre ++ b :: hi ++ post) h h'.
Proof.
  intros IH Hd Hnn Hcmp Hsent Hlen. unfold rd.
  rewrite (proj2 (dll_neighbours _ _ _ _ _ Hd)). simpl.
  destruct hi as [|y hi].
  { assert (post = []) as -> by (destruct post as [|z post]; [done|]; by destruct Hsent).
    simpl. rewrite Z.eqb_refl, orb_true_r. exists h, []. split_all; [done..|constructor|by split]. }
  rewrite last_cons. simpl hd. destruct (Z.eqb_spec y (List.last hi y)) as [Ey|Hy].
  - assert (hi = []) as ->.
    { destruct hi as [|z hi]; [done|]. exfalso. rewrite last_cons in Ey.
      pose proof (last_in z hi) as Hin. rewrite <- Ey in Hin.
      assert (pre ++ b :: (y :: z :: hi) ++ post = (pre ++ [b]) ++ y :: (z :: hi) ++ post) as E
        by (by rewrite <- app_assoc). rewrite E in Hd. apply dll_notin in Hd. apply Hd.
      rewrite elem_of_cons, !elem_of_app. tauto. }
    exists h, [y]. simpl. split_all; [done..|repeat constructor|by split].
  - assert (y <> head) as Hyh.
    { destruct Hd as [Hnd _]. apply NoDup_cons in Hnd as [Hh _]. intros ->. apply Hh.
      rewrite elem_of_app, elem_of_cons. right. right. left. }
    rewrite (proj2 (Z.eqb_neq _ _) Hyh). simpl.
    assert (pre ++ b :: (y :: hi) ++ post = (pre ++ [b]) ++ (y :: hi) ++ post) as E
      by (by rewrite <- app_assoc). rewrite E in Hd, Hnn.
    destruct (IH h (pre ++ [b]) (y :: hi) post 0%nat Hd Hnn Hcmp) as (h' & seg' & Es & [Qd Qp Qs Qf]).
    + done.
    + intros Hp. rewrite last_cons. destruct (Hsent Hp) as [_ Hs]. by rewrite last_cons in Hs.
    + by left.
    + lia.
    + rewrite last_cons in Es. simpl in Es. exists h', seg'. rewrite <- app_assoc in Qd.
      split_all; [done..|]. rewrite <- E in Qf. done.
Qed.

Lemma sorts_base fuel h pre b post :
  dll h head (pre ++ [b] ++ post) ->
  exists h' seg', list_quick_sort compare_fun fuel head b b h = Some h' /\
    qsorted h h' pre [b] seg' post.
Proof.
  intros Hd. exists h, [b]. destruct fuel; simpl; rewrite Z.eqb_refl; (split; [done|]);
    (split; [done..|repeat constructor|by split]).
Qed.

(** Both phases, from the partition on. *)
Lemma sorts_step fuel h pre b rest post k :
  sorts fuel ->
  let seg := b :: rest in let e := List.last rest b in
  dll h head (pre ++ seg ++ post) -> ring_nonnull head (pre ++ seg ++ post) ->
  compares seg -> rest <> [] -> b <> e ->
  (post <> [] -> forall x, x ∈ seg -> key x <= key e) ->
  credit k seg e -> (2 * length seg <= S (S fuel + k))%nat ->
  exists h' seg', list_quick_sort compare_fun (S fuel) head b e h = Some h' /\
    qsorted h h' pre seg seg' post.
Proof.
  intros IH seg e Hd Hnn Hcmp Hr Hbe Hsent Hk Hlen. cbn [list_quick_sort].
  rewrite (proj2 (Z.eqb_neq _ _) Hbe).
  assert (post <> [] -> key b <= key e) as Hse by (intros Hp; apply (Hsent Hp); left).
  destruct (list_get_partion_spec pre b rest post e Hnn Hcmp Hse fuel h Hd Hr eq_refl)
    as (h1 & lo & hi & -> & [Pd Pp Plo Phi Pe] & Hf1).
  { destruct rest; [done|]. simpl in *. destruct Hk as [->|[-> _]]; lia. }
  simpl. pose proof (Permutation_length Pp) as Pl. rewrite length_app in Pl.
  assert (lo ++ b :: hi ≡ₚ seg) as Ps by (unfold seg; rewrite <- Pp; symmetry; apply Permutation_middle).
  assert (k = 1%nat -> (1 <= length hi)%nat) as Hhi.
  { intros ->. destruct Hk as [|[_ Hst]]; [done|]. destruct hi; [|simpl; lia]. exfalso.
    assert (e ∈ lo) as Hin.
    { rewrite app_nil_r in Pp. rewrite Pp. unfold e. destruct rest as [|y r]; [done|].
      rewrite last_cons. apply last_in. }
    specialize (Plo e Hin). specialize (Hst b ltac:(left) Hbe). lia. }
  assert (ring_nonnull head (pre ++ lo ++ b :: hi ++ post)) as Hnn1.
  { pose proof (nonnull_perm pre seg _ post Ps Hnn) as H'. by rewrite <- app_assoc in H'. }
  assert (compares (lo ++ b :: hi)) as Hcmp1 by (eapply compares_sub; [|exact Hcmp]; intros x; by rewrite Ps).
  destruct (left_phase fuel h1 pre lo b (hi ++ post) IH Pd Hnn1) as (h2 & lo2 & -> & Hd2 & Hp2 & Hs2 & Hf2).
  { eapply compares_sub; [|exact Hcmp1]. clear; set_solver. }
  { done. }
  { simpl in Hlen. destruct Hk as [->|[-> _]]; [lia|]. specialize (Hhi eq_refl). lia. }
  cbn [mbind option_bind]. rewrite app_assoc in Hd2.
  assert (ring_nonnull head ((pre ++ lo2) ++ b :: hi ++ post)) as Hnn2.
  { rewrite <- app_assoc. unfold ring_nonnull in *. by rewrite Hp2. }
  destruct (right_phase fuel h2 (pre ++ lo2) b hi post IH Hd2 Hnn2) as (h3 & hi3 & E3 & Hd3 & Hp3 & Hs3 & Hf3).
  { eapply compares_sub; [|exact Hcmp1]. intros x. rewrite !elem_of_app, elem_of_cons. tauto. }
  { intros Hp. destruct (Pe Hp) as [? El]. split; [done|]. rewrite El. intros x Hx. apply (Hsent Hp).
    rewrite <- Ps, elem_of_app, elem_of_cons. tauto. }
  { simpl in Hlen. destruct Hk as [->|[-> _]]; lia. }
  rewrite E3. exists h3, (lo2 ++ b :: hi3). split; [done|]. split.
  - by rewrite <- !app_assoc in *.
  - by rewrite Hp2, Hp3.
  - apply sorted_app_cons; [done|done|intros y; rewrite Hp2; intros Hy; specialize (Plo y Hy); lia|].
    intros y. rewrite Hp3. apply Phi.
  - eapply frame_trans; [exact Hf1|]. eapply frame_trans.
    + apply (frame_perm pre seg _ post _ _ Ps). by rewrite <- app_assoc.
    + apply (frame_perm pre seg _ post _ _ Ps). rewrite <- app_assoc.
      eapply frame_weaken; [|exact Hf3]. intros x.
      by rewrite <- app_assoc, Hp2.
Qed.

Lemma list_quick_sort_spec fuel : sorts fuel.
Proof.
  induction fuel as [|fuel IH]; intros h pre seg post k Hd Hnn Hcmp Hne Hsent Hk Hlen;
    destruct seg as [|b rest]; try done; rewrite last_cons in *; cbn [hd] in *;
    (destruct (decide (rest = [])) as [->|Hr]; [by apply sorts_base|]).
  - exfalso. destruct rest; [done|]. simpl in Hlen. destruct Hk as [->|[-> _]]; lia.
  - apply (sorts_step fuel h pre b rest post k); try done.
    destruct rest as [|y rest]; [done|]. rewrite last_cons. pose proof (last_in y rest) as Hin.
    destruct Hd as [Hnd _]. apply NoDup_cons in Hnd as [_ Hnd].
    apply NoDup_app in Hnd as (_ & _ & Hnd). apply NoDup_cons in Hnd as [Hb _].
    intros Eb. apply Hb. rewrite Eb. change (List.last rest y ∈ (y :: rest) ++ post). rewrite elem_of_app. by left.
Qed.

End Partition.

(** ** The properties *)

(** The way the program calls the sort: on a whole list,
    [list_quick_sort (list, list->next, list->prev, ...)]. *)
Definition sort_list (compare_fun : addr -> addr -> Z) (fuel : nat) (head : addr) (h : mem) :
    option mem :=
  b ← rd (next h) head; e ← rd (prev h) head; list_quick_sort compare_fun fuel head b e h.

Lemma sort_list_spec head compare_fun key h xs fuel :
  dll h head xs -> ring_nonnull head xs -> compares compare_fun key xs ->
  (2 * length xs <= fuel)%nat ->
  exists h' ys, sort_list compare_fun fuel head h = Some h' /\ dll h' head ys /\
    ys ≡ₚ xs /\ sorted key ys /\ frame (head :: xs) h h'.
Proof.
  intros Hd Hnn Hcmp Hlen. unfold sort_list, rd.
  pose proof (dll_last h head [] xs Hd) as En. simpl in En.
  pose proof (dll_hd h head xs []) as Ep. rewrite app_nil_r in Ep. specialize (Ep Hd). simpl in Ep.
  rewrite En, Ep. simpl. destruct xs as [|b rest].
  { exists h, []. split_all; [|done|done|constructor|by split].
    destruct fuel; simpl; by rewrite Z.eqb_refl. }
  assert (dll h head ([] ++ (b :: rest) ++ [])) as Hd' by (by rewrite app_nil_r).
  assert (ring_nonnull head ([] ++ (b :: rest) ++ [])) as Hnn' by (by rewrite app_nil_r).
  destruct (list_quick_sort_spec head compare_fun key fuel h [] (b :: rest) [] 0%nat Hd' Hnn' Hcmp)
    as (h' & ys & E & [Qd Qp Qs Qf]); [done|done|by left|lia|].
  rewrite !app_nil_r in *. rewrite !last_cons in *. by exists h', ys.
Qed.

(** C8. [list_quick_sort] sorts: run on a whole circular list with a
    comparison that agrees with the order of the keys, it ends (within a
    recursion depth of twice the length), never follows a bad pointer, leaves
    a well-formed list that is a permutation of the old one in ascending order
    of the keys, and touches no memory outside the list. *)
Theorem quick_sort_sorts head compare_fun key h xs fuel :
  dll h head xs -> ring_nonnull head xs -> compares compare_fun key xs ->
  (2 * length xs <= fuel)%nat ->
  exists h' ys, sort_list compare_fun fuel head h = Some h' /\ dll h' head ys /\
    ys ≡ₚ xs /\ sorted key ys /\ frame (head :: xs) h h'.
Proof. apply sort_list_spec. Qed.

(** [list_commen_compare_fun] agrees with the keys when they are close. *)
Lemma commen_compares key ty xs :
  0 <= ty <= 2 ->
  (forall x y, x ∈ xs -> y ∈ xs -> - 2 ^ 31 <= key ty x - key ty y < 2 ^ 31) ->
  compares (fun a b => list_commen_compare_fun key a b ty) (key ty) xs.
Proof.
  intros Hty Hk x y Hx Hy. unfold list_commen_compare_fun,
    LIST_QQ_WK_MSG_SORT, LIST_DETAIL_WK_ACT_SORT, LIST_GROUP_BASE_INFO_SORT.
  replace ((ty =? 0) || (ty =? 1) || (ty =? 2)) with true by (zcases; simpl; lia).
  rewrite wraps_small; [lia|lia|]. apply (Hk x y Hx Hy).
Qed.

(** Chat messages, activity records and groups are sorted correctly as
    long as their keys lie within [2^31] of each other. *)
Theorem commen_sort_sorts head key ty h xs :
  dll h head xs -> ring_nonnull head xs -> 0 <= ty <= 2 ->
  (forall x y, x ∈ xs -> y ∈ xs -> - 2 ^ 31 <= key ty x - key ty y < 2 ^ 31) ->
  exists h' ys,
    sort_list (fun a b => list_commen_compare_fun key a b ty) (2 * length xs) head h = Some h' /\
    dll h' head ys /\ ys ≡ₚ xs /\ sorted (key ty) ys.
Proof.
  intros Hd Hnn Hty Hk.
  destruct (sort_list_spec head _ (key ty) h xs (2 * length xs) Hd Hnn (commen_compares key ty xs Hty Hk))
    as (h' & ys & E & ? & ? & ? & _); [lia|]. by exists h', ys.
Qed.

(** ** Concrete lists *)

(** Head 1 and the nodes 10, 20, 30 in this order. *)
Definition ex_mem : mem :=
  Mem {[ 1 := 10; 10 := 20; 20 := 30; 30 := 1 ]} {[ 1 := 30; 30 := 20; 20 := 10; 10 := 1 ]}.

Definition ex_key (times : list Z) (a : addr) : Z :=
  match times with
  | [t1; t2; t3] => if a =? 10 then t1 else if a =? 20 then t2 else t3
  | _ => 0
  end.

Lemma ex_dll : dll ex_mem 1 [10; 20; 30].
Proof.
  split; [|by repeat split]. apply (bool_decide_unpack (NoDup [1; 10; 20; 30])).
  vm_compute. exact I.
Qed.

Lemma ex_nonnull : ring_nonnull 1 [10; 20; 30].
Proof. apply (bool_decide_unpack (0 ∉ [1; 10; 20; 30])). vm_compute. exact I. Qed.

Lemma quick_sort_sorts_witness :
  exists h' ys,
    sort_list (fun a b => ex_key [7; 3; 5] a - ex_key [7; 3; 5] b) 6 1 ex_mem = Some h' /\
    dll h' 1 ys /\ ys ≡ₚ [10; 20; 30] /\ sorted (ex_key [7; 3; 5]) ys.
Proof.
  destruct (quick_sort_sorts 1 (fun a b => ex_key [7; 3; 5] a - ex_key [7; 3; 5] b) (ex_key [7; 3; 5])
    ex_mem [10; 20; 30] 6 ex_dll ex_nonnull) as (h' & ys & E & Hd & Hp & Hs & _).
  - intros x y _ _. lia.
  - simpl. lia.
  - exists h', ys. auto.
Defined.

Lemma commen_sort_sorts_witness :
  exists h' ys,
    sort_list (fun a b => list_commen_compare_fun (fun _ => ex_key [7; 3; 5]) a b 1) 6 1 ex_mem = Some h' /\
    dll h' 1 ys /\ ys ≡ₚ [10; 20; 30] /\ sorted (ex_key [7; 3; 5]) ys.
Proof.
  apply (commen_sort_sorts 1 (fun _ => ex_key [7; 3; 5]) 1 ex_mem [10; 20; 30] ex_dll ex_nonnull).
  - lia.
  - intros x y _ _. unfold ex_key. destruct (x =? 10), (x =? 20), (y =? 10), (y =? 20); lia.
Defined.

(** The bound of the previous property is needed: the 64-bit difference
    is truncated to 32 bits, so two times [2^31] or more apart (one of them
    from a client whose clock is reset, say) compare the wrong way round, and
    the sort leaves the list in descending order. *)
Theorem sort_truncates :
  let key := ex_key [4294967294; 1000; 4294967295] in
  key 20 < key 10 /\
  match sort_list (fun a b => list_commen_compare_fun (fun _ => key) a b 1) 6 1 ex_mem with
  | Some h => list_for_each 3 1 h = Some [10; 30; 20]
  | None => False
  end.
Proof. vm_compute. auto. Qed.

End Sort.
