(* ===== verification/CString.v ===== *)
(** * CString: the C library's string functions

    A C string is the list of its bytes before the terminator, each between 1
    and 255; where the code reads a byte as a signed character the conversion
    [s8] is written out.  What the program uses of [string.h] and [stdio.h] is
    written on this representation. *)

From Stdlib Require Import Ascii String.
From S2P Require Import Prelude.
Local Open Scope Z_scope.

Abbreviation cstring := (list Z) (only parsing).

(** A string literal of the source. *)
Definition str (s : string) : cstring :=
  (fun c => Z.of_nat (nat_of_ascii c)) <$> list_ascii_of_string s.

(** The bytes of a string. *)
Definition is_char (c : Z) : Prop := 0 < c < 256.

(** The character at index [i], the terminator included. *)
Definition char_at (s : cstring) (i : nat) : Z := nth i s 0.

Definition strcmp_eq (a b : cstring) : bool := bool_decide (a = b).

(** [strncmp (a, b, n) == 0] *)
Definition strncmp_eq (n : nat) (a b : cstring) : bool := bool_decide (take n a = take n b).

Definition tolower (c : Z) : Z := if (65 <=? c) && (c <=? 90) then c + 32 else c.

Definition strcasecmp_eq (a b : cstring) : bool :=
  bool_decide (tolower <$> a = tolower <$> b).

Fixpoint is_prefix (p s : cstring) : bool :=
  match p, s with
  | [], _ => true
  | c :: p, d :: s => (c =? d) && is_prefix p s
  | _, [] => false
  end.

(** [strstr (s, sub) != NULL] *)
Fixpoint strstr (s sub : cstring) : bool :=
  is_prefix sub s || match s with [] => false | _ :: s => strstr s sub end.

(** What [snprintf (dst, n, "%s", s)] leaves in [dst]; with [n = 0] it writes
    nothing, so a zeroed destination stays the empty string. *)
Definition snprintf_s (n : Z) (s : cstring) : cstring :=
  if n =? 0 then [] else take (Z.to_nat (n - 1)) s.

Lemma strcmp_eq_true a b : strcmp_eq a b = true <-> a = b.
Proof. apply bool_decide_eq_true. Qed.

Lemma snprintf_fits n s : Z.of_nat (length s) < n -> snprintf_s n s = s.
Proof.
  intros Hn. unfold snprintf_s. destruct (Z.eqb_spec n 0); [lia|]. apply take_ge. lia.
Qed.

Lemma is_prefix_spec p s : is_prefix p s = true <-> exists r, s = p ++ r.
Proof.
  revert s. induction p as [|c p IH]; intros s; simpl; [split; [by exists s|done]|].
  destruct s as [|d s]; [split; [done|by intros [r ?]]|].
  rewrite andb_true_iff, IH, Z.eqb_eq. split.
  - intros [-> [r ->]]. by exists r.
  - intros [r [= -> ->]]. eauto.
Qed.

(** [strstr] finds a substring exactly when there is one. *)
Lemma strstr_spec s sub : strstr s sub = true <-> exists l r, s = l ++ sub ++ r.
Proof.
  induction s as [|c s IH]; cbn [strstr]; rewrite orb_true_iff, is_prefix_spec.
  - split.
    + intros [[r E]|]; [|done]. by exists [], r.
    + intros (l & r & E). destruct l; [|done]. left. by exists r.
  - rewrite IH. split.
    + intros [[r ->]|(l & r & ->)]; [by exists [], r|by exists (c :: l), r].
    + intros (l & r & E). destruct l as [|x l]; [left; by exists r|].
      right. injection E as -> ->. by exists l, r.
Qed.

(** ** Decimal numerals *)

(** The digits of a non-negative number, before [acc]. *)
Fixpoint dec_loop (fuel : nat) (n : Z) (acc : cstring) : cstring :=
  match fuel with
  | O => acc
  | S fuel =>
    let acc := (48 + n mod 10) :: acc in
    if n <? 10 then acc else dec_loop fuel (n / 10) acc
  end.

(** [sprintf ("%d", n)] for an [int]. *)
Definition dec (n : Z) : cstring := if n <? 0 then 45 :: dec_loop 20 (- n) [] else dec_loop 20 n [].

Definition is_digit (c : Z) : bool := (48 <=? c) && (c <=? 57).

(** Reading digits from the left. *)
Definition read_dec (s : cstring) (acc : Z) : Z := fold_left (fun a c => a * 10 + (c - 48)) s acc.

Lemma dec_loop_S fuel n acc :
  dec_loop (S fuel) n acc =
  if n <? 10 then (48 + n mod 10) :: acc else dec_loop fuel (n / 10) ((48 + n mod 10) :: acc).
Proof. done. Qed.

(** The printed digits are digits, denote the number, and have no leading
    zero. *)
Lemma dec_loop_spec fuel : forall n acc,
  0 <= n < 10 ^ Z.of_nat (S fuel) ->
  exists ds, dec_loop (S fuel) n acc = ds ++ acc /\ Forall (fun c => is_digit c = true) ds /\ ds <> [] /\
    (forall a, read_dec ds a = a * 10 ^ Z.of_nat (length ds) + n) /\ (hd 0 ds = 48 -> ds = [48]).
Proof.
  induction fuel as [|fuel IH]; intros n acc Hn; rewrite dec_loop_S;
    (destruct (Z.ltb_spec n 10) as [Hlt|Hge]).
  1, 3: (exists [48 + n mod 10]; rewrite Z.mod_small by lia;
    split; [done|]; split; [constructor; [|done]; unfold is_digit; lia|]; split; [done|];
    split; [intros a; unfold read_dec; simpl; lia|]; simpl; intros E; f_equal; lia).
  - change (10 ^ Z.of_nat 1) with 10 in Hn. lia.
  - rewrite Nat2Z.inj_succ, Z.pow_succ_r in Hn by lia.
    assert (0 <= n / 10 < 10 ^ Z.of_nat (S fuel)) as Hd
      by (split; [apply Z.div_pos; lia|apply Z.div_lt_upper_bound; lia]).
    destruct (IH (n / 10) ((48 + n mod 10) :: acc) Hd) as (ds & E & Hf & Hne & Hv & Hz).
    exists (ds ++ [48 + n mod 10]). pose proof (Z.mod_pos_bound n 10 ltac:(lia)).
    split; [rewrite E, <- (assoc_L (++)); done|]. split.
    { apply Forall_app. split; [done|]. constructor; [unfold is_digit; lia|done]. }
    split; [by destruct ds|]. split.
    + intros a. unfold read_dec in *. rewrite fold_left_app, Hv, length_app. simpl.
      rewrite Nat2Z.inj_add, Z.pow_add_r by lia. change (10 ^ Z.of_nat 1) with 10.
      pose proof (Z.div_mod n 10 ltac:(lia)). lia.
    + intros Hh. exfalso. assert (hd 0 ds = 48) as H48 by (by destruct ds). specialize (Hz H48).
      specialize (Hv 0). rewrite Hz in Hv. unfold read_dec in Hv. simpl in Hv.
      assert (1 <= n / 10) by (apply Z.div_le_lower_bound; lia). lia.
Qed.
