(* ===== verification/Bytes.v ===== *)
(** * Bytes: blocks of bytes and the C structures laid over them

    A block is the list of its bytes; integers are little endian.  A store or
    a load outside of the block is a fault. *)

From S2P Require Import Prelude CString.
Local Open Scope Z_scope.

Implicit Types (b bs : list Z).

(** The string an array holds. *)
Fixpoint c_string (b : list Z) : cstring :=
  match b with [] => [] | c :: b => if c =? 0 then [] else c :: c_string b end.

Fixpoint le (n : nat) (v : Z) : list Z :=
  match n with O => [] | S n => v mod 256 :: le n (v / 256) end.

Fixpoint unle (bs : list Z) : Z :=
  match bs with [] => 0 | b :: bs => b + 256 * unle bs end.

Definition store (off : nat) (bs b : list Z) : outcome (list Z) :=
  if decide (off + length bs <= length b)%nat
  then Done (take off b ++ bs ++ drop (off + length bs) b) else Fault OutOfBounds.

(** The [w] bytes at [off]. *)
Definition field (off w : nat) (b : list Z) : list Z := take w (drop off b).

Definition load (off w : nat) (b : list Z) : outcome Z :=
  if decide (off + w <= length b)%nat then Done (unle (field off w b)) else Fault OutOfBounds.

Lemma c_string_app s junk : Forall (fun c => c <> 0) s -> c_string (s ++ 0 :: junk) = s.
Proof. induction 1 as [|c s Hc Hs IH]; simpl; [done|]. destruct (Z.eqb_spec c 0); [done|]. by rewrite IH. Qed.

Lemma c_string_cut s j k : c_string (s ++ 0 :: j) = c_string (s ++ 0 :: k).
Proof. induction s as [|c s IH]; simpl; [done|]. destruct (c =? 0); [done|]. by rewrite IH. Qed.

Lemma snprintf_short size (s : cstring) : 1 <= size -> (length (snprintf_s size s) + 1 <= Z.to_nat size)%nat.
Proof.
  intros Hs. unfold snprintf_s. destruct (Z.eqb_spec size 0); [lia|]. rewrite length_take. lia.
Qed.

Lemma length_le n : forall v, length (le n v) = n.
Proof. induction n as [|n IH]; intros v; simpl; [done|]. by rewrite IH. Qed.

Lemma unle_le n : forall v, unle (le n v) = wrapu (8 * Z.of_nat n) v.
Proof.
  unfold wrapu. induction n as [|n IH]; intros v; simpl unle; [change (2 ^ (8 * Z.of_nat 0)) with 1; by rewrite Z.mod_1_r|].
  rewrite IH. replace (8 * Z.of_nat (S n)) with (8 + 8 * Z.of_nat n) by lia. rewrite Z.pow_add_r by lia.
  change (2 ^ 8) with 256. rewrite Z.rem_mul_r by (try apply Z.pow_pos_nonneg; lia). lia.
Qed.

Lemma store_fits off bs b :
  (off + length bs <= length b)%nat -> exists b', store off bs b = Done b'.
Proof. intros H. unfold store. rewrite decide_True by done. eauto. Qed.

Lemma store_length off bs b b' : store off bs b = Done b' -> length b' = length b.
Proof.
  unfold store. case_decide; [|done]. intros [= <-]. rewrite !length_app, length_take, length_drop. lia.
Qed.

Lemma store_field off bs b b' : store off bs b = Done b' -> field off (length bs) b' = bs.
Proof.
  unfold store, field. case_decide as H; [|done]. intros [= <-].
  rewrite drop_app_length' by (rewrite length_take; lia). by rewrite take_app_length.
Qed.

Lemma store_elsewhere off bs b b' i :
  store off bs b = Done b' -> (i < off \/ off + length bs <= i)%nat -> b' !! i = b !! i.
Proof.
  unfold store. case_decide as H; [|done]. intros [= <-] [Hi|Hi].
  - rewrite lookup_app_l by (rewrite length_take; lia). apply lookup_take_lt. lia.
  - rewrite lookup_app_r by (rewrite length_take; lia). rewrite lookup_app_r by (rewrite length_take; lia).
    rewrite lookup_drop. f_equal. rewrite length_take. lia.
Qed.

(** A field is determined by its bytes. *)
Lemma field_ext off w b b' :
  (forall i, (off <= i < off + w)%nat -> b' !! i = b !! i) -> field off w b' = field off w b.
Proof.
  intros H. unfold field. apply list_eq. intros i. destruct (decide (i < w)%nat).
  - rewrite !lookup_take_lt by done. rewrite !lookup_drop. apply H. lia.
  - by rewrite !lookup_take_ge by lia.
Qed.

Lemma store_other_field off bs b b' o w :
  store off bs b = Done b' -> (o + w <= off \/ off + length bs <= o)%nat -> field o w b' = field o w b.
Proof. intros E H. apply field_ext. intros i Hi. eapply store_elsewhere; [exact E|lia]. Qed.

Lemma load_field off w b b' :
  length b' = length b -> field off w b' = field off w b -> load off w b' = load off w b.
Proof. intros Hl Hf. unfold load. by rewrite Hl, Hf. Qed.

Lemma field_join off w w' b : field off (w + w') b = field off w b ++ field (off + w) w' b.
Proof. unfold field. by rewrite <- drop_drop, take_take_drop. Qed.

Lemma store_fault off bs b f : store off bs b = Fault f -> f = OutOfBounds.
Proof. unfold store. case_decide; [done|]. by intros [= <-]. Qed.

Lemma store_overflows off bs b : (length b < off + length bs)%nat -> store off bs b = Fault OutOfBounds.
Proof. intros H. unfold store. by rewrite decide_False by lia. Qed.
