(* ===== verification/Rules.v ===== *)
(** * Rules: the rule tables of [TCP_C/hash.c]

    Forbidden activities, encrypted-file rules and work rules.  Each table is
    a [Registry]: an object is on a hash chain, on the list of all rules and
    on the list of its group.  [p] is the result of [wys_malloc] ([NULL] when
    it fails); memory from [wys_malloc] is zeroed.  Indexing a group array
    with a group number outside it is the fault [OutOfBounds]. *)

From S2P Require Import Prelude CString Registry.
Import Registry.
Local Open Scope Z_scope.

Definition HASH_SIZE : Z := 0x100.
Definition HASH_MASK : Z := 0xff.
Definition GROUP_ID_MAX : Z := 256.

(** The embedded fields, which name the indexes. *)
Definition F_HASH : Z := 0.
Definition F_ALL : Z := 1.
Definition F_GROUP : Z := 2.

Definition group_head (gid : Z) : outcome key :=
  if (0 <=? gid) && (gid <? GROUP_ID_MAX) then Done (F_GROUP, (0, gid)) else Fault OutOfBounds.

(** ** Forbidden activities *)

Module Forbid.

Record ww_forbidact := ForbidAct {
  kind : Z; type : Z; name : cstring; gid : Z;
  act_type : Z; is_forbid : Z; enable : Z; option_ : Z
}.

(** [while (\*name++) hash_r = hash_r * 131 + \*name]: the pointer is
    advanced before the character is added. *)
Fixpoint hash_loop (s : cstring) (hash_r : Z) : Z :=
  match s with
  | [] => hash_r
  | _ :: s => hash_loop s (s32 (hash_r * 131 + s8 (char_at s 0)))
  end.

Definition forbid_act_hash_value (s : cstring) : Z := Z.land (hash_loop s 0) HASH_MASK.

Abbreviation forbid := (reg ww_forbidact).

Definition forbid_act_find_in (p : ww_forbidact -> bool) (gid_ : Z) (s : forbid) :
    outcome (option addr) :=
  k ← group_head gid_;
  r ← find (objs s) p (tget (tbl s) k);
  match r with
  | Some a => Done (Some a)
  | None =>
      if negb (gid_ =? 0) then find (objs s) p (tget (tbl s) (F_GROUP, (0, 0))) else Done None
  end.

Definition forbid_act_find_by_wnd_name (nm : cstring) (gid_ : Z) (s : forbid) :
    outcome (option addr) :=
  forbid_act_find_in (fun x => strstr nm (name x)) gid_ s.

Definition forbid_act_find_by_process (nm : cstring) (gid_ : Z) (s : forbid) :
    outcome (option addr) :=
  forbid_act_find_in (fun x => strcasecmp_eq nm (name x)) gid_ s.

Definition chain_of (nm : cstring) : key := (F_HASH, (0, forbid_act_hash_value nm)).

Definition forbid_act_hash_find (nm : cstring) (gid_ : Z) (s : forbid) : outcome (option addr) :=
  find (objs s) (fun x => strcmp_eq (name x) nm && ((gid x =? 0) || (gid x =? gid_)))
       (tget (tbl s) (chain_of nm)).

(** [hlist_del], [list_del] twice and [wys_free]. *)
Definition forbid_remove (a : addr) (s : forbid) : outcome forbid :=
  t ← hlist_del F_HASH a (tbl s);
  Done (Reg (delete a (objs s)) (unlink F_GROUP a (unlink F_ALL a t))).

Definition forbid_act_hash_del (nm : cstring) (gid_ : Z) (s : forbid) : outcome (Z * forbid) :=
  r ← find (objs s) (fun x => (gid x =? gid_) && strcmp_eq (name x) nm)
           (tget (tbl s) (chain_of nm));
  match r with
  | Some a => s ← forbid_remove a s; Done (0, s)
  | None => Done (-1, s)
  end.

(** The [hlist_for_each] of [forbid_act_hash_add]: after the body the loop
    reads [hash_cmp->next], also when the body has deleted that node. *)
Fixpoint forbid_add_scan (nm : cstring) (gid_ flag : Z) (l : list addr) (s : forbid) :
    outcome (option Z * forbid) :=
  match l with
  | [] => Done (None, s)
  | a :: l =>
      x ← get_or UseAfterFree (objs s !! a);
      let continue s := _ ← get_or UseAfterFree (objs s !! a); forbid_add_scan nm gid_ flag l s in
      if strcmp_eq (name x) nm then
        if negb (gid_ =? 0) then
          if (gid x =? 0) || (gid x =? gid_) then
            if flag =? 1 then Done (Some (-1), s)
            else if flag =? 0 then Done (Some 0, s)
            else continue s
          else continue s
        else if gid x =? gid_ then Done (Some (-1), s)
        else '(_, s) ← forbid_act_hash_del (name x) (gid x) s; continue s
      else continue s
  end.

(** The fields of the new rule, by type of activity. *)
Definition forbid_fill (nm : cstring) (gid_ act_type_ is_forbid_ : Z) : ww_forbidact :=
  let x := ForbidAct 0 0 [] 0 0 0 0 0 in
  let x := if (act_type_ =? 0) || (act_type_ =? 3)
           then ForbidAct (if act_type_ =? 3 then 2 else 1) (u8 (is_forbid_ + 1)) (take 32 nm) gid_
                          act_type_ is_forbid_ (enable x) (option_ x)
           else x in
  let x := if act_type_ =? 2
           then ForbidAct (kind x) (type x) (take 32 nm) gid_ act_type_ is_forbid_ 1
                          (if is_forbid_ =? 0 then 0 else 3)
           else x in
  if act_type_ =? 1
  then ForbidAct 2 (u8 (is_forbid_ + 1)) (take 32 nm) gid_ act_type_ is_forbid_
                 (enable x) (option_ x)
  else x.

Definition forbid_act_hash_add (nm : cstring) (gid_ act_type_ is_forbid_ flag : Z) (p : addr)
    (s : forbid) : outcome (Z * forbid) :=
  '(r, s) ← forbid_add_scan nm gid_ flag (tget (tbl s) (chain_of nm)) s;
  match r with
  | Some r => Done (r, s)
  | None =>
      if p =? NULL then Done (-1, s)
      else
        k ← group_head gid_;
        let t := add_head (chain_of nm) p (tbl s) in
        let t := add_tail (F_ALL, (0, 0)) p t in
        let t := add_tail k p t in
        Done (0, Reg (<[p := forbid_fill nm gid_ act_type_ is_forbid_]> (objs s)) t)
  end.

Definition forbid_act_hash_del_all (s : forbid) : outcome forbid :=
  for_each_safe forbid_remove (tget (tbl s) (F_ALL, (0, 0))) s.

Definition forbid_act_hash_del_group (gid_ : Z) (s : forbid) : outcome forbid :=
  k ← group_head gid_; for_each_safe forbid_remove (tget (tbl s) k) s.

End Forbid.

(** ** Encrypted files *)

Module Encrypt.

Record ww_encryptfile := EncryptFile {
  name : cstring; gid : Z; filetype : Z; authority : Z; enable : Z
}.

Abbreviation encrypt := (reg ww_encryptfile).

Fixpoint encrypt_hash_loop (s : cstring) (hash_r : Z) : Z :=
  match s with
  | [] => hash_r
  | _ :: s => encrypt_hash_loop s (s32 (hash_r * 131 + s8 (char_at s 0)))
  end.

Definition encrypt_file_hash_value (s : cstring) : Z := Z.land (encrypt_hash_loop s 0) HASH_MASK.

Definition encrypt_chain (nm : cstring) : key := (F_HASH, (0, encrypt_file_hash_value nm)).

(** The test loop of [encrypt_file_hash_add]: the value to return, if any. *)
Definition encrypt_clash (nm : cstring) (gid_ flag : Z) (s : encrypt) : outcome (option Z) :=
  r ← find (objs s) (fun x => strcmp_eq nm (name x) && ((gid x =? 0) || (gid x =? gid_)) &&
                              ((flag =? 1) || (flag =? 0)))
           (tget (tbl s) (encrypt_chain nm));
  Done (match r with Some _ => Some (if flag =? 1 then -1 else 0) | None => None end).

Definition ENCRYPT_NAME_LEN : Z := 256.

Definition encrypt_file_hash_add (nm : cstring) (name_len gid_ filetype_ authority_ : Z)
    (flag : Z) (p : addr) (s : encrypt) : outcome (Z * encrypt) :=
  c ← encrypt_clash nm gid_ flag s;
  match c with
  | Some r => Done (r, s)
  | None =>
      if p =? NULL then Done (-1, s)
      else if ENCRYPT_NAME_LEN <? Z.min name_len (Z.of_nat (length nm) + 1) then Fault OutOfBounds
      else
        let x := EncryptFile (snprintf_s name_len nm) gid_ filetype_ authority_ 1 in
        let t := add_head (encrypt_chain nm) p (tbl s) in
        let t := add_tail (F_ALL, (0, 0)) p t in
        k ← group_head gid_;
        Done (0, Reg (<[p := x]> (objs s)) (add_tail k p t))
  end.

Definition encrypt_remove (a : addr) (s : encrypt) : outcome encrypt :=
  t ← hlist_del F_HASH a (tbl s);
  Done (Reg (delete a (objs s)) (unlink F_ALL a (unlink F_GROUP a t))).

Definition encrypt_file_hash_del (nm : cstring) (gid_ : Z) (s : encrypt) : outcome (Z * encrypt) :=
  r ← find (objs s) (fun x => strcmp_eq (name x) nm && (gid x =? gid_))
           (tget (tbl s) (encrypt_chain nm));
  match r with
  | Some a => s ← encrypt_remove a s; Done (0, s)
  | None => Done (-1, s)
  end.

Definition encrypt_file_hash_del_all (s : encrypt) : outcome encrypt :=
  for_each_safe encrypt_remove (tget (tbl s) (F_ALL, (0, 0))) s.

Definition encrypt_file_hash_del_group (gid_ : Z) (s : encrypt) : outcome encrypt :=
  k ← group_head gid_; for_each_safe encrypt_remove (tget (tbl s) k) s.

End Encrypt.

(** ** Work rules *)

Module WorkRule.

Record an_work_rule := WorkRule { workname : cstring; process : cstring; gid : Z; worktype : Z }.

Abbreviation work := (reg an_work_rule).

(** The sum of at most the first eight characters, in an [_u32]. *)
Definition an_work_rule_t_get_hash (nm : cstring) : Z :=
  Z.land (fold_left (fun index c => u32 (index + s8 c)) (take 8 nm) 0) HASH_MASK.

Definition work_chain (nm : cstring) : key := (F_HASH, (0, an_work_rule_t_get_hash nm)).

(** A new rule is zeroed, initialised and on no list. *)
Definition an_work_rule_t_create (p : addr) (s : work) : addr * work :=
  if p =? NULL then (NULL, s)
  else (p, Reg (<[p := WorkRule [] [] 0 0]> (objs s)) (tbl s)).

(** The conditions of the two searches; [field] is compared up to the size of
    the array that holds it. *)
Definition work_match (gid_ok : Z -> bool) (type : Z) (nm : cstring) (x : an_work_rule) : bool :=
  (type =? 0) && (type =? worktype x) && gid_ok (gid x) && strncmp_eq 32 (process x) nm ||
  (type =? 1) && (type =? worktype x) && gid_ok (gid x) && strncmp_eq 48 (workname x) nm.

Definition an_work_rule_t_find_by_type_name_gid (type : Z) (nm : cstring) (gid_ : Z) (s : work) :
    outcome (option addr) :=
  find (objs s) (work_match (fun g => gid_ =? u32 g) type nm) (tget (tbl s) (work_chain nm)).

Definition an_work_rule_t_find_by_type_name_gid_all (type : Z) (nm : cstring) (gid_ : Z) (s : work) :
    outcome (option addr) :=
  find (objs s) (work_match (fun g => (g =? 0) || (gid_ =? u32 g)) type nm)
       (tget (tbl s) (work_chain nm)).

Definition an_work_rule_t_find_create_by_name_gid (type : Z) (nm : cstring) (gid_ : Z) (p : addr)
    (s : work) : outcome (addr * work) :=
  r ← an_work_rule_t_find_by_type_name_gid type nm gid_ s;
  match r with
  | Some a => Done (a, s)
  | None => Done (an_work_rule_t_create p s)
  end.

Definition an_work_rule_t_del (a : addr) (s : work) : outcome work :=
  if a =? NULL then Done s
  else
    let t := unlink F_GROUP a (unlink F_ALL a (tbl s)) in
    t ← hlist_del F_HASH a t;
    Done (Reg (delete a (objs s)) t).

Definition an_work_rule_t_del_group (gid_ : Z) (s : work) : outcome work :=
  k ← group_head gid_; for_each_safe an_work_rule_t_del (tget (tbl s) k) s.

Definition an_work_rule_t_clear (s : work) : outcome work :=
  for_each_safe an_work_rule_t_del (tget (tbl s) (F_ALL, (0, 0))) s.

End WorkRule.
