(* ===== verification/RulesFacts.v ===== *)
(** * RulesFacts: the rule tables implement maps of rules

    The invariant of a rule table says that the hash chains, the list of all
    rules and the group lists hold the same objects, each at its place.  On it
    rest the functional specifications of the operations: a table of rules is
    a map from name and group to the rule. *)

From S2P Require Import Prelude CString Registry Rules.
Import Registry.
Local Open Scope Z_scope.

(** ** Three indexes over one heap *)

Section Three.

Context {T : Type} (hashp : T -> place) (gidf : T -> Z).

Record inv3 (s : reg T) : Prop := {
  i3_hash : indexed (tbl s) F_HASH (hashp <$> objs s);
  i3_all : indexed (tbl s) F_ALL ((fun _ => (0, 0)) <$> objs s);
  i3_group : indexed (tbl s) F_GROUP ((fun x => (0, gidf x)) <$> objs s);
  i3_null : objs s !! NULL = None;
  i3_gid : forall a x, objs s !! a = Some x -> 0 <= gidf x < GROUP_ID_MAX
}.

Lemma inv3_add s p x t :
  inv3 s -> p <> NULL -> objs s !! p = None -> 0 <= gidf x < GROUP_ID_MAX ->
  t = add_tail (F_GROUP, (0, gidf x)) p (add_tail (F_ALL, (0, 0)) p
        (add_head (F_HASH, hashp x) p (tbl s))) ->
  inv3 (Reg (<[p := x]> (objs s)) t).
Proof.
  intros [H1 H2 H3 Hn Hg] Hp Hf Hx ->.
  split; simpl; rewrite ?fmap_insert; [repeat indexed_tac; by rewrite ?lookup_fmap, ?Hf..| |].
  - by rewrite lookup_insert_ne.
  - intros a y [[<- <-]|[_ E]]%lookup_insert_Some; [done|by eapply Hg].
Qed.

Lemma inv3_del s a t :
  inv3 s -> (forall f m, f = F_HASH \/ f = F_ALL \/ f = F_GROUP ->
    indexed (tbl s) f m -> indexed t f (delete a m)) ->
  inv3 (Reg (delete a (objs s)) t).
Proof.
  intros [H1 H2 H3 Hn Hg] Ht. split; simpl; rewrite ?fmap_delete; [apply Ht; tauto..| |].
  - by rewrite lookup_delete_None; right.
  - intros b y [_ E]%lookup_delete_Some. by eapply Hg.
Qed.

Lemma inv3_init t : (forall k, tget t k = []) -> inv3 (Reg ∅ t).
Proof.
  intros Ht. split; simpl; rewrite ?fmap_empty; [by apply indexed_nil..|apply lookup_empty|].
  intros a x. by rewrite lookup_empty.
Qed.

(** The objects on the group list of [g], and on the list of all. *)
Lemma inv3_group_list s g a :
  inv3 s -> a ∈ tget (tbl s) (F_GROUP, (0, g)) <-> exists x, objs s !! a = Some x /\ gidf x = g.
Proof.
  intros Hi. rewrite (indexed_at _ _ _ (i3_group _ Hi)), lookup_fmap, fmap_Some. naive_solver.
Qed.

Lemma inv3_all_list s a :
  inv3 s -> a ∈ tget (tbl s) (F_ALL, (0, 0)) <-> exists x, objs s !! a = Some x /\ True.
Proof.
  intros Hi. rewrite (indexed_at _ _ _ (i3_all _ Hi)), lookup_fmap, fmap_Some. naive_solver.
Qed.

Lemma inv3_hlist_del s a x :
  inv3 s -> objs s !! a = Some x -> hlist_del F_HASH a (tbl s) = Done (unlink F_HASH a (tbl s)).
Proof.
  intros Hi E. eapply hlist_del_indexed; [apply Hi|]. rewrite lookup_fmap, E. by eexists.
Qed.

Lemma group_head_ok g : 0 <= g < GROUP_ID_MAX -> group_head g = Done (F_GROUP, (0, g)).
Proof. intros Hg. unfold group_head. by destruct (Z.leb_spec 0 g), (Z.ltb_spec g GROUP_ID_MAX); try lia. Qed.

(** The loops over all rules and over a group. *)
Lemma inv3_del_group s (remove : addr -> reg T -> outcome (reg T)) (P : reg T -> Prop) g :
  (forall s a x, inv3 s /\ P s -> objs s !! a = Some x ->
     exists s', remove a s = Done s' /\ (inv3 s' /\ P s') /\ objs s' = delete a (objs s)) ->
  inv3 s -> P s ->
  exists s', for_each_safe remove (tget (tbl s) (F_GROUP, (0, g))) s = Done s' /\ (inv3 s' /\ P s') /\
    forall a x, objs s' !! a = Some x <-> objs s !! a = Some x /\ gidf x <> g.
Proof.
  intros Hrm Hi HP. apply (remove_selected (fun s => inv3 s /\ P s) remove (fun x => gidf x = g)); [exact Hrm|by split| |].
  - apply (indexed_nodup _ _ _ (i3_group _ Hi)).
  - intros a. by apply inv3_group_list.
Qed.

Lemma inv3_del_all s (remove : addr -> reg T -> outcome (reg T)) (P : reg T -> Prop) :
  (forall s a x, inv3 s /\ P s -> objs s !! a = Some x ->
     exists s', remove a s = Done s' /\ (inv3 s' /\ P s') /\ objs s' = delete a (objs s)) ->
  inv3 s -> P s ->
  exists s', for_each_safe remove (tget (tbl s) (F_ALL, (0, 0))) s = Done s' /\ (inv3 s' /\ P s') /\
    objs s' = ∅.
Proof.
  intros Hrm Hi HP.
  destruct (remove_selected (fun s => inv3 s /\ P s) remove (fun _ => True)
    (tget (tbl s) (F_ALL, (0, 0))) s) as (s' & E & Hi' & Ho); [exact Hrm|by split| | |].
  - apply (indexed_nodup _ _ _ (i3_all _ Hi)).
  - intros a. by apply inv3_all_list.
  - exists s'. split_all; [done|apply Hi'|apply Hi'|]. apply map_eq. intros a. rewrite lookup_empty.
    destruct (objs s' !! a) as [x|] eqn:Ex; [|done]. apply Ho in Ex as [_ []]. exact I.
Qed.

End Three.

(** Removing a node from the three indexes, in whatever order. *)
Ltac unlink3_tac :=
  intros ? ? [->|[->| ->]] ?; repeat indexed_tac; done.

(** ** Forbidden activities *)

Module ForbidFacts.
Import Forbid.

Definition hash_place (x : ww_forbidact) : place := (chain_of (name x)).2.

(** At most one rule governs a name in a group: equal names need different
    groups, neither of which is the group of everybody. *)
Definition unique (s : forbid) : Prop :=
  forall a b x y, objs s !! a = Some x -> objs s !! b = Some y -> name x = name y ->
    gid x = gid y \/ gid x = 0 \/ gid y = 0 -> a = b.

Definition finv (s : forbid) : Prop := inv3 hash_place gid s /\ unique s.

(** ** Specification: a map from name and group to the rule *)

Abbreviation rules := (gmap (cstring * Z) ww_forbidact).

Definition view (s : forbid) (R : rules) : Prop :=
  forall k x, R !! k = Some x <-> exists a, objs s !! a = Some x /\ k = (name x, gid x).

Inductive cmd :=
| Add (nm : cstring) (g act is_forbid flag : Z) (p : addr)
| Del (nm : cstring) (g : Z)
| DelGroup (g : Z)
| DelAll
| Find (nm : cstring) (g : Z).

Definition found {A} (o : option A) : Z := match o with Some _ => 1 | None => 0 end.

Definition step (c : cmd) (s : forbid) : outcome (Z * forbid) :=
  match c with
  | Add nm g act fb flag p => forbid_act_hash_add nm g act fb flag p s
  | Del nm g => forbid_act_hash_del nm g s
  | DelGroup g => s ← forbid_act_hash_del_group g s; Done (0, s)
  | DelAll => s ← forbid_act_hash_del_all s; Done (0, s)
  | Find nm g => r ← forbid_act_hash_find nm g s; Done (found r, s)
  end.

(** A group rule with this name. *)
Definition group_rule (nm : cstring) (R : rules) : Prop :=
  exists g, g <> 0 /\ is_Some (R !! (nm, g)).

Definition governs (nm : cstring) (g : Z) (R : rules) : Prop :=
  is_Some (R !! (nm, 0)) \/ is_Some (R !! (nm, g)).

#[global] Instance governs_dec nm g R : Decision (governs nm g R).
Proof. unfold governs. apply _. Defined.

Inductive spec_step : cmd -> rules -> Z -> rules -> Prop :=
| spec_add_clash nm g act fb flag p R :
    governs nm g R ->
    spec_step (Add nm g act fb flag p) R (if (g =? 0) || (flag =? 1) then -1 else 0) R
| spec_add_nomem nm g act fb flag R :
    ~ governs nm g R -> (g = 0 -> ~ group_rule nm R) ->
    spec_step (Add nm g act fb flag NULL) R (-1) R
| spec_add nm g act fb flag p R :
    p <> NULL -> ~ governs nm g R -> (g = 0 -> ~ group_rule nm R) ->
    spec_step (Add nm g act fb flag p) R 0 (<[(nm, g) := forbid_fill nm g act fb]> R)
| spec_del nm g R :
    spec_step (Del nm g) R (if decide (is_Some (R !! (nm, g))) then 0 else -1) (delete (nm, g) R)
| spec_del_group g R :
    spec_step (DelGroup g) R 0 (filter (fun kx => kx.1.2 <> g) R)
| spec_del_all R : spec_step DelAll R 0 ∅
| spec_find nm g R :
    spec_step (Find nm g) R (if decide (governs nm g R) then 1 else 0) R.

(** Arguments the program passes: names that fit their field, known kinds of
    activity, groups that exist, memory that is not in use. *)
Definition allowed (c : cmd) (s : forbid) : Prop :=
  match c with
  | Add nm g act fb flag p =>
      (length nm < 32)%nat /\ 0 <= g < GROUP_ID_MAX /\ 0 <= act <= 3 /\
      (flag = 0 \/ flag = 1) /\ (p <> NULL -> objs s !! p = None)
  | Del _ g | DelGroup g | Find _ g => 0 <= g < GROUP_ID_MAX
  | DelAll => True
  end.

(** ** Removing a rule *)

Lemma forbid_remove_spec s a x :
  finv s -> objs s !! a = Some x ->
  exists s', forbid_remove a s = Done s' /\ finv s' /\ objs s' = delete a (objs s).
Proof.
  intros [Hi Hu] E. unfold forbid_remove. rewrite (inv3_hlist_del _ _ _ _ _ Hi E). simpl.
  eexists. split; [reflexivity|]. split; [split|done].
  - apply inv3_del; [done|]. unlink3_tac.
  - intros b c y z. simpl. intros [_ Eb]%lookup_delete_Some [_ Ec]%lookup_delete_Some. by apply Hu.
Qed.

(** A search of the chain of [nm] for an object of that name is a search of
    the whole table. *)
Lemma find_name s nm p :
  finv s -> (forall x, p x = true -> name x = nm) ->
  exists r, find (objs s) p (tget (tbl s) (chain_of nm)) = Done r /\
    match r with
    | Some a => exists x, objs s !! a = Some x /\ p x = true
    | None => forall a x, objs s !! a = Some x -> p x = false
    end.
Proof.
  intros [Hi _] Hp. apply (find_indexed (objs s) hash_place (tbl s) F_HASH p (chain_of nm).2 (i3_hash _ _ _ Hi)).
  intros a x _ Hx. unfold hash_place. by rewrite (Hp x Hx).
Qed.

Lemma forbid_del_spec s nm g R :
  finv s -> view s R ->
  exists s', forbid_act_hash_del nm g s =
      Done (if decide (is_Some (R !! (nm, g))) then 0 else -1, s') /\
    finv s' /\ view s' (delete (nm, g) R) /\
    (forall a x, objs s !! a = Some x -> name x = nm -> gid x = g -> objs s' = delete a (objs s)).
Proof.
  intros Hf Hv. unfold forbid_act_hash_del.
  destruct (find_name s nm (fun x => (gid x =? g) && strcmp_eq (name x) nm)) as (r & -> & Hr); [done| |].
  { intros x [_ ?%strcmp_eq_true]%andb_true_iff. done. }
  simpl. destruct r as [a|].
  - destruct Hr as (x & E & [<-%Z.eqb_eq <-%strcmp_eq_true]%andb_true_iff).
    destruct (forbid_remove_spec s a x Hf E) as (s' & -> & Hf' & Eo). simpl.
    assert (R !! (name x, gid x) = Some x) as ER by (apply Hv; by exists a).
    exists s'. rewrite decide_True by (by eexists). split_all; [done..| |].
    + intros k y. rewrite lookup_delete_Some, (Hv k y), Eo. split.
      * intros (Hk & b & Eb & ->). exists b. rewrite lookup_delete_ne; [done|]. intros ->. congruence.
      * intros (b & [Hb Eb]%lookup_delete_Some & ->). split; [|by exists b].
        intros Ek. injection Ek as En Eg. apply Hb. eapply (proj2 Hf); [done|done|done|by left].
    + intros b y Eb En Eg. rewrite Eo. f_equal. eapply (proj2 Hf); [done|done|done|by left].
  - assert (R !! (nm, g) = None) as ER.
    { destruct (R !! (nm, g)) as [x|] eqn:ER; [|done]. apply Hv in ER as (a & Ea & [= -> ->]).
      specialize (Hr a x Ea). rewrite Z.eqb_refl in Hr. unfold strcmp_eq in Hr.
      rewrite bool_decide_true in Hr by done. done. }
    exists s. rewrite decide_False by (rewrite ER; by intros [? ?]). split_all; [done..| |].
    + by rewrite delete_id.
    + intros a x Ea <- <-. assert (is_Some (R !! (name x, gid x))) as [? HR]
        by (exists x; apply Hv; by exists a). congruence.
Qed.

(** ** Adding a rule *)

Lemma governs_obj s R nm g :
  view s R ->
  governs nm g R <-> exists a x, objs s !! a = Some x /\ name x = nm /\ (gid x = 0 \/ gid x = g).
Proof.
  intros Hv. unfold governs. split.
  - intros [[x Hx%Hv]|[x Hx%Hv]]; destruct Hx as (a & E & [= -> ->]); exists a, x; auto.
  - intros (a & x & E & <- & [Hg|Hg]); [left|right]; exists x; apply Hv; exists a; split; congruence.
Qed.

Lemma forbid_find_governs s nm g R :
  finv s -> view s R ->
  exists r, forbid_act_hash_find nm g s = Done r /\ (is_Some r <-> governs nm g R).
Proof.
  intros Hf Hv. unfold forbid_act_hash_find.
  destruct (find_name s nm (fun x => strcmp_eq (name x) nm && ((gid x =? 0) || (gid x =? g))))
    as (r & -> & Hr); [done|by intros x [?%strcmp_eq_true _]%andb_true_iff|].
  exists r. split; [done|]. rewrite (governs_obj s R nm g Hv). destruct r as [a|].
  - destruct Hr as (x & E & [Hn%strcmp_eq_true Hg]%andb_true_iff). split; [|by eauto].
    intros _. exists a, x. split_all; [done..|]. apply orb_true_iff in Hg as [?%Z.eqb_eq|?%Z.eqb_eq]; auto.
  - split; [by intros [? ?]|]. intros (a & x & E & Hn & Hg). specialize (Hr a x E). exfalso.
    rewrite (proj2 (strcmp_eq_true _ _) Hn) in Hr. simpl in Hr.
    apply orb_false_iff in Hr as [?%Z.eqb_neq ?%Z.eqb_neq]. destruct Hg; congruence.
Qed.

(** The scan for a group rule is a search. *)
Lemma scan_group s nm g flag l :
  g <> 0 -> flag = 0 \/ flag = 1 -> (forall a, a ∈ l -> is_Some (objs s !! a)) ->
  forbid_add_scan nm g flag l s =
  (r ← find (objs s) (fun x => strcmp_eq (name x) nm && ((gid x =? 0) || (gid x =? g))) l;
   Done (match r with Some _ => Some (if flag =? 1 then -1 else 0) | None => None end, s)).
Proof.
  intros Hg Hfl. induction l as [|a l IH]; intros Hl; [done|]. simpl.
  destruct (Hl a ltac:(left)) as [x E]. rewrite E. simpl.
  rewrite (proj2 (Z.eqb_neq g 0) Hg). simpl.
  specialize (IH ltac:(intros; apply Hl; by right)).
  destruct (strcmp_eq (name x) nm); simpl; [|done].
  destruct ((gid x =? 0) || (gid x =? g)); [|done]. destruct Hfl as [-> | ->]; done.
Qed.

(** The scan for a rule for everybody: a rule for everybody is refused, and a
    group rule of the same name is deleted under the loop. *)
Lemma scan_global s nm flag R l :
  finv s -> view s R -> (forall a, a ∈ l -> is_Some (objs s !! a)) ->
  forbid_add_scan nm 0 flag l s =
  (r ← find (objs s) (fun x => strcmp_eq (name x) nm) l;
   match r with
   | None => Done (None, s)
   | Some a => x ← get_or UseAfterFree (objs s !! a);
               if gid x =? 0 then Done (Some (-1), s) else Fault UseAfterFree
   end).
Proof.
  intros Hf Hv. induction l as [|a l IH]; intros Hl; [done|]. simpl.
  destruct (Hl a ltac:(left)) as [x E]. rewrite E. simpl.
  specialize (IH ltac:(intros; apply Hl; by right)).
  destruct (strcmp_eq (name x) nm) eqn:En; simpl; [|done]. rewrite E. simpl.
  destruct (Z.eqb_spec (gid x) 0) as [Hg|Hg]; [done|].
  destruct (forbid_del_spec s (name x) (gid x) R Hf Hv) as (s' & -> & _ & _ & Ho). simpl.
  rewrite (Ho a x E eq_refl eq_refl), lookup_delete_eq. done.
Qed.

Lemma fill_fields nm g act fb :
  (length nm < 32)%nat -> 0 <= act <= 3 ->
  name (forbid_fill nm g act fb) = nm /\ gid (forbid_fill nm g act fb) = g.
Proof.
  intros Hl Ha. unfold forbid_fill. rewrite (take_ge nm) by lia.
  assert (act = 0 \/ act = 1 \/ act = 2 \/ act = 3) as [->|[->|[-> | ->]]] by lia; done.
Qed.

Lemma add_object s R nm g act fb p :
  finv s -> view s R -> (length nm < 32)%nat -> 0 <= g < GROUP_ID_MAX -> 0 <= act <= 3 ->
  p <> NULL -> objs s !! p = None -> ~ governs nm g R -> (g = 0 -> ~ group_rule nm R) ->
  let x := forbid_fill nm g act fb in
  let s' := Reg (<[p := x]> (objs s))
      (add_tail (F_GROUP, (0, g)) p (add_tail (F_ALL, (0, 0)) p (add_head (chain_of nm) p (tbl s)))) in
  finv s' /\ view s' (<[(nm, g) := x]> R).
Proof.
  intros [Hi Hu] Hv Hl Hg Ha Hp Hfr Hgov Hgr x s'.
  destruct (fill_fields nm g act fb Hl Ha) as [Hn Hgi]. fold x in Hn, Hgi.
  assert (forall b y, objs s !! b = Some y -> name y = nm -> gid y <> 0 /\ gid y <> g /\ g <> 0) as Hno.
  { intros b y E Ey. assert (~ (gid y = 0 \/ gid y = g)) as Hny.
    { intros Hy. apply Hgov, (governs_obj s R nm g Hv). by exists b, y. }
    split_all; [tauto..|]. intros ->. apply (Hgr eq_refl). exists (gid y). split; [tauto|].
    exists y. apply Hv. exists b. by rewrite Ey. }
  split; [split|].
  - apply inv3_add; [done..|by rewrite Hgi|]. unfold hash_place. by rewrite Hn, Hgi.
  - intros a b y z. simpl.
    intros [[<- <-]|[_ E1]]%lookup_insert_Some [[<- <-]|[_ E2]]%lookup_insert_Some En Eg; [done|..].
    + destruct (Hno b z E2 ltac:(congruence)) as (? & ? & ?). exfalso. destruct Eg as [|[|]]; congruence.
    + destruct (Hno a y E1 ltac:(congruence)) as (? & ? & ?). exfalso. destruct Eg as [|[|]]; congruence.
    + by eapply Hu.
  - intros k y. rewrite lookup_insert_Some, (Hv k y). simpl. split.
    + intros [[<- <-]|[Hk (a & E & ->)]].
      * exists p. by rewrite lookup_insert_eq, Hn, Hgi.
      * exists a. rewrite lookup_insert_ne by congruence. done.
    + intros (a & [[<- <-]|[Hne E]]%lookup_insert_Some & ->); [left; by rewrite Hn, Hgi|].
      right. split; [|by exists a]. intros [= Ek1 Ek2].
      destruct (Hno a y E ltac:(congruence)) as (? & ? & ?). congruence.
Qed.

(** The one case the scan does not survive. *)
Definition overrides (c : cmd) (s : forbid) : Prop :=
  match c with
  | Add nm g _ _ _ _ => g = 0 /\ exists a x, objs s !! a = Some x /\ name x = nm /\ gid x <> 0
  | _ => False
  end.

Lemma group_rule_obj s R nm :
  view s R ->
  group_rule nm R <-> exists a x, objs s !! a = Some x /\ name x = nm /\ gid x <> 0.
Proof.
  intros Hv. split.
  - intros (g & Hg & x & (a & E & [= -> ->])%Hv). by exists a, x.
  - intros (a & x & E & <- & Hg). exists (gid x). split; [done|]. exists x. apply Hv. by exists a.
Qed.

Lemma chain_live s nm : finv s -> forall a, a ∈ tget (tbl s) (chain_of nm) -> is_Some (objs s !! a).
Proof.
  intros [Hi _] a Ha. apply (indexed_at _ _ _ (i3_hash _ _ _ Hi)) in Ha.
  rewrite lookup_fmap in Ha. destruct (objs s !! a); [by eexists|done].
Qed.

(** The outcome of the scan, in terms of the table. *)
Lemma scan_spec s R nm g flag :
  finv s -> view s R -> flag = 0 \/ flag = 1 ->
  let r := forbid_add_scan nm g flag (tget (tbl s) (chain_of nm)) s in
  (governs nm g R /\ r = Done (Some (if (g =? 0) || (flag =? 1) then -1 else 0), s)) \/
  (~ governs nm g R /\ g = 0 /\ group_rule nm R /\ r = Fault UseAfterFree) \/
  (~ governs nm g R /\ (g = 0 -> ~ group_rule nm R) /\ r = Done (None, s)).
Proof.
  intros Hf Hv Hfl r. pose proof (chain_live s nm Hf) as Hlive. subst r.
  destruct (Z.eqb_spec g 0) as [->|Hg].
  - rewrite (scan_global s nm flag R) by done.
    destruct (find_name s nm (fun x => strcmp_eq (name x) nm)) as (r & -> & Hr);
      [done|by intros x ?%strcmp_eq_true|]. simpl. destruct r as [a|].
    + destruct Hr as (x & E & Hn%strcmp_eq_true). rewrite E. simpl.
      destruct (Z.eqb_spec (gid x) 0) as [Hx|Hx].
      * left. split; [|done]. apply (governs_obj s R nm 0 Hv). exists a, x. auto.
      * right. left. split_all; [|done|apply (group_rule_obj s R nm Hv); by exists a, x|done].
        intros (b & y & Eb & Hny & Hgy)%(governs_obj s R nm 0 Hv).
        assert (b = a) as -> by (eapply (proj2 Hf); [done|done|congruence|tauto]).
        rewrite E in Eb. injection Eb as <-. tauto.
    + assert (forall a x, objs s !! a = Some x -> name x <> nm) as Hno.
      { intros a x E Hn. specialize (Hr a x E). by rewrite (proj2 (strcmp_eq_true _ _) Hn) in Hr. }
      right. right. split_all; [|intros _|done].
      * intros (b & y & Eb & Hny & _)%(governs_obj s R nm 0 Hv). by apply (Hno b y).
      * intros (b & y & Eb & Hny & _)%(group_rule_obj s R nm Hv). by apply (Hno b y).
  - rewrite (scan_group s nm g flag _ Hg Hfl Hlive).
    destruct (forbid_find_governs s nm g R Hf Hv) as (r & E & Hr).
    unfold forbid_act_hash_find in E. rewrite E. simpl. destruct r as [a|].
    + left. split; [apply Hr; by eexists|done].
    + right. right. split_all; [|done|done]. intros [? ?]%Hr. done.
Qed.

Lemma add_refines s R nm g act fb flag p :
  finv s -> view s R -> allowed (Add nm g act fb flag p) s ->
  (overrides (Add nm g act fb flag p) s /\
   forbid_act_hash_add nm g act fb flag p s = Fault UseAfterFree) \/
  exists r s' R', forbid_act_hash_add nm g act fb flag p s = Done (r, s') /\
    spec_step (Add nm g act fb flag p) R r R' /\ finv s' /\ view s' R'.
Proof.
  intros Hf Hv (Hl & Hg & Ha & Hfl & Hp). unfold forbid_act_hash_add.
  destruct (scan_spec s R nm g flag Hf Hv Hfl) as [[Hgov ->]|[(_ & Hg0 & Hgr & ->)|(Hng & Hgr & ->)]]; simpl.
  - right. eexists _, s, R. split_all; [done|by constructor|apply Hf..|done].
  - left. split; [|done]. split; [done|]. by apply (group_rule_obj s R nm Hv).
  - right. destruct (Z.eqb_spec p NULL) as [->|Hpn].
    + eexists _, s, R. split_all; [done|by constructor|apply Hf..|done].
    + rewrite group_head_ok by done. simpl.
      destruct (add_object s R nm g act fb p Hf Hv Hl Hg Ha Hpn (Hp Hpn) Hng Hgr) as [Hf' Hv'].
      eexists _, _, _. split_all; [done|by constructor|apply Hf'..|done].
Qed.

Lemma view_filter s s' R g :
  view s R -> (forall a x, objs s' !! a = Some x <-> objs s !! a = Some x /\ gid x <> g) ->
  view s' (filter (fun kx => kx.1.2 <> g) R).
Proof.
  intros Hv Ho k x. rewrite map_lookup_filter_Some, (Hv k x). simpl. split.
  - intros [(a & E & ->) Hg]. exists a. by rewrite Ho.
  - intros (a & [E Hg]%Ho & ->). split; [by exists a|done].
Qed.

Lemma forbid_step_refines s R c :
  finv s -> view s R -> allowed c s -> ~ overrides c s ->
  exists r s' R', step c s = Done (r, s') /\ spec_step c R r R' /\ finv s' /\ view s' R'.
Proof.
  intros Hf Hv Ha Ho. destruct c as [nm g act fb flag p|nm g|g| |nm g]; simpl.
  - by destruct (add_refines s R nm g act fb flag p Hf Hv Ha) as [[? _]|?].
  - destruct (forbid_del_spec s nm g R Hf Hv) as (s' & -> & Hf' & Hv' & _).
    eexists _, s', _. split_all; [done|constructor|apply Hf'..|done].
  - unfold forbid_act_hash_del_group. rewrite group_head_ok by done. simpl.
    destruct (inv3_del_group hash_place gid s forbid_remove unique g forbid_remove_spec (proj1 Hf) (proj2 Hf))
      as (s' & -> & Hf' & Hs'). simpl.
    eexists _, s', _. split_all; [done|constructor|apply Hf'..|by eapply view_filter].
  - unfold forbid_act_hash_del_all.
    destruct (inv3_del_all hash_place gid s forbid_remove unique forbid_remove_spec (proj1 Hf) (proj2 Hf))
      as (s' & -> & Hf' & Hs'). simpl.
    eexists _, s', ∅. split_all; [done|constructor|apply Hf'..|].
    intros k x. rewrite Hs'. setoid_rewrite lookup_empty. naive_solver.
  - destruct (forbid_find_governs s nm g R Hf Hv) as (r & -> & Hr). simpl.
    eexists _, s, R. split_all; [done| |apply Hf..|done].
    replace (found r) with (if decide (governs nm g R) then 1 else 0); [constructor|].
    destruct (decide (governs nm g R)) as [Hd|Hd]; destruct r; simpl; [done| | |done]; exfalso.
    + apply Hr in Hd as [? ?]. done.
    + apply Hd, Hr. by eexists.
Qed.

(** ** Runs *)

Fixpoint run (cs : list cmd) (s : forbid) : outcome (list Z * forbid) :=
  match cs with
  | [] => Done ([], s)
  | c :: cs => '(r, s) ← step c s; '(rs, s) ← run cs s; Done (r :: rs, s)
  end.

Inductive spec_run : list cmd -> rules -> list Z -> rules -> Prop :=
| spec_nil R : spec_run [] R [] R
| spec_cons c cs R1 r R2 rs R3 :
    spec_step c R1 r R2 -> spec_run cs R2 rs R3 -> spec_run (c :: cs) R1 (r :: rs) R3.

Fixpoint valid (cs : list cmd) (s : forbid) : Prop :=
  match cs with
  | [] => True
  | c :: cs => allowed c s /\ ~ overrides c s /\ forall r s', step c s = Done (r, s') -> valid cs s'
  end.

Lemma forbid_run_refines cs : forall s R,
  finv s -> view s R -> valid cs s ->
  exists rs s' R', run cs s = Done (rs, s') /\ spec_run cs R rs R' /\ finv s' /\ view s' R'.
Proof.
  induction cs as [|c cs IH]; intros s R Hf Hv Hva; simpl.
  { exists [], s, R. split_all; [done|constructor|apply Hf..|done]. }
  destruct Hva as (Ha & Ho & Hn).
  destruct (forbid_step_refines s R c Hf Hv Ha Ho) as (r & s1 & R1 & E1 & S1 & Hf1 & Hv1).
  destruct (IH s1 R1 Hf1 Hv1 (Hn _ _ E1)) as (rs & s2 & R2 & E2 & S2 & Hf2 & Hv2).
  rewrite E1. simpl. rewrite E2. simpl. exists (r :: rs), s2, R2.
  split_all; [done|by econstructor|apply Hf2..|done].
Qed.

Lemma init_finv t : (forall k, tget t k = []) -> finv (Reg ∅ t) /\ view (Reg ∅ t) ∅.
Proof.
  intros Ht. split; [split; [by apply inv3_init|]|].
  - intros a b x y E. simpl in E. by rewrite lookup_empty in E.
  - intros k x. simpl. setoid_rewrite lookup_empty. naive_solver.
Qed.

(** C9. The table of forbidden activities implements a map from name and
    group to the rule.  From empty lists, every sequence of additions,
    deletions (one rule, a group, all) and look-ups, with any outcome of
    [wys_malloc], returns what the map says and leaves the chains and lists
    holding exactly the rules of the map; an addition is refused exactly when
    a rule for everybody or for the same group exists.  Excluded is only the
    addition of a rule for everybody while a group has a rule of that name. *)
Theorem forbid_refines t cs :
  (forall k, tget t k = []) -> valid cs (Reg ∅ t) ->
  exists rs s R, run cs (Reg ∅ t) = Done (rs, s) /\ spec_run cs ∅ rs R /\ finv s /\ view s R.
Proof. intros Ht Hv. destruct (init_finv t Ht) as [Hf H0]. by apply forbid_run_refines. Qed.

(** Adding a rule for everybody while a group rule of the same name
    exists always reads freed memory: the loop deletes and frees the node it
    stands on and then follows its [next] pointer. *)
Theorem forbid_override_uses_freed s R nm act fb flag p g :
  finv s -> view s R -> allowed (Add nm 0 act fb flag p) s ->
  g <> 0 -> is_Some (R !! (nm, g)) ->
  forbid_act_hash_add nm 0 act fb flag p s = Fault UseAfterFree.
Proof.
  intros Hf Hv (_ & _ & _ & Hfl & _) Hg HR. unfold forbid_act_hash_add.
  assert (group_rule nm R) as Hgr by (by exists g).
  destruct (scan_spec s R nm 0 flag Hf Hv Hfl) as [[Hgov _]|[(_ & _ & _ & ->)|(_ & Hno & _)]];
    [|done|by destruct (Hno eq_refl)].
  exfalso. apply (governs_obj s R nm 0 Hv) in Hgov as (a & x & E & Hn & Hx).
  apply (group_rule_obj s R nm Hv) in Hgr as (b & y & Eb & Hny & Hgy).
  assert (a = b) as -> by (eapply (proj2 Hf); [done|done|congruence|tauto]).
  rewrite E in Eb. injection Eb as <-. tauto.
Qed.

(** ** A concrete table *)

Definition qq : cstring := [113; 113; 46; 101; 120; 101].

Lemma empty_heads k : tget ∅ k = [].
Proof. unfold tget. by rewrite lookup_empty. Qed.

Definition ex_cmds : list cmd :=
  [Add qq 3 2 1 1 64; Add qq 3 2 1 1 NULL; Find qq 3; DelGroup 3; Find qq 3].

Lemma forbid_refines_witness :
  exists rs s R, run ex_cmds (Reg ∅ ∅) = Done (rs, s) /\ rs = [0; -1; 1; 0; 0] /\ view s R.
Proof.
  destruct (forbid_refines ∅ ex_cmds empty_heads) as (rs & s & R & E & _ & _ & Hv).
  - assert (forall p s, (p <> NULL -> objs s !! p = None) -> allowed (Add qq 3 2 1 1 p) s) as A1.
    { intros p s H. unfold allowed, GROUP_ID_MAX. simpl length. split_all; lia || done. }
    split; [by apply A1|]. split; [by intros [? _]|]. intros r1 s1 _.
    split; [by apply A1|]. split; [by intros [? _]|]. intros r2 s2 _.
    do 3 (split; [by split|]; split; [by intros []|]; intros ? ? _). exact I.
  - exists rs, s, R. split; [done|]. split; [|done].
    apply (f_equal (fun o => match o with Done (r, _) => r | Fault _ => [] end)) in E.
    rewrite <- E. vm_compute. reflexivity.
Defined.

Lemma forbid_override_uses_freed_witness :
  exists s R, forbid_act_hash_add qq 3 2 1 1 64 (Reg ∅ ∅) = Done (0, s) /\ view s R /\
    forbid_act_hash_add qq 0 2 1 1 128 s = Fault UseAfterFree.
Proof.
  destruct (init_finv ∅ empty_heads) as [Hf Hv].
  assert (~ governs qq 3 ∅) as Hng by (intros [[? H]|[? H]]; by rewrite lookup_empty in H).
  destruct (add_object _ ∅ qq 3 2 1 64 Hf Hv) as [Hf' Hv'];
    [simpl; lia|unfold GROUP_ID_MAX; lia|lia|done|done|done|done|].
  eexists _, _. split; [vm_compute; reflexivity|]. split; [exact Hv'|].
  apply (forbid_override_uses_freed _ _ qq 2 1 1 128 3 Hf' Hv').
  - unfold allowed, GROUP_ID_MAX. simpl length. split_all; try lia. intros _. reflexivity.
  - lia.
  - eexists. apply lookup_insert_eq.
Defined.

End ForbidFacts.

(** ** Encrypted files *)

Module EncryptFacts.
Import Encrypt.

Definition encrypt_place (x : ww_encryptfile) : place := (encrypt_chain (name x)).2.

Definition key_unique (s : encrypt) : Prop :=
  forall a b x y, objs s !! a = Some x -> objs s !! b = Some y ->
    name x = name y -> gid x = gid y -> a = b.

Definition einv (s : encrypt) : Prop := inv3 encrypt_place gid s /\ key_unique s.

Abbreviation files := (gmap (cstring * Z) ww_encryptfile).

Definition eview (s : encrypt) (R : files) : Prop :=
  forall k x, R !! k = Some x <-> exists a, objs s !! a = Some x /\ k = (name x, gid x).

Lemma encrypt_remove_spec s a x :
  einv s -> objs s !! a = Some x ->
  exists s', encrypt_remove a s = Done s' /\ einv s' /\ objs s' = delete a (objs s).
Proof.
  intros [Hi Hu] E. unfold encrypt_remove. rewrite (inv3_hlist_del _ _ _ _ _ Hi E). simpl.
  eexists. split; [reflexivity|]. split; [split|done].
  - apply inv3_del; [done|]. unlink3_tac.
  - intros b c y z. simpl. intros [_ Eb]%lookup_delete_Some [_ Ec]%lookup_delete_Some. by apply Hu.
Qed.

Lemma encrypt_find s nm p :
  einv s -> (forall x, p x = true -> name x = nm) ->
  exists r, find (objs s) p (tget (tbl s) (encrypt_chain nm)) = Done r /\
    match r with
    | Some a => exists x, objs s !! a = Some x /\ p x = true
    | None => forall a x, objs s !! a = Some x -> p x = false
    end.
Proof.
  intros [Hi _] Hp.
  apply (find_indexed (objs s) encrypt_place (tbl s) F_HASH p (encrypt_chain nm).2 (i3_hash _ _ _ Hi)).
  intros a x _ Hx. unfold encrypt_place. by rewrite (Hp x Hx).
Qed.

Definition egoverns (nm : cstring) (g : Z) (R : files) : Prop :=
  is_Some (R !! (nm, 0)) \/ is_Some (R !! (nm, g)).

Lemma encrypt_clash_spec s R nm g flag :
  einv s -> eview s R -> flag = 0 \/ flag = 1 ->
  (egoverns nm g R /\ encrypt_clash nm g flag s = Done (Some (if flag =? 1 then -1 else 0))) \/
  (~ egoverns nm g R /\ encrypt_clash nm g flag s = Done None).
Proof.
  intros He Hv Hfl. unfold encrypt_clash.
  destruct (encrypt_find s nm (fun x => strcmp_eq nm (name x) && ((gid x =? 0) || (gid x =? g)) &&
    ((flag =? 1) || (flag =? 0)))) as (r & -> & Hr); [done| |].
  { intros x [[?%strcmp_eq_true _]%andb_true_iff _]%andb_true_iff. done. }
  replace ((flag =? 1) || (flag =? 0)) with true in Hr by (destruct Hfl as [-> | ->]; done).
  simpl. destruct r as [a|]; [left|right]; (split; [|done]).
  - destruct Hr as (x & E & [[->%strcmp_eq_true Hg]%andb_true_iff _]%andb_true_iff).
    apply orb_true_iff in Hg as [Hg%Z.eqb_eq|Hg%Z.eqb_eq]; [left|right];
      (exists x; apply Hv; exists a; split; congruence).
  - intros Hgo. assert (exists a x, objs s !! a = Some x /\ name x = nm /\ (gid x = 0 \/ gid x = g))
      as (a & x & E & Hn & Hg).
    { destruct Hgo as [[x Hx%Hv]|[x Hx%Hv]]; destruct Hx as (a & E & [= -> ->]); exists a, x; auto. }
    specialize (Hr a x E). rewrite (proj2 (strcmp_eq_true _ _) (eq_sym Hn)), andb_true_r in Hr.
    apply orb_false_iff in Hr as [?%Z.eqb_neq ?%Z.eqb_neq]. tauto.
Qed.

Lemma encrypt_insert s R nm g ft au p :
  einv s -> eview s R -> 0 <= g < GROUP_ID_MAX -> p <> NULL -> objs s !! p = None ->
  R !! (nm, g) = None ->
  let x := EncryptFile nm g ft au 1 in
  let s' := Reg (<[p := x]> (objs s)) (add_tail (F_GROUP, (0, g)) p
    (add_tail (F_ALL, (0, 0)) p (add_head (encrypt_chain nm) p (tbl s)))) in
  einv s' /\ eview s' (<[(nm, g) := x]> R).
Proof.
  intros [Hi Hu] Hv Hg Hp Hfr HR x s'.
  assert (forall b y, objs s !! b = Some y -> name y = nm -> gid y = g -> False) as Hno.
  { intros b y E <- <-. assert (R !! (name y, gid y) = Some y) by (apply Hv; by exists b). congruence. }
  split; [split|].
  - by apply inv3_add.
  - intros a b y z. simpl.
    intros [[<- <-]|[_ E1]]%lookup_insert_Some [[<- <-]|[_ E2]]%lookup_insert_Some En Eg; [done|..].
    + exfalso. by eapply (Hno b z).
    + exfalso. by eapply (Hno a y).
    + by eapply Hu.
  - intros k y. rewrite lookup_insert_Some, (Hv k y). simpl. split.
    + intros [[<- <-]|[Hk (a & E & ->)]]; [exists p; by rewrite lookup_insert_eq|].
      exists a. rewrite lookup_insert_ne by congruence. done.
    + intros (a & [[<- <-]|[Hne E]]%lookup_insert_Some & ->); [by left|].
      right. split; [|by exists a]. intros [= Ek1 Ek2]. by eapply (Hno a y).
Qed.

(** [encrypt_file_hash_add] refuses a rule exactly when one for the same
    name exists for the group or for everybody (with -1 for an administrator,
    0 while loading), and otherwise adds it; the lists stay consistent in every
    case, a failing [wys_malloc] included. *)
Theorem encrypt_add_spec s R nm len g ft au flag p :
  einv s -> eview s R -> 0 <= g < GROUP_ID_MAX -> flag = 0 \/ flag = 1 ->
  Z.of_nat (length nm) < len <= 256 -> (p <> NULL -> objs s !! p = None) ->
  exists r s' R', encrypt_file_hash_add nm len g ft au flag p s = Done (r, s') /\
    einv s' /\ eview s' R' /\
    ((egoverns nm g R /\ R' = R /\ r = if flag =? 1 then -1 else 0) \/
     (~ egoverns nm g R /\ p = NULL /\ R' = R /\ r = -1) \/
     (~ egoverns nm g R /\ p <> NULL /\ R' = <[(nm, g) := EncryptFile nm g ft au 1]> R /\ r = 0)).
Proof.
  intros He Hv Hg Hfl Hlen Hp. unfold encrypt_file_hash_add.
  destruct (encrypt_clash_spec s R nm g flag He Hv Hfl) as [[Hgo ->]|[Hgo ->]]; simpl.
  { eexists _, s, R. split; [done|]. split; [done|]. split; [done|]. by left. }
  destruct (Z.eqb_spec p NULL) as [->|Hpn].
  { eexists _, s, R. split; [done|]. split; [done|]. split; [done|]. right. by left. }
  destruct (Z.ltb_spec ENCRYPT_NAME_LEN (Z.min len (Z.of_nat (length nm) + 1))) as [Hl|_];
    [unfold ENCRYPT_NAME_LEN in Hl; lia|].
  rewrite group_head_ok, snprintf_fits by lia. simpl.
  assert (R !! (nm, g) = None) as HR by (apply eq_None_not_Some; intros H; apply Hgo; by right).
  destruct (encrypt_insert s R nm g ft au p He Hv Hg Hpn (Hp Hpn) HR) as [He' Hv'].
  eexists _, _, _. split; [reflexivity|]. split; [exact He'|]. split; [exact Hv'|]. right. by right.
Qed.

(** [encrypt_file_hash_del] deletes the rule with this name and group, or
    returns -1 and changes nothing; [encrypt_file_hash_del_group] and
    [encrypt_file_hash_del_all] delete the rules of the group and all rules. *)
Theorem encrypt_del_spec s R nm g :
  einv s -> eview s R -> 0 <= g < GROUP_ID_MAX ->
  (exists s', encrypt_file_hash_del nm g s =
      Done (if decide (is_Some (R !! (nm, g))) then 0 else -1, s') /\
    einv s' /\ eview s' (delete (nm, g) R)) /\
  (exists s', encrypt_file_hash_del_group g s = Done s' /\ einv s' /\
    eview s' (filter (fun kx => kx.1.2 <> g) R)) /\
  (exists s', encrypt_file_hash_del_all s = Done s' /\ einv s' /\ eview s' ∅).
Proof.
  intros He Hv Hg. split_all.
  - unfold encrypt_file_hash_del.
    destruct (encrypt_find s nm (fun x => strcmp_eq (name x) nm && (gid x =? g))) as (r & -> & Hr);
      [done|by intros x [?%strcmp_eq_true _]%andb_true_iff|]. simpl. destruct r as [a|].
    + destruct Hr as (x & E & [<-%strcmp_eq_true <-%Z.eqb_eq]%andb_true_iff).
      destruct (encrypt_remove_spec s a x He E) as (s' & -> & He' & Eo). simpl.
      exists s'. rewrite decide_True by (exists x; apply Hv; by exists a). split_all; [done|apply He'..|].
      intros k y. rewrite lookup_delete_Some, (Hv k y), Eo. split.
      * intros (Hk & b & Eb & ->). exists b. rewrite lookup_delete_ne; [done|]. intros ->. congruence.
      * intros (b & [Hb Eb]%lookup_delete_Some & ->). split; [|by exists b].
        intros [= En Eg]. apply Hb. by eapply (proj2 He).
    + assert (R !! (nm, g) = None) as ER.
      { destruct (R !! (nm, g)) as [x|] eqn:ER; [|done]. apply Hv in ER as (a & Ea & [= -> ->]).
        specialize (Hr a x Ea). by rewrite Z.eqb_refl, (proj2 (strcmp_eq_true _ _) eq_refl) in Hr. }
      exists s. rewrite decide_False by (rewrite ER; by intros [? ?]). split_all; [done|apply He..|].
      by rewrite delete_id.
  - unfold encrypt_file_hash_del_group. rewrite group_head_ok by done. simpl.
    destruct (inv3_del_group encrypt_place gid s encrypt_remove key_unique g encrypt_remove_spec
      (proj1 He) (proj2 He)) as (s' & -> & He' & Hs').
    exists s'. split_all; [done|apply He'..|]. intros k x.
    rewrite map_lookup_filter_Some, (Hv k x). simpl. split.
    + intros [(a & E & ->) Hk]. exists a. by rewrite Hs'.
    + intros (a & [E Hk]%Hs' & ->). split; [by exists a|done].
  - unfold encrypt_file_hash_del_all.
    destruct (inv3_del_all encrypt_place gid s encrypt_remove key_unique encrypt_remove_spec
      (proj1 He) (proj2 He)) as (s' & -> & He' & Hs').
    exists s'. split_all; [done|apply He'..|]. intros k x. rewrite Hs'.
    setoid_rewrite lookup_empty. naive_solver.
Qed.

Lemma encrypt_init t : (forall k, tget t k = []) -> einv (Reg ∅ t) /\ eview (Reg ∅ t) ∅.
Proof.
  intros Ht. split; [split; [by apply inv3_init|]|].
  - intros a b x y E. simpl in E. by rewrite lookup_empty in E.
  - intros k x. simpl. setoid_rewrite lookup_empty. naive_solver.
Qed.

Definition doc : cstring := [46; 100; 111; 99].

Lemma encrypt_add_spec_witness :
  exists r s' R', encrypt_file_hash_add doc 256 5 0 7 1 64 (Reg ∅ ∅) = Done (r, s') /\
    einv s' /\ eview s' R'.
Proof.
  destruct (encrypt_init ∅ ForbidFacts.empty_heads) as [He Hv].
  destruct (encrypt_add_spec _ ∅ doc 256 5 0 7 1 64 He Hv) as (r & s' & R' & E & He' & Hv' & _);
    [unfold GROUP_ID_MAX; lia|by right|simpl; lia|done|].
  exists r, s', R'. auto.
Defined.

Lemma encrypt_del_spec_witness :
  exists s', encrypt_file_hash_del doc 5 (Reg ∅ ∅) = Done (-1, s') /\ einv s'.
Proof.
  destruct (encrypt_init ∅ ForbidFacts.empty_heads) as [He Hv].
  destruct (encrypt_del_spec _ ∅ doc 5 He Hv) as [(s' & E & He' & _) _];
    [unfold GROUP_ID_MAX; lia|]. exists s'. split; [exact E|exact He'].
Defined.

End EncryptFacts.

(** ** Work rules *)

Module WorkFacts.
Import WorkRule.

(** A rule is hashed by its process name if it is about software, by its
    description if it is about a site. *)
Definition rule_name (x : an_work_rule) : cstring :=
  if worktype x =? 0 then process x else workname x.

Definition work_place (x : an_work_rule) : place := (work_chain (rule_name x)).2.

Definition winv (s : work) : Prop := inv3 work_place gid s.

Lemma work_match_place ok type nm x : work_match ok type nm x = true -> work_place x = (work_chain nm).2.
Proof.
  assert (forall n a b, (8 <= n)%nat -> strncmp_eq n a b = true ->
    an_work_rule_t_get_hash a = an_work_rule_t_get_hash b) as Hh.
  { intros n a b Hn E%bool_decide_eq_true. unfold an_work_rule_t_get_hash.
    assert (take 8 a = take 8 b) as ->; [|done].
    assert (forall l : list Z, take 8 l = take 8 (take n l)) as Ht
      by (intros; rewrite take_take; f_equal; lia).
    by rewrite (Ht a), (Ht b), E. }
  unfold work_match, work_place, rule_name, work_chain. simpl.
  intros [[[[->%Z.eqb_eq Ht%Z.eqb_eq]%andb_true_iff _]%andb_true_iff H]%andb_true_iff|
          [[[->%Z.eqb_eq Ht%Z.eqb_eq]%andb_true_iff _]%andb_true_iff H]%andb_true_iff]%orb_true_iff;
    rewrite <- Ht; simpl; f_equal; (eapply Hh; [|exact H]); lia.
Qed.

(** A rule applies to a program or site in a group. *)
Definition applies (ok : Z -> bool) (type : Z) (nm : cstring) (x : an_work_rule) : Prop :=
  worktype x = type /\ ok (gid x) = true /\ rule_name x = nm.

Lemma work_match_applies ok type nm x :
  type = 0 \/ type = 1 -> (length nm < 32)%nat ->
  (length (process x) < 32)%nat -> (length (workname x) < 48)%nat ->
  work_match ok type nm x = true <-> applies ok type nm x.
Proof.
  intros Hty Hn Hp Hw. unfold work_match, applies, rule_name, strncmp_eq.
  rewrite !(take_ge nm), (take_ge (process x)), (take_ge (workname x)) by lia.
  destruct Hty as [-> | ->]; rewrite ?Z.eqb_refl; change (1 =? 0) with false;
    change (0 =? 1) with false; cbn [andb orb]; rewrite ?orb_false_r; split.
  1, 3: intros [[E%Z.eqb_eq Ho]%andb_true_iff Hd%bool_decide_eq_true]%andb_true_iff; by rewrite <- E.
  all: intros (E & Ho & Hd); rewrite E in Hd; simpl in Hd; rewrite E, Ho; by rewrite bool_decide_true.
Qed.

(** The search for a work rule is complete: it finds one exactly when a
    rule of that type and name exists for the group (for the group or for
    everybody, in the [_all] variant), although it looks at one chain only. *)
Theorem work_find_complete s type nm g :
  winv s -> type = 0 \/ type = 1 -> (length nm < 32)%nat ->
  (forall a x, objs s !! a = Some x ->
     (length (process x) < 32)%nat /\ (length (workname x) < 48)%nat) ->
  (exists r, an_work_rule_t_find_by_type_name_gid type nm g s = Done r /\
    (is_Some r <-> exists a x, objs s !! a = Some x /\ applies (fun h => g =? u32 h) type nm x)) /\
  (exists r, an_work_rule_t_find_by_type_name_gid_all type nm g s = Done r /\
    (is_Some r <-> exists a x, objs s !! a = Some x /\
       applies (fun h => (h =? 0) || (g =? u32 h)) type nm x)).
Proof.
  intros Hi Hty Hn Hl.
  assert (forall ok, exists r, find (objs s) (work_match ok type nm) (tget (tbl s) (work_chain nm)) = Done r /\
    (is_Some r <-> exists a x, objs s !! a = Some x /\ applies ok type nm x)) as Hok.
  { intros ok. destruct (find_indexed (objs s) work_place (tbl s) F_HASH (work_match ok type nm)
      (work_chain nm).2 (i3_hash _ _ _ Hi)) as (r & E & Hr).
    { intros a x _. apply work_match_place. }
    exists r. split; [done|]. destruct r as [a|].
    - destruct Hr as (x & Ex & Hm). split; [|by eauto]. intros _. exists a, x. split; [done|].
      destruct (Hl a x Ex). by apply work_match_applies in Hm.
    - split; [by intros [? ?]|]. intros (a & x & Ex & Ha). exfalso. destruct (Hl a x Ex).
      apply work_match_applies in Ha; [|done..]. specialize (Hr a x Ex). congruence. }
  split; apply Hok.
Qed.

Lemma work_del_step s a x :
  winv s /\ True -> objs s !! a = Some x ->
  exists s', an_work_rule_t_del a s = Done s' /\ (winv s' /\ True) /\ objs s' = delete a (objs s).
Proof.
  intros [Hi _] E. unfold an_work_rule_t_del.
  destruct (Z.eqb_spec a NULL) as [->|Ha]; [by rewrite (i3_null _ _ _ Hi) in E|].
  assert (indexed (unlink F_GROUP a (unlink F_ALL a (tbl s))) F_HASH (work_place <$> objs s)) as Hx
    by (repeat indexed_tac; apply Hi).
  rewrite (hlist_del_indexed _ _ _ a Hx) by (rewrite lookup_fmap, E; by eexists). simpl.
  eexists. split; [reflexivity|]. split; [split; [|done]|done]. apply inv3_del; [done|]. unlink3_tac.
Qed.

(** Deleting the work rules of a group deletes exactly those rules, and
    clearing deletes all of them; neither faults and the lists stay
    consistent. *)
Theorem work_del_group_spec s g :
  winv s -> 0 <= g < GROUP_ID_MAX ->
  (exists s', an_work_rule_t_del_group g s = Done s' /\ winv s' /\
    forall a x, objs s' !! a = Some x <-> objs s !! a = Some x /\ gid x <> g) /\
  (exists s', an_work_rule_t_clear s = Done s' /\ winv s' /\ objs s' = ∅).
Proof.
  intros Hi Hg. split.
  - unfold an_work_rule_t_del_group. rewrite group_head_ok by done. simpl.
    destruct (inv3_del_group work_place gid s an_work_rule_t_del (fun _ => True) g work_del_step Hi I)
      as (s' & E & [Hi' _] & Hs'). by exists s'.
  - destruct (inv3_del_all work_place gid s an_work_rule_t_del (fun _ => True) work_del_step Hi I)
      as (s' & E & [Hi' _] & Hs'). by exists s'.
Qed.

Definition ex_rule : an_work_rule := WorkRule [] ForbidFacts.qq 2 0.

Definition ex_work : work :=
  Reg {[ 64 := ex_rule ]} (add_tail (F_GROUP, (0, 2)) 64 (add_tail (F_ALL, (0, 0)) 64
    (add_head (work_chain ForbidFacts.qq) 64 ∅))).

Lemma ex_work_inv : winv ex_work.
Proof.
  assert (winv (Reg ∅ ∅)) as H0 by (apply inv3_init, ForbidFacts.empty_heads).
  apply (inv3_add work_place gid (Reg ∅ ∅) 64 ex_rule); [done|done|done|simpl; unfold GROUP_ID_MAX; lia|done].
Qed.

Lemma work_find_complete_witness :
  exists r, an_work_rule_t_find_by_type_name_gid_all 0 ForbidFacts.qq 2 ex_work = Done r /\ is_Some r.
Proof.
  destruct (work_find_complete ex_work 0 ForbidFacts.qq 2 ex_work_inv) as [_ (r & E & Hr)].
  - by left.
  - simpl. lia.
  - intros a x. unfold ex_work. simpl. rewrite lookup_singleton_Some. intros [_ <-]. simpl. lia.
  - exists r. split; [exact E|]. apply Hr. exists 64, ex_rule. split; [reflexivity|]. vm_compute. auto.
Defined.

Lemma work_del_group_spec_witness :
  exists s', an_work_rule_t_del_group 2 ex_work = Done s' /\ winv s'.
Proof.
  destruct (work_del_group_spec ex_work 2 ex_work_inv) as [(s' & E & Hi & _) _];
    [unfold GROUP_ID_MAX; lia|]. exists s'. auto.
Defined.

End WorkFacts.
