(* ===== verification/CText.v ===== *)
(** * CText: the text utilities of [TCP_C/public.c]

    Character classes, splitting, the escapers, number parsing, byte order and
    calendar helpers.  Strings are lists of bytes (see [CString]). *)

From S2P Require Import Prelude CString.
Local Open Scope Z_scope.

Module CText.

(** ** Character classes *)

Definition _U : Z := 0x01.
Definition _L : Z := 0x02.
Definition _D : Z := 0x04.
Definition _C : Z := 0x08.
Definition _P : Z := 0x10.
Definition _S : Z := 0x20.
Definition _X : Z := 0x40.
Definition _SP : Z := 0x80.

(** The table, written as runs of equal entries. *)
Definition _ctype : list Z :=
  replicate 9 _C ++ replicate 5 (Z.lor _C _S) ++ replicate 18 _C ++
  [Z.lor _S _SP] ++ replicate 15 _P ++
  replicate 10 _D ++ replicate 7 _P ++
  replicate 6 (Z.lor _U _X) ++ replicate 20 _U ++ replicate 6 _P ++
  replicate 6 (Z.lor _L _X) ++ replicate 20 _L ++ replicate 4 _P ++ [_C] ++
  replicate 32 0 ++
  [Z.lor _S _SP] ++ replicate 31 _P ++
  replicate 23 _U ++ [_P] ++ replicate 7 _U ++ [_L] ++
  replicate 23 _L ++ [_P] ++ replicate 8 _L.

Definition __ismask (c : Z) : Z := nth (Z.to_nat (u8 c)) _ctype 0.

Definition J_isupper (c : Z) : bool := negb (Z.land (__ismask c) _U =? 0).
Definition J_islower (c : Z) : bool := negb (Z.land (__ismask c) _L =? 0).
Definition J_isdigit (c : Z) : bool := negb (Z.land (__ismask c) _D =? 0).
Definition J_iscntrl (c : Z) : bool := negb (Z.land (__ismask c) _C =? 0).
Definition J_isxdigit (c : Z) : bool := negb (Z.land (__ismask c) (Z.lor _D _X) =? 0).

Definition __tolower (c : Z) : Z := if J_isupper c then u8 (c - (65 - 97)) else c.
Definition __toupper (c : Z) : Z := if J_islower c then u8 (c - (97 - 65)) else c.

(** ** [split_string] *)

(** The characters up to the separator, and what follows (the separator
    included). *)
Fixpoint span (ge : Z) (cp : cstring) : cstring * cstring :=
  match cp with
  | [] => ([], [])
  | c :: r => if c =? ge then ([], cp) else let '(a, b) := span ge r in (c :: a, b)
  end.

(** The [while] loop: [n] is [max - i].  The result is the pieces stored, the
    last value of [is_ge] and the rest of the string. *)
Fixpoint split_loop (ge : Z) (n : nat) (is_ge : bool) (cp : cstring) :
    list cstring * bool * cstring * nat :=
  match n, cp with
  | O, _ => ([], is_ge, cp, O)
  | _, [] => ([], is_ge, cp, n)
  | S n, _ =>
      let '(piece, rest) := span ge cp in
      match rest with
      | [] => ([piece], false, [], n)
      | _ :: rest =>
          let '(ps, g, r, m) := split_loop ge n true rest in (piece :: ps, g, r, m)
      end
  end.

Definition split_string (rule_str : cstring) (ge : Z) (max : nat) : list cstring :=
  let '(ps, is_ge, cp, room) := split_loop ge max false rule_str in
  if is_ge && negb (room =? 0)%nat then ps ++ [cp] else ps.

(** ** [check_string_have_cn_char] *)

Definition is_cn_char (c : Z) : bool := 161 <=? c.

Definition check_string_have_cn_char (str : cstring) (len : Z) : Z :=
  if (0 <? len) && existsb is_cn_char (take (Z.to_nat (len - 1)) str) then 1 else 0.

(** ** The escapers *)

(** The characters [get_json_data_safe] prefixes with a backslash, and what
    it writes after the backslash. *)
Definition json_escape (c : Z) : option Z :=
  if c =? 10 then Some 110            (* newline: n *)
  else if c =? 13 then Some 114       (* return: r *)
  else if c =? 9 then Some 116        (* tab: t *)
  else if existsb (Z.eqb c) [39; 34; 91; 93; 123; 125; 58; 59; 124; 92; 44; 46; 47; 40; 41]
  then Some c else None.

Fixpoint get_json_buf (org : cstring) : cstring :=
  match org with
  | [] => []
  | c :: s => match json_escape c with
              | Some e => 92 :: e :: get_json_buf s
              | None => c :: get_json_buf s
              end
  end.

(** The pointer returned is [buf] if anything was escaped, else [org]. *)
Definition get_json_data_safe (org : cstring) : cstring :=
  if existsb (fun c => match json_escape c with Some _ => true | None => false end) org
  then get_json_buf org else org.

Definition an_change_json_data_symbo (buf : cstring) : cstring :=
  (fun c => if c =? 34 then 39 else c) <$> buf.

(** What is printed for one character: [None] for a character that is
    dropped. *)
Definition html_lt (c : Z) : cstring :=
  if c =? 92 then [92; 92] else if c =? 10 then [92; 110] else if c =? 13 then [92; 114]
  else if c =? 9 then [92; 116] else if c =? 8 then [92; 98]
  else if c =? 60 then [38; 108; 116; 59]
  else if J_iscntrl c then [] else [c].

Definition json_symbo (c : Z) : cstring :=
  if c =? 34 then [92; 34] else if c =? 92 then [92; 92] else if c =? 10 then [92; 110]
  else if c =? 13 then [92; 114] else if c =? 9 then [92; 116] else if c =? 8 then [92; 98]
  else if J_iscntrl c then [] else [c].

(** [len += snprintf (dst + len, dst_len - len, ...)] on a destination of
    [dst_len] bytes: the size is an unsigned difference, the value added is the
    length of the whole text, and a byte written past the destination is a
    fault. *)
Definition append (dst_len : Z) (text : cstring) (dst : cstring) (len : Z) :
    outcome (cstring * Z) :=
  let n := u32 (dst_len - len) in
  let l := Z.of_nat (length text) in
  if (0 <? n) && (dst_len <? len + Z.min n (l + 1)) then Fault OutOfBounds
  else
    let dst := if 0 <? n then take (Z.to_nat len) dst ++ take (Z.to_nat (n - 1)) text else dst in
    Done (dst, u32 (len + l)).

Fixpoint to_dst (esc : Z -> cstring) (dst_len : Z) (src dst : cstring) (len : Z) : outcome cstring :=
  match src with
  | [] => Done dst
  | c :: src =>
      '(dst, len) ← match esc c with [] => Done (dst, len) | text => append dst_len text dst len end;
      if u32 (dst_len - len) <=? 1 then Done dst else to_dst esc dst_len src dst len
  end.

Definition an_change_html_lt_to_dst (src : cstring) (dst_len : Z) : outcome cstring :=
  to_dst html_lt dst_len src [] 0.

Definition an_change_json_data_symbo_to_dst (src : cstring) (dst_len : Z) : outcome cstring :=
  to_dst json_symbo dst_len src [] 0.

(** ** [an_get_json_data_safe] *)

Definition sock_escape (c : Z) : cstring :=
  if c =? 92 then [92; 92] else if c =? 10 then [92; 110] else if c =? 13 then [92; 114]
  else if c =? 9 then [92; 116] else if c =? 8 then [92; 98]
  else if J_iscntrl c then [] else [c].

(** [cap] is the size of [send_buf], [slen] is [sock_t->send_len].  An escape
    is written by [sprintf], with its terminator; [realloc_ok] is the list of
    the outcomes of [wys_realloc].  After a failed reallocation [b] is
    [NULL + send_len], which the test [!b] does not see. *)
Fixpoint sock_loop (src : cstring) (realloc_ok : list bool) (cap slen : Z) (out : cstring) :
    outcome (cstring * Z) :=
  match src with
  | [] => if cap <=? Z.of_nat (length out) then Fault OutOfBounds
          else Done (out, Z.of_nat (length out))
  | c :: src =>
      let text := sock_escape c in
      let need := match text with [] => 0 | [_] => 1 | _ => 3 end in
      if (0 <? need) && (cap <? Z.of_nat (length out) + need) then Fault OutOfBounds
      else
        let out := out ++ text in
        let send_len := Z.of_nat (length out) in
        if slen + 1024 - 1 <=? send_len then
          match realloc_ok with
          | false :: _ => if send_len =? 0 then Done (out, -1) else Fault NullDeref
          | true :: oks => sock_loop src oks (send_len + 1024) send_len out
          | [] => sock_loop src [] (send_len + 1024) send_len out
          end
        else sock_loop src realloc_ok cap slen out
  end.

Definition an_get_json_data_safe (org_send_buf : cstring) (realloc_ok : list bool) (cap send_len : Z) :
    outcome (cstring * Z) :=
  sock_loop org_send_buf realloc_ok cap send_len [].

(** ** Calendar

    [mktime] and [localtime] are the C library's. *)

Record tm := Tm {
  tm_sec : Z; tm_min : Z; tm_hour : Z; tm_mday : Z; tm_mon : Z; tm_year : Z; tm_yday : Z
}.

Section Calendar.

Context (mktime : tm -> Z) (localtime : Z -> tm).

Definition GMT_REVERS_MASK : Z := 0xffffffff.

Definition an_time_to_gmt (year mon day hour min sec : Z) : Z :=
  u64 (mktime (Tm sec min hour day (s32 (mon - 1)) (s32 (year - 1900)) 0)).

(** year, month, day, hour, minute, second *)
Definition an_gmt_to_time (gmt : Z) : Z * Z * Z * Z * Z * Z :=
  let t := localtime gmt in
  (u32 (tm_year t + 1900), u32 (tm_mon t + 1), u32 (tm_mday t), u32 (tm_hour t),
   u32 (tm_min t), u32 (tm_sec t)).

Definition an_gmt_to_yday (gmt : Z) : Z := u32 (tm_yday (localtime gmt) + 1).

(** [time_t] is a signed 64-bit integer. *)
Definition an_gmt_format_to_hour_inver (gmt : Z) : Z :=
  let gmt := s64 (GMT_REVERS_MASK - gmt) in
  let '(_, _, _, _, min, sec) := an_gmt_to_time gmt in
  let gmt := s64 (gmt - u32 (min * 60 + sec)) in
  u64 (GMT_REVERS_MASK - gmt).

Definition an_gmt_format_to_day_inver (gmt : Z) : Z :=
  let gmt := s64 (GMT_REVERS_MASK - gmt) in
  let '(_, _, _, hour, min, sec) := an_gmt_to_time gmt in
  let gmt := s64 (gmt - u32 (hour * 3600 + min * 60 + sec)) in
  u64 (GMT_REVERS_MASK - gmt).

End Calendar.

(** ** Numbers *)

Definition digit_value (c : Z) : Z :=
  if J_isdigit c then u64 (c - 48)
  else u64 ((if J_islower c then __toupper c else c) - 65 + 10).

(** The digits from [cp] on; the result and the rest of the string. *)
Fixpoint strtoul_loop (base : Z) (cp : cstring) (result : Z) : Z * cstring :=
  match cp with
  | [] => (result, [])
  | c :: r =>
      if J_isxdigit c && (digit_value c <? base)
      then strtoul_loop base r (u64 (result * base + digit_value c))
      else (result, cp)
  end.

Definition simple_strtoul_ull (cp : cstring) (base : Z) : Z * cstring :=
  let '(cp, base) :=
    if char_at cp 0 =? 48 then
      let cp := tail cp in
      let '(cp, base) :=
        if ((char_at cp 0 =? 120) || (char_at cp 0 =? 88)) && J_isxdigit (char_at cp 1)
        then (tail cp, 16) else (cp, base) in
      (cp, if base =? 0 then 8 else base)
    else (cp, base) in
  let base := if base =? 0 then 10 else base in
  strtoul_loop base cp 0.

Definition atoull (buf : option cstring) : Z :=
  match buf with
  | None | Some [] => 0
  | Some s => (simple_strtoul_ull s 0).1
  end.

(** ** Byte order, on a little-endian machine *)

Definition byte (x : Z) (i : Z) : Z := Z.land (Z.shiftr x (8 * i)) 255.

Definition ntohl (x : Z) : Z :=
  Z.lor (Z.shiftl (byte x 0) 24)
    (Z.lor (Z.shiftl (byte x 1) 16) (Z.lor (Z.shiftl (byte x 2) 8) (byte x 3))).

Definition htonl := ntohl.

(** [tmp[0]] is the low half of the union. *)
Definition ntohll (net_var : Z) : Z :=
  let tmp0 := u32 net_var in
  let tmp1 := u32 (Z.shiftr net_var 32) in
  Z.lor (u64 (Z.shiftl (ntohl tmp0) 32)) (ntohl tmp1).

Definition htonll (host_var : Z) : Z :=
  let tmp0 := htonl (u32 (Z.shiftr host_var 32)) in
  let tmp1 := htonl (u32 (Z.land host_var 0xFFFFFFFF)) in
  Z.lor tmp0 (Z.shiftl tmp1 32).

End CText.
