(* ===== verification/CTextFacts.v ===== *)
(** * CTextFacts: what the text utilities guarantee *)

From S2P Require Import Prelude CString CText.
Import CText.
Local Open Scope Z_scope.

(** ** Splitting *)

(** The reference: all the fields between separators. *)
Fixpoint fields (ge : Z) (s : cstring) : list cstring :=
  match s with
  | [] => [[]]
  | c :: s =>
      if c =? ge then [] :: fields ge s
      else match fields ge s with p :: ps => (c :: p) :: ps | [] => [[c]] end
  end.

Fixpoint join (ge : Z) (ps : list cstring) : cstring :=
  match ps with
  | [] => []
  | [p] => p
  | p :: ps => p ++ ge :: join ge ps
  end.

Lemma fields_cons ge s : exists p ps, fields ge s = p :: ps.
Proof.
  induction s as [|c s (p & ps & E)]; simpl; [by eexists _, _|].
  destruct (c =? ge); [by eexists _, _|]. rewrite E. by eexists _, _.
Qed.

Lemma join_fields ge s : join ge (fields ge s) = s.
Proof.
  induction s as [|c s IH]; [done|]. simpl. destruct (fields_cons ge s) as (p & ps & E).
  rewrite E in *. destruct (Z.eqb_spec c ge) as [->|Hc].
  - simpl in *. by rewrite IH.
  - destruct ps; simpl in *; by rewrite <- IH.
Qed.

Lemma fields_clean ge s p : p ∈ fields ge s -> ge ∉ p.
Proof.
  revert p. induction s as [|c s IH]; simpl; intros p.
  - intros ->%list_elem_of_singleton. apply not_elem_of_nil.
  - destruct (fields_cons ge s) as (q & qs & E). rewrite E in *.
    destruct (Z.eqb_spec c ge) as [->|Hc].
    + intros [->|Hp]%elem_of_cons; [apply not_elem_of_nil|by apply IH].
    + intros [->|Hp]%elem_of_cons; [|apply IH; by right].
      apply not_elem_of_cons. split; [congruence|]. apply IH. left.
Qed.

Lemma span_fields ge s :
  let '(a, b) := span ge s in
  match b with
  | [] => a = s /\ fields ge s = [a]
  | c :: r => c = ge /\ fields ge s = a :: fields ge r
  end.
Proof.
  induction s as [|c s IH]; simpl; [done|].
  destruct (Z.eqb_spec c ge) as [->|Hc]; [done|].
  destruct (span ge s) as [a [|d r]].
  - destruct IH as [-> ->]. done.
  - destruct IH as [-> ->]. done.
Qed.

Lemma split_loop_spec ge n : forall is_ge cp,
  let '(ps, g, r, m) := split_loop ge n is_ge cp in
  (if g && negb (m =? 0)%nat then ps ++ [r] else ps) =
  match cp with
  | [] => if is_ge then take n [[]] else []
  | _ => take n (fields ge cp)
  end.
Proof.
  induction n as [|n IH]; intros is_ge cp; cbn [split_loop].
  { simpl. rewrite andb_false_r. destruct cp; [by destruct is_ge|done]. }
  destruct cp as [|c cp]; [destruct is_ge; simpl; by rewrite ?take_nil|].
  pose proof (span_fields ge (c :: cp)) as Hs.
  destruct (span ge (c :: cp)) as [a [|d r]].
  - destruct Hs as [-> Hs]. rewrite Hs. simpl. by rewrite take_nil.
  - destruct Hs as [-> Hs]. rewrite Hs. specialize (IH true r).
    destruct (split_loop ge n true r) as [[[ps g] r'] m]. cbn [take].
    transitivity (a :: (if g && negb (m =? 0)%nat then ps ++ [r'] else ps)); [by destruct (g && _)|].
    rewrite IH. f_equal. by destruct r.
Qed.

(** [split_string] returns the first [max] fields of a non-empty string,
    exactly (an empty field after a trailing separator included, none for the
    empty string); the fields contain no separator, and when they all fit,
    joining them gives the string back. *)
Theorem split_string_spec ge s max :
  split_string s ge max = match s with [] => [] | _ => take max (fields ge s) end /\
  (forall p, p ∈ split_string s ge max -> ge ∉ p) /\
  ((length (fields ge s) <= max)%nat -> join ge (split_string s ge max) = s).
Proof.
  assert (split_string s ge max = match s with [] => [] | _ => take max (fields ge s) end) as E.
  { unfold split_string. pose proof (split_loop_spec ge max false s) as H.
    destruct (split_loop ge max false s) as [[[ps g] r] m]. exact H. }
  split; [done|]. rewrite E. destruct s as [|c s].
  { split; [intros p Hp; by apply not_elem_of_nil in Hp|done]. }
  split.
  - intros p Hp. apply (fields_clean ge (c :: s)).
    rewrite <- (take_drop max (fields ge (c :: s))), elem_of_app. by left.
  - intros Hl. rewrite take_ge by done. apply join_fields.
Qed.

(** ** [get_json_data_safe] *)

Fixpoint json_unescape (s : cstring) : cstring :=
  match s with
  | [] => []
  | c :: s' =>
      if c =? 92 then
        match s' with
        | e :: r => (if e =? 110 then 10 else if e =? 114 then 13 else if e =? 116 then 9 else e)
                    :: json_unescape r
        | [] => [c]
        end
      else c :: json_unescape s'
  end.

Lemma json_unescape_buf s : json_unescape (get_json_buf s) = s.
Proof.
  induction s as [|c s IH]; [done|]. simpl. unfold json_escape.
  destruct (Z.eqb_spec c 10) as [->|H1]; [simpl; by rewrite IH|].
  destruct (Z.eqb_spec c 13) as [->|H2]; [simpl; by rewrite IH|].
  destruct (Z.eqb_spec c 9) as [->|H3]; [simpl; by rewrite IH|].
  destruct (existsb (Z.eqb c) _) eqn:Ex.
  - simpl. rewrite IH. f_equal.
    destruct (Z.eqb_spec c 110) as [->|]; [discriminate Ex|].
    destruct (Z.eqb_spec c 114) as [->|]; [discriminate Ex|].
    destruct (Z.eqb_spec c 116) as [->|]; [discriminate Ex|done].
  - simpl. destruct (Z.eqb_spec c 92) as [->|]; [discriminate Ex|]. by rewrite IH.
Qed.


(** ** The bounded escapers *)

Definition escaped (esc : Z -> cstring) (s : cstring) : cstring := concat (esc <$> s).

(** With texts of at most two bytes, an escaper stays inside its buffer. *)
Lemma to_dst_spec esc n src : forall dst,
  2 <= n < 2 ^ 32 -> (forall c, (length (esc c) <= 2)%nat) ->
  Z.of_nat (length dst) + 2 <= n ->
  exists out, to_dst esc n src dst (Z.of_nat (length dst)) = Done out /\
    Z.of_nat (length out) < n /\
    ((out = dst ++ escaped esc src) \/
     (Z.of_nat (length out) + 1 = n /\ exists r, dst ++ escaped esc src = out ++ r)).
Proof.
  unfold escaped. induction src as [|c src IH]; intros dst Hn Hesc Hd; simpl.
  { exists dst. rewrite app_nil_r. split_all; [done|lia|by left]. }
  assert (forall z, 0 <= z <= n -> u32 (n - z) = n - z) as Hsub by (intros; apply wrapu_small; lia).
  assert (forall t, (1 <= length t <= 2)%nat ->
    append n t dst (Z.of_nat (length dst)) =
      Done (dst ++ take (Z.to_nat (n - Z.of_nat (length dst) - 1)) t,
            Z.of_nat (length dst) + Z.of_nat (length t))) as Happ.
  { intros t Ht. unfold append. rewrite Hsub by lia.
    destruct (Z.ltb_spec 0 (n - Z.of_nat (length dst))); [|lia].
    destruct (Z.ltb_spec n (Z.of_nat (length dst) +
      Z.min (n - Z.of_nat (length dst)) (Z.of_nat (length t) + 1))); [lia|]. simpl.
    rewrite Nat2Z.id, take_ge by lia. f_equal. f_equal. apply wrapu_small. lia. }
  pose proof (Hesc c) as Hc. destruct (esc c) as [|x t] eqn:Et.
  - simpl. rewrite Hsub by lia. destruct (Z.leb_spec (n - Z.of_nat (length dst)) 1); [lia|]. by apply IH.
  - rewrite <- Et in *. rewrite Happ by (rewrite Et in *; simpl in *; lia). simpl.
    rewrite Hsub by (rewrite Et in *; simpl in *; lia).
    assert (esc c <> []) as Hne by (by rewrite Et). clear Et x t.
    assert (0 < length (esc c))%nat by (destruct (esc c); [done|simpl; lia]).
    destruct (Z.leb_spec (n - (Z.of_nat (length dst) + Z.of_nat (length (esc c)))) 1) as [Hle|Hgt].
    + eexists. split; [reflexivity|]. rewrite length_app, length_take. split; [lia|]. right.
      split; [lia|]. exists (drop (Z.to_nat (n - Z.of_nat (length dst) - 1)) (esc c) ++ concat (esc <$> src)).
      rewrite <- app_assoc, (app_assoc (take _ _)), take_drop. done.
    + rewrite take_ge by lia.
      replace (Z.of_nat (length dst) + Z.of_nat (length (esc c))) with (Z.of_nat (length (dst ++ esc c)))
        by (rewrite length_app; lia).
      destruct (IH (dst ++ esc c)) as (out & E & Hl & Ho); [done|done|rewrite length_app; lia|].
      exists out. split_all; [done|done|]. by rewrite <- app_assoc in Ho.
Qed.

Lemma json_symbo_short c : (length (json_symbo c) <= 2)%nat.
Proof. unfold json_symbo. repeat (case_match; simpl; try lia). Qed.

(** [an_change_json_data_symbo_to_dst] is memory safe for every
    destination of at least two bytes: it never writes past it, and it leaves
    there the escaped text, or as much of it as fits. *)
Theorem json_to_dst_safe src n :
  2 <= n < 2 ^ 32 ->
  exists out, an_change_json_data_symbo_to_dst src n = Done out /\
    Z.of_nat (length out) < n /\
    (out = escaped json_symbo src \/
     Z.of_nat (length out) + 1 = n /\ exists r, escaped json_symbo src = out ++ r).
Proof. intros Hn. apply (to_dst_spec json_symbo n src []); [done|apply json_symbo_short|simpl; lia]. Qed.

Lemma json_to_dst_safe_witness :
  exists out, an_change_json_data_symbo_to_dst [97; 34; 10] 4 = Done out /\ Z.of_nat (length out) < 4.
Proof.
  destruct (json_to_dst_safe [97; 34; 10] 4) as (out & E & Hl & _); [lia|]. by exists out.
Defined.

(** [an_change_html_lt_to_dst] is not: when two or three bytes are left,
    the entity for [<] makes [len] larger than [dst_len], the unsigned
    difference wraps, and the next character is written past the end. *)
Theorem html_lt_overflows :
  an_change_html_lt_to_dst [97; 60; 98] 4 = Fault OutOfBounds /\
  an_change_html_lt_to_dst [97; 97; 60; 98] 4 = Fault OutOfBounds /\
  an_change_json_data_symbo_to_dst [97; 60; 98] 4 = Done [97; 60; 98].
Proof. vm_compute. auto. Qed.

(** [an_get_json_data_safe] can write one byte past [send_buf]: the room
    it keeps is one byte short of an escape with its terminator. *)
Theorem sock_escape_off_by_one :
  an_get_json_data_safe (replicate 1022 97 ++ [10]) [] (0 + 1024) 0 = Fault OutOfBounds /\
  an_get_json_data_safe (replicate 1021 97 ++ [10]) [] (0 + 1024) 0 =
    Done (replicate 1021 97 ++ [92; 110], 1023).
Proof. split; vm_compute; reflexivity. Qed.

(** [check_string_have_cn_char] looks at all bytes but the last: a string
    whose only such byte is its last one is reported clean, although [len] is
    documented as the length without the terminator. *)
Theorem cn_char_misses_last s c :
  existsb is_cn_char s = false ->
  check_string_have_cn_char (s ++ [c]) (Z.of_nat (length (s ++ [c]))) = 0.
Proof.
  intros Hs. unfold check_string_have_cn_char. rewrite length_app. simpl length.
  replace (Z.to_nat (Z.of_nat (length s + 1) - 1)) with (length s) by lia.
  rewrite take_app_length, Hs. by rewrite andb_false_r.
Qed.

Lemma cn_char_misses_last_witness : check_string_have_cn_char [97; 200] 2 = 0.
Proof. exact (cn_char_misses_last [97] 200 eq_refl). Defined.

(** ** Numbers *)

Definition value (base : Z) (ds : list Z) : Z := fold_left (fun a d => a * base + d) ds 0.

Definition numeral (ds : list Z) : cstring := (fun d => 48 + d) <$> ds.

Lemma digit_char d :
  0 <= d <= 9 -> J_isxdigit (48 + d) = true /\ digit_value (48 + d) = d.
Proof.
  intros Hd. assert (d = 0 \/ d = 1 \/ d = 2 \/ d = 3 \/ d = 4 \/ d = 5 \/ d = 6 \/ d = 7 \/ d = 8 \/ d = 9)
    as Hc by lia.
  destruct Hc as [->|[->|[->|[->|[->|[->|[->|[->|[-> | ->]]]]]]]]]; vm_compute; auto.
Qed.

Lemma strtoul_digits base ds : forall acc,
  1 < base <= 10 -> (forall d, d ∈ ds -> 0 <= d < base) ->
  strtoul_loop base (numeral ds) (u64 acc) =
    (u64 (fold_left (fun a d => a * base + d) ds acc), []).
Proof.
  induction ds as [|d ds IH]; intros acc Hb Hds; [done|].
  assert (0 <= d < base) as Hd by (apply Hds; left).
  destruct (digit_char d) as [Hx Hv]; [lia|]. cbn [numeral fmap list_fmap strtoul_loop].
  fold (numeral ds). rewrite Hx, Hv. destruct (Z.ltb_spec d base); [|lia]. simpl andb.
  replace (u64 (u64 acc * base + d)) with (u64 (acc * base + d)).
  - apply IH; [done|]. intros; apply Hds. by right.
  - unfold wrapu. rewrite <- (Zplus_mod_idemp_l (acc mod 2 ^ 64 * base)), Zmult_mod_idemp_l.
    by rewrite Zplus_mod_idemp_l.
Qed.

(** [atoull] reads back decimal numerals: digits without a leading zero
    give their value (modulo [2^64]), so a printed 64-bit number is recovered.
    A leading zero makes the rest of the digits an octal number. *)
Theorem atoull_numeral d ds :
  (forall x, x ∈ d :: ds -> 0 <= x <= 9) ->
  (d <> 0 -> atoull (Some (numeral (d :: ds))) = u64 (value 10 (d :: ds))) /\
  (d = 0 -> (forall x, x ∈ ds -> x < 8) -> atoull (Some (numeral (d :: ds))) = u64 (value 8 ds)).
Proof.
  intros Hd. split.
  - intros Hne. assert (0 <= d <= 9) by (apply Hd; left).
    change (atoull (Some (numeral (d :: ds)))) with (simple_strtoul_ull (numeral (d :: ds)) 0).1.
    unfold simple_strtoul_ull. change (char_at (numeral (d :: ds)) 0) with (48 + d).
    destruct (Z.eqb_spec (48 + d) 48); [lia|]. change (if 0 =? 0 then 10 else 0) with 10.
    pose proof (strtoul_digits 10 (d :: ds) 0 ltac:(lia)) as E. change (u64 0) with 0 in E.
    rewrite E; [done|]. intros x Hx. specialize (Hd x Hx). lia.
  - intros -> H8.
    change (atoull (Some (numeral (0 :: ds)))) with (simple_strtoul_ull (48 :: numeral ds) 0).1.
    unfold simple_strtoul_ull. change (char_at (48 :: numeral ds) 0) with 48.
    change (48 =? 48) with true. cbv iota. change (tail (48 :: numeral ds)) with (numeral ds).
    assert ((char_at (numeral ds) 0 =? 120) || (char_at (numeral ds) 0 =? 88) = false) as ->.
    { unfold char_at. destruct ds as [|x ds]; [done|]. simpl nth.
      assert (0 <= x <= 9) by (apply Hd; right; left).
      destruct (Z.eqb_spec (48 + x) 120); [lia|]. destruct (Z.eqb_spec (48 + x) 88); [lia|done]. }
    cbn [andb]. cbv iota. change (if 0 =? 0 then 8 else 0) with 8. change (if 8 =? 0 then 10 else 8) with 8.
    pose proof (strtoul_digits 8 ds 0 ltac:(lia)) as E. change (u64 0) with 0 in E.
    rewrite E; [done|]. intros x Hx. specialize (H8 x Hx). specialize (Hd x ltac:(by right)). lia.
Qed.

Lemma atoull_numeral_witness :
  atoull (Some [49; 50; 56]) = 128 /\ atoull (Some [48; 49; 48]) = 8.
Proof.
  split.
  - apply (atoull_numeral 1 [2; 8]); [|lia]. intros x Hx.
    rewrite !elem_of_cons in Hx. destruct Hx as [->|[->|[->|Hx]]]; [lia..|by apply not_elem_of_nil in Hx].
  - apply (atoull_numeral 0 [1; 0]); [|done|]; intros x Hx; rewrite !elem_of_cons in Hx.
    + destruct Hx as [->|[->|[->|Hx]]]; [lia..|by apply not_elem_of_nil in Hx].
    + destruct Hx as [->|[->|Hx]]; [lia..|by apply not_elem_of_nil in Hx].
Defined.

(** ** Byte order *)

Lemma lor_add a b n : 0 <= n -> 0 <= b < 2 ^ n -> Z.lor (Z.shiftl a n) b = a * 2 ^ n + b.
Proof.
  intros Hn Hb. rewrite <- Z.shiftl_mul_pow2 by done.
  assert (Z.land (Z.shiftl a n) b = 0) as Hl.
  { apply Z.bits_inj'. intros i Hi. rewrite Z.land_spec, Z.bits_0.
    destruct (Z.ltb_spec i n); [by rewrite Z.shiftl_spec_low|].
    rewrite <- (Z.mod_small b (2 ^ n)), Z.mod_pow2_bits_high by lia. apply andb_false_r. }
  rewrite Z.add_nocarry_lxor by done. symmetry. by apply Z.lxor_lor.
Qed.

Lemma byte_div x i : 0 <= i -> byte x i = x / 2 ^ (8 * i) mod 256.
Proof. intros Hi. unfold byte. by rewrite land_255, Z.shiftr_div_pow2 by lia. Qed.

Lemma ntohl_bytes x :
  ntohl x = (x mod 256) * 2 ^ 24 + (x / 2 ^ 8 mod 256) * 2 ^ 16 + (x / 2 ^ 16 mod 256) * 2 ^ 8 +
            x / 2 ^ 24 mod 256.
Proof.
  unfold ntohl. rewrite !byte_div by lia. change (2 ^ (8 * 0)) with 1. rewrite Z.div_1_r.
  change (8 * 1) with 8. change (8 * 2) with 16. change (8 * 3) with 24.
  pose proof (Z.mod_pos_bound x 256). pose proof (Z.mod_pos_bound (x / 2 ^ 8) 256).
  pose proof (Z.mod_pos_bound (x / 2 ^ 16) 256). pose proof (Z.mod_pos_bound (x / 2 ^ 24) 256).
  rewrite (lor_add _ (x / 2 ^ 24 mod 256)) by lia.
  rewrite (lor_add (x / 2 ^ 8 mod 256)) by lia. rewrite lor_add by lia. lia.
Qed.

Lemma ntohl_range x : 0 <= ntohl x < 2 ^ 32.
Proof.
  rewrite ntohl_bytes. pose proof (Z.mod_pos_bound x 256). pose proof (Z.mod_pos_bound (x / 2 ^ 8) 256).
  pose proof (Z.mod_pos_bound (x / 2 ^ 16) 256). pose proof (Z.mod_pos_bound (x / 2 ^ 24) 256). lia.
Qed.

Lemma ntohl_involutive x : 0 <= x < 2 ^ 32 -> ntohl (ntohl x) = x.
Proof.
  intros Hx. rewrite (ntohl_bytes (ntohl x)), (ntohl_bytes x).
  assert (exists a b c d, x = a + 256 * b + 65536 * c + 16777216 * d /\
    0 <= a < 256 /\ 0 <= b < 256 /\ 0 <= c < 256 /\ 0 <= d < 256) as (a & b & c & d & -> & Ha & Hb & Hc & Hd).
  { exists (x mod 256), (x / 256 mod 256), (x / 65536 mod 256), (x / 16777216).
    Z.div_mod_to_equations. lia. }
  assert ((a + 256 * b + 65536 * c + 16777216 * d) mod 256 = a) as -> by (Z.div_mod_to_equations; lia).
  assert ((a + 256 * b + 65536 * c + 16777216 * d) / 2 ^ 8 mod 256 = b) as ->
    by (change (2 ^ 8) with 256; Z.div_mod_to_equations; lia).
  assert ((a + 256 * b + 65536 * c + 16777216 * d) / 2 ^ 16 mod 256 = c) as ->
    by (change (2 ^ 16) with 65536; Z.div_mod_to_equations; lia).
  assert ((a + 256 * b + 65536 * c + 16777216 * d) / 2 ^ 24 mod 256 = d) as ->
    by (change (2 ^ 24) with 16777216; Z.div_mod_to_equations; lia).
  change (2 ^ 24) with 16777216. change (2 ^ 16) with 65536. change (2 ^ 8) with 256.
  assert ((a * 16777216 + b * 65536 + c * 256 + d) mod 256 = d) as -> by (Z.div_mod_to_equations; lia).
  assert ((a * 16777216 + b * 65536 + c * 256 + d) / 256 mod 256 = c) as -> by (Z.div_mod_to_equations; lia).
  assert ((a * 16777216 + b * 65536 + c * 256 + d) / 65536 mod 256 = b) as -> by (Z.div_mod_to_equations; lia).
  assert ((a * 16777216 + b * 65536 + c * 256 + d) / 16777216 mod 256 = a) as -> by (Z.div_mod_to_equations; lia).
  lia.
Qed.

(** [ntohll] and [htonll] are inverse to each other on 64-bit values. *)
Theorem hton_roundtrip x : 0 <= x < 2 ^ 64 -> ntohll (htonll x) = x /\ htonll (ntohll x) = x.
Proof.
  intros Hx. change (2 ^ 64) with (2 ^ 32 * 2 ^ 32) in Hx.
  assert (0 <= Z.shiftr x 32 < 2 ^ 32) as Hh.
  { rewrite Z.shiftr_div_pow2 by lia. split; [apply Z.div_pos; lia|apply Z.div_lt_upper_bound; lia]. }
  assert (forall lo hi, 0 <= lo < 2 ^ 32 -> 0 <= hi < 2 ^ 32 ->
    u32 (Z.lor lo (Z.shiftl hi 32)) = lo /\ u32 (Z.shiftr (Z.lor lo (Z.shiftl hi 32)) 32) = hi) as Hj.
  { intros lo hi Hlo Hhi. rewrite Z.lor_comm, lor_add by lia. unfold wrapu. split.
    - rewrite Z.add_comm, Z.mod_add by lia. apply Z.mod_small. lia.
    - rewrite Z.shiftr_div_pow2, Z.div_add_l, (Z.div_small lo) by lia. rewrite Z.add_0_r. by apply Z.mod_small. }
  pose proof (ntohl_range (u32 (Z.shiftr x 32))) as R1. pose proof (ntohl_range (u32 x)) as R2.
  assert (u32 (Z.land x 0xFFFFFFFF) = u32 x) as El.
  { change 0xFFFFFFFF with (2 ^ 32 - 1). rewrite land_mask by lia. unfold wrapu. apply Zmod_mod. }
  assert (u32 (Z.shiftr x 32) = Z.shiftr x 32) as Eh by (by apply wrapu_small).
  assert (0 <= u32 x < 2 ^ 32) as Hl by (apply wrapu_range; lia).
  assert (Z.shiftr x 32 * 2 ^ 32 + u32 x = x) as Ex.
  { rewrite Z.shiftr_div_pow2 by lia. unfold wrapu. rewrite (Z.div_mod x (2 ^ 32)) at 3 by lia. lia. }
  assert (forall h l, 0 <= h < 2 ^ 32 -> 0 <= l < 2 ^ 32 -> Z.lor (u64 (Z.shiftl h 32)) l = h * 2 ^ 32 + l) as Hu.
  { intros h l H1 H2. rewrite wrapu_small; [apply lor_add; lia|]. rewrite Z.shiftl_mul_pow2 by lia.
    change (2 ^ 64) with (2 ^ 32 * 2 ^ 32). nia. }
  unfold ntohll, htonll, htonl. rewrite El, Eh in *. split.
  - destruct (Hj (ntohl (Z.shiftr x 32)) (ntohl (u32 x)) R1 R2) as [-> ->].
    rewrite !ntohl_involutive by done. by rewrite Hu.
  - rewrite Hu by done. set (y := ntohl (u32 x) * 2 ^ 32 + ntohl (Z.shiftr x 32)).
    assert (u32 (Z.shiftr y 32) = ntohl (u32 x)) as ->.
    { unfold y. rewrite Z.shiftr_div_pow2, Z.div_add_l, Z.div_small by lia. rewrite Z.add_0_r. by apply wrapu_small. }
    assert (u32 (Z.land y 0xFFFFFFFF) = ntohl (Z.shiftr x 32)) as ->.
    { change 0xFFFFFFFF with (2 ^ 32 - 1). rewrite land_mask by lia. unfold wrapu, y.
      rewrite Zmod_mod, Z.add_comm, Z.mod_add by lia. by apply Z.mod_small. }
    rewrite !ntohl_involutive by done. rewrite Z.lor_comm, lor_add by lia. exact Ex.
Qed.

Lemma hton_roundtrip_witness : ntohll (htonll 0x0102030405060708) = 0x0102030405060708.
Proof. apply (hton_roundtrip 0x0102030405060708). lia. Defined.

(** ** Calendar *)

Section Calendar.

(** What the C library documents of [localtime]: the clock fields are in
    their ranges and show the time of day at a fixed offset from GMT. *)
Definition clock_of (off : Z) (localtime : Z -> tm) : Prop := forall g,
  0 <= tm_hour (localtime g) < 24 /\ 0 <= tm_min (localtime g) < 60 /\
  0 <= tm_sec (localtime g) < 60 /\
  (g + off) mod 86400 = tm_hour (localtime g) * 3600 + tm_min (localtime g) * 60 + tm_sec (localtime g).

Context (off : Z) (localtime : Z -> tm) (Hlt : clock_of off localtime).

Lemma gmt_mask_small t : 0 <= t <= GMT_REVERS_MASK -> s64 (GMT_REVERS_MASK - t) = GMT_REVERS_MASK - t.
Proof. intros Ht. apply wraps_small; unfold GMT_REVERS_MASK in *; lia. Qed.

(** The two helpers round the (reversed) time down to the hour and to the day
    of the local clock. *)
Lemma inver_sub t d :
  0 <= t <= GMT_REVERS_MASK -> 0 <= d < 86400 ->
  u64 (GMT_REVERS_MASK - s64 (GMT_REVERS_MASK - t - u32 d)) = t + d.
Proof.
  intros Ht Hd. rewrite (wrapu_small 32 d) by lia.
  rewrite wraps_small by (unfold GMT_REVERS_MASK in *; lia).
  rewrite wrapu_small; unfold GMT_REVERS_MASK in *; lia.
Qed.

(** [an_gmt_format_to_day_inver] and [an_gmt_format_to_hour_inver], on
    reversed times, return the reversed start of the local day and hour that
    contain the time: nothing later than it, less than a day (an hour) before,
    and at clock time 00:00:00 (at a full hour). *)
Theorem format_inver_spec t :
  0 <= t <= GMT_REVERS_MASK ->
  let g := GMT_REVERS_MASK - t in
  (let day := GMT_REVERS_MASK - an_gmt_format_to_day_inver localtime t in
   day <= g < day + 86400 /\ (day + off) mod 86400 = 0) /\
  (let hour := GMT_REVERS_MASK - an_gmt_format_to_hour_inver localtime t in
   hour <= g < hour + 3600 /\ (hour + off) mod 3600 = 0).
Proof.
  intros Ht g. unfold an_gmt_format_to_day_inver, an_gmt_format_to_hour_inver, an_gmt_to_time.
  rewrite !gmt_mask_small by done. fold g.
  destruct (Hlt g) as (Hh & Hm & Hs & E).
  set (h := tm_hour (localtime g)) in *. set (m := tm_min (localtime g)) in *.
  set (c := tm_sec (localtime g)) in *. clearbody h m c.
  rewrite (wrapu_small 32 h), (wrapu_small 32 m), (wrapu_small 32 c) by lia.
  assert (exists q, g + off = 86400 * q + (h * 3600 + m * 60 + c)) as [q Eq].
  { exists ((g + off) / 86400). rewrite <- E. apply Z.div_mod. lia. }
  unfold g. rewrite !inver_sub by lia. fold g. split.
  - replace (GMT_REVERS_MASK - (t + (h * 3600 + m * 60 + c))) with (g - (h * 3600 + m * 60 + c)) by (unfold g; lia).
    split; [lia|]. replace (g - (h * 3600 + m * 60 + c) + off) with (q * 86400) by lia. apply Z.mod_mul. lia.
  - replace (GMT_REVERS_MASK - (t + (m * 60 + c))) with (g - (m * 60 + c)) by (unfold g; lia).
    split; [lia|]. replace (g - (m * 60 + c) + off) with ((q * 24 + h) * 3600) by lia. apply Z.mod_mul. lia.
Qed.

End Calendar.

(** The clock of GMT itself. *)
Definition gmt_clock (g : Z) : tm := Tm (g mod 60) (g / 60 mod 60) (g / 3600 mod 24) 1 0 70 0.

Lemma gmt_clock_ok : clock_of 0 gmt_clock.
Proof. intros g. unfold gmt_clock. simpl. Z.div_mod_to_equations. lia. Qed.

Lemma format_inver_spec_witness :
  let day := GMT_REVERS_MASK - an_gmt_format_to_day_inver gmt_clock (GMT_REVERS_MASK - 1473755625) in
  day <= GMT_REVERS_MASK - (GMT_REVERS_MASK - 1473755625) < day + 86400 /\ (day + 0) mod 86400 = 0.
Proof.
  apply (format_inver_spec 0 gmt_clock gmt_clock_ok (GMT_REVERS_MASK - 1473755625)).
  unfold GMT_REVERS_MASK. lia.
Defined.
