(* ===== verification/Users.v ===== *)
(** * Users: groups, sockets, user statistics and activity records

    The rest of the objects of [TCP_C/hash.c].  Objects that own others (a
    user owns its activities) name them by list heads inside the owner: the
    key [(field, (owner, i))].  As in [Rules], [p] is the result of
    [wys_malloc], and every list field of a new object is initialised, so
    [list_del] of an object that is on no list does nothing. *)

From S2P Require Import Prelude CString Registry Rules CText.
Import Registry.
Local Open Scope Z_scope.

(** ** The integer hash

    All integer keys are hashed alike: the sum of the four bytes of the key,
    masked. *)
Definition byte_sum (l : Z) : Z :=
  let l := u32 l in
  Z.land (u32 (CText.byte l 0 + CText.byte l 1 + CText.byte l 2 + CText.byte l 3)) HASH_MASK.

(** A new object: zeroed fields [x], on no list. *)
Definition create {T} (x : T) (p : addr) (s : reg T) : addr * reg T :=
  if p =? NULL then (NULL, s) else (p, Reg (<[p := x]> (objs s)) (tbl s)).

(** ** Groups *)

Module Group.

Record ww_group_base_info := GroupInfo {
  gid : Z; name : cstring; cd_auth : Z; usb_auth : Z; monitor : Z; fileauth : Z; user_num : Z
}.

Record groups := Groups { greg : reg ww_group_base_info; an_group_num : Z }.

Definition ww_group_base_info_st_get_hash (g : Z) : Z := byte_sum g.

Definition ww_group_base_info_st_create (p : addr) (s : groups) : addr * groups :=
  let '(a, r) := create (GroupInfo 0 [] 0 0 0 0 0) p (greg s) in (a, Groups r (an_group_num s)).

Definition ww_group_base_info_st_find_by_id (g : Z) (s : groups) : outcome (option addr) :=
  if GROUP_ID_MAX <? g then Done None
  else find (objs (greg s)) (fun x => gid x =? g)
            (tget (tbl (greg s)) (F_HASH, (0, ww_group_base_info_st_get_hash g))).

Definition group_remove (a : addr) (r : reg ww_group_base_info) : outcome (reg ww_group_base_info) :=
  t ← hlist_del F_HASH a (tbl r);
  Done (Reg (delete a (objs r)) (unlink F_ALL a t)).

Definition ww_group_base_info_st_del (g : Z) (s : groups) : outcome groups :=
  r ← ww_group_base_info_st_find_by_id g s;
  match r with
  | None => Done s
  | Some a => r ← group_remove a (greg s); Done (Groups r (s32 (an_group_num s - 1)))
  end.

(** [an_group_num] is not touched. *)
Definition ww_group_base_info_st_del_all (s : groups) : outcome groups :=
  r ← for_each_safe group_remove (tget (tbl (greg s)) (F_ALL, (0, 0))) (greg s);
  Done (Groups r (an_group_num s)).

End Group.

(** ** Sockets *)

Module Sock.

Definition AN_POLL_MAX : Z := 1024.

Record an_socket := Socket {
  index : Z;
  org_send_buf : addr; send_buf : addr; send_len : Z; send_buflen : Z;
  rcv_buf : addr; rcv_len : Z; rcv_buflen : Z
}.

(** [bufs]: the buffers from [wys_malloc] that are in use. *)
Record socks := Socks { sreg : reg an_socket; bufs : gmap addr (list Z) }.

Definition an_socket_t_get_hash (i : Z) : Z := byte_sum i.

Definition an_socket_t_create (p : addr) (s : socks) : addr * socks :=
  let '(a, r) := create (Socket 0 NULL NULL 0 0 NULL 0 0) p (sreg s) in (a, Socks r (bufs s)).

Definition an_socket_t_find_by_index (i : Z) (s : socks) : outcome (option addr) :=
  if AN_POLL_MAX <=? i then Done None
  else find (objs (sreg s)) (fun x => index x =? i)
            (tget (tbl (sreg s)) (F_HASH, (0, an_socket_t_get_hash i))).

(** [if (buf) wys_free (buf)] *)
Definition free_buf (b : addr) (m : gmap addr (list Z)) : outcome (gmap addr (list Z)) :=
  if b =? NULL then Done m
  else match m !! b with Some _ => Done (delete b m) | None => Fault UseAfterFree end.

Definition an_socket_t_del (i : Z) (s : socks) : outcome socks :=
  r ← an_socket_t_find_by_index i s;
  match r with
  | None => Done s
  | Some a =>
      t ← hlist_del F_HASH a (tbl (sreg s));
      x ← get_or UseAfterFree (objs (sreg s) !! a);
      m ← free_buf (rcv_buf x) (bufs s);
      m ← free_buf (send_buf x) m;
      m ← free_buf (org_send_buf x) m;
      Done (Socks (Reg (delete a (objs (sreg s))) t) m)
  end.

End Sock.

(** ** Statistics per user *)

Module UserAction.

Definition OT_WINDOW_CLOSE : Z := 151.
Definition OT_BROWSER_CLOSE_URL : Z := 301.

Record ww_action_list := Action {
  act_name : cstring; pro_name : cstring; time : Z; type : Z;
  key_click : Z; mou_click : Z; category : Z
}.

Record ww_user_action := UserAction {
  user_id : Z; group_id : Z; start_time : Z; end_time : Z; day_time : Z
}.

(** Users are on [ww_user_hash], [ww_user_list] and a list of a group;
    activities are on the list and in the hash table of their owner. *)
Record users := Users { ureg : reg ww_user_action; areg : reg ww_action_list }.

(** The head of [auto_save_user_group_list], which uses the field
    [group_list] too. *)
Definition AUTO_SAVE : key := (F_GROUP, (1, 0)).

Definition ww_user_action_st_get_hash (id : Z) : Z := byte_sum id.

Definition ww_user_action_st_create (p : addr) (s : users) : addr * users :=
  let '(a, r) := create (UserAction 0 0 0 0 0) p (ureg s) in
  if a =? NULL then (a, s)
  else
    let t := init_heads F_HASH a (Z.to_nat HASH_SIZE) (<[(F_ALL, (a, 0)) := []]> (tbl (areg s))) in
    (a, Users r (Reg (objs (areg s)) t)).

Definition bad_id (id : Z) : bool := (id =? 0) || (id =? 0xffffffff).

Definition ww_user_action_find_by_id (id : Z) (s : users) : outcome (option addr) :=
  if bad_id id then Done None
  else find (objs (ureg s)) (fun x => u32 (user_id x) =? id)
            (tget (tbl (ureg s)) (F_HASH, (0, ww_user_action_st_get_hash id))).

Definition ww_user_action_id_find_create (id : Z) (p : addr) (s : users) : outcome (addr * users) :=
  if bad_id id then Done (NULL, s)
  else
    r ← ww_user_action_find_by_id id s;
    match r with Some a => Done (a, s) | None => Done (ww_user_action_st_create p s) end.

Definition ww_user_action_find_by_gid (g : Z) (s : users) : outcome (option addr) :=
  find (objs (ureg s)) (fun x => u32 (group_id x) =? g) (tget (tbl (ureg s)) AUTO_SAVE).

Definition ww_user_action_gid_find_create (g : Z) (p : addr) (s : users) : outcome (addr * users) :=
  r ← ww_user_action_find_by_gid g s;
  match r with Some a => Done (a, s) | None => Done (ww_user_action_st_create p s) end.

(** One activity of [ww_user_action_list_del]: [hlist_del] without a test. *)
Definition action_del (a : addr) (r : reg ww_action_list) : outcome (reg ww_action_list) :=
  _ ← get_or UseAfterFree (objs r !! a);
  t ← hlist_del F_HASH a (tbl r);
  Done (Reg (delete a (objs r)) (unlink F_ALL a t)).

Definition ww_user_action_list_del (owner : addr) (s : users) : outcome users :=
  r ← for_each_safe action_del (tget (tbl (areg s)) (F_ALL, (owner, 0))) (areg s);
  Done (Users (ureg s) r).

(** One activity of [ww_user_action_st_del]: [hlist_del_init]. *)
Definition action_del_init (a : addr) (r : reg ww_action_list) : outcome (reg ww_action_list) :=
  _ ← get_or UseAfterFree (objs r !! a);
  Done (Reg (delete a (objs r)) (unlink F_ALL a (hlist_del_init F_HASH a (tbl r)))).

Definition ww_user_action_st_del (u : addr) (s : users) : outcome users :=
  _ ← deref (ureg s) u;
  r ← for_each_safe action_del_init (tget (tbl (areg s)) (F_ALL, (u, 0))) (areg s);
  let t := hlist_del_init F_HASH u (tbl (ureg s)) in
  let t := unlink F_GROUP u (unlink F_ALL u t) in
  Done (Users (Reg (delete u (objs (ureg s))) t) r).

Definition ww_user_action_st_del_group (g : Z) (s : users) : outcome users :=
  k ← group_head g; for_each_safe ww_user_action_st_del (tget (tbl (ureg s)) k) s.

Definition ww_user_action_st_clear (s : users) : outcome users :=
  for_each_safe ww_user_action_st_del (tget (tbl (ureg s)) (F_ALL, (0, 0))) s.

Definition ww_user_action_st_group_clear (s : users) : outcome users :=
  for_each_safe ww_user_action_st_del (tget (tbl (ureg s)) AUTO_SAVE) s.

(** The sum of at most the first eight characters. *)
Definition ww_action_name_hash (nm : cstring) : Z :=
  Z.land (fold_left (fun index c => u32 (index + s8 c)) (take 8 nm) 0) HASH_MASK.

Definition ww_action_st_create (p : addr) (s : users) : addr * users :=
  let '(a, r) := create (Action [] [] 0 0 0 0 0) p (areg s) in (a, Users (ureg s) r).

(** [hash_list]: the owner of the array of chains. *)
Definition ww_action_st_find_by_hash_name_type (hash_list : addr) (nm : cstring) (ty : Z) (s : users) :
    outcome (option addr) :=
  find (objs (areg s))
       (fun x => if ty =? OT_BROWSER_CLOSE_URL then strcmp_eq (act_name x) nm
                 else if ty =? OT_WINDOW_CLOSE then strcmp_eq (pro_name x) nm else false)
       (tget (tbl (areg s)) (F_HASH, (hash_list, ww_action_name_hash nm))).

Definition find_or_create (search : cstring -> outcome (option addr)) (pro act : cstring) (ty : Z)
    (p : addr) (s : users) : outcome (addr * users) :=
  if negb (ty =? OT_WINDOW_CLOSE) && negb (ty =? OT_BROWSER_CLOSE_URL) then Done (NULL, s)
  else
    r ← search (if ty =? OT_WINDOW_CLOSE then pro else act);
    match r with Some a => Done (a, s) | None => Done (ww_action_st_create p s) end.

Definition ww_action_st_hash_name_type_find_create (hash_list : addr) (pro act : cstring) (ty : Z)
    (p : addr) (s : users) : outcome (addr * users) :=
  find_or_create (fun nm => ww_action_st_find_by_hash_name_type hash_list nm ty s) pro act ty p s.

(** Equal categories, or both of them not zero. *)
Definition same_category (x : ww_action_list) (c : Z) : bool :=
  (category x =? c) || (negb (category x =? 0) && negb (c =? 0)).

Definition ww_action_st_find_by_user_name_type (u : addr) (nm : cstring) (ty c : Z) (s : users) :
    outcome (option addr) :=
  if u =? NULL then Done None
  else
    find (objs (areg s))
         (fun x => if ty =? OT_BROWSER_CLOSE_URL then strcmp_eq (act_name x) nm && same_category x c
                   else if ty =? OT_WINDOW_CLOSE then strcmp_eq (pro_name x) nm && same_category x c
                   else false)
         (tget (tbl (areg s)) (F_HASH, (u, ww_action_name_hash nm))).

Definition ww_action_st_user_name_type_find_create (u : addr) (pro act : cstring) (ty c : Z)
    (p : addr) (s : users) : outcome (addr * users) :=
  if u =? NULL then Done (NULL, s)
  else find_or_create (fun nm => ww_action_st_find_by_user_name_type u nm ty c s) pro act ty p s.

End UserAction.

(** ** Activity records *)

Module Detail.

Record an_detail_act := DetailAct {
  time : Z; type : Z; category : Z; process : cstring; actname : cstring
}.

Record an_detail_wk_act := DetailWkAct {
  wk_time : Z; wk_type : Z; wk_category : Z; wk_uid : Z; wk_gid : Z;
  wk_process : cstring; wk_actname : cstring
}.

Record an_detail_user := DetailUser { uid : Z; gid : Z; start_time : Z; end_time : Z }.

Record details := Details {
  dusers : reg an_detail_user; dacts : reg an_detail_act; dwk : reg an_detail_wk_act
}.

Definition an_detail_user_t_get_hash (id : Z) : Z := byte_sum id.

Definition an_detail_user_t_create (p : addr) (s : details) : addr * details :=
  let '(a, r) := create (DetailUser 0 0 0 0) p (dusers s) in
  if a =? NULL then (a, s)
  else (a, Details r (Reg (objs (dacts s)) (<[(F_ALL, (a, 0)) := []]> (tbl (dacts s)))) (dwk s)).

Definition an_detail_user_t_find_by_uid (id : Z) (s : details) : outcome (option addr) :=
  if UserAction.bad_id id then Done None
  else find (objs (dusers s)) (fun x => u32 (uid x) =? id)
            (tget (tbl (dusers s)) (F_HASH, (0, an_detail_user_t_get_hash id))).

Definition an_detail_user_t_find_create_by_uid (id : Z) (p : addr) (s : details) :
    outcome (addr * details) :=
  r ← an_detail_user_t_find_by_uid id s;
  match r with Some a => Done (a, s) | None => Done (an_detail_user_t_create p s) end.

Definition detail_act_free (a : addr) (r : reg an_detail_act) : outcome (reg an_detail_act) :=
  _ ← get_or UseAfterFree (objs r !! a);
  Done (Reg (delete a (objs r)) (unlink F_ALL a (tbl r))).

Definition an_detail_user_t_del (u : addr) (s : details) : outcome details :=
  if u =? NULL then Done s
  else
    _ ← get_or UseAfterFree (objs (dusers s) !! u);
    acts ← for_each_safe detail_act_free (tget (tbl (dacts s)) (F_ALL, (u, 0))) (dacts s);
    t ← hlist_del F_HASH u (tbl (dusers s));
    let t := unlink F_GROUP u (unlink F_ALL u t) in
    Done (Details (Reg (delete u (objs (dusers s))) t) acts (dwk s)).

Definition an_detail_user_t_del_group (g : Z) (s : details) : outcome details :=
  k ← group_head g; for_each_safe an_detail_user_t_del (tget (tbl (dusers s)) k) s.

Definition an_detail_user_t_clear (s : details) : outcome details :=
  for_each_safe an_detail_user_t_del (tget (tbl (dusers s)) (F_ALL, (0, 0))) s.

Definition an_detail_act_t_del (a : addr) (s : details) : outcome details :=
  if a =? NULL then Done s
  else r ← detail_act_free a (dacts s); Done (Details (dusers s) r (dwk s)).

Definition an_detail_wk_act_t_create (p : addr) (s : details) : addr * details :=
  let '(a, r) := create (DetailWkAct 0 0 0 0 0 [] []) p (dwk s) in (a, Details (dusers s) (dacts s) r).

Definition an_detail_wk_act_t_del (a : addr) (s : details) : outcome details :=
  if a =? NULL then Done s
  else
    _ ← get_or UseAfterFree (objs (dwk s) !! a);
    Done (Details (dusers s) (dacts s)
                  (Reg (delete a (objs (dwk s))) (unlink F_ALL a (tbl (dwk s))))).

Definition an_detail_wk_act_t_del_list (head : place) (s : details) : outcome details :=
  for_each_safe an_detail_wk_act_t_del (tget (tbl (dwk s)) (F_ALL, head)) s.

Definition an_detail_act_t_create (p : addr) (s : details) : addr * details :=
  let '(a, r) := create (DetailAct 0 0 0 [] []) p (dacts s) in (a, Details (dusers s) r (dwk s)).

End Detail.

(** ** Chat records *)

Module QQ.

Record an_qq_msg := Msg {
  time : Z; user_account : Z; user_name : cstring; obj_name : cstring; issend : Z; msg_len : Z; data : cstring
}.

Record an_qq_obj := Obj { qq_account : Z; name : cstring; msg_num : Z; ostart : Z; oend : Z }.

Record an_qq_user := User { uid : Z; gid : Z; start_time : Z; end_time : Z }.

Record an_qq_wk_msg := WkMsg { wk_time : Z; obj_account : Z; wk_uid : Z; wk_msg_len : Z }.

(** Contacts are on the list and in the hash table of their user, messages on
    the list of their contact, and the copies made for a web session on a list
    of the session and, if wanted, in a hash table. *)
Record qqs := QQs {
  qusers : reg an_qq_user; qobjs : reg an_qq_obj; qmsgs : reg an_qq_msg; qwk : reg an_qq_wk_msg
}.

Definition set_users (r : reg an_qq_user) (s : qqs) : qqs := QQs r (qobjs s) (qmsgs s) (qwk s).
Definition set_objs (r : reg an_qq_obj) (s : qqs) : qqs := QQs (qusers s) r (qmsgs s) (qwk s).
Definition set_msgs (r : reg an_qq_msg) (s : qqs) : qqs := QQs (qusers s) (qobjs s) r (qwk s).
Definition set_wk (r : reg an_qq_wk_msg) (s : qqs) : qqs := QQs (qusers s) (qobjs s) (qmsgs s) r.

Definition an_qq_user_t_get_hash (id : Z) : Z := byte_sum id.

Definition an_qq_user_t_create (p : addr) (s : qqs) : addr * qqs :=
  let '(a, r) := create (User 0 0 0 0) p (qusers s) in
  if a =? NULL then (a, s)
  else
    let t := init_heads F_HASH a (Z.to_nat HASH_SIZE) (<[(F_ALL, (a, 0)) := []]> (tbl (qobjs s))) in
    (a, set_objs (Reg (objs (qobjs s)) t) (set_users r s)).

Definition an_qq_user_t_find_by_uid (id : Z) (s : qqs) : outcome (option addr) :=
  if UserAction.bad_id id then Done None
  else find (objs (qusers s)) (fun x => uid x =? id)
            (tget (tbl (qusers s)) (F_HASH, (0, an_qq_user_t_get_hash id))).

Definition an_qq_user_t_find_create_by_uid (id : Z) (p : addr) (s : qqs) : outcome (addr * qqs) :=
  r ← an_qq_user_t_find_by_uid id s;
  match r with Some a => Done (a, s) | None => Done (an_qq_user_t_create p s) end.

Definition msg_free (a : addr) (r : reg an_qq_msg) : outcome (reg an_qq_msg) :=
  _ ← get_or UseAfterFree (objs r !! a);
  Done (Reg (delete a (objs r)) (unlink F_ALL a (tbl r))).

(** One contact of the outer loop of [an_qq_user_t_del]. *)
Definition obj_free (o : addr) (s : qqs) : outcome qqs :=
  _ ← get_or UseAfterFree (objs (qobjs s) !! o);
  ms ← for_each_safe msg_free (tget (tbl (qmsgs s)) (F_ALL, (o, 0))) (qmsgs s);
  t ← hlist_del F_HASH o (unlink F_ALL o (tbl (qobjs s)));
  Done (set_objs (Reg (delete o (objs (qobjs s))) t) (set_msgs ms s)).

Definition an_qq_user_t_del (u : addr) (s : qqs) : outcome qqs :=
  if u =? NULL then Done s
  else
    _ ← get_or UseAfterFree (objs (qusers s) !! u);
    s ← for_each_safe obj_free (tget (tbl (qobjs s)) (F_ALL, (u, 0))) s;
    t ← hlist_del F_HASH u (tbl (qusers s));
    let t := unlink F_GROUP u (unlink F_ALL u t) in
    Done (set_users (Reg (delete u (objs (qusers s))) t) s).

Definition an_qq_user_t_del_group (g : Z) (s : qqs) : outcome qqs :=
  k ← group_head g; for_each_safe an_qq_user_t_del (tget (tbl (qusers s)) k) s.

Definition an_qq_user_t_clear (s : qqs) : outcome qqs :=
  for_each_safe an_qq_user_t_del (tget (tbl (qusers s)) (F_ALL, (0, 0))) s.

Definition an_qq_obj_t_get_hash (account : Z) : Z := byte_sum account.

Definition an_qq_obj_t_create (p : addr) (s : qqs) : addr * qqs :=
  let '(a, r) := create (Obj 0 [] 0 0 0) p (qobjs s) in
  if a =? NULL then (a, s)
  else (a, set_msgs (Reg (objs (qmsgs s)) (<[(F_ALL, (a, 0)) := []]> (tbl (qmsgs s)))) (set_objs r s)).

Definition an_qq_obj_t_find_by_qq_account (account : Z) (hash_head : addr) (s : qqs) :
    outcome (option addr) :=
  find (objs (qobjs s)) (fun x => qq_account x =? account)
       (tget (tbl (qobjs s)) (F_HASH, (hash_head, an_qq_obj_t_get_hash account))).

Definition an_qq_obj_t_find_create_by_qq_account (account : Z) (hash_head p : addr) (s : qqs) :
    outcome (addr * qqs) :=
  r ← an_qq_obj_t_find_by_qq_account account hash_head s;
  match r with Some a => Done (a, s) | None => Done (an_qq_obj_t_create p s) end.

Definition an_qq_msg_t_create (len : Z) (p : addr) (s : qqs) : addr * qqs :=
  let '(a, r) := create (Msg 0 0 [] [] 0 len []) p (qmsgs s) in (a, set_msgs r s).

Definition an_qq_msg_t_del (a : addr) (s : qqs) : outcome qqs :=
  if a =? NULL then Done s else r ← msg_free a (qmsgs s); Done (set_msgs r s).

Definition an_qq_wk_msg_t_get_hash (account : Z) : Z := byte_sum account.

Definition an_qq_wk_msg_t_create (len : Z) (p : addr) (s : qqs) : addr * qqs :=
  let '(a, r) := create (WkMsg 0 0 0 len) p (qwk s) in (a, set_wk r s).

Definition an_qq_wk_msg_t_find_by_qq_account (account id : Z) (hash_head : addr) (s : qqs) :
    outcome (option addr) :=
  find (objs (qwk s)) (fun x => (obj_account x =? account) && (wk_uid x =? id))
       (tget (tbl (qwk s)) (F_HASH, (hash_head, an_qq_wk_msg_t_get_hash account))).

(** [temp->hash.next != NULL]: the node is on a chain and not the last of it. *)
Definition has_next (a : addr) (t : table) : bool :=
  bool_decide (map_Exists (fun k l => k.1 = F_HASH /\ a ∈ l /\ last l <> Some a) t).

Definition an_qq_wk_msg_t_del (a : addr) (s : qqs) : outcome qqs :=
  if a =? NULL then Done s
  else
    _ ← get_or UseAfterFree (objs (qwk s) !! a);
    let t := unlink F_ALL a (tbl (qwk s)) in
    t ← if has_next a t then hlist_del F_HASH a t else Done t;
    Done (set_wk (Reg (delete a (objs (qwk s))) t) s).

Definition an_qq_wk_msg_t_del_list (head : place) (s : qqs) : outcome qqs :=
  for_each_safe an_qq_wk_msg_t_del (tget (tbl (qwk s)) (F_ALL, head)) s.

End QQ.
