(* ===== verification/Cache.v ===== *)
(** * Cache: web sessions, classification of activities, initialisation

    The parts of [TCP_C/hash.c] that combine several tables: a web session
    ([an_web_cache_t]) owns copies of records and a timer of the wheel;
    activities are classified with the work rules; [an_hash_and_list_init]
    initialises every table of the program. *)

From S2P Require Import Prelude CString Registry Timer Rules CText Users.
Import Registry.
Local Open Scope Z_scope.

(** ** Web sessions *)

Module WebCache.

Definition COOKIE_AGEING_TIME : Z := 3600.

Record an_web_cache := WebCache { token : Z }.

(** The session at address [a] embeds the timer [a], the list heads
    [detail_act_list] and [qq_msg_list] of owner [a]. *)
Record caches := Caches {
  creg : reg an_web_cache; det : Detail.details; qq : QQ.qqs; base : Timer.tvec_base
}.

Section Web.

Context (W : Z).

Definition an_web_cache_t_get_hash (tok : Z) : Z := byte_sum tok.

(** The address of the function [an_web_cache_t_timeout]. *)
Definition TIMEOUT_FN : Z := 1.

Definition del_timer_of (a : addr) (b : Timer.tvec_base) : Timer.tvec_base := (Timer.del_timer a b).2.

(** The timer goes with the session when it is freed. *)
Definition free_timer (a : addr) (b : Timer.tvec_base) : Timer.tvec_base :=
  Timer.TvecBase (Timer.timer_jiffies b) (Timer.vecs b) (delete a (Timer.timers b))
                 (Timer.jhl_timer_num b).

Definition an_web_cache_t_timeout (a : addr) (s : caches) : outcome caches :=
  _ ← deref (creg s) a;
  d ← Detail.an_detail_wk_act_t_del_list (a, 0) (det s);
  q ← QQ.an_qq_wk_msg_t_del_list (a, 0) (qq s);
  let t := hlist_del_init F_HASH a (tbl (creg s)) in
  let b := del_timer_of a (base s) in
  Done (Caches (Reg (delete a (objs (creg s))) t) d q (free_timer a b)).

(** [now] is the value of [jiffies]. *)
Definition an_web_cache_t_create (tok now : Z) (p : addr) (s : caches) : addr * caches :=
  if p =? NULL then (NULL, s)
  else
    let d := Detail.Details (Detail.dusers (det s)) (Detail.dacts (det s))
               (Reg (objs (Detail.dwk (det s)))
                    (<[(F_ALL, (p, 0)) := []]> (tbl (Detail.dwk (det s))))) in
    let q := QQ.set_wk (Reg (objs (QQ.qwk (qq s)))
                            (<[(F_ALL, (p, 0)) := []]> (tbl (QQ.qwk (qq s))))) (qq s) in
    let expires := wrapu W (now + COOKIE_AGEING_TIME * Timer.HZ) in
    let b := Timer.set_timer p (Timer.TimerList expires TIMEOUT_FN p false) (base s) in
    let b := Timer.add_timer W p b in
    let t := add_head (F_HASH, (0, an_web_cache_t_get_hash tok)) p (tbl (creg s)) in
    (p, Caches (Reg (<[p := WebCache tok]> (objs (creg s))) t) d q b).

Definition an_web_cache_t_find_by_token (tok : Z) (s : caches) : outcome (option addr) :=
  find (objs (creg s)) (fun x => token x =? tok)
       (tget (tbl (creg s)) (F_HASH, (0, an_web_cache_t_get_hash tok))).

Definition an_web_cache_t_find_create_by_token (tok now : Z) (p : addr) (s : caches) :
    outcome (addr * caches) :=
  r ← an_web_cache_t_find_by_token tok s;
  match r with Some a => Done (a, s) | None => Done (an_web_cache_t_create tok now p s) end.

End Web.

End WebCache.

(** ** Classification *)

Module Category.

Definition LC_WARNING : Z := 1.
Definition LC_FORBID : Z := 2.
Definition OT_PROCESS_CREATE : Z := 100.
Definition OT_PROCESS_ATTEMPT_CREATE : Z := 102.
Definition OT_WINDOW_OPEN : Z := 150.
Definition OT_WINDOW_ATTEMPT_OPEN : Z := 152.
Definition OT_FILE_CREATE : Z := 200.
Definition OT_FILE_DELETE : Z := 203.
Definition OT_FILE_ATTEMPT_CREATE_PROCESS : Z := 211.
Definition OT_BROWSER_OPEN_URL : Z := 300.
Definition OT_BROWSER_CLOSE_URL : Z := 301.
Definition OT_BROWSER_ATTEMPT_OPEN_URL : Z := 305.

Definition AN_CALC_ATTEMPT : Z := 1.
Definition AN_CALC_VIDEO : Z := 2.
Definition AN_CALC_CHAT : Z := 3.
Definition AN_CALC_URL : Z := 4.
Definition AN_CALC_WORK : Z := 5.
Definition AN_CALC_OTHER : Z := 6.

Definition AN_DETAIL_ATTEMPT : Z := 1.
Definition AN_DETAIL_WORK : Z := 2.
Definition AN_DETAIL_URL_OPEN : Z := 3.
Definition AN_DETAIL_WINDOW_OPEN : Z := 4.
Definition AN_DETAIL_PROCESS_RUN : Z := 5.
Definition AN_DETAIL_FILE_DEL : Z := 6.
Definition AN_DETAIL_FILE_CREATE : Z := 7.

(** The process name tables [ww_chat_list] and [ww_move_list] end in an empty
    string. *)
Fixpoint in_table (names : list cstring) (nm : cstring) : bool :=
  match names with
  | [] | [] :: _ => false
  | x :: names => strcasecmp_eq x nm || in_table names nm
  end.

(** Is there a work rule for the program, or else for the title or site? *)
Definition work_check (pro act : cstring) (g : Z) (w : WorkRule.work) : outcome bool :=
  r ← WorkRule.an_work_rule_t_find_by_type_name_gid_all 0 pro g w;
  match r with
  | Some _ => Done true
  | None =>
      r ← WorkRule.an_work_rule_t_find_by_type_name_gid_all 1 act g w;
      Done (match r with Some _ => true | None => false end)
  end.

Section Tables.

Context (ww_chat_list ww_move_list : list cstring).

Definition ww_get_category_by_ww_action_list_st (act : UserAction.ww_action_list) (g : Z)
    (w : WorkRule.work) : outcome Z :=
  let c := UserAction.category act in
  if (c =? LC_WARNING) || (c =? LC_FORBID) then Done AN_CALC_ATTEMPT
  else
    wc ← work_check (UserAction.pro_name act) (UserAction.act_name act) g w;
    if (wc : bool) then Done AN_CALC_WORK
    else
      let t := UserAction.type act in
      if (t =? OT_BROWSER_OPEN_URL) || (t =? OT_BROWSER_CLOSE_URL) then Done AN_CALC_URL
      else if in_table ww_chat_list (UserAction.pro_name act) then Done AN_CALC_CHAT
      else if in_table ww_move_list (UserAction.pro_name act) then Done AN_CALC_VIDEO
      else Done AN_CALC_OTHER.

End Tables.

(** A log message as it comes from a client: numbers in network byte order,
    [payload] the bytes that follow the header. *)
Record action_st := ActionSt {
  a_start_time : Z; a_type : Z; a_category : Z; a_process : cstring;
  a_data_len : Z; a_payload : list Z
}.

(** The C string at offset [off] of the payload; a missing terminator means
    that the read leaves the message. *)
Fixpoint until_nul (l : list Z) : outcome cstring :=
  match l with
  | [] => Fault OutOfBounds
  | c :: l => if c =? 0 then Done [] else s ← until_nul l; Done (c :: s)
  end.

Definition string_at (off : nat) (a : action_st) : outcome cstring :=
  if decide (off <= length (a_payload a))%nat then until_nul (drop off (a_payload a))
  else Fault OutOfBounds.

(** The first [switch]: kinds of activity of interest. *)
Definition kind_of (t : Z) : Z :=
  if (t =? OT_PROCESS_ATTEMPT_CREATE) || (t =? OT_WINDOW_ATTEMPT_OPEN) ||
     (t =? OT_BROWSER_ATTEMPT_OPEN_URL) || (t =? OT_FILE_ATTEMPT_CREATE_PROCESS)
  then AN_DETAIL_ATTEMPT
  else if t =? OT_BROWSER_OPEN_URL then AN_DETAIL_URL_OPEN
  else if t =? OT_WINDOW_OPEN then AN_DETAIL_WINDOW_OPEN
  else if t =? OT_PROCESS_CREATE then AN_DETAIL_PROCESS_RUN
  else if t =? OT_FILE_CREATE then AN_DETAIL_FILE_CREATE
  else if t =? OT_FILE_DELETE then AN_DETAIL_FILE_DEL
  else 0.

(** The description: a window title after 4 bytes of lengths, a site after
    12, otherwise the payload itself. *)
Definition describe (t : Z) (a : action_st) : outcome cstring :=
  if (OT_WINDOW_OPEN <=? t) && (t <? OT_FILE_CREATE) then
    s ← string_at 4 a; Done (snprintf_s 128 s)
  else if (OT_BROWSER_OPEN_URL <=? t) && (t <=? OT_BROWSER_ATTEMPT_OPEN_URL) then
    s ← string_at 12 a; Done (snprintf_s 128 s)
  else if t =? OT_FILE_ATTEMPT_CREATE_PROCESS then Done []
  else if negb (a_data_len a =? 0) then
    s ← string_at 0 a; Done (snprintf_s 128 s)
  else Done [].

Definition an_detail_act_t_create_to_list (owner : addr) (a : action_st) (g : Z) (p : addr)
    (w : WorkRule.work) (s : Detail.details) : outcome (addr * Detail.details) :=
  let t := CText.ntohl (a_type a) in
  let '(x, s) := Detail.an_detail_act_t_create p s in
  if x =? NULL then Done (NULL, s)
  else
    let tb := add_tail (F_ALL, (owner, 0)) x (tbl (Detail.dacts s)) in
    let time := u64 (CText.GMT_REVERS_MASK - CText.ntohll (a_start_time a)) in
    let process := snprintf_s 32 (a_process a) in
    let category := kind_of t in
    actname ← describe t a;
    let c := CText.ntohl (a_category a) in
    let category := if (c =? LC_WARNING) || (c =? LC_FORBID) then AN_DETAIL_ATTEMPT else category in
    category ← (if negb (category =? AN_DETAIL_ATTEMPT) then
                  wc ← work_check process actname g w;
                  Done (if (wc : bool) then AN_DETAIL_WORK else category)
                else Done category);
    let act := Detail.DetailAct time t category process actname in
    Done (x, Detail.Details (Detail.dusers s)
               (Reg (<[x := act]> (objs (Detail.dacts s))) tb) (Detail.dwk s)).

End Category.

(** ** All tables *)

Module World.

Record world := MkWorld {
  w_forbid : Forbid.forbid; w_groups : Group.groups; w_encrypt : Encrypt.encrypt;
  w_socks : Sock.socks; w_caches : reg WebCache.an_web_cache; w_users : UserAction.users;
  w_details : Detail.details; w_qqs : QQ.qqs; w_work : WorkRule.work
}.

Definition HASHES : nat := Z.to_nat HASH_SIZE.
Definition GROUPS : nat := Z.to_nat GROUP_ID_MAX.

Definition init_hash {T} (r : reg T) : reg T := Reg (objs r) (init_heads F_HASH 0 HASHES (tbl r)).
Definition init_groups {T} (r : reg T) : reg T := Reg (objs r) (init_heads F_GROUP 0 GROUPS (tbl r)).

Definition an_hash_and_list_init (w : world) : world :=
  MkWorld
    (init_groups (init_hash (w_forbid w)))
    (Group.Groups (init_hash (Group.greg (w_groups w))) (Group.an_group_num (w_groups w)))
    (init_groups (init_hash (w_encrypt w)))
    (Sock.Socks (init_hash (Sock.sreg (w_socks w))) (Sock.bufs (w_socks w)))
    (init_hash (w_caches w))
    (UserAction.Users (init_groups (init_hash (UserAction.ureg (w_users w))))
                      (UserAction.areg (w_users w)))
    (Detail.Details (init_groups (init_hash (Detail.dusers (w_details w))))
                    (Detail.dacts (w_details w)) (Detail.dwk (w_details w)))
    (QQ.set_users (init_groups (init_hash (QQ.qusers (w_qqs w)))) (w_qqs w))
    (init_groups (init_hash (w_work w))).

End World.
