(* ===== verification/UsersFacts.v ===== *)
(** * UsersFacts: owners, sessions and classification *)

From S2P Require Import Prelude CString Registry Timer TimerFacts Rules RulesFacts CText Users Cache.
Import Registry.
Local Open Scope Z_scope.

(** ** Lists that only hold live objects *)

(** The lists of field [f] hold live objects only, none of them twice. *)
Definition sound {T} (r : reg T) (f : Z) : Prop :=
  exists m, indexed (tbl r) f m /\ forall a, is_Some (m !! a) -> is_Some (objs r !! a).

Lemma sound_live {T} (r : reg T) f k a :
  sound r f -> a ∈ tget (tbl r) (f, k) -> is_Some (objs r !! a).
Proof. intros (m & [_ Ha] & Hm) Hin. apply Hm. apply Ha in Hin. by eexists. Qed.

Lemma sound_nodup {T} (r : reg T) f k : sound r f -> NoDup (tget (tbl r) (f, k)).
Proof. intros (m & [Hn _] & _). apply Hn. Qed.

(** Freeing an object after taking it off the lists of [f]. *)
Lemma sound_remove {T} (r : reg T) f a t :
  sound r f -> (forall m, indexed (tbl r) f m -> indexed t f (delete a m)) ->
  sound (Reg (delete a (objs r)) t) f.
Proof.
  intros (m & Hi & Hm) Ht. exists (delete a m). split; [by apply Ht|]. simpl.
  intros b [k [Hab E]%lookup_delete_Some]. rewrite lookup_delete_ne by done. apply Hm. by eexists.
Qed.

(** The objects of one list are removed one by one. *)
Lemma free_list {T} (body : addr -> reg T -> outcome (reg T)) (P : reg T -> Prop) r k :
  (forall r a, P r -> is_Some (objs r !! a) ->
     exists t, body a r = Done (Reg (delete a (objs r)) t) /\ P (Reg (delete a (objs r)) t) /\
       forall k, tget t (F_ALL, k) = remove_addr a (tget (tbl r) (F_ALL, k))) ->
  (forall r, P r -> sound r F_ALL) -> P r ->
  exists r', for_each_safe body (tget (tbl r) (F_ALL, k)) r = Done r' /\ P r' /\
    (forall a x, objs r' !! a = Some x <-> objs r !! a = Some x /\ a ∉ tget (tbl r) (F_ALL, k)) /\
    tget (tbl r') (F_ALL, k) = [] /\
    (forall k', k' <> k -> tget (tbl r') (F_ALL, k') = tget (tbl r) (F_ALL, k')).
Proof.
  intros Hbody Hs HP.
  destruct (for_each_safe_ind (fun l r' => P r' /\ tget (tbl r') (F_ALL, k) = l /\
    (forall a, a ∈ l -> a ∈ tget (tbl r) (F_ALL, k)) /\
    (forall k', k' <> k -> tget (tbl r') (F_ALL, k') = tget (tbl r) (F_ALL, k')) /\
    forall a x, objs r' !! a = Some x <->
      objs r !! a = Some x /\ (a ∈ tget (tbl r) (F_ALL, k) -> a ∈ l)) body
    (tget (tbl r) (F_ALL, k)) r) as (r' & E & HP' & El & _ & Hk & Ho).
  - split_all; [done..|naive_solver].
  - intros a l r1 (HP1 & E1 & Hsub & Hk1 & Ho1).
    assert (is_Some (objs r1 !! a)) as Hlive by (eapply sound_live; [by apply Hs|rewrite E1; left]).
    destruct (Hbody r1 a HP1 Hlive) as (t & E & HP2 & Ht). exists (Reg (delete a (objs r1)) t).
    pose proof (sound_nodup r1 F_ALL k (Hs _ HP1)) as Hnd. rewrite E1 in Hnd.
    pose proof Hnd as [Hal _]%NoDup_cons.
    assert (remove_addr a (a :: l) = l) as Erm by exact (remove_addr_mid a [] l Hnd).
    split_all; [done..|simpl; by rewrite Ht, E1|intros b Hb; apply Hsub; by right| |].
    { intros k' Hk'. simpl. rewrite Ht, <- Hk1 by done. apply remove_addr_notin. intros Hin.
      destruct (Hs _ HP1) as (m & [_ Hm] & _). apply Hm in Hin.
      assert (m !! a = Some k) as Hmk by (apply Hm; rewrite E1; left). congruence. }
    simpl. intros b x. rewrite lookup_delete_Some, Ho1. setoid_rewrite elem_of_cons. split.
    + intros (Hne & Ex & Hin). split; [done|]. intros Hb. destruct (Hin Hb); [congruence|done].
    + intros [Ex Hin]. split_all; [|done|tauto]. intros <-. apply Hal, Hin, Hsub. left.
  - exists r'. split_all; [done|done| |done|done]. intros a x. rewrite Ho. split.
    + intros [? Hin]. split; [done|]. intros Ha. by apply Hin, not_elem_of_nil in Ha.
    + intros [? ?]. split; [done|tauto].
Qed.

(** ** Statistics per user *)

Module UserFacts.
Import UserAction.

(** All lists and chains of users and activities hold live objects. *)
Record uinv (s : users) : Prop := {
  u_null : objs (ureg s) !! NULL = None;
  u_hash : sound (ureg s) F_HASH;
  u_all : sound (ureg s) F_ALL;
  u_group : sound (ureg s) F_GROUP;
  a_all : sound (areg s) F_ALL;
  a_hash : sound (areg s) F_HASH
}.

Definition owns (s : users) (u a : addr) : Prop := a ∈ tget (tbl (areg s)) (F_ALL, (u, 0)).

Lemma del_actions s u :
  uinv s ->
  exists r, for_each_safe action_del_init (tget (tbl (areg s)) (F_ALL, (u, 0))) (areg s) = Done r /\
    (sound r F_ALL /\ sound r F_HASH) /\
    (forall a x, objs r !! a = Some x <-> objs (areg s) !! a = Some x /\ ~ owns s u a) /\
    tget (tbl r) (F_ALL, (u, 0)) = [] /\
    (forall k, k <> (u, 0) -> tget (tbl r) (F_ALL, k) = tget (tbl (areg s)) (F_ALL, k)).
Proof.
  intros Hi. apply (free_list action_del_init (fun r => sound r F_ALL /\ sound r F_HASH)).
  - intros r a [Ha Hh] [x E]. unfold action_del_init. rewrite E. simpl.
    eexists. split; [reflexivity|]. split; [split; apply sound_remove; [done| |done|]|].
    + intros m Hm. unfold hlist_del_init. repeat indexed_tac. done.
    + intros m Hm. unfold hlist_del_init. repeat indexed_tac. done.
    + intros k. unfold hlist_del_init. rewrite !tget_unlink. simpl. done.
  - by intros r [? _].
  - split; apply Hi.
Qed.

(** What one deletion does. *)
Record deleted (s s' : users) (u : addr) : Prop := {
  d_inv : uinv s';
  d_users : objs (ureg s') = delete u (objs (ureg s));
  d_acts : forall a x, objs (areg s') !! a = Some x <-> objs (areg s) !! a = Some x /\ ~ owns s u a;
  d_owns : forall v a, v <> u -> owns s' v a <-> owns s v a;
  d_lists : forall f k, f = F_HASH \/ f = F_ALL \/ f = F_GROUP ->
    tget (tbl (ureg s')) (f, k) = remove_addr u (tget (tbl (ureg s)) (f, k))
}.

Lemma user_del_step s u x :
  uinv s -> objs (ureg s) !! u = Some x ->
  exists s', ww_user_action_st_del u s = Done s' /\ deleted s s' u.
Proof.
  intros Hi E. unfold ww_user_action_st_del, deref.
  destruct (Z.eqb_spec u NULL) as [->|_]; [by rewrite (u_null _ Hi) in E|].
  rewrite E. simpl. destruct (del_actions s u Hi) as (r & -> & [Ha Hh] & Ho & _ & Hk). simpl.
  eexists. split; [reflexivity|]. destruct Hi as [Hn Uh Ua Ug Aa Ah]. split; [|done|done| |].
  - split; simpl; [by apply lookup_delete_None; right| | | |done|done];
      (apply sound_remove; [done|]); intros m Hm; unfold hlist_del_init; repeat indexed_tac; done.
  - intros v a Hv. unfold owns. simpl. by rewrite Hk by congruence.
  - intros f k Hf. simpl. unfold hlist_del_init. rewrite !tget_unlink. simpl.
    by destruct Hf as [->|[-> | ->]].
Qed.

(** Deleting the users of one list, whichever it is. *)
Lemma del_users s f k :
  uinv s -> f = F_ALL \/ f = F_GROUP ->
  exists s', for_each_safe ww_user_action_st_del (tget (tbl (ureg s)) (f, k)) s = Done s' /\
    uinv s' /\ tget (tbl (ureg s')) (f, k) = [] /\
    (forall u x, objs (ureg s') !! u = Some x <->
       objs (ureg s) !! u = Some x /\ u ∉ tget (tbl (ureg s)) (f, k)) /\
    (forall a x, objs (areg s') !! a = Some x <->
       objs (areg s) !! a = Some x /\ forall u, u ∈ tget (tbl (ureg s)) (f, k) -> ~ owns s u a).
Proof.
  intros Hi Hf. set (L := tget (tbl (ureg s)) (f, k)).
  assert (forall s, uinv s -> sound (ureg s) f) as Hs
    by (intros s0 [? ? ? ? ? ?]; by destruct Hf as [-> | ->]).
  destruct (for_each_safe_ind (fun l s' => uinv s' /\ tget (tbl (ureg s')) (f, k) = l /\
    (forall u, u ∈ l -> u ∈ L) /\ (forall u a, u ∈ l -> owns s' u a <-> owns s u a) /\
    (forall u x, objs (ureg s') !! u = Some x <-> objs (ureg s) !! u = Some x /\ (u ∈ L -> u ∈ l)) /\
    (forall a x, objs (areg s') !! a = Some x <->
       objs (areg s) !! a = Some x /\ forall u, u ∈ L -> u ∉ l -> ~ owns s u a))
    ww_user_action_st_del L s) as (s' & E & Hi' & El & _ & _ & Ou & Oa).
  - split_all; [done..|naive_solver|naive_solver].
  - intros u l s1 (Hi1 & E1 & Hsub & Hown & Ou & Oa).
    destruct (sound_live (ureg s1) f k u (Hs _ Hi1)) as [x Ex]; [rewrite E1; left|].
    destruct (user_del_step s1 u x Hi1 Ex) as (s2 & E2 & [Hi2 Du Da Do Dl]). exists s2.
    pose proof (sound_nodup (ureg s1) f k (Hs _ Hi1)) as Hnd. rewrite E1 in Hnd.
    pose proof Hnd as [Hul _]%NoDup_cons.
    assert (tget (tbl (ureg s2)) (f, k) = l) as El2.
    { rewrite Dl, E1 by tauto. exact (remove_addr_mid u [] l Hnd). }
    split_all; [done..|intros v Hv; apply Hsub; by right| | |].
    + intros v a Hv. rewrite Do by (intros ->; done). apply Hown. by right.
    + intros v y. rewrite Du, lookup_delete_Some, Ou. setoid_rewrite elem_of_cons. split.
      * intros (Hne & Ey & Hin). split; [done|]. intros Hv. destruct (Hin Hv); [congruence|done].
      * intros [Ey Hin]. split_all; [|done|tauto]. intros <-. apply Hul, Hin, Hsub. left.
    + intros a y. rewrite Da, Oa, Hown by left. setoid_rewrite not_elem_of_cons. split.
      * intros [[Ey Hn] Hu]. split; [done|]. intros v Hv Hnl. destruct (decide (v = u)) as [->|]; [done|].
        by apply Hn.
      * intros [Ey Hn]. split; [split; [done|]|]; [intros v Hv [? ?]; by apply Hn|].
        apply Hn; [apply Hsub; left|done].
  - exists s'. split_all; [done..| |].
    + intros u x. rewrite Ou. split; [|tauto]. intros [? Hin]. split; [done|].
      intros Hu. by apply Hin, not_elem_of_nil in Hu.
    + intros a x. rewrite Oa. split; intros [? Hn]; (split; [done|]); intros u Hu.
      * apply Hn; [done|apply not_elem_of_nil].
      * intros _. by apply Hn.
Qed.

(** Deleting users takes their activities with them and nothing else:
    clearing the statistics (all users, or one group) never faults, frees
    exactly the users on that list and exactly the activities they own, and
    leaves every list holding live objects only. *)
Theorem user_clear_spec s g :
  uinv s -> 0 <= g < GROUP_ID_MAX ->
  (exists s', ww_user_action_st_clear s = Done s' /\ uinv s' /\
     tget (tbl (ureg s')) (F_ALL, (0, 0)) = [] /\
     (forall u x, objs (ureg s') !! u = Some x <->
        objs (ureg s) !! u = Some x /\ u ∉ tget (tbl (ureg s)) (F_ALL, (0, 0))) /\
     (forall a x, objs (areg s') !! a = Some x <-> objs (areg s) !! a = Some x /\
        forall u, u ∈ tget (tbl (ureg s)) (F_ALL, (0, 0)) -> ~ owns s u a)) /\
  (exists s', ww_user_action_st_del_group g s = Done s' /\ uinv s' /\
     tget (tbl (ureg s')) (F_GROUP, (0, g)) = [] /\
     (forall u x, objs (ureg s') !! u = Some x <->
        objs (ureg s) !! u = Some x /\ u ∉ tget (tbl (ureg s)) (F_GROUP, (0, g)))).
Proof.
  intros Hi Hg. split; [apply del_users; [done|by left]|].
  unfold ww_user_action_st_del_group. rewrite group_head_ok by done. simpl.
  destruct (del_users s F_GROUP (0, g) Hi) as (s' & E & Hi' & El & Ou & _); [by right|].
  by exists s'.
Qed.

(** One user, on all lists, with one activity. *)
Definition ex_users : users :=
  Users (Reg {[ 64 := UserAction 7 2 0 0 0 ]}
          (add_tail (F_GROUP, (0, 2)) 64 (add_tail (F_ALL, (0, 0)) 64 (add_head (F_HASH, (0, 7)) 64 ∅))))
        (Reg {[ 128 := Action [] [] 0 0 0 0 0 ]}
          (add_tail (F_ALL, (64, 0)) 128 (add_head (F_HASH, (64, 0)) 128 ∅))).

Lemma sound_single {T} (x : T) a f k t :
  indexed t f (<[a := k]> ∅) -> sound (Reg {[ a := x ]} t) f.
Proof.
  intros Hi. exists (<[a := k]> ∅). split; [done|]. simpl. intros b [k' Hb].
  apply lookup_insert_Some in Hb as [[<- _]|[_ Hb]]; [by rewrite lookup_singleton_eq|].
  by rewrite lookup_empty in Hb.
Qed.

Lemma ex_users_inv : uinv ex_users.
Proof.
  split; [done|..]; unfold ex_users; simpl; (eapply sound_single; repeat indexed_tac);
    try apply indexed_empty; apply lookup_empty.
Qed.

Lemma user_clear_spec_witness :
  exists s', ww_user_action_st_clear ex_users = Done s' /\ uinv s' /\ objs (areg s') !! 128 = None.
Proof.
  destruct (user_clear_spec ex_users 2 ex_users_inv) as [(s' & E & Hi & _ & _ & Ha) _];
    [unfold GROUP_ID_MAX; lia|].
  exists s'. split; [exact E|]. split; [exact Hi|].
  destruct (objs (areg s') !! 128) as [x|] eqn:Ex; [|reflexivity].
  apply Ha in Ex as [_ Hn]. exfalso. apply (Hn 64); [vm_compute; left|vm_compute; left].
Defined.

End UserFacts.

(** ** Chat records *)

Module QQFacts.
Import QQ.

(** [an_qq_wk_msg_t_del] unhashes a message only if another one follows
    it on the chain, so the last message of a chain is freed while the chain
    still leads to it: the next search of that chain that reaches it reads
    freed memory. *)
Theorem wk_msg_del_dangles s a x h l account id :
  objs (qwk s) !! a = Some x -> a <> NULL -> a ∉ l ->
  (forall k, a ∈ tget (tbl (qwk s)) (F_HASH, k) -> k = (h, an_qq_wk_msg_t_get_hash account)) ->
  tget (tbl (qwk s)) (F_HASH, (h, an_qq_wk_msg_t_get_hash account)) = l ++ [a] ->
  (forall b, b ∈ l -> exists y, objs (qwk s) !! b = Some y /\ obj_account y <> account) ->
  exists s', an_qq_wk_msg_t_del a s = Done s' /\ objs (qwk s') !! a = None /\
    an_qq_wk_msg_t_find_by_qq_account account id h s' = Fault UseAfterFree.
Proof.
  intros E Ha Hal Hone Hl Hothers. unfold an_qq_wk_msg_t_del.
  destruct (Z.eqb_spec a NULL); [done|]. rewrite E. simpl.
  assert (forall k, tget (unlink F_ALL a (tbl (qwk s))) (F_HASH, k) = tget (tbl (qwk s)) (F_HASH, k)) as Ht
    by (intros; by rewrite tget_unlink).
  assert (has_next a (unlink F_ALL a (tbl (qwk s))) = false) as ->.
  { apply bool_decide_eq_false. intros ([f k] & l' & El & Hf & Hin & Hlast). simpl in Hf. subst f.
    assert (tget (unlink F_ALL a (tbl (qwk s))) (F_HASH, k) = l') as Eg by (unfold tget; by rewrite El).
    rewrite Ht in Eg. subst l'. assert (k = (h, an_qq_wk_msg_t_get_hash account)) as -> by (by apply Hone).
    rewrite Hl, last_snoc in Hlast. done. }
  simpl. eexists. split; [reflexivity|]. simpl. split; [apply lookup_delete_eq|].
  unfold an_qq_wk_msg_t_find_by_qq_account. simpl. rewrite Ht, Hl. clear Hl Ht Hone.
  induction l as [|b l IH]; simpl.
  - by rewrite lookup_delete_eq.
  - destruct (Hothers b ltac:(left)) as (y & Ey & Hy). apply not_elem_of_cons in Hal as [Hb Hal].
    rewrite lookup_delete_ne, Ey by done. simpl.
    rewrite (proj2 (Z.eqb_neq _ _) Hy). simpl. apply IH; [done|]. intros; apply Hothers. by right.
Qed.

Definition ex_qqs : qqs :=
  QQs (Reg ∅ ∅) (Reg ∅ ∅) (Reg ∅ ∅)
      (Reg {[ 64 := WkMsg 0 12345 7 0 ]} {[ (F_HASH, (9, an_qq_wk_msg_t_get_hash 12345)) := [64] ]}).

Lemma wk_msg_del_dangles_witness :
  exists s', an_qq_wk_msg_t_del 64 ex_qqs = Done s' /\ objs (qwk s') !! 64 = None /\
    an_qq_wk_msg_t_find_by_qq_account 12345 7 9 s' = Fault UseAfterFree.
Proof.
  apply (wk_msg_del_dangles ex_qqs 64 (WkMsg 0 12345 7 0) 9 [] 12345 7).
  - reflexivity.
  - discriminate.
  - apply not_elem_of_nil.
  - intros k. unfold ex_qqs, tget. simpl.
    destruct ({[(F_HASH, (9, an_qq_wk_msg_t_get_hash 12345)) := [64]]} !! (F_HASH, k)) as [l|] eqn:El.
    + apply lookup_singleton_Some in El as [El _]. by injection El as <-.
    + intros H. by apply not_elem_of_nil in H.
  - reflexivity.
  - intros b Hb. by apply not_elem_of_nil in Hb.
Defined.

End QQFacts.

(** ** Groups *)

Module GroupFacts.
Import Group.

Definition group_place (x : ww_group_base_info) : place := (0, ww_group_base_info_st_get_hash (gid x)).

Record ginv (s : groups) : Prop := {
  g_hash : indexed (tbl (greg s)) F_HASH (group_place <$> objs (greg s));
  g_all : indexed (tbl (greg s)) F_ALL ((fun _ => (0, 0)) <$> objs (greg s));
  g_uniq : forall a b x y, objs (greg s) !! a = Some x -> objs (greg s) !! b = Some y ->
    gid x = gid y -> a = b
}.

Lemma group_remove_step s a x :
  ginv s -> objs (greg s) !! a = Some x ->
  exists r, group_remove a (greg s) = Done r /\ (forall n, ginv (Groups r n)) /\
    objs r = delete a (objs (greg s)).
Proof.
  intros [Hh Ha Hu] E. unfold group_remove.
  rewrite (hlist_del_indexed _ _ _ a Hh) by (rewrite lookup_fmap, E; by eexists). simpl.
  eexists. split; [reflexivity|]. split; [|done]. intros n. split; simpl.
  - rewrite fmap_delete. repeat indexed_tac. done.
  - rewrite fmap_delete. repeat indexed_tac. done.
  - intros b c y z [_ Eb]%lookup_delete_Some [_ Ec]%lookup_delete_Some. by apply Hu.
Qed.

Lemma group_find s g :
  ginv s -> g <= GROUP_ID_MAX ->
  exists r, ww_group_base_info_st_find_by_id g s = Done r /\
    match r with
    | Some a => exists x, objs (greg s) !! a = Some x /\ gid x = g
    | None => forall a x, objs (greg s) !! a = Some x -> gid x <> g
    end.
Proof.
  intros Hi Hg. unfold ww_group_base_info_st_find_by_id.
  destruct (Z.ltb_spec GROUP_ID_MAX g); [lia|].
  destruct (find_indexed (objs (greg s)) group_place (tbl (greg s)) F_HASH (fun x => gid x =? g)
    (0, ww_group_base_info_st_get_hash g) (g_hash _ Hi)) as (r & E & Hr).
  { intros a x _ Hx%Z.eqb_eq. unfold group_place. by rewrite Hx. }
  exists r. split; [exact E|]. destruct r as [a|].
  - destruct Hr as (x & Ex & Hx%Z.eqb_eq). by exists x.
  - intros a x Ex Hx. specialize (Hr a x Ex). simpl in Hr. by rewrite Hx, Z.eqb_refl in Hr.
Qed.

(** Groups are kept under unique ids: [ww_group_base_info_st_del] removes
    the group with that id and counts it off; [ww_group_base_info_st_del_all]
    removes all groups but leaves [an_group_num], the documented number of
    groups on the list, as it was. *)
Theorem group_del_spec s g :
  ginv s -> g <= GROUP_ID_MAX ->
  (exists s', ww_group_base_info_st_del g s = Done s' /\ ginv s' /\
    (forall a x, objs (greg s') !! a = Some x <-> objs (greg s) !! a = Some x /\ gid x <> g) /\
    an_group_num s' = (if decide (map_Exists (fun _ x => gid x = g) (objs (greg s)))
                       then s32 (an_group_num s - 1) else an_group_num s)) /\
  (exists s', ww_group_base_info_st_del_all s = Done s' /\ ginv s' /\
    objs (greg s') = ∅ /\ an_group_num s' = an_group_num s).
Proof.
  intros Hi Hg. split.
  - unfold ww_group_base_info_st_del.
    destruct (group_find s g Hi Hg) as (r & -> & Hr). simpl. destruct r as [a|].
    + destruct Hr as (x & E & Hx).
      destruct (group_remove_step s a x Hi E) as (r & -> & Hr & Eo). simpl.
      eexists. split; [reflexivity|]. split; [apply Hr|]. simpl. split.
      * intros b y. rewrite Eo, lookup_delete_Some. split.
        -- intros [Hne Ey]. split; [done|]. intros Hy. apply Hne. apply (g_uniq _ Hi a b x y E Ey). congruence.
        -- intros [Ey Hy]. split; [|done]. intros <-. congruence.
      * rewrite decide_True; [done|]. by exists a, x.
    + exists s. split; [done|]. split; [done|]. split.
      * intros b y. split; [|tauto]. intros E. split; [done|]. by eapply Hr.
      * rewrite decide_False; [done|]. intros (a & x & E & Hx). by eapply Hr.
  - unfold ww_group_base_info_st_del_all.
    destruct (remove_selected (fun r => ginv (Groups r (an_group_num s))) group_remove (fun _ => True)
      (tget (tbl (greg s)) (F_ALL, (0, 0))) (greg s)) as (r & -> & Hr & Ho).
    + intros r a x Hr E. destruct (group_remove_step (Groups r (an_group_num s)) a x Hr E) as (r' & E' & Hr' & Eo).
      by exists r'.
    + by destruct s.
    + apply (indexed_nodup _ _ _ (g_all _ Hi)).
    + intros a. rewrite (indexed_at _ _ _ (g_all _ Hi)), lookup_fmap, fmap_Some. naive_solver.
    + simpl. eexists. split; [reflexivity|]. split; [done|]. split; [|done]. simpl.
      apply map_eq. intros a. rewrite lookup_empty.
      destruct (objs r !! a) as [x|] eqn:Ex; [|done]. apply Ho in Ex as [_ []]. exact I.
Qed.

Definition ex_groups : groups :=
  Groups (Reg {[ 64 := GroupInfo 3 [] 0 0 0 0 0 ]}
    (add_tail (F_ALL, (0, 0)) 64 (add_head (F_HASH, (0, ww_group_base_info_st_get_hash 3)) 64 ∅))) 1.

Lemma ex_groups_inv : ginv ex_groups.
Proof.
  split; simpl.
  - rewrite map_fmap_singleton. change ({[64 := ?x]} : gmap Z place) with (<[64 := x]> (∅ : gmap Z place)).
    repeat indexed_tac; [apply lookup_empty|apply indexed_empty].
  - rewrite map_fmap_singleton. change ({[64 := ?x]} : gmap Z place) with (<[64 := x]> (∅ : gmap Z place)).
    repeat indexed_tac; [apply lookup_empty|apply indexed_empty].
  - intros a b x y [<- _]%lookup_singleton_Some [<- _]%lookup_singleton_Some. done.
Qed.

Lemma group_del_spec_witness :
  exists s', ww_group_base_info_st_del_all ex_groups = Done s' /\ objs (greg s') = ∅ /\
    an_group_num s' = 1.
Proof.
  destruct (group_del_spec ex_groups 3 ex_groups_inv) as [_ (s' & E & _ & Eo & En)];
    [unfold GROUP_ID_MAX; lia|]. exists s'. auto.
Defined.

End GroupFacts.

(** ** Sockets *)

Module SockFacts.
Import Sock.

Definition sock_place (x : an_socket) : place := (0, an_socket_t_get_hash (index x)).

(** The buffers of a socket that are not null. *)
Definition own_bufs (x : an_socket) : list addr :=
  filter (fun b => b <> NULL) [rcv_buf x; send_buf x; org_send_buf x].

Record sinv (s : socks) : Prop := {
  s_hash : indexed (tbl (sreg s)) F_HASH (sock_place <$> objs (sreg s));
  s_uniq : forall a b x y, objs (sreg s) !! a = Some x -> objs (sreg s) !! b = Some y ->
    index x = index y -> a = b;
  s_bufs : forall a x b, objs (sreg s) !! a = Some x -> b ∈ own_bufs x -> is_Some (bufs s !! b);
  s_nodup : forall a x, objs (sreg s) !! a = Some x -> NoDup (own_bufs x);
  s_disj : forall a a' x x' b, objs (sreg s) !! a = Some x -> objs (sreg s) !! a' = Some x' ->
    b ∈ own_bufs x -> b ∈ own_bufs x' -> a = a'
}.

Lemma free_buf_live b m : (b <> NULL -> is_Some (m !! b)) ->
  exists m', free_buf b m = Done m' /\ (forall c, m' !! c = if decide (c = b /\ b <> NULL) then None else m !! c).
Proof.
  intros Hb. unfold free_buf. destruct (Z.eqb_spec b NULL) as [->|Hn].
  - exists m. split; [done|]. intros c. by rewrite decide_False by tauto.
  - destruct (Hb Hn) as [l ->]. eexists. split; [done|]. intros c. rewrite lookup_delete.
    destruct (decide (b = c)) as [->|]; [by rewrite decide_True|]. rewrite decide_False; [done|].
    intros [? _]. congruence.
Qed.

Lemma elem_own_bufs x b :
  b ∈ own_bufs x <-> b <> NULL /\ (b = rcv_buf x \/ b = send_buf x \/ b = org_send_buf x).
Proof.
  unfold own_bufs. rewrite list_elem_of_filter, !elem_of_cons. pose proof (not_elem_of_nil b). tauto.
Qed.

(** The three conditional releases of [an_socket_t_del]. *)
Lemma free_three s a x :
  sinv s -> objs (sreg s) !! a = Some x ->
  exists m, (m ← free_buf (rcv_buf x) (bufs s); m ← free_buf (send_buf x) m; free_buf (org_send_buf x) m)
      = Done m /\
    forall c, m !! c = if decide (c ∈ own_bufs x) then None else bufs s !! c.
Proof.
  intros Hi E. pose proof (s_nodup _ Hi a x E) as Hnd.
  assert (forall b, b <> NULL -> b = rcv_buf x \/ b = send_buf x \/ b = org_send_buf x ->
    is_Some (bufs s !! b)) as Hlive.
  { intros b Hb Hx. apply (s_bufs _ Hi a x b E), elem_own_bufs. tauto. }
  assert ((send_buf x <> NULL -> send_buf x <> rcv_buf x) /\
    (org_send_buf x <> NULL -> org_send_buf x <> rcv_buf x /\ org_send_buf x <> send_buf x)) as [D1 D2].
  { unfold own_bufs in Hnd. split.
    - intros Hn Hs. rewrite <- Hs in Hnd. rewrite !filter_cons_True in Hnd by done.
      apply NoDup_cons in Hnd as [Hx _]. apply Hx. left.
    - intros Hn. split; intros Hs.
      + rewrite <- Hs in Hnd. rewrite filter_cons_True in Hnd by done.
        apply NoDup_cons in Hnd as [Hx _]. apply Hx. apply list_elem_of_filter. split; [done|]. right. left.
      + rewrite <- Hs in Hnd. change [rcv_buf x; org_send_buf x; org_send_buf x] with
          ([rcv_buf x] ++ [org_send_buf x; org_send_buf x]) in Hnd.
        rewrite filter_app in Hnd. apply NoDup_app in Hnd as (_ & _ & Hnd).
        rewrite !filter_cons_True in Hnd by done. apply NoDup_cons in Hnd as [Hx _]. apply Hx. left. }
  destruct (free_buf_live (rcv_buf x) (bufs s)) as (m1 & -> & H1); [intros; apply Hlive; auto|]. simpl.
  destruct (free_buf_live (send_buf x) m1) as (m2 & -> & H2).
  { intros Hn. rewrite H1, decide_False by (specialize (D1 Hn); tauto). apply Hlive; auto. }
  simpl. destruct (free_buf_live (org_send_buf x) m2) as (m3 & -> & H3).
  { intros Hn. destruct (D2 Hn). rewrite H2, decide_False, H1, decide_False by tauto. apply Hlive; auto. }
  exists m3. split; [done|]. intros c. rewrite H3, H2, H1.
  repeat case_decide; try done; rewrite elem_own_bufs in *; naive_solver.
Qed.

Lemma sock_find s i :
  sinv s -> i < AN_POLL_MAX ->
  exists r, an_socket_t_find_by_index i s = Done r /\
    match r with
    | Some a => exists x, objs (sreg s) !! a = Some x /\ index x = i
    | None => forall a x, objs (sreg s) !! a = Some x -> index x <> i
    end.
Proof.
  intros H0 Hlt. unfold an_socket_t_find_by_index. destruct (Z.leb_spec AN_POLL_MAX i); [lia|].
  destruct (find_indexed (objs (sreg s)) sock_place (tbl (sreg s)) F_HASH (fun x => index x =? i)
    (0, an_socket_t_get_hash i) (s_hash _ H0)) as (r & E & Hr).
  { intros a x _ Hx%Z.eqb_eq. unfold sock_place. by rewrite Hx. }
  exists r. split; [exact E|]. destruct r as [a|].
  - destruct Hr as (x & Ex & Hx%Z.eqb_eq). by exists x.
  - intros a x Ex Hx. specialize (Hr a x Ex). simpl in Hr. by rewrite Hx, Z.eqb_refl in Hr.
Qed.

(** Dropping a socket and its buffers. *)
Lemma sock_drop_inv s a x m :
  sinv s -> objs (sreg s) !! a = Some x ->
  (forall c, m !! c = if decide (c ∈ own_bufs x) then None else bufs s !! c) ->
  sinv (Socks (Reg (delete a (objs (sreg s))) (unlink F_HASH a (tbl (sreg s)))) m).
Proof.
  intros [Hh Hu Hb Hn Hd] E Hm. split; simpl.
  - rewrite fmap_delete. by apply indexed_unlink.
  - intros b c y z [_ Eb]%lookup_delete_Some [_ Ec]%lookup_delete_Some. by apply Hu.
  - intros b y c [Hab Eb]%lookup_delete_Some Hc. rewrite Hm, decide_False; [by eapply Hb|].
    intros Hcx. apply Hab. by eapply Hd.
  - intros b y [_ Eb]%lookup_delete_Some. by eapply Hn.
  - intros b c y z d [_ Eb]%lookup_delete_Some [_ Ec]%lookup_delete_Some. by apply Hd.
Qed.

Lemma sock_del_ok s i :
  sinv s -> i < AN_POLL_MAX ->
  exists s', an_socket_t_del i s = Done s' /\ sinv s' /\
    (forall a x, objs (sreg s') !! a = Some x <-> objs (sreg s) !! a = Some x /\ index x <> i) /\
    (forall b, is_Some (bufs s' !! b) <-> is_Some (bufs s !! b) /\
       forall a x, objs (sreg s) !! a = Some x -> index x = i -> b ∉ own_bufs x) /\
    an_socket_t_find_by_index i s' = Done None.
Proof.
  intros Hi Hlt.
  unfold an_socket_t_del. destruct (sock_find s i Hi Hlt) as (r & Er & Hr). rewrite Er. simpl. destruct r as [a|].
  - destruct Hr as (x & E & Hx).
    rewrite (hlist_del_indexed _ _ _ a (s_hash _ Hi)) by (rewrite lookup_fmap, E; by eexists). simpl.
    rewrite E. simpl. destruct (free_three s a x Hi E) as (m & Em & Hm).
    destruct (free_buf (rcv_buf x) (bufs s)) as [m1|] eqn:E1; [|done]. simpl in *.
    destruct (free_buf (send_buf x) m1) as [m2|] eqn:E2; [|done]. simpl in *. rewrite Em. simpl.
    eexists. split; [reflexivity|].
    pose proof (sock_drop_inv s a x m Hi E Hm) as Hi'.
    assert (forall b y, objs (sreg s) !! b = Some y -> index y = i -> b = a) as Huniq.
    { intros b y Eb Hy. apply (s_uniq _ Hi b a y x Eb E). congruence. }
    split; [exact Hi'|]. split; [|split].
    + simpl. intros b y. rewrite lookup_delete_Some. split.
      * intros [Hne Ey]. split; [done|]. intros Hy. apply Hne. symmetry. by eapply Huniq.
      * intros [Ey Hy]. split; [|done]. intros <-. congruence.
    + simpl. intros b. rewrite Hm. case_decide as Hbx.
      * split; [by intros [? ?]|]. intros [_ Hno]. exfalso. by eapply Hno.
      * split; [|tauto]. intros Hs. split; [done|]. intros c y Ey Hy.
        assert (c = a) as -> by (by eapply Huniq). rewrite E in Ey. by injection Ey as <-.
    + destruct (sock_find _ i Hi' Hlt) as (r & -> & Hr'). destruct r as [b|]; [|done]. exfalso.
      destruct Hr' as (y & Ed & Hy). simpl in Ed. apply lookup_delete_Some in Ed as [Hne Ey]. apply Hne. symmetry. by eapply Huniq.
  - exists s. split; [done|]. split; [done|]. split; [|split; [|by rewrite Er]].
    + intros a x. split; [|tauto]. intros E. split; [done|by eapply Hr].
    + intros b. split; [|tauto]. intros Hb. split; [done|]. intros a x E Hx. by destruct (Hr a x E).
Qed.

(** Closing a connection is clean: [an_socket_t_del] takes the socket
    with that index off its chain, releases each of its buffers exactly once
    and no other, and does nothing for an unknown index; afterwards the index
    is not found. *)
Theorem sock_del_spec s i :
  sinv s -> i < AN_POLL_MAX ->
  exists s', an_socket_t_del i s = Done s' /\ sinv s' /\
    (forall a x, objs (sreg s') !! a = Some x <-> objs (sreg s) !! a = Some x /\ index x <> i) /\
    (forall b, is_Some (bufs s' !! b) <-> is_Some (bufs s !! b) /\
       forall a x, objs (sreg s) !! a = Some x -> index x = i -> b ∉ own_bufs x) /\
    an_socket_t_find_by_index i s' = Done None.
Proof. apply sock_del_ok. Qed.

Definition ex_socks : socks :=
  Socks (Reg {[ 64 := Socket 5 NULL 256 0 0 512 0 1024 ]}
          (add_head (F_HASH, (0, an_socket_t_get_hash 5)) 64 ∅)) {[ 256 := []; 512 := []; 768 := [] ]}.

Lemma ex_socks_inv : sinv ex_socks.
Proof.
  assert (own_bufs (Socket 5 NULL 256 0 0 512 0 1024) = [512; 256]) as Eb by reflexivity.
  split; simpl.
  - rewrite map_fmap_singleton. change ({[64 := ?x]} : gmap Z place) with (<[64 := x]> (∅ : gmap Z place)).
    repeat indexed_tac; [apply lookup_empty|apply indexed_empty].
  - intros a b x y [<- _]%lookup_singleton_Some [<- _]%lookup_singleton_Some. done.
  - intros a x b [_ <-]%lookup_singleton_Some. rewrite Eb, !elem_of_cons.
    intros [->|[->|Hb]]; [by eexists..|]. by apply not_elem_of_nil in Hb.
  - intros a x [_ <-]%lookup_singleton_Some. rewrite Eb.
    apply (bool_decide_unpack (NoDup [512; 256])). vm_compute. exact I.
  - intros a a' x x' b [<- _]%lookup_singleton_Some [<- _]%lookup_singleton_Some. done.
Qed.

Lemma sock_del_spec_witness :
  exists s', an_socket_t_del 5 ex_socks = Done s' /\ an_socket_t_find_by_index 5 s' = Done None.
Proof.
  destruct (sock_del_spec ex_socks 5 ex_socks_inv) as (s' & E & _ & _ & _ & Ef);
    [unfold AN_POLL_MAX; lia|]. exists s'. auto.
Defined.

End SockFacts.

(** ** Web sessions *)

Module SessionFacts.
Import WebCache.

Section Expiry.

Context (W : Z) (HW : 32 <= W) (callback : Z -> Z -> list Timer.call).

Lemma add_fresh T b p e :
  reachable W callback T b -> Timer.timer_pending p b = false ->
  let b' := Timer.add_timer W p (Timer.set_timer p (Timer.TimerList e TIMEOUT_FN p false) b) in
  reachable W callback T b' /\
  Timer.timers b' !! p = Some (Timer.TimerList e TIMEOUT_FN p true).
Proof.
  intros Hr Hp. split.
  - apply (reach_call W callback T _ (Timer.CallAdd p)). by apply reach_alloc.
  - unfold Timer.add_timer, Timer.set_timer. simpl. rewrite lookup_insert_eq. unfold Timer.__mod_timer.
    unfold Timer.timer_pending. simpl. rewrite lookup_insert_eq. simpl. rewrite lookup_insert_eq.
    unfold Timer.internal_add_timer. simpl. rewrite !lookup_insert_eq. simpl. by rewrite lookup_insert_eq.
Qed.

Lemma rem_ahead T d : 0 <= d < 2 ^ (W - 1) -> rem W T (wrapu W (wrapu W T + d)) = d.
Proof.
  intros Hd. unfold rem. pose proof (pow_half W HW) as [HM _].
  assert (wrapu W (wrapu W (wrapu W T + d) - T) = d) as ->.
  { unfold wrapu. rewrite Zplus_mod_idemp_l, Zminus_mod_idemp_l.
    replace (T + d - T) with d by lia. apply Z.mod_small. lia. }
  by destruct (Z.ltb_spec d (2 ^ (W - 1))); [|lia].
Qed.


End Expiry.

Definition ex_caches : caches :=
  Caches (Reg ∅ ∅) (Detail.Details (Reg ∅ ∅) (Reg ∅ ∅) (Reg ∅ ∅))
    (QQ.QQs (Reg ∅ ∅) (Reg ∅ ∅) (Reg ∅ ∅) (Reg ∅ ∅))
    (Timer.init_timers_cpu (wrapu 64 1000) (Timer.TvecBase 0 ∅ ∅ 0)).


End SessionFacts.

(** ** Classification *)

Module CategoryFacts.
Import Category.

(** Some work rule applies to the program or to the title. *)
Definition work_applies (pro act : cstring) (g : Z) (w : WorkRule.work) : Prop :=
  exists a x, objs w !! a = Some x /\
    (WorkFacts.applies (fun h => (h =? 0) || (g =? u32 h)) 0 pro x \/
     WorkFacts.applies (fun h => (h =? 0) || (g =? u32 h)) 1 act x).

Lemma work_find_all w type nm g :
  WorkFacts.winv w -> type = 0 \/ type = 1 -> (length nm < 32)%nat ->
  (forall a x, objs w !! a = Some x ->
     (length (WorkRule.process x) < 32)%nat /\ (length (WorkRule.workname x) < 48)%nat) ->
  exists r, WorkRule.an_work_rule_t_find_by_type_name_gid_all type nm g w = Done r /\
    (is_Some r <-> exists a x, objs w !! a = Some x /\
       WorkFacts.applies (fun h => (h =? 0) || (g =? u32 h)) type nm x).
Proof.
  intros Hi Hty Hn Hl.
  destruct (find_indexed (objs w) WorkFacts.work_place (tbl w) F_HASH
    (WorkRule.work_match (fun h => (h =? 0) || (g =? u32 h)) type nm)
    (WorkRule.work_chain nm).2 (i3_hash _ _ _ Hi)) as (r & E & Hr).
  { intros a x _. apply WorkFacts.work_match_place. }
  exists r. split; [exact E|]. destruct r as [a|].
  - destruct Hr as (x & Ex & Hm). split; [|by eauto]. intros _. exists a, x. split; [done|].
    destruct (Hl a x Ex). by apply WorkFacts.work_match_applies in Hm.
  - split; [by intros [? ?]|]. intros (a & x & Ex & Ha). exfalso. destruct (Hl a x Ex).
    apply WorkFacts.work_match_applies in Ha; [|done..]. specialize (Hr a x Ex). congruence.
Qed.

Lemma work_check_spec pro act g w :
  WorkFacts.winv w -> (length pro < 32)%nat -> (length act < 32)%nat ->
  (forall a x, objs w !! a = Some x ->
     (length (WorkRule.process x) < 32)%nat /\ (length (WorkRule.workname x) < 48)%nat) ->
  exists b, work_check pro act g w = Done b /\ (b = true <-> work_applies pro act g w).
Proof.
  intros Hi Hp Ha Hl. unfold work_check, work_applies.
  destruct (work_find_all w 0 pro g Hi ltac:(by left) Hp Hl) as (r0 & -> & H0). simpl.
  destruct r0 as [a0|].
  { exists true. split; [done|]. split; [|done]. intros _.
    destruct (proj1 H0 ltac:(by eexists)) as (a & x & E & Hx). exists a, x. auto. }
  destruct (work_find_all w 1 act g Hi ltac:(by right) Ha Hl) as (r1 & -> & H1). simpl.
  eexists. split; [reflexivity|]. destruct r1 as [a1|].
  - split; [|done]. intros _. destruct (proj1 H1 ltac:(by eexists)) as (a & x & E & Hx). exists a, x. auto.
  - split; [done|]. intros (a & x & E & [Hx|Hx]); exfalso.
    + destruct (proj2 H0 ltac:(by exists a, x)) as [? ?]. done.
    + destruct (proj2 H1 ltac:(by exists a, x)) as [? ?]. done.
Qed.

(** Classifying an activity always gives one of the six categories, with
    the documented precedence: what the client flagged as a violation is a
    violation whatever the rules say, and otherwise it is work exactly when a
    work rule of the group or of everybody names its program or its title. *)
Theorem category_spec chat move act g w :
  WorkFacts.winv w ->
  (length (UserAction.pro_name act) < 32)%nat -> (length (UserAction.act_name act) < 32)%nat ->
  (forall a x, objs w !! a = Some x ->
     (length (WorkRule.process x) < 32)%nat /\ (length (WorkRule.workname x) < 48)%nat) ->
  exists c, ww_get_category_by_ww_action_list_st chat move act g w = Done c /\
    AN_CALC_ATTEMPT <= c <= AN_CALC_OTHER /\
    (c = AN_CALC_ATTEMPT <-> UserAction.category act = LC_WARNING \/ UserAction.category act = LC_FORBID) /\
    (c = AN_CALC_WORK <->
       ~ (UserAction.category act = LC_WARNING \/ UserAction.category act = LC_FORBID) /\
       work_applies (UserAction.pro_name act) (UserAction.act_name act) g w).
Proof.
  intros Hi Hp Ha Hl. unfold ww_get_category_by_ww_action_list_st.
  unfold AN_CALC_ATTEMPT, AN_CALC_OTHER, AN_CALC_WORK.
  destruct (Z.eqb_spec (UserAction.category act) LC_WARNING) as [E1|E1];
    [eexists; split; [reflexivity|]; split; [lia|]; split; [tauto|]; split; [lia|tauto]|].
  destruct (Z.eqb_spec (UserAction.category act) LC_FORBID) as [E2|E2];
    [eexists; split; [reflexivity|]; split; [lia|]; split; [tauto|]; split; [lia|tauto]|].
  simpl orb. cbv iota.
  destruct (work_check_spec _ _ g w Hi Hp Ha Hl) as (b & -> & Hb). simpl. destruct b.
  { eexists. split; [reflexivity|]. split; [lia|]. split; [split; [lia|tauto]|]. tauto. }
  assert (~ work_applies (UserAction.pro_name act) (UserAction.act_name act) g w) as Hno
    by (intros H; apply Hb in H; done).
  unfold AN_CALC_URL, AN_CALC_CHAT, AN_CALC_VIDEO.
  destruct (_ || _); [|destruct (in_table chat _); [|destruct (in_table move _)]];
    (eexists; split; [reflexivity|]; split; [lia|]; split; [split; [lia|tauto]|]; split; [lia|tauto]).
Qed.

Lemma category_spec_witness :
  exists c, ww_get_category_by_ww_action_list_st [] []
    (UserAction.Action [] ForbidFacts.qq 0 151 0 0 0) 2 WorkFacts.ex_work = Done c /\ c = AN_CALC_WORK.
Proof.
  destruct (category_spec [] [] (UserAction.Action [] ForbidFacts.qq 0 151 0 0 0) 2 WorkFacts.ex_work
    WorkFacts.ex_work_inv) as (c & E & _ & _ & Hw).
  - simpl. lia.
  - simpl. lia.
  - intros a x. unfold WorkFacts.ex_work. simpl. rewrite lookup_singleton_Some. intros [_ <-]. simpl. lia.
  - exists c. split; [exact E|]. apply Hw. split; [simpl; intros [H|H]; discriminate H|].
    exists 64, WorkFacts.ex_rule. split; [reflexivity|]. left. vm_compute. auto.
Defined.

End CategoryFacts.

(** ** Initialisation *)

Module WorldFacts.
Import World.

Lemma init_nil {T} (r : reg T) k : tget (tbl r) k = [] -> tget (tbl (init_groups (init_hash r))) k = [].
Proof. intros H. unfold init_groups, init_hash. cbn [tbl]. by apply tget_init_heads, tget_init_heads. Qed.

(** [an_hash_and_list_init] on the program's static state establishes the
    invariants of all tables: nothing is stored, and every chain and group
    list is empty. *)
Theorem init_establishes b0 n :
  let w := an_hash_and_list_init
    (MkWorld (Reg ∅ ∅) (Group.Groups (Reg ∅ ∅) n) (Reg ∅ ∅) (Sock.Socks (Reg ∅ ∅) b0) (Reg ∅ ∅)
       (UserAction.Users (Reg ∅ ∅) (Reg ∅ ∅)) (Detail.Details (Reg ∅ ∅) (Reg ∅ ∅) (Reg ∅ ∅))
       (QQ.QQs (Reg ∅ ∅) (Reg ∅ ∅) (Reg ∅ ∅) (Reg ∅ ∅)) (Reg ∅ ∅)) in
  ForbidFacts.finv (w_forbid w) /\ EncryptFacts.einv (w_encrypt w) /\ WorkFacts.winv (w_work w) /\
  GroupFacts.ginv (w_groups w) /\ SockFacts.sinv (w_socks w) /\ UserFacts.uinv (w_users w).
Proof.
  intros w. assert (forall T k, tget (tbl (init_groups (init_hash (Reg (∅ : gmap addr T) ∅)))) k = []) as Hn
    by (intros T k; apply init_nil, ForbidFacts.empty_heads).
  assert (forall T k, tget (tbl (init_hash (Reg (∅ : gmap addr T) ∅))) k = []) as Hh
    by (intros T k; apply tget_init_heads, ForbidFacts.empty_heads).
  assert (forall T t f, (forall k, tget t k = []) -> sound (Reg (∅ : gmap addr T) t) f) as Hs.
  { intros T t f Ht. exists ∅. split; [by apply indexed_nil|]. intros a [? Ha]. by rewrite lookup_empty in Ha. }
  assert (forall T (g : T -> place) t f, (forall k, tget t k = []) -> indexed t f (g <$> (∅ : gmap addr T))) as He.
  { intros T g t f Ht. rewrite fmap_empty. by apply indexed_nil. }
  split_all.
  - apply (ForbidFacts.init_finv _ (Hn Forbid.ww_forbidact)).
  - apply (EncryptFacts.encrypt_init _ (Hn Encrypt.ww_encryptfile)).
  - apply (inv3_init _ _ _ (Hn WorkRule.an_work_rule)).
  - split; [apply (He _ _ _ _ (Hh _))..|].
    intros a b x y E. exfalso. simpl in E. by rewrite lookup_empty in E.
  - split; [apply (He _ _ _ _ (Hh Sock.an_socket))|intros a b x y E|intros a x b E|intros a x E|intros a a' x x' b E];
      exfalso; simpl in E; by rewrite lookup_empty in E.
  - split; [done|apply Hs, (Hn UserAction.ww_user_action)..| |]; apply Hs, ForbidFacts.empty_heads.
Qed.

End WorldFacts.
