(* ===== verification/Db.v ===== *)
(** * Db: the client of the record store ([src/TCP_C/db.c])

    [db.c] speaks the SSDB protocol: a request is a sequence of blocks, each
    its length in decimal, a line feed, the bytes and a line feed, and ends
    with an empty line.  [Module Wire] is the work on buffers: sending,
    receiving and taking replies apart; a buffer is the list of its bytes and
    an access outside of it is a fault.  [Module Db] is the pool of
    connections, the retries and the calls the program uses.

    The blocks one call allocates and releases are not tracked; [wys_malloc]
    zeroes them and succeeds, as does [wys_realloc].  The locks of the pool make
    each of its operations atomic. *)

From Stdlib Require Import Ascii String.
From S2P Require Import Prelude CString Registry Timer Rules.
Local Open Scope Z_scope.

Definition DB_NORET : Z := 0.
Definition DB_ERR : Z := 1.
Definition DB_OUT_MEM : Z := 2.
Definition DB_INVALID_PARMS : Z := 3.
Definition DB_CONNECT_ERR : Z := 4.
Definition DB_NOT_FOUND : Z := 5.
Definition DB_SET_OK : Z := 6.
Definition DB_GET_OK : Z := 7.
Definition DB_DEL_OK : Z := 8.
Definition DB_SCAN_OK : Z := 9.
Definition DB_NO_EXIST : Z := 10.
Definition DB_EXIST : Z := 11.
Definition DB_MULTI_GET_OK : Z := 12.
Definition DB_MULTI_SET_OK : Z := 13.
Definition DB_MULTI_DEL_OK : Z := 14.
Definition DB_FLUSHDB_OK : Z := 15.
Definition DB_DBSIZE_OK : Z := 16.
Definition DB_RNO_MAX : Z := 17.

Definition DB_BUFLEN : Z := 10240.
Definition DB_CONN_KEEP_ALIVE : Z := 600000.
Definition NL : Z := 10.

(** The commands, in the order of the source. *)
Inductive command :=
  | SET | GET | SCAN | DEL | EXISTS | MULTI_GET | MULTI_SET | MULTI_DEL | FLUSHDB | DBSIZE
  | CLR_BINLOG | COMPACT.

#[global] Instance command_eq_dec : EqDecision command.
Proof. solve_decision. Defined.

Module Wire.

(** ** Buffers *)

Definition rd (buf : list Z) (i : Z) : outcome Z :=
  if i <? 0 then Fault OutOfBounds else get_or OutOfBounds (buf !! Z.to_nat i).

Definition wr (i c : Z) (buf : list Z) : outcome (list Z) :=
  if (i <? 0) || (Z.of_nat (length buf) <=? i) then Fault OutOfBounds else Done (<[Z.to_nat i := c]> buf).

(** The value of an [int] expression. *)
Definition sint (n : Z) : outcome Z :=
  if (- 2 ^ 31 <=? n) && (n <? 2 ^ 31) then Done n else Fault ArithUB.

(** Digits up to the first other character; [None] if the buffer ends before. *)
Fixpoint digits (l : list Z) (acc : Z) : option Z :=
  match l with
  | [] => None
  | c :: l => if is_digit c then digits l (acc * 10 + (c - 48)) else Some acc
  end.

(** The buffer pointer is never null where it is called. *)
Definition _dbatoi (buf : list Z) (p : Z) : outcome Z :=
  c ← rd buf p;
  if negb (is_digit c) then Done (-1)
  else n ← get_or OutOfBounds (digits (drop (Z.to_nat p) buf) 0);
       sint n.

Fixpoint numlen_loop (fuel : nat) (tmp num_len : Z) : Z :=
  match fuel with
  | O => num_len
  | S fuel => if tmp =? 0 then num_len else numlen_loop fuel (tmp / 10) (num_len + 1)
  end.

Definition _dbnumlen (num : Z) : outcome Z :=
  if num =? 0 then Done 1
  else if 0 <? num then Done (numlen_loop 11 num 0) else Fault AssertFailed.

(** [memchr(buf + p, '\n', n)]; a negative [n] is a huge [size_t]. *)
Fixpoint find_nl (l : list Z) : option Z :=
  match l with [] => None | c :: l => if c =? NL then Some 0 else Z.succ <$> find_nl l end.

Definition memchr_nl (buf : list Z) (p n : Z) : outcome (option Z) :=
  if (p <? 0) || (Z.of_nat (length buf) <? p) then Fault OutOfBounds
  else
    let rest := drop (Z.to_nat p) buf in
    if (n <? 0) || (Z.of_nat (length rest) <? n) then
      match find_nl rest with Some k => Done (Some (p + k)) | None => Fault OutOfBounds end
    else Done (Z.add p <$> find_nl (take (Z.to_nat n) rest)).

(** The byte behind the next line feed; without one the null pointer is
    advanced and followed. *)
Definition after_nl (buf : list Z) (p n : Z) : outcome Z :=
  r ← memchr_nl buf p n;
  match r with Some q => Done (q + 1) | None => Fault NullDeref end.

(** [n] bytes from [p] on *)
Definition range (buf : list Z) (p n : Z) : outcome (list Z) :=
  if (p <? 0) || (n <? 0) || (Z.of_nat (length buf) <? p + n) then Fault OutOfBounds
  else Done (take (Z.to_nat n) (drop (Z.to_nat p) buf)).

(** ** Replies of several records *)

(** A string of a result: in the received buffer, or a block of its own. *)
Inductive ptr := PNull | PAt (off : Z) | POwn (bytes : list Z).

Record db_kv := KV { key : ptr; key_len : Z; val : ptr; val_len : Z }.

Definition no_kv : db_kv := KV PNull 0 PNull 0.

(** The position behind the block at [p]: [p + numlen(n) + n + 2]. *)
Definition next_block (buf : list Z) (p : Z) : outcome Z :=
  n ← _dbatoi buf p; w ← _dbnumlen n; n ← _dbatoi buf p; Done (p + w + n + 2).

(** [buf_len] bytes from [base] on hold the records. *)
Fixpoint countkv_loop (fuel : nat) (buf : list Z) (base buf_len pk cnt : Z) : outcome Z :=
  match fuel with
  | O => Done cnt
  | S fuel =>
    if pk - base <? buf_len - 1 then
      pv ← next_block buf pk;
      pk ← next_block buf pv;
      countkv_loop fuel buf base buf_len pk (u32 (cnt + 1))
    else Done cnt
  end.

Definition _dbcountkv (buf : list Z) (base buf_len : Z) : outcome Z :=
  countkv_loop (S (length buf)) buf base buf_len base 0.

(** One string: its length and where it starts; its end becomes a terminator. *)
Definition cut_block (buf : list Z) (p : Z) : outcome (Z * Z * list Z) :=
  n ← _dbatoi buf p;
  w ← _dbnumlen n;
  buf ← wr (p + w + 1 + n) 0 buf;
  Done (n, p + w + 1, buf).

(** [room] is the number of records the array has. *)
Fixpoint splitkv_loop (fuel : nat) (base buf_len pk room : Z) (buf : list Z) (kvs : list db_kv) :
    outcome (list Z * list db_kv) :=
  match fuel with
  | O => Done (buf, kvs)
  | S fuel =>
    if pk - base <? buf_len - 1 then
      if room <=? Z.of_nat (length kvs) then Fault OutOfBounds
      else
        r ← cut_block buf pk;
        let '(kl, k, buf) := (r : Z * Z * list Z) in
        r ← cut_block buf (k + kl + 1);
        let '(vl, v, buf) := (r : Z * Z * list Z) in
        splitkv_loop fuel base buf_len (v + vl + 1) room buf (kvs ++ [KV (PAt k) kl (PAt v) vl])
    else Done (buf, kvs)
  end.

(** ** Results *)

Record DB := MkDB { kvn : Z; rno : Z; free_key : bool; src_buf : list Z; kvs : list db_kv }.

Definition set_rno (r : Z) (db : DB) : DB := MkDB (kvn db) r (free_key db) (src_buf db) (kvs db).
Definition set_kvn (n : Z) (db : DB) : DB := MkDB n (rno db) (free_key db) (src_buf db) (kvs db).
Definition set_buf (b : list Z) (db : DB) : DB := MkDB (kvn db) (rno db) (free_key db) b (kvs db).
Definition set_kvs (l : list db_kv) (db : DB) : DB := MkDB (kvn db) (rno db) (free_key db) (src_buf db) l.
Definition set_free_key (f : bool) (db : DB) : DB := MkDB (kvn db) (rno db) f (src_buf db) (kvs db).

(** The buffer is [src_buf db]; the result is the new [rno]. *)
Definition _dbsplitkv (db : DB) (base buf_len init_state : Z) : outcome (Z * DB) :=
  n ← _dbcountkv (src_buf db) base buf_len;
  r ← splitkv_loop (S (length (src_buf db))) base buf_len base n (src_buf db) [];
  let '(buf, l) := (r : list Z * list db_kv) in
  Done (init_state, set_kvn (u16 (Z.of_nat (length l))) (set_kvs l (set_buf buf db))).

Definition str_ok : cstring := [111; 107].
Definition str_not_found : cstring := [110; 111; 116; 95; 102; 111; 117; 110; 100].

(** The value that follows at [p], for [get] and [dbsize]. *)
Definition one_value (p rcv_len : Z) (db : DB) : outcome DB :=
  len ← _dbatoi (src_buf db) p;
  v ← after_nl (src_buf db) p (rcv_len - p);
  buf ← wr (v + len) 0 (src_buf db);
  match kvs db with
  | [] => Fault NullDeref
  | x :: l =>
    Done (set_kvn (u16 (kvn db + 1)) (set_buf buf (set_kvs (KV (key x) (key_len x) (PAt v) len :: l) db)))
  end.

(** The count a [multi] command answers with. *)
Definition count_reply (p rcv_len ok : Z) (db : DB) : outcome DB :=
  p ← after_nl (src_buf db) p (rcv_len - p);
  n ← _dbatoi (src_buf db) p;
  Done (set_kvn 0 (set_rno (if negb (kvn db =? n) then DB_ERR else ok) db)).

(** The second [switch] of [_dbphrase], on the data from [p] on. *)
Definition reply_data (cmd : command) (p rcv_len : Z) (db : DB) : outcome DB :=
  match cmd with
  | GET => one_value p rcv_len (set_rno DB_GET_OK db)
  | MULTI_GET => r ← _dbsplitkv db p (rcv_len - p) DB_MULTI_GET_OK;
                 let '(n, db) := (r : Z * DB) in Done (set_rno n db)
  | DEL => Done (set_rno DB_DEL_OK db)
  | SET =>
    len ← _dbatoi (src_buf db) p;
    _ ← memchr_nl (src_buf db) p (rcv_len - p);
    Done (set_rno (if negb (len =? 1) then DB_ERR else DB_SET_OK) db)
  | MULTI_SET => count_reply p rcv_len DB_MULTI_SET_OK db
  | MULTI_DEL => count_reply p rcv_len DB_MULTI_DEL_OK db
  | EXISTS =>
    a ← _dbatoi (src_buf db) p;
    e ← (if a =? 1 then b ← _dbatoi (src_buf db) (p + 2); Done (b =? 1) else Done false);
    Done (set_rno (if (e : bool) then DB_EXIST else DB_NO_EXIST) db)
  | SCAN => r ← _dbsplitkv db p (rcv_len - p) DB_SCAN_OK;
            let '(n, db) := (r : Z * DB) in Done (set_rno n db)
  | FLUSHDB => Done (set_rno DB_FLUSHDB_OK db)
  | DBSIZE => one_value p rcv_len (set_rno DB_DBSIZE_OK db)
  | CLR_BINLOG | COMPACT => Done db
  end.

(** Releasing the key [dbget] keeps: the flag that it is to be released goes. *)
Definition drop_key (cmd : command) (db : DB) : outcome DB :=
  match cmd with
  | GET => match kvs db with [] => Fault NullDeref | _ => Done (set_free_key false db) end
  | _ => Done db
  end.

Definition _dbphrase (rcv_len : Z) (db : DB) (cmd : command) : outcome DB :=
  len ← _dbatoi (src_buf db) 0;
  if len <=? 0 then Done (set_rno DB_ERR db)
  else
    p ← after_nl (src_buf db) 0 rcv_len;
    msg ← range (src_buf db) p (Z.min len 127);
    if len =? 2 then
      if bool_decide (msg = str_ok) then reply_data cmd (p + len + 1) rcv_len db
      else drop_key cmd (set_rno DB_NORET db)
    else if len =? 9 then
      if bool_decide (msg = str_not_found) then drop_key cmd (set_rno DB_NOT_FOUND db)
      else drop_key cmd (set_rno DB_NORET db)
    else reply_data cmd (p + len + 1) rcv_len (set_rno DB_NORET db).

(** ** Sending and receiving *)

(** Results of [send], one per call. *)
Fixpoint _dbsend (sends : list Z) (data : list Z) : Z * list Z :=
  match data with
  | [] => (0, [])
  | _ =>
    match sends with
    | [] => (-1, [])
    | len :: sends =>
      if len <=? 0 then (-1, [])
      else
        let n := Z.to_nat (Z.min len (Z.of_nat (length data))) in
        let '(r, out) := _dbsend sends (drop n data) in (r, take n data ++ out)
    end
  end.

(** [-1] when the reply seems complete. *)
Definition _dbcheck (buf : list Z) (buflen : Z) : outcome Z :=
  a ← rd buf (buflen - 2);
  if a =? NL then b ← rd buf (buflen - 1); Done (if b =? NL then -1 else 0) else Done 0.

(** [recv(fd, buf + off, n, 0)] with the bytes that have arrived; [fill] is
    what the bytes behind a block hold after [wys_realloc]. *)
Definition store_at (off : Z) (bs buf : list Z) : outcome (list Z) :=
  if Z.of_nat (length buf) <? off + Z.of_nat (length bs) then Fault OutOfBounds
  else Done (take (Z.to_nat off) buf ++ bs ++ drop (Z.to_nat off + length bs) buf).

(** The loop of [_dbrecv]: the block, what it holds so far, the length of the
    last chunk; the chunks still to come.  [None] is the failure return. *)
Fixpoint recv_loop (fill : nat -> Z) (chunks : list (list Z)) (buf : list Z) (rcv_len r_len : Z) :
    outcome (option (list Z * Z)) :=
  let rcv_len := rcv_len + r_len in
  c ← _dbcheck buf rcv_len;
  if negb (c =? 0) then Done (Some (buf, rcv_len))
  else
    let full := rcv_len =? Z.of_nat (length buf) in
    let buf := if full then buf ++ (fill <$> seq 0 (Z.to_nat DB_BUFLEN)) else buf in
    let room := if full then DB_BUFLEN else DB_BUFLEN - r_len in
    match chunks with
    | [] => Done None
    | bs :: chunks =>
      let bs := take (Z.to_nat room) bs in
      if (length bs =? 0)%nat then Done None
      else buf ← store_at rcv_len bs buf; recv_loop fill chunks buf rcv_len (Z.of_nat (length bs))
    end.

Definition _dbrecv (fill : nat -> Z) (chunks : list (list Z)) : outcome (option (list Z * Z)) :=
  let buf := replicate (Z.to_nat DB_BUFLEN) 0 in
  match chunks with
  | [] => Done None
  | bs :: chunks =>
    let bs := take (Z.to_nat DB_BUFLEN) bs in
    if (length bs =? 0)%nat then Done None
    else buf ← store_at 0 bs buf; recv_loop fill chunks buf 0 (Z.of_nat (length bs))
  end.

End Wire.

Module Db.

Import Registry Wire.

(** ** The pool of connections *)

Record dbconn := Conn { fd : Z; keepalive : Z }.

(** [link_to_pool] is the chain of the descriptor, [link_to_free] the list of
    idle connections. *)
Definition F_POOL : Z := 0.
Definition F_FREE : Z := 1.
Definition FREE_LIST : Z * (Z * Z) := (F_FREE, (0, 0)).
Definition DB_HASH_IDX (fd : Z) : Z := Z.land (u32 fd) 0xFF.

(** [closed] and [wire] record what left the program. *)
Record pool := MkPool {
  conns : reg dbconn; _db_pool_conn_count : Z; _db_free_conn_count : Z; clk : Timer.clock;
  closed : list Z; wire : list (Z * list Z)
}.

Definition _dbenter_pool_conn_hash (a : addr) (s : pool) : outcome pool :=
  c ← deref (conns s) a;
  Done (MkPool (Reg (objs (conns s)) (add_head (F_POOL, (0, DB_HASH_IDX (fd c))) a (tbl (conns s))))
          (s32 (_db_pool_conn_count s + 1)) (_db_free_conn_count s) (clk s) (closed s) (wire s)).

Definition _dbpush_free_conn_list (a : addr) (s : pool) : outcome pool :=
  _ ← deref (conns s) a;
  Done (MkPool (Reg (objs (conns s)) (add_tail FREE_LIST a (tbl (conns s))))
          (_db_pool_conn_count s) (s32 (_db_free_conn_count s + 1)) (clk s) (closed s) (wire s)).

Definition _dbout_pool_conn_hash (a : addr) (s : pool) : outcome pool :=
  _ ← deref (conns s) a;
  Done (MkPool (Reg (objs (conns s)) (hlist_del_init F_POOL a (tbl (conns s))))
          (s32 (_db_pool_conn_count s - 1)) (_db_free_conn_count s) (clk s) (closed s) (wire s)).

Definition _db_conn_destory (a : addr) (s : pool) : outcome pool :=
  s ← _dbout_pool_conn_hash a s;
  c ← deref (conns s) a;
  Done (MkPool (Reg (delete a (objs (conns s))) (tbl (conns s)))
          (_db_pool_conn_count s) (_db_free_conn_count s) (clk s) (closed s ++ [fd c]) (wire s)).

(** What the system answers during one try: the block and descriptor of a new
    connection if [connect] succeeds, the time, the results of [send] and the
    chunks that arrive. *)
Record try := Try {
  t_conn : option (addr * Z); t_time : Z * Z; t_sends : list Z; t_chunks : list (list Z)
}.

Section Calls.

Context (W : Z) (fill : nat -> Z).

Definition _dbjiffies := Timer.jiffies_get W.

Definition _db_new_conn (t : try) (s : pool) : outcome (option addr * pool) :=
  match t_conn t with
  | None => Done (None, s)
  | Some (a, f) =>
    let '(now, c) := _dbjiffies (t_time t).1 (t_time t).2 (clk s) in
    s ← _dbenter_pool_conn_hash a
          (MkPool (Reg (<[a := Conn f (wrapu W (now + DB_CONN_KEEP_ALIVE))]> (objs (conns s))) (tbl (conns s)))
             (_db_pool_conn_count s) (_db_free_conn_count s) c (closed s) (wire s));
    Done (Some a, s)
  end.

Definition _db_get_conn (t : try) (s : pool) : outcome (option addr * pool) :=
  if _db_free_conn_count s <? 0 then Fault AssertFailed
  else if _db_free_conn_count s =? 0 then _db_new_conn t s
  else
    match tget (tbl (conns s)) FREE_LIST with
    | [] => Fault AssertFailed
    | a :: _ =>
      _ ← deref (conns s) a;
      Done (Some a,
        MkPool (Reg (objs (conns s)) (unlink F_FREE a (tbl (conns s))))
          (_db_pool_conn_count s) (s32 (_db_free_conn_count s - 1)) (clk s) (closed s) (wire s))
    end.

Definition _db_conn_free (a : addr) (s : pool) : outcome pool := _dbpush_free_conn_list a s.

Definition send_wire (f : Z) (bs : list Z) (s : pool) : pool :=
  MkPool (conns s) (_db_pool_conn_count s) (_db_free_conn_count s) (clk s) (closed s) (wire s ++ [(f, bs)]).

(** One try with connection [a]: the received buffer, or [None] for a failure. *)
Definition exchange (t : try) (a : addr) (data : list Z) (s : pool) : outcome (option (list Z * Z) * pool) :=
  c ← deref (conns s) a;
  let '(r, out) := _dbsend (t_sends t) data in
  let s := send_wire (fd c) out s in
  if negb (r =? 0) then Done (None, s) else r ← _dbrecv fill (t_chunks t); Done (r, s).

(** A try the system answers nothing to. *)
Definition silent : try := Try None (0, 0) [] [].

(** The jumps to [REDO]; [n] tries are left.  A connection that failed is
    destroyed before the next try.  A try beyond [ts] is [silent]. *)
Fixpoint redo (n : nat) (ts : list try) (data : list Z) (db : DB) (cmd : command) (s : pool) : outcome (DB * pool) :=
  match n with
  | O => Done (db, s)
  | S n =>
    let t := default silent (head ts) in
    r ← _db_get_conn t s;
    let '(conn, s) := (r : option addr * pool) in
    match conn with
    | None => Done (set_rno DB_CONNECT_ERR db, s)
    | Some a =>
      r ← exchange t a data s;
      let '(reply, s) := (r : option (list Z * Z) * pool) in
      match reply with
      | None => s ← _db_conn_destory a s; redo n (tail ts) data (set_rno DB_CONNECT_ERR db) cmd s
      | Some (buf, rcv_len) =>
        s ← _db_conn_free a s;
        db ← _dbphrase rcv_len (set_buf buf db) cmd;
        Done (db, s)
      end
    end
  end.

Definition _dbdo (ts : list try) (data : list Z) (db : DB) (cmd : command) (s : pool) : outcome (DB * pool) :=
  redo 4 ts data db cmd s.

Local Open Scope string_scope.
Local Open Scope list_scope.
Local Open Scope Z_scope.

Definition _dbstr (cmd : command) : cstring :=
  str match cmd with
      | SET => "set" | GET => "get" | SCAN => "scan" | DEL => "del" | EXISTS => "exists"
      | MULTI_GET => "multi_get" | MULTI_SET => "multi_set" | MULTI_DEL => "multi_del"
      | FLUSHDB => "flushdb" | DBSIZE => "dbsize" | CLR_BINLOG => "clear_binlog" | COMPACT => "compact"
      end.

(** [sprintf ("%d\n%s\n", n, s)] *)
Definition block_text (n : Z) (s : cstring) : list Z := dec n ++ [NL] ++ s ++ [NL].

(** The request [_dbcmd] puts together from [datalen] bytes of [data], which
    may be a null pointer. *)
Definition cmd_text (cmd : command) (data : option (list Z)) (datalen : Z) : outcome (list Z) :=
  let head := block_text (Z.of_nat (length (_dbstr cmd))) (_dbstr cmd) in
  match data with
  | Some d => if datalen =? 0 then Done (head ++ [NL])
              else bs ← range d 0 datalen; Done (head ++ bs ++ [NL])
  | None => Done (head ++ replicate (Z.to_nat datalen) 0 ++ [NL])
  end.

Definition _dbcmd (ts : list try) (cmd : command) (data : option (list Z)) (datalen : Z) (db : DB) (s : pool) :
    outcome (DB * pool) :=
  _ ← sint (Z.of_nat (length (block_text (Z.of_nat (length (_dbstr cmd))) (_dbstr cmd))) + datalen + 1);
  text ← cmd_text cmd data datalen;
  _dbdo ts text db cmd s.

Definition _dbcreate : DB := MkDB 0 0 false [] [].

(** ** The calls *)

(** [sprintf] of a text into a block of [size] bytes. *)
Definition sprintf_block (size : Z) (text : list Z) : outcome (list Z) :=
  if Z.of_nat (length text) + 1 <=? size then Done (text ++ [0]) else Fault OutOfBounds.

(** [key] is the string the pointer points to, with its terminator readable. *)
Definition dbget (ts : list try) (key : option cstring) (key_len : Z) (s : pool) : outcome (DB * pool) :=
  match key with
  | None => Done (set_rno DB_INVALID_PARMS _dbcreate, s)
  | Some k =>
    if key_len =? 0 then Done (set_rno DB_INVALID_PARMS _dbcreate, s)
    else
      own ← range (k ++ [0]) 0 key_len;
      let db := set_free_key true (set_kvs [KV (POwn own) key_len PNull 0] _dbcreate) in
      size ← sint (key_len + 16);
      data ← sprintf_block size (block_text key_len k);
      _dbcmd ts GET (Some data) (Z.of_nat (length (block_text key_len k))) db s
  end.

(** [dbdel] and [dbexists] *)
Definition key_call (cmd : command) (ts : list try) (key : option cstring) (key_len : Z) (s : pool) :
    outcome (DB * pool) :=
  match key with
  | None => Done (set_rno DB_INVALID_PARMS _dbcreate, s)
  | Some k =>
    if key_len =? 0 then Done (set_rno DB_INVALID_PARMS _dbcreate, s)
    else
      size ← sint (key_len + 16);
      data ← sprintf_block size (block_text key_len k);
      _dbcmd ts cmd (Some data) (Z.of_nat (length (block_text key_len k))) _dbcreate s
  end.
Definition dbdel := key_call DEL.
Definition dbexists := key_call EXISTS.

(** The value is the bytes [val] points to. *)
Definition dbset (ts : list try) (key : option cstring) (key_len : Z) (val : option (list Z)) (val_len : Z) (s : pool) :
    outcome (DB * pool) :=
  match key, val with
  | Some k, Some v =>
    if (length k =? 0)%nat || (val_len <=? 0) then Done (set_rno DB_INVALID_PARMS _dbcreate, s)
    else
      let head := dec key_len ++ [NL] ++ k ++ [NL] ++ dec val_len ++ [NL] in
      size ← sint (key_len + val_len + 64);
      bs ← range v 0 val_len;
      if size <? Z.of_nat (length head) + val_len + 1 then Fault OutOfBounds
      else _dbcmd ts SET (Some (head ++ bs ++ [NL])) (Z.of_nat (length head) + val_len + 1) _dbcreate s
  | _, _ => Done (set_rno DB_INVALID_PARMS _dbcreate, s)
  end.

(** [data_len] is a signed character. *)
Definition dbscan (ts : list try) (start : option cstring) (start_len : Z) (end_ : option cstring) (end_len max : Z)
    (s : pool) : outcome (DB * pool) :=
  match start, end_ with
  | Some a, Some b =>
    if max <? 1 then Done (set_rno DB_INVALID_PARMS _dbcreate, s)
    else
      max_len ← _dbnumlen max;
      let text := block_text start_len a ++ block_text end_len b ++ dec max_len ++ [NL] ++ dec max ++ [NL] in
      size ← sint (start_len + end_len + max_len + 64);
      data ← sprintf_block size text;
      _dbcmd ts SCAN (Some data) (s8 (Z.of_nat (length text))) _dbcreate s
  | _, _ => Done (set_rno DB_INVALID_PARMS _dbcreate, s)
  end.

(** A record as the caller hands it over: strings, and the lengths it states. *)
Record arg := Arg { g_key : cstring; g_klen : Z; g_val : list Z; g_vlen : Z }.

Fixpoint multi_set_size (l : list arg) : outcome Z :=
  match l with
  | [] => Done 0
  | x :: l =>
    a ← _dbnumlen (g_klen x); b ← _dbnumlen (g_vlen x); r ← multi_set_size l;
    Done (g_klen x + g_vlen x + a + b + 4 + r)
  end.

Fixpoint multi_set_text (l : list arg) : outcome (list Z) :=
  match l with
  | [] => Done []
  | x :: l =>
    v ← range (g_val x) 0 (g_vlen x); r ← multi_set_text l;
    Done (block_text (g_klen x) (g_key x) ++ dec (g_vlen x) ++ [NL] ++ v ++ [NL] ++ r)
  end.

Definition dbmulti_set (ts : list try) (l : list arg) (s : pool) : outcome (DB * pool) :=
  if (length l =? 0)%nat then Done (set_rno DB_INVALID_PARMS _dbcreate, s)
  else
    total ← multi_set_size l;
    size ← sint (total + 64);
    text ← multi_set_text l;
    if size <? Z.of_nat (length text) then Fault OutOfBounds
    else _dbcmd ts MULTI_SET (Some text) (Z.of_nat (length text)) (set_kvn (u16 (Z.of_nat (length l))) _dbcreate) s.

Fixpoint multi_keys_size (l : list (cstring * Z)) : outcome Z :=
  match l with
  | [] => Done 0
  | (_, n) :: l => a ← _dbnumlen n; r ← multi_keys_size l; Done (n + a + 2 + r)
  end.

Definition multi_keys_text (l : list (cstring * Z)) : list Z := l ≫= fun x => block_text x.2 x.1.

(** [dbmulti_get] and [dbmulti_del]; [db] is the new result. *)
Definition multi_keys (cmd : command) (ts : list try) (l : list (cstring * Z)) (db : DB) (s : pool) : outcome (DB * pool) :=
  if (length l =? 0)%nat then Done (set_rno DB_INVALID_PARMS _dbcreate, s)
  else
    total ← multi_keys_size l;
    size ← sint (total + 64);
    data ← sprintf_block size (multi_keys_text l);
    _dbcmd ts cmd (Some data) (Z.of_nat (length (multi_keys_text l))) db s.
Definition dbmulti_get ts l := multi_keys MULTI_GET ts l _dbcreate.
Definition dbmulti_del ts l := multi_keys MULTI_DEL ts l (set_kvn (u16 (Z.of_nat (length l))) _dbcreate).

(** The three commands of [dbflush], each with its own tries. *)
Definition dbflush (t1 t2 t3 : list try) (s : pool) : outcome (DB * pool) :=
  r ← _dbcmd t1 FLUSHDB None 0 _dbcreate s;
  let '(db, s) := (r : DB * pool) in
  r ← _dbcmd t2 CLR_BINLOG None 0 _dbcreate s;
  let '(_, s) := (r : DB * pool) in
  r ← _dbcmd t3 COMPACT None 0 _dbcreate s;
  let '(_, s) := (r : DB * pool) in
  Done (db, s).

Definition dbsize (t1 t2 : list try) (s : pool) : outcome (DB * pool) :=
  let db := set_kvs [no_kv] _dbcreate in
  r ← _dbcmd t1 COMPACT None 0 _dbcreate s;
  let '(_, s) := (r : DB * pool) in
  _dbcmd t2 DBSIZE None 0 db s.

(** [dbfree] releases [kvs[0].key] if the flag says so. *)
Definition dbfree (db : DB) : outcome unit :=
  if free_key db then
    match kvs db with
    | KV (POwn _) _ _ _ :: _ => Done tt
    | [] => Fault NullDeref
    | _ => Fault UseAfterFree
    end
  else Done tt.

Definition dbinit (W : Z) (tv_sec : Z) (s : pool) : pool :=
  MkPool (Reg (objs (conns s)) (<[FREE_LIST := []]> (init_heads F_POOL 0 256 (tbl (conns s)))))
    (_db_pool_conn_count s) (_db_free_conn_count s)
    (Timer.jiffies_init W tv_sec (clk s)) (closed s) (wire s).

End Calls.

(** ** Messages, and a connection without the pool *)

Definition _dbret_str : list (list Z) :=
  map str ["unknown err"; "database err"; "no enough mem"; "invalid parms"; "connect database err"; "key not found";
     "set success"; "get success"; "del success"; "scan success"; "key donnot exists"; "key exists"; "multi get success"; "multi set success"; "multi del success";
     "flushdb success"; "dbsize success"; "invalid errno"]%string.

Definition dberr (dbrno : Z) : outcome (list Z) :=
  get_or OutOfBounds (_dbret_str !! (if DB_RNO_MAX <=? u16 dbrno then 0%nat else Z.to_nat (u16 dbrno))).

(** [fd] and [rc] are what [socket] and [connect] return; the descriptor
    stays open when [connect] fails. *)
Definition _dbconnect (fd rc : Z) : Z := if (fd <? 0) || (rc <? 0) then -1 else fd.

End Db.
