(* ===== verification/DbFacts.v ===== *)
(** * DbFacts: the protocol of the record store's client

    What the calls send is the SSDB encoding of the command and its arguments,
    and a reply is taken apart into exactly the records the server encoded. *)

From Stdlib Require Import Ascii String.
From S2P Require Import Prelude CString Registry Timer Rules Db.
Import Wire.
Local Open Scope Z_scope.

(** ** Numerals *)

Section Numerals.

Lemma sint_ok n : - 2 ^ 31 <= n < 2 ^ 31 -> sint n = Done n.
Proof. intros Hn. unfold sint. by destruct (Z.leb_spec (- 2 ^ 31) n), (Z.ltb_spec n (2 ^ 31)); [lia..| |lia|lia|lia]. Qed.

Lemma dec_spec n :
  0 <= n < 2 ^ 31 ->
  Forall (fun c => is_digit c = true) (dec n) /\ dec n <> [] /\ read_dec (dec n) 0 = n.
Proof.
  intros Hn. unfold dec. destruct (Z.ltb_spec n 0); [lia|].
  destruct (dec_loop_spec 19 n []) as (ds & E & Hf & Hne & Hv & _); [lia|]. rewrite E, app_nil_r.
  split; [done|]. split; [done|]. rewrite Hv. lia.
Qed.

Lemma digits_app ds rest c : forall a,
  Forall (fun c => is_digit c = true) ds -> is_digit c = false -> digits (ds ++ c :: rest) a = Some (read_dec ds a).
Proof.
  induction ds as [|d ds IH]; intros a Hds Hc; simpl.
  - by rewrite Hc.
  - inversion_clear Hds as [|? ? Hd Hds']. rewrite Hd. by apply IH.
Qed.

Lemma rd_mid pre c rest : rd (pre ++ c :: rest) (Z.of_nat (length pre)) = Done c.
Proof. unfold rd. destruct (Z.ltb_spec (Z.of_nat (length pre)) 0); [lia|]. by rewrite Nat2Z.id, list_lookup_middle. Qed.

Lemma atoi_dec pre n rest :
  0 <= n < 2 ^ 31 -> _dbatoi (pre ++ dec n ++ NL :: rest) (Z.of_nat (length pre)) = Done n.
Proof.
  intros Hn. destruct (dec_spec n Hn) as (Hf & Hne & Hv). unfold _dbatoi.
  destruct (dec n) as [|d ds] eqn:E; [done|]. cbn [app]. rewrite rd_mid, bind_Done.
  inversion_clear Hf as [|? ? Hd Hds]. rewrite Hd. simpl negb. cbv iota.
  rewrite Nat2Z.id, drop_app_length. change (d :: ds ++ NL :: rest) with ((d :: ds) ++ NL :: rest).
  rewrite digits_app by (done || by constructor). rewrite Hv. cbn [get_or]. rewrite bind_Done.
  apply sint_ok. lia.
Qed.

Lemma numlen_dec_loop f : forall n acc k f1 f2,
  0 < n < 10 ^ Z.of_nat f -> (f <= f1)%nat -> (f <= f2)%nat ->
  numlen_loop f1 n k + Z.of_nat (length acc) = k + Z.of_nat (length (dec_loop f2 n acc)).
Proof.
  induction f as [|f IH]; intros n acc k f1 f2 Hn H1 H2; [simpl in Hn; lia|].
  destruct f1 as [|f1]; [lia|]. destruct f2 as [|f2]; [lia|]. cbn [numlen_loop]. rewrite dec_loop_S.
  destruct (Z.eqb_spec n 0); [lia|]. destruct (Z.ltb_spec n 10) as [Hlt|Hge].
  - rewrite (Z.div_small n 10) by lia. destruct f1; cbn [numlen_loop]; rewrite ?Z.eqb_refl; cbn [length]; lia.
  - rewrite Nat2Z.inj_succ, Z.pow_succ_r in Hn by lia.
    assert (0 < n / 10 < 10 ^ Z.of_nat f) by (split; [apply Z.div_str_pos; lia|apply Z.div_lt_upper_bound; lia]).
    pose proof (IH (n / 10) ((48 + n mod 10) :: acc) (k + 1) f1 f2) as E. simpl length in E. lia.
Qed.

Lemma numlen_dec n : 0 <= n < 2 ^ 31 -> _dbnumlen n = Done (Z.of_nat (length (dec n))).
Proof.
  intros Hn. unfold _dbnumlen. destruct (Z.eqb_spec n 0) as [->|H0]; [done|].
  destruct (Z.ltb_spec 0 n); [|lia]. f_equal. unfold dec. destruct (Z.ltb_spec n 0); [lia|].
  pose proof (numlen_dec_loop 10 n [] 0 11 20 ltac:(change (10 ^ Z.of_nat 10) with 10000000000; lia) ltac:(lia) ltac:(lia)) as E.
  change (Z.of_nat (length ([] : list Z))) with 0 in E. lia.
Qed.

End Numerals.

(** ** Blocks *)

(** The encoding of a block, of a message, and of a list of records. *)
Definition blk (b : list Z) : list Z := dec (Z.of_nat (length b)) ++ [NL] ++ b ++ [NL].
Definition ssdb (bs : list (list Z)) : list Z := (bs ≫= blk) ++ [NL].
Definition fields (l : list (list Z * list Z)) : list (list Z) := l ≫= fun kv => [kv.1; kv.2].

(** A block whose final line feed was overwritten. *)
Definition cut (b : list Z) : list Z := dec (Z.of_nat (length b)) ++ [NL] ++ b ++ [0].

Definition small (b : list Z) : Prop := Z.of_nat (length b) < 2 ^ 31.

Lemma blks_nil : ([] : list (list Z)) ≫= blk = [].
Proof. done. Qed.

Lemma length_blk b : length (blk b) = (length (dec (Z.of_nat (length b))) + length b + 2)%nat.
Proof. unfold blk. rewrite !length_app. cbn [length]. lia. Qed.

Lemma length_cut b : length (cut b) = length (blk b).
Proof. unfold cut, blk. by rewrite !length_app. Qed.

Lemma atoi_blk pre b rest :
  small b -> _dbatoi (pre ++ blk b ++ rest) (Z.of_nat (length pre)) = Done (Z.of_nat (length b)).
Proof. unfold small, blk. intros Hb. rewrite <- !app_assoc. apply atoi_dec. lia. Qed.

Lemma next_block_spec pre b rest :
  small b -> next_block (pre ++ blk b ++ rest) (Z.of_nat (length pre)) = Done (Z.of_nat (length (pre ++ blk b))).
Proof.
  intros Hb. unfold next_block. rewrite !atoi_blk, bind_Done by done. unfold small in Hb.
  rewrite numlen_dec, !bind_Done by lia. f_equal. rewrite length_app, length_blk. lia.
Qed.

Lemma wr_app pre c rest d : wr (Z.of_nat (length pre)) d (pre ++ c :: rest) = Done (pre ++ d :: rest).
Proof.
  unfold wr. rewrite length_app. simpl length. destruct (Z.ltb_spec (Z.of_nat (length pre)) 0); [lia|].
  destruct (Z.leb_spec (Z.of_nat (length pre + S (length rest))) (Z.of_nat (length pre))); [lia|]. simpl.
  f_equal. rewrite Nat2Z.id, <- (Nat.add_0_r (length pre)), insert_app_r. done.
Qed.

(** Where the bytes of a block start. *)
Definition body (p : Z) (b : list Z) : Z := p + Z.of_nat (length (dec (Z.of_nat (length b)))) + 1.

Lemma cut_block_spec pre b rest :
  small b ->
  cut_block (pre ++ blk b ++ rest) (Z.of_nat (length pre)) =
  Done (Z.of_nat (length b), body (Z.of_nat (length pre)) b, pre ++ cut b ++ rest).
Proof.
  intros Hb. unfold cut_block. rewrite atoi_blk, bind_Done by done. unfold small in Hb.
  rewrite numlen_dec, bind_Done by lia. unfold blk, cut. set (d := dec (Z.of_nat (length b))).
  replace (pre ++ (d ++ [NL] ++ b ++ [NL]) ++ rest) with ((pre ++ d ++ [NL] ++ b) ++ NL :: rest)
    by (by rewrite <- !app_assoc).
  replace (Z.of_nat (length pre) + Z.of_nat (length d) + 1 + Z.of_nat (length b))
    with (Z.of_nat (length (pre ++ d ++ [NL] ++ b))) by (rewrite !length_app; simpl; lia).
  rewrite wr_app, bind_Done. unfold body. fold d. by rewrite <- !app_assoc.
Qed.

Lemma range_mid pre b rest : range (pre ++ b ++ rest) (Z.of_nat (length pre)) (Z.of_nat (length b)) = Done b.
Proof.
  unfold range. rewrite !length_app.
  destruct (Z.ltb_spec (Z.of_nat (length pre)) 0), (Z.ltb_spec (Z.of_nat (length b)) 0); try lia. simpl.
  destruct (Z.ltb_spec (Z.of_nat (length pre + (length b + length rest))) (Z.of_nat (length pre) + Z.of_nat (length b))); [lia|].
  by rewrite !Nat2Z.id, drop_app_length, take_app_length.
Qed.

(** ** Replies of records *)

(** The bytes of a string of a result. *)
Definition text_of (buf : list Z) (q : ptr) (len : Z) : outcome (list Z) :=
  match q with PNull => Fault NullDeref | PAt o => range buf o len | POwn bs => Done bs end.

Definition reads (buf : list Z) (x : db_kv) (kv : list Z * list Z) : Prop :=
  text_of buf (key x) (key_len x) = Done kv.1 /\ text_of buf (val x) (val_len x) = Done kv.2.

(** The records of [l] laid out from [p] on. *)
Fixpoint placed (p : Z) (l : list (list Z * list Z)) : list db_kv :=
  match l with
  | [] => []
  | (k, v) :: l =>
    let q := p + Z.of_nat (length (blk k)) in
    KV (PAt (body p k)) (Z.of_nat (length k)) (PAt (body q v)) (Z.of_nat (length v)) ::
    placed (q + Z.of_nat (length (blk v))) l
  end.

Definition recs (l : list (list Z * list Z)) : list Z := fields l ≫= blk.
Definition cuts (l : list (list Z * list Z)) : list Z := fields l ≫= cut.

Definition small_kv (kv : list Z * list Z) : Prop := small kv.1 /\ small kv.2.

Lemma recs_cons k v l : recs ((k, v) :: l) = blk k ++ blk v ++ recs l.
Proof. done. Qed.

Lemma cuts_cons k v l : cuts ((k, v) :: l) = cut k ++ cut v ++ cuts l.
Proof. done. Qed.

Lemma length_cuts l : length (cuts l) = length (recs l).
Proof.
  induction l as [|[k v] l IH]; [done|]. rewrite recs_cons, cuts_cons, !length_app, !length_cut. lia.
Qed.

Lemma length_recs l : (4 * length l <= length (recs l))%nat.
Proof.
  induction l as [|[k v] l IH]; [simpl; lia|]. rewrite recs_cons, !length_app, !length_blk. simpl length. lia.
Qed.

Lemma countkv_spec l : forall pre rest fuel base cnt,
  Forall small_kv l -> (length l < fuel)%nat -> 0 <= cnt -> cnt + Z.of_nat (length l) < 2 ^ 32 ->
  countkv_loop fuel (pre ++ recs l ++ rest) base (Z.of_nat (length pre + length (recs l)) - base + 1)
    (Z.of_nat (length pre)) cnt = Done (cnt + Z.of_nat (length l)).
Proof.
  induction l as [|[k v] l IH]; intros pre rest [|fuel] base cnt Hl Hf H0 Hc; simpl in Hf; try lia; cbn [countkv_loop].
  - simpl length. destruct (Z.ltb_spec (Z.of_nat (length pre) - base) (Z.of_nat (length pre + 0) - base + 1 - 1)); [lia|].
    f_equal. lia.
  - inversion_clear Hl as [|? ? [Hk Hv] Hl']. simpl in Hk, Hv. rewrite recs_cons.
    pose proof (length_blk k). pose proof (length_blk v).
    match goal with |- context [?a <? ?b] => destruct (Z.ltb_spec a b) end; [|rewrite !length_app in *; lia].
    rewrite <- !app_assoc, next_block_spec, bind_Done by done.
    replace (pre ++ blk k ++ blk v ++ recs l ++ rest) with ((pre ++ blk k) ++ blk v ++ recs l ++ rest)
      by (by rewrite <- !app_assoc).
    rewrite next_block_spec, bind_Done by done. simpl length in Hc.
    replace (u32 (cnt + 1)) with (cnt + 1) by (symmetry; apply wrapu_small; lia).
    specialize (IH ((pre ++ blk k) ++ blk v) rest fuel base (cnt + 1) Hl' ltac:(lia) ltac:(lia) ltac:(lia)).
    repeat rewrite <- app_assoc in IH. repeat rewrite <- app_assoc.
    replace (Z.of_nat (length pre + length (blk k ++ blk v ++ recs l)) - base + 1)
      with (Z.of_nat (length (pre ++ blk k ++ blk v) + length (recs l)) - base + 1) by (rewrite !length_app; lia).
    rewrite IH. f_equal. simpl length. lia.
Qed.

Lemma splitkv_spec l : forall pre rest fuel base room kvs0,
  Forall small_kv l -> (length l < fuel)%nat -> Z.of_nat (length kvs0 + length l) <= room ->
  splitkv_loop fuel base (Z.of_nat (length pre + length (recs l)) - base + 1) (Z.of_nat (length pre)) room
    (pre ++ recs l ++ rest) kvs0 =
  Done (pre ++ cuts l ++ rest, kvs0 ++ placed (Z.of_nat (length pre)) l).
Proof.
  induction l as [|[k v] l IH]; intros pre rest [|fuel] base room kvs0 Hl Hf Hr; simpl in Hf; try lia; cbn [splitkv_loop].
  - simpl length. destruct (Z.ltb_spec (Z.of_nat (length pre) - base) (Z.of_nat (length pre + 0) - base + 1 - 1)); [lia|].
    by rewrite app_nil_r.
  - inversion_clear Hl as [|? ? [Hk Hv] Hl']. simpl in Hk, Hv. rewrite recs_cons, cuts_cons. cbn [placed].
    pose proof (length_blk k). pose proof (length_blk v). simpl length in Hr.
    match goal with |- context [?a <? ?b] => destruct (Z.ltb_spec a b) end; [|rewrite !length_app in *; lia].
    destruct (Z.leb_spec room (Z.of_nat (length kvs0))); [lia|].
    rewrite <- !app_assoc, cut_block_spec, bind_Done by done.
    replace (body (Z.of_nat (length pre)) k + Z.of_nat (length k) + 1) with (Z.of_nat (length (pre ++ cut k)))
      by (rewrite length_app, length_cut; unfold body; lia).
    replace (pre ++ cut k ++ blk v ++ recs l ++ rest) with ((pre ++ cut k) ++ blk v ++ recs l ++ rest)
      by (by rewrite <- !app_assoc).
    rewrite cut_block_spec, bind_Done by done.
    replace (body (Z.of_nat (length (pre ++ cut k))) v + Z.of_nat (length v) + 1)
      with (Z.of_nat (length ((pre ++ cut k) ++ cut v))) by (rewrite !length_app, !length_cut; unfold body; lia).
    match goal with |- splitkv_loop _ _ _ _ _ _ ?ks = _ => set (ks0 := ks) end.
    specialize (IH ((pre ++ cut k) ++ cut v) rest fuel base room ks0 Hl' ltac:(lia)).
    repeat rewrite <- app_assoc in IH. repeat rewrite <- app_assoc.
    replace (Z.of_nat (length pre + length (blk k ++ blk v ++ recs l)) - base + 1)
      with (Z.of_nat (length (pre ++ cut k ++ cut v) + length (recs l)) - base + 1)
      by (rewrite !length_app, !length_cut; lia).
    rewrite IH by (unfold ks0; rewrite length_app; simpl; lia). unfold ks0. rewrite <- app_assoc. simpl.
    repeat f_equal; rewrite ?length_app, ?length_cut; lia.
Qed.

Lemma placed_reads l : forall pre rest,
  Forall2 (reads (pre ++ cuts l ++ rest)) (placed (Z.of_nat (length pre)) l) l.
Proof.
  induction l as [|[k v] l IH]; intros pre rest; [constructor|]. cbn [placed]. rewrite cuts_cons. constructor.
  - split; cbn [key key_len val val_len text_of fst snd].
    + unfold cut at 1. set (d := dec (Z.of_nat (length k))).
      replace (body (Z.of_nat (length pre)) k) with (Z.of_nat (length (pre ++ d ++ [NL])))
        by (unfold body; rewrite !length_app; simpl; fold d; lia).
      rewrite <- !app_assoc.
      replace (pre ++ d ++ [NL] ++ k ++ [0] ++ cut v ++ cuts l ++ rest)
        with ((pre ++ d ++ [NL]) ++ k ++ [0] ++ cut v ++ cuts l ++ rest) by (by rewrite <- !app_assoc).
      apply range_mid.
    + unfold cut at 2. set (d := dec (Z.of_nat (length v))).
      replace (body (Z.of_nat (length pre) + Z.of_nat (length (blk k))) v) with (Z.of_nat (length (pre ++ cut k ++ d ++ [NL])))
        by (unfold body; rewrite !length_app, length_cut; simpl; fold d; lia).
      rewrite <- !app_assoc.
      replace (pre ++ cut k ++ d ++ [NL] ++ v ++ [0] ++ cuts l ++ rest)
        with ((pre ++ cut k ++ d ++ [NL]) ++ v ++ [0] ++ cuts l ++ rest) by (by rewrite <- !app_assoc).
      apply range_mid.
  - specialize (IH (pre ++ cut k ++ cut v) rest).
    replace (Z.of_nat (length pre) + Z.of_nat (length (blk k)) + Z.of_nat (length (blk v)))
      with (Z.of_nat (length (pre ++ cut k ++ cut v))) by (rewrite !length_app, !length_cut; lia).
    repeat rewrite <- app_assoc in IH. by repeat rewrite <- app_assoc.
Qed.

(** ** What is sent *)

Section Requests.

Import Db.
Context (W : Z) (fill : nat -> Z).

Lemma dec_loop_length f : forall n acc f2,
  0 <= n < 10 ^ Z.of_nat (S f) -> (S f <= f2)%nat -> (length (dec_loop f2 n acc) <= S f + length acc)%nat.
Proof.
  induction f as [|f IH]; intros n acc [|f2] Hn Hf; try lia; rewrite dec_loop_S;
    (destruct (Z.ltb_spec n 10); [simpl; lia|]).
  - change (10 ^ Z.of_nat 1) with 10 in Hn. lia.
  - rewrite Nat2Z.inj_succ, Z.pow_succ_r in Hn by lia.
    specialize (IH (n / 10) ((48 + n mod 10) :: acc) f2). simpl length in IH.
    assert (0 <= n / 10 < 10 ^ Z.of_nat (S f)) by (split; [apply Z.div_pos; lia|apply Z.div_lt_upper_bound; lia]).
    specialize (IH ltac:(done) ltac:(lia)). lia.
Qed.

Lemma dec_length n : 0 <= n < 2 ^ 31 -> (length (dec n) <= 10)%nat.
Proof.
  intros Hn. unfold dec. destruct (Z.ltb_spec n 0); [lia|].
  pose proof (dec_loop_length 9 n [] 20 ltac:(change (10 ^ Z.of_nat 10) with 10000000000; lia) ltac:(lia)).
  rewrite Nat.add_0_r in *. done.
Qed.

(** The arguments of a call: the strings with the lengths the caller states. *)
Definition honest (k : cstring) : Prop := k <> [] /\ Z.of_nat (length k) < 2 ^ 29.

Lemma honest_small k : honest k -> small k.
Proof. unfold honest, small. lia. Qed.

Lemma range_all (b rest : list Z) : range (b ++ rest) 0 (Z.of_nat (length b)) = Done b.
Proof. exact (range_mid [] b rest). Qed.

Lemma range_whole (b : list Z) : range b 0 (Z.of_nat (length b)) = Done b.
Proof. rewrite <- (app_nil_r b) at 1. apply range_all. Qed.

Lemma block_text_blk k : block_text (Z.of_nat (length k)) k = blk k.
Proof. done. Qed.

Lemma blk_nonempty b : Z.of_nat (length (blk b)) <> 0.
Proof. rewrite length_blk. lia. Qed.

Lemma sprintf_blk k extra : small k -> 13 <= extra -> sprintf_block (Z.of_nat (length k) + extra) (blk k) = Done (blk k ++ [0]).
Proof.
  intros Hk He. unfold sprintf_block. pose proof (dec_length (Z.of_nat (length k)) ltac:(unfold small in Hk; lia)).
  rewrite length_blk. by destruct (Z.leb_spec (Z.of_nat (length (dec (Z.of_nat (length k))) + length k + 2) + 1)
    (Z.of_nat (length k) + extra)); [|lia].
Qed.

(** A command with arguments. *)
Lemma cmd_text_spec cmd args rest :
  args <> [] -> cmd_text cmd (Some ((args ≫= blk) ++ rest)) (Z.of_nat (length (args ≫= blk))) = Done (ssdb (_dbstr cmd :: args)).
Proof.
  intros Ha. unfold cmd_text. destruct args as [|a args]; [done|]. set (t := (a :: args) ≫= blk).
  assert (Z.of_nat (length t) <> 0).
  { unfold t. rewrite bind_cons, length_app. pose proof (blk_nonempty a). lia. }
  destruct (Z.eqb_spec (Z.of_nat (length t)) 0); [done|]. rewrite range_all, bind_Done, block_text_blk.
  unfold ssdb. rewrite bind_cons. fold t. by rewrite <- app_assoc.
Qed.

Definition fits (args : list (list Z)) : Prop := Z.of_nat (length (args ≫= blk)) < 2 ^ 31 - 128.

Lemma dbcmd_spec ts cmd args rest db s :
  args <> [] -> fits args ->
  _dbcmd W fill ts cmd (Some ((args ≫= blk) ++ rest)) (Z.of_nat (length (args ≫= blk))) db s =
  _dbdo W fill ts (ssdb (_dbstr cmd :: args)) db cmd s.
Proof.
  intros Ha Hf. unfold _dbcmd. unfold fits in Hf.
  assert (Z.of_nat (length (block_text (Z.of_nat (length (_dbstr cmd))) (_dbstr cmd))) < 127) by (by destruct cmd).
  by rewrite sint_ok, bind_Done, cmd_text_spec, bind_Done by (done || lia).
Qed.

Lemma fits_one k : honest k -> fits [k].
Proof.
  intros [_ Hk]. unfold fits. rewrite bind_cons, blks_nil, app_nil_r, length_blk.
  pose proof (dec_length (Z.of_nat (length k)) ltac:(lia)). lia.
Qed.

(** The records of [dbmulti_set]. *)
Definition stated (kv : cstring * list Z) : arg :=
  Arg kv.1 (Z.of_nat (length kv.1)) kv.2 (Z.of_nat (length kv.2)).

Lemma multi_set_spec l :
  Forall small_kv l ->
  multi_set_text (stated <$> l) = Done (recs l) /\ multi_set_size (stated <$> l) = Done (Z.of_nat (length (recs l))).
Proof.
  induction 1 as [|[k v] l [Hk Hv] Hl [IHt IHs]]; [done|]. cbn [fmap list_fmap stated multi_set_text multi_set_size g_key g_klen g_val g_vlen fst snd].
  unfold small in Hk, Hv. simpl in Hk, Hv. split.
  - rewrite range_whole, bind_Done.
    fold (fmap (M:=list) stated l). rewrite IHt, bind_Done, recs_cons, block_text_blk. unfold blk.
    f_equal. by rewrite <- !app_assoc.
  - rewrite !numlen_dec, !bind_Done by lia. fold (fmap (M:=list) stated l). rewrite IHs, bind_Done, recs_cons.
    f_equal. rewrite !length_app, !length_blk. lia.
Qed.

(** The keys of [dbmulti_get] and [dbmulti_del]. *)
Definition stated_key (k : cstring) : cstring * Z := (k, Z.of_nat (length k)).

Lemma multi_keys_spec l :
  Forall small l ->
  multi_keys_text (stated_key <$> l) = l ≫= blk /\ multi_keys_size (stated_key <$> l) = Done (Z.of_nat (length (l ≫= blk))).
Proof.
  induction 1 as [|k l Hk Hl [IHt IHs]]; [done|]. split.
  - unfold multi_keys_text in *. rewrite fmap_cons, !bind_cons, IHt. done.
  - cbn [fmap list_fmap multi_keys_size stated_key]. unfold small in Hk. rewrite numlen_dec, bind_Done by lia.
    fold (fmap (M:=list) stated_key l). rewrite IHs, bind_Done. f_equal. rewrite bind_cons, length_app, length_blk. lia.
Qed.

(** What [dbget] hands to [_dbdo]. *)
Definition get_result (k : cstring) : DB :=
  set_free_key true (set_kvs [KV (POwn k) (Z.of_nat (length k)) PNull 0] _dbcreate).

Lemma key_call_spec cmd ts k s :
  honest k ->
  key_call W fill cmd ts (Some k) (Z.of_nat (length k)) s = _dbdo W fill ts (ssdb [_dbstr cmd; k]) _dbcreate cmd s.
Proof.
  intros Hk. pose proof (fits_one k Hk) as Hf. pose proof (honest_small k Hk). destruct Hk as [Hne Hk]. unfold key_call.
  destruct (Z.eqb_spec (Z.of_nat (length k)) 0); [by destruct k|].
  rewrite block_text_blk, sint_ok, bind_Done, sprintf_blk, bind_Done by (done || lia).
  pose proof (dbcmd_spec ts cmd [k] [0] _dbcreate s ltac:(done) Hf) as E. by rewrite bind_cons, blks_nil, app_nil_r in E.
Qed.

Lemma dbget_spec ts k s :
  honest k ->
  dbget W fill ts (Some k) (Z.of_nat (length k)) s = _dbdo W fill ts (ssdb [_dbstr GET; k]) (get_result k) GET s.
Proof.
  intros Hk. pose proof (fits_one k Hk) as Hf. pose proof (honest_small k Hk). destruct Hk as [Hne Hk]. unfold dbget.
  destruct (Z.eqb_spec (Z.of_nat (length k)) 0); [by destruct k|].
  rewrite range_all, bind_Done, block_text_blk, sint_ok, bind_Done, sprintf_blk, bind_Done by (done || lia).
  pose proof (dbcmd_spec ts GET [k] [0] (get_result k) s ltac:(done) Hf) as E. by rewrite bind_cons, blks_nil, app_nil_r in E.
Qed.

Lemma dbset_spec ts k v s :
  honest k -> honest v ->
  dbset W fill ts (Some k) (Z.of_nat (length k)) (Some v) (Z.of_nat (length v)) s =
  _dbdo W fill ts (ssdb [_dbstr SET; k; v]) _dbcreate SET s.
Proof.
  intros [Hk0 Hk] [Hv0 Hv]. unfold dbset.
  destruct (Nat.eqb_spec (length k) 0); [by destruct k|].
  destruct (Z.leb_spec (Z.of_nat (length v)) 0); [destruct v; [done|simpl in *; lia]|]. cbn [orb].
  pose proof (dec_length (Z.of_nat (length k)) ltac:(lia)). pose proof (dec_length (Z.of_nat (length v)) ltac:(lia)).
  rewrite sint_ok, bind_Done, range_whole, bind_Done by lia.
  set (head := dec _ ++ [NL] ++ k ++ [NL] ++ dec _ ++ [NL]).
  assert (head ++ v ++ [NL] = [k; v] ≫= blk) as Et.
  { rewrite !bind_cons, blks_nil, app_nil_r. unfold head, blk. by rewrite <- !app_assoc. }
  assert (Z.of_nat (length head) + Z.of_nat (length v) + 1 = Z.of_nat (length ([k; v] ≫= blk))) as El
    by (rewrite <- Et, !length_app; simpl; lia).
  assert (Z.of_nat (length head) <= Z.of_nat (length k) + 23) as Hh
    by (unfold head; rewrite !length_app; cbn [length]; lia).
  destruct (Z.ltb_spec (Z.of_nat (length k) + Z.of_nat (length v) + 64) (Z.of_nat (length head) + Z.of_nat (length v) + 1)); [lia|].
  rewrite Et, El. pose proof (dbcmd_spec ts SET [k; v] [] _dbcreate s ltac:(done)) as E. rewrite app_nil_r in E.
  apply E. unfold fits. lia.
Qed.

Lemma multi_keys_call cmd ts keys db s :
  keys <> [] -> Forall small keys -> fits keys ->
  multi_keys W fill cmd ts (stated_key <$> keys) db s = _dbdo W fill ts (ssdb (_dbstr cmd :: keys)) db cmd s.
Proof.
  intros Hne Hk Hf. unfold multi_keys. rewrite length_fmap. destruct (Nat.eqb_spec (length keys) 0); [by destruct keys|].
  destruct (multi_keys_spec keys Hk) as [-> ->]. unfold fits in Hf. rewrite bind_Done, sint_ok, bind_Done by lia.
  unfold sprintf_block.
  destruct (Z.leb_spec (Z.of_nat (length (keys ≫= blk)) + 1) (Z.of_nat (length (keys ≫= blk)) + 64)); [|lia].
  rewrite bind_Done. by apply dbcmd_spec.
Qed.

Lemma multi_set_call ts l s :
  l <> [] -> Forall small_kv l -> fits (fields l) ->
  dbmulti_set W fill ts (stated <$> l) s =
  _dbdo W fill ts (ssdb (_dbstr MULTI_SET :: fields l)) (set_kvn (u16 (Z.of_nat (length l))) _dbcreate) MULTI_SET s.
Proof.
  intros Hne Hl Hf. unfold dbmulti_set. rewrite length_fmap. destruct (Nat.eqb_spec (length l) 0); [by destruct l|].
  destruct (multi_set_spec l Hl) as [-> ->]. unfold fits in Hf. fold (recs l) in Hf.
  rewrite bind_Done, sint_ok, !bind_Done by lia.
  destruct (Z.ltb_spec (Z.of_nat (length (recs l)) + 64) (Z.of_nat (length (recs l)))); [lia|].
  pose proof (dbcmd_spec ts MULTI_SET (fields l) [] (set_kvn (u16 (Z.of_nat (length l))) _dbcreate) s
    ltac:(by destruct l as [|[]])) as E. rewrite app_nil_r in E. by apply E.
Qed.


End Requests.

(** ** What is received *)

Lemma blk_ok : blk str_ok = [50; NL; 111; 107; NL].
Proof. reflexivity. Qed.

(** A reply that starts with [ok]. *)
Lemma phrase_ok rest slack db cmd :
  src_buf db = (blk str_ok ++ rest) ++ slack ->
  _dbphrase (Z.of_nat (length (blk str_ok ++ rest))) db cmd =
  reply_data cmd 5 (Z.of_nat (length (blk str_ok ++ rest))) db.
Proof.
  intros Eb. unfold _dbphrase. rewrite Eb. rewrite blk_ok. cbn [app].
  change (_dbatoi (50 :: NL :: 111 :: 107 :: NL :: rest ++ slack) 0) with (@Done Z 2). rewrite bind_Done. cbn [Z.leb Z.compare].
  unfold after_nl, memchr_nl. change (0 <? 0) with false. cbn [orb].
  match goal with |- context [?a <? 0] => destruct (Z.ltb_spec a 0); [cbn [length] in *; lia|] end.
  change (drop (Z.to_nat 0) (50 :: NL :: 111 :: 107 :: NL :: rest ++ slack)) with (50 :: NL :: 111 :: 107 :: NL :: rest ++ slack).
  match goal with |- context [(?a <? 0) || (?b <? ?c)] => destruct (Z.ltb_spec a 0); [lia|]; destruct (Z.ltb_spec b c) as [Hl|_] end.
  { cbn [length] in Hl. rewrite length_app in Hl. lia. }
  cbn [orb]. rewrite Nat2Z.id. cbn [length take find_nl]. change (50 =? NL) with false. change (NL =? NL) with true. cbv iota.
  simpl fmap. rewrite !bind_Done. change (0 + Z.succ 0 + 1) with 2. change (Z.min 2 127) with 2.
  unfold range. change (2 <? 0) with false. cbn [orb].
  match goal with |- context [?b <? ?c] => destruct (Z.ltb_spec b c) as [Hl|_] end.
  { cbn [length] in Hl. lia. }
  change (take (Z.to_nat 2) (drop (Z.to_nat 2) (50 :: NL :: 111 :: 107 :: NL :: rest ++ slack))) with str_ok.
  rewrite bind_Done. change (2 =? 2) with true. cbv iota. rewrite bool_decide_true by done. done.
Qed.

Definition is_listing (cmd : command) : option Z :=
  match cmd with SCAN => Some DB_SCAN_OK | MULTI_GET => Some DB_MULTI_GET_OK | _ => None end.

(** C14. A listing comes back as it was encoded: whatever bytes the keys and
    values hold, the result of [scan] and [multi_get] has the records of the
    reply, in its order. *)
Theorem listing_roundtrip l slack db cmd ok :
  is_listing cmd = Some ok -> Forall small_kv l -> Z.of_nat (length l) < 2 ^ 16 ->
  src_buf db = ssdb (str_ok :: fields l) ++ slack ->
  exists db', _dbphrase (Z.of_nat (length (ssdb (str_ok :: fields l)))) db cmd = Done db' /\
    rno db' = ok /\ kvn db' = Z.of_nat (length l) /\ Forall2 (reads (src_buf db')) (kvs db') l.
Proof.
  intros Hc Hl Hn Eb.
  assert (ssdb (str_ok :: fields l) = blk str_ok ++ recs l ++ [NL]) as Es by (unfold ssdb, recs; by rewrite bind_cons, <- app_assoc).
  rewrite Es in Eb |- *. rewrite (phrase_ok _ slack) by done. rewrite <- !app_assoc in Eb.
  assert (forall init, exists db', _dbsplitkv db 5 (Z.of_nat (length (blk str_ok ++ recs l ++ [NL])) - 5) init = Done (init, db') /\
    kvn db' = Z.of_nat (length l) /\ Forall2 (reads (src_buf db')) (kvs db') l) as H.
  { intros init. unfold _dbsplitkv, _dbcountkv. rewrite Eb. pose proof (length_recs l) as Hr.
    set (m := S (length (blk str_ok ++ recs l ++ [NL] ++ slack))).
    assert (length l < m)%nat as Hm by (unfold m; rewrite !length_app; lia). clearbody m.
    replace (Z.of_nat (length (blk str_ok ++ recs l ++ [NL])) - 5)
      with (Z.of_nat (length (blk str_ok) + length (recs l)) - 5 + 1) by (rewrite !length_app; simpl length; lia).
    change 5 with (Z.of_nat (length (blk str_ok))).
    rewrite (countkv_spec l (blk str_ok) ([NL] ++ slack) m), bind_Done by (done || lia).
    rewrite (splitkv_spec l (blk str_ok) ([NL] ++ slack) m), bind_Done by (done || (simpl length; lia)).
    eexists. split; [done|]. cbn [kvn set_kvn kvs set_kvs src_buf set_buf app]. split.
    - assert (length (placed (Z.of_nat (length (blk str_ok))) l) = length l) as ->
        by (rewrite (Forall2_length _ _ _ (placed_reads l (blk str_ok) [])); done).
      apply wrapu_small. lia.
    - apply placed_reads. }
  destruct (H ok) as (db' & E & Hk & Hf). exists (set_rno ok db').
  destruct cmd; try discriminate; injection Hc as <-; unfold reply_data; by rewrite E, bind_Done.
Qed.

(** The line feed behind a numeral. *)
Lemma find_nl_digits ds rest :
  Forall (fun c => is_digit c = true) ds -> find_nl (ds ++ NL :: rest) = Some (Z.of_nat (length ds)).
Proof.
  induction 1 as [|d ds Hd Hds IH]; [done|]. cbn [app find_nl]. unfold is_digit in Hd.
  destruct (Z.eqb_spec d NL) as [->|]; [done|]. rewrite IH. simpl fmap. f_equal. simpl length. lia.
Qed.

Lemma after_nl_blk pre b rest slack :
  small b ->
  after_nl ((pre ++ blk b ++ rest) ++ slack) (Z.of_nat (length pre))
    (Z.of_nat (length (pre ++ blk b ++ rest)) - Z.of_nat (length pre)) = Done (body (Z.of_nat (length pre)) b).
Proof.
  intros Hb. unfold after_nl, memchr_nl. unfold small in Hb.
  destruct (dec_spec (Z.of_nat (length b)) ltac:(lia)) as (Hf & _ & _).
  destruct (Z.ltb_spec (Z.of_nat (length pre)) 0); [lia|].
  destruct (Z.ltb_spec (Z.of_nat (length ((pre ++ blk b ++ rest) ++ slack))) (Z.of_nat (length pre))) as [H1|_];
    [rewrite !length_app in H1; lia|]. cbn [orb].
  rewrite Nat2Z.id, <- app_assoc, drop_app_length.
  replace (Z.of_nat (length (pre ++ blk b ++ rest)) - Z.of_nat (length pre)) with (Z.of_nat (length (blk b ++ rest)))
    by (rewrite !length_app; lia).
  destruct (Z.ltb_spec (Z.of_nat (length (blk b ++ rest))) 0); [lia|].
  destruct (Z.ltb_spec (Z.of_nat (length ((blk b ++ rest) ++ slack))) (Z.of_nat (length (blk b ++ rest)))) as [H1|_];
    [rewrite (length_app _ slack) in H1; lia|]. cbn [orb].
  rewrite Nat2Z.id, take_app_length. unfold blk. rewrite <- !app_assoc. cbn [app].
  rewrite find_nl_digits by done. simpl fmap. rewrite bind_Done. unfold body. f_equal; lia.
Qed.

(** A value comes back as it was encoded: [get] finds it in the reply. *)
Lemma get_reply v k slack db :
  small v -> kvn db = 0 -> kvs db = [k] -> src_buf db = ssdb [str_ok; v] ++ slack ->
  exists db' q, _dbphrase (Z.of_nat (length (ssdb [str_ok; v]))) db GET = Done db' /\
    rno db' = DB_GET_OK /\ kvn db' = 1 /\ kvs db' = [KV (key k) (key_len k) q (Z.of_nat (length v))] /\
    text_of (src_buf db') q (Z.of_nat (length v)) = Done v.
Proof.
  intros Hv Hn Hk Eb.
  assert (ssdb [str_ok; v] = blk str_ok ++ blk v ++ [NL]) as Es
    by (unfold ssdb; rewrite !bind_cons, blks_nil, app_nil_r; by rewrite <- app_assoc).
  rewrite Es in Eb |- *. rewrite (phrase_ok _ slack) by done. unfold reply_data, one_value.
  cbn [src_buf set_rno kvs]. rewrite Eb, Hk.
  change 5 with (Z.of_nat (length (blk str_ok))). rewrite after_nl_blk by done.
  rewrite <- !app_assoc, atoi_blk, !bind_Done by done.
  set (d := dec (Z.of_nat (length v))).
  assert (body (Z.of_nat (length (blk str_ok))) v = Z.of_nat (length (blk str_ok ++ d ++ [NL]))) as Ev
    by (unfold body; rewrite !length_app; fold d; simpl; lia).
  rewrite Ev.
  replace (blk str_ok ++ blk v ++ [NL] ++ slack)
    with (((blk str_ok ++ d ++ [NL]) ++ v) ++ NL :: [NL] ++ slack) by (change (blk v) with (d ++ [NL] ++ v ++ [NL]); by rewrite <- !app_assoc).
  rewrite <- Nat2Z.inj_add, <- (length_app _ v), wr_app, bind_Done. eexists _, _. split; [done|].
  cbn [rno set_kvn kvn set_rno set_buf set_kvs kvs src_buf]. rewrite Hn. split_all; try done.
  cbn [text_of]. rewrite <- app_assoc. apply range_mid.
Qed.

(** ** The hypotheses can hold *)

Section Examples.

Import Db.

Definition ex_zero (_ : nat) : Z := 0.
Definition ex_pool : pool := dbinit 64 0 (MkPool (Registry.Reg ∅ ∅) 0 0 (Timer.Clock 0 0) [] []).
Definition ex_key : cstring := [107; 49].
Definition ex_value : cstring := [118; NL; NL].

Lemma ex_honest : honest ex_key /\ honest ex_value /\ small_kv (ex_key, ex_value).
Proof. by split_all. Qed.


Lemma listing_roundtrip_witness :
  exists db', _dbphrase 17 (set_buf (ssdb [str_ok; ex_key; ex_value] ++ [0; 0]) _dbcreate) SCAN = Done db' /\
    rno db' = DB_SCAN_OK /\ kvn db' = 1 /\ Forall2 (reads (src_buf db')) (kvs db') [(ex_key, ex_value)].
Proof.
  apply (listing_roundtrip [(ex_key, ex_value)] [0; 0] (set_buf (ssdb [str_ok; ex_key; ex_value] ++ [0; 0]) _dbcreate) SCAN DB_SCAN_OK).
  - done.
  - constructor; [apply ex_honest|done].
  - done.
  - done.
Defined.

End Examples.

(** [dberr] has a message for every number, but never the one for numbers out
    of range. *)
Lemma dberr_total n : exists s, Db.dberr n = Done s /\ last Db._dbret_str <> Some s.
Proof.
  unfold Db.dberr. set (i := if DB_RNO_MAX <=? u16 n then 0%nat else Z.to_nat (u16 n)). assert (i < 17)%nat as Hi.
  { unfold i. destruct (Z.leb_spec DB_RNO_MAX (u16 n)) as [|H]; [lia|]. pose proof (wrapu_range 16 n ltac:(lia)). unfold DB_RNO_MAX in *. lia. }
  clearbody i. do 17 (destruct i as [|i]; [eexists; split; [reflexivity|by vm_compute]|]). lia.
Qed.
