(* ===== verification/DbPool.v ===== *)
(** * DbPool: the pool and the exchanges of the record store's client

    The pool of connections is consistent between calls, whatever the server
    does; a call that is served returns what the server holds; and where
    receiving, scanning and error replies go wrong. *)

From Stdlib Require Import Ascii String.
From S2P Require Import Prelude CString Registry Timer Rules Db DbFacts.
Import Wire.
Local Open Scope Z_scope.

(** ** The pool of connections *)

Section Pool.

Import Registry Db.
Context (W : Z) (fill : nat -> Z).

Definition opened (s : pool) : gset addr := dom (objs (conns s)).

(** Every connection is on the chain of its descriptor, [idle] are those on
    the free list, and the counters count them. *)
Record sound (s : pool) (idle : gset addr) : Prop := Sound {
  sound_opened : idle ⊆ opened s;
  sound_null : objs (conns s) !! NULL = None;
  sound_chains : indexed (tbl (conns s)) F_POOL ((fun c => (0, DB_HASH_IDX (fd c))) <$> objs (conns s));
  sound_free : indexed (tbl (conns s)) F_FREE (gset_to_gmap (0, 0) idle);
  sound_pool_count : _db_pool_conn_count s = Z.of_nat (size (objs (conns s)));
  sound_free_count : _db_free_conn_count s = Z.of_nat (size idle);
  sound_bound : Z.of_nat (size (objs (conns s))) < 2 ^ 31
}.

(** Between calls all connections are idle; during a call all but one are. *)
Definition at_rest (s : pool) : Prop := sound s (opened s).
Definition in_use (a : addr) (s : pool) : Prop := sound s (opened s ∖ {[a]}) /\ a ∈ opened s.

Lemma size_opened s : size (opened s) = size (objs (conns s)).
Proof. apply size_dom. Qed.

Lemma size_others a s : a ∈ opened s -> size (opened s) = S (size (opened s ∖ {[a]})).
Proof.
  intros Ha. rewrite (union_difference_L {[a]} (opened s)) at 1 by set_solver.
  rewrite size_union, size_singleton by set_solver. done.
Qed.

Lemma idle_insert (a : addr) (X : gset addr) : a ∈ X -> gset_to_gmap (0, 0) X = <[a := (0, 0)]> (gset_to_gmap (0, 0) (X ∖ {[a]})).
Proof. intros Ha. rewrite <- gset_to_gmap_union_singleton. f_equal. by apply union_difference_singleton_L. Qed.

Lemma idle_delete (a : addr) (X : gset addr) : delete a (gset_to_gmap ((0, 0) : place) X) = gset_to_gmap (0, 0) (X ∖ {[a]}).
Proof. by rewrite gset_to_gmap_difference_singleton. Qed.

Lemma opened_deref s X a : sound s X -> a ∈ opened s -> exists c, deref (conns s) a = Done c /\ objs (conns s) !! a = Some c.
Proof.
  intros Hs Ha. unfold opened in Ha. apply elem_of_dom in Ha as [c Hc]. exists c. unfold deref. split; [|done].
  destruct (Z.eqb_spec a NULL) as [->|]; [rewrite (sound_null _ _ Hs) in Hc; done|]. by rewrite Hc.
Qed.

Lemma conn_free_sound a s :
  in_use a s -> exists s', _db_conn_free a s = Done s' /\ at_rest s' /\ objs (conns s') = objs (conns s).
Proof.
  intros [Hs Ha]. destruct (opened_deref _ _ _ Hs Ha) as (c & Hd & _). unfold _db_conn_free, _dbpush_free_conn_list.
  rewrite Hd, bind_Done. eexists. split; [done|]. split; [|done]. pose proof (size_others a s Ha) as Hn.
  pose proof (size_opened s). destruct Hs as [Hl Hz Hc Hf Hp Hfc Hb]. unfold at_rest, opened in *.
  split; cbn [conns objs tbl _db_pool_conn_count _db_free_conn_count]; try done.
  - by apply indexed_add_tail_ne.
  - rewrite (idle_insert a) by done. apply indexed_add_tail; [|done]. apply lookup_gset_to_gmap_None. set_solver.
  - rewrite Hfc. unfold opened. rewrite wraps_small; lia.
Qed.

Lemma conn_destory_sound a s :
  in_use a s -> exists s', _db_conn_destory a s = Done s' /\ at_rest s' /\ objs (conns s') = delete a (objs (conns s)).
Proof.
  intros [Hs Ha]. destruct (opened_deref _ _ _ Hs Ha) as (c & Hd & Hc'). unfold _db_conn_destory, _dbout_pool_conn_hash.
  rewrite Hd, !bind_Done. cbn [conns]. unfold deref in *. cbn [objs].
  rewrite Hd, bind_Done. eexists. split; [done|]. split; [|done]. pose proof (size_others a s Ha) as Hn.
  pose proof (size_opened s). assert (size (delete a (objs (conns s))) = pred (size (objs (conns s)))) as Hsz
    by (by rewrite map_size_delete, Hc').
  destruct Hs as [Hl Hz Hc Hf Hp Hfc Hb]. unfold at_rest, opened in *.
  split; cbn [conns objs tbl _db_pool_conn_count _db_free_conn_count]; try done.
  - apply lookup_delete_None. by right.
  - rewrite fmap_delete. by apply indexed_unlink.
  - rewrite dom_delete_L. by apply indexed_unlink_ne.
  - rewrite Hp, wraps_small; lia.
  - rewrite Hfc, dom_delete_L. done.
  - lia.
Qed.

(** The block of a new connection is not one of a connection. *)
Definition fresh (t : try) (s : pool) : Prop :=
  forall a f, t_conn t = Some (a, f) -> a <> NULL /\ objs (conns s) !! a = None.

Lemma new_conn_sound t a f s :
  t_conn t = Some (a, f) -> fresh t s -> at_rest s -> Z.of_nat (size (objs (conns s))) + 1 < 2 ^ 31 ->
  exists s', _db_new_conn W t s = Done (Some a, s') /\ in_use a s' /\ delete a (objs (conns s')) = objs (conns s).
Proof.
  intros Ht Hfr Hs Hb. destruct (Hfr a f Ht) as [Hn Ha]. unfold _db_new_conn. rewrite Ht.
  destruct (_dbjiffies W (t_time t).1 (t_time t).2 (clk s)) as [now clk']. unfold _dbenter_pool_conn_hash, deref.
  cbn [conns objs]. destruct (Z.eqb_spec a NULL); [done|]. rewrite lookup_insert_eq. cbn [get_or]. rewrite !bind_Done.
  eexists. split; [done|]. cbn [conns objs tbl fd]. split; [|by apply delete_insert_id].
  destruct Hs as [Hl Hz Hc Hf Hp Hfc Hbd]. unfold in_use, opened in *. cbn [conns objs].
  rewrite dom_insert_L. replace (({[a]} ∪ dom (objs (conns s))) ∖ {[a]}) with (dom (objs (conns s)))
    by (apply not_elem_of_dom in Ha; set_solver).
  pose proof (map_size_insert_None a (Conn f (wrapu W (now + DB_CONN_KEEP_ALIVE))) (objs (conns s)) Ha) as Hsz.
  split; [|set_solver]. split; cbn [conns objs tbl _db_pool_conn_count _db_free_conn_count]; rewrite ?Hsz; try done.
  - unfold opened. cbn [conns objs]. rewrite dom_insert_L. set_solver.
  - by rewrite lookup_insert_ne.
  - rewrite fmap_insert. apply indexed_add_head; [by rewrite lookup_fmap, Ha|done].
  - by apply indexed_add_head_ne.
  - rewrite Hp, wraps_small; lia.
  - lia.
Qed.

Lemma free_first_sound s a l :
  at_rest s -> tget (tbl (conns s)) FREE_LIST = a :: l ->
  in_use a (MkPool (Reg (objs (conns s)) (unlink F_FREE a (tbl (conns s))))
             (_db_pool_conn_count s) (s32 (_db_free_conn_count s - 1)) (clk s) (closed s) (wire s)).
Proof.
  intros Hs E. assert (a ∈ opened s) as Ha.
  { pose proof (proj1 (indexed_at _ _ _ (sound_free _ _ Hs) (0, 0) a)) as H. unfold FREE_LIST in E. rewrite E in H.
    specialize (H ltac:(left)). by apply lookup_gset_to_gmap_Some in H as [? _]. }
  split; [|done]. pose proof (size_others a s Ha) as Hn. pose proof (size_opened s).
  destruct Hs as [Hl Hz Hc Hf Hp Hfc Hb]. unfold opened in *.
  split; cbn [conns objs tbl _db_pool_conn_count _db_free_conn_count]; unfold opened; cbn [conns objs]; try done.
  - set_solver.
  - by apply indexed_unlink_ne.
  - rewrite <- idle_delete. by apply indexed_unlink.
  - rewrite Hfc, wraps_small; lia.
Qed.

(** Taking a connection never runs into an assertion, and either there is none
    or one connection is in use, the others as before. *)
Lemma get_conn_sound t s :
  fresh t s -> at_rest s -> Z.of_nat (size (objs (conns s))) + 1 < 2 ^ 31 ->
  exists r s', _db_get_conn W t s = Done (r, s') /\
    match r with None => s' = s | Some a => in_use a s' /\ delete a (objs (conns s')) ⊆ objs (conns s) end.
Proof.
  intros Hfr Hs Hb. unfold _db_get_conn. pose proof (sound_free_count _ _ Hs) as Hc.
  destruct (Z.ltb_spec (_db_free_conn_count s) 0); [lia|]. destruct (Z.eqb_spec (_db_free_conn_count s) 0) as [H0|H0].
  - destruct (t_conn t) as [[a f]|] eqn:Et.
    + destruct (new_conn_sound t a f s Et Hfr Hs Hb) as (s' & E & Hu & Ho). exists (Some a), s'. by rewrite Ho.
    + exists None, s. unfold _db_new_conn. by rewrite Et.
  - destruct (tget (tbl (conns s)) FREE_LIST) as [|a l] eqn:El.
    + exfalso. apply H0. rewrite Hc. destruct (set_choose_or_empty (opened s)) as [[x Hx]|He].
      * pose proof (proj2 (indexed_at _ _ _ (sound_free _ _ Hs) (0, 0) x)) as H1. unfold FREE_LIST in El. rewrite El in H1.
        exfalso. eapply not_elem_of_nil, H1. by apply lookup_gset_to_gmap_Some.
      * apply leibniz_equiv in He. by rewrite He, size_empty.
    + destruct (opened_deref s (opened s) a Hs) as (c & Hd & _).
      { by destruct (free_first_sound s a l Hs El). }
      rewrite Hd, bind_Done. eexists _, _. split; [done|]. split; [by eapply free_first_sound|].
      cbn [conns objs]. apply delete_subseteq.
Qed.

Lemma send_in_use a f bs s : in_use a s -> in_use a (send_wire f bs s).
Proof. intros [[] Ha]. by split. Qed.

(** The faults that the bytes of the server can cause. *)
Definition from_reply (ts : list try) (cmd : command) (e : fault) : Prop :=
  (exists t, t ∈ ts /\ _dbrecv fill (t_chunks t) = Fault e) \/ exists n db, _dbphrase n db cmd = Fault e.

Lemma fresh_tail ts s s' :
  objs (conns s') ⊆ objs (conns s) -> Forall (fun t => fresh t s) ts -> Forall (fun t => fresh t s') (tail ts).
Proof.
  intros Hsub [|t ts' Ht Hts]; [done|]. eapply Forall_impl; [done|]. intros t' Hf a f Ea.
  destruct (Hf a f Ea) as [? Hn]. split; [done|]. by eapply lookup_weaken_None.
Qed.

Lemma redo_sound n : forall ts data db cmd s,
  Forall (fun t => fresh t s) ts -> at_rest s -> Z.of_nat (size (objs (conns s))) + 1 < 2 ^ 31 ->
  match redo W fill n ts data db cmd s with Done (_, s') => at_rest s' | Fault e => from_reply ts cmd e end.
Proof.
  induction n as [|n IH]; intros ts data db cmd s Hfr Hs Hb; [done|]. cbn [redo].
  set (t := default silent (head ts)).
  assert (fresh t s) as Ht by (unfold t; destruct ts; [done|by inversion Hfr]).
  destruct (get_conn_sound t s Ht Hs Hb) as (r & s1 & -> & Hr). rewrite bind_Done.
  destruct r as [a|]; [|by subst s1]. destruct Hr as [Hu Hsub]. unfold exchange.
  destruct (opened_deref s1 _ a (proj1 Hu) (proj2 Hu)) as (c & -> & _). rewrite bind_Done.
  destruct (_dbsend (t_sends t) data) as [rc out]. set (s2 := send_wire (fd c) out s1).
  assert (in_use a s2) as Hu2 by by apply send_in_use.
  assert (forall db, match s ← _db_conn_destory a s2; redo W fill n (tail ts) data db cmd s with
    Done (_, s') => at_rest s' | Fault e => from_reply ts cmd e end) as Hfail.
  { intros db0. destruct (conn_destory_sound a s2 Hu2) as (s3 & -> & Hs3 & Ho). rewrite bind_Done.
    assert (objs (conns s3) ⊆ objs (conns s)) as Hsub3 by by rewrite Ho.
    specialize (IH (tail ts) data db0 cmd s3 (fresh_tail ts s s3 Hsub3 Hfr) Hs3).
    specialize (IH ltac:(pose proof (map_subseteq_size _ _ Hsub3); lia)).
    destruct (redo W fill n (tail ts) data db0 cmd s3) as [[]|e]; [done|].
    destruct IH as [(t' & Hin & E)|H]; [left|by right]. exists t'. split; [|done]. destruct ts; [done|]. by right. }
  destruct (negb (rc =? 0)); [rewrite bind_Done; apply Hfail|].
  destruct (_dbrecv fill (t_chunks t)) as [[[buf len]|]|e] eqn:Er; rewrite ?bind_Done; [| apply Hfail|].
  - destruct (conn_free_sound a s2 Hu2) as (s3 & -> & Hs3 & _). rewrite bind_Done.
    destruct (_dbphrase len (set_buf buf db) cmd) eqn:Ep; [by rewrite bind_Done|]. right. eauto.
  - left. exists t. unfold t in *. destruct ts; [done|]. split; [left|done].
Qed.


(** The pool right after [dbinit]. *)
Lemma init_at_rest tv c : at_rest (dbinit W tv (MkPool (Reg ∅ ∅) 0 0 c [] [])).
Proof.
  unfold at_rest, dbinit. split; unfold opened; cbn [conns objs tbl _db_pool_conn_count _db_free_conn_count]; try done.
  - rewrite fmap_empty. apply indexed_nil. intros k. rewrite tget_insert, decide_False by done.
    by apply tget_init_heads.
  - rewrite dom_empty_L, gset_to_gmap_empty. apply indexed_nil. intros k. rewrite tget_insert.
    case_decide; [done|]. by apply tget_init_heads.
Qed.

(** *** An exchange that succeeds *)

Lemma send_complete sends : forall data,
  Forall (Z.lt 0) sends -> Z.of_nat (length data) <= foldr Z.add 0 sends -> _dbsend sends data = (0, data).
Proof.
  induction sends as [|n sends IH]; intros [|d data] Hs Hd; try done.
  inversion_clear Hs as [|? ? Hn Hs']. cbn [_dbsend]. destruct (Z.leb_spec n 0); [lia|].
  set (k := Z.to_nat (Z.min n (Z.of_nat (length (d :: data))))).
  assert (0 <= foldr Z.add 0 sends) by (clear - Hs'; induction Hs'; simpl; lia).
  rewrite IH; [by rewrite take_drop|done|]. rewrite length_drop. cbn [foldr] in Hd. unfold k. lia.
Qed.

(** A reply that arrives whole. *)
Definition whole (reply : list Z) : Prop :=
  (exists r, reply = r ++ [NL; NL]) /\ Z.of_nat (length reply) <= DB_BUFLEN.

Definition received (reply : list Z) : list Z := reply ++ replicate (Z.to_nat DB_BUFLEN - length reply) 0.

Lemma check_whole r slack : _dbcheck ((r ++ [NL; NL]) ++ slack) (Z.of_nat (length (r ++ [NL; NL]))) = Done (-1).
Proof.
  unfold _dbcheck. rewrite length_app. cbn [length]. rewrite <- app_assoc.
  replace (Z.of_nat (length r + 2) - 2) with (Z.of_nat (length r)) by lia. cbn [app]. rewrite rd_mid, bind_Done.
  replace (Z.of_nat (length r + 2) - 1) with (Z.of_nat (length (r ++ [NL]))) by (rewrite length_app; simpl; lia).
  change (r ++ NL :: NL :: slack) with (r ++ [NL] ++ NL :: slack). rewrite app_assoc, rd_mid. done.
Qed.

Lemma store_at_app a b slack :
  (length b <= length slack)%nat ->
  store_at (Z.of_nat (length a)) b (a ++ slack) = Done (a ++ b ++ drop (length b) slack).
Proof.
  intros Hb. unfold store_at. rewrite length_app.
  destruct (Z.ltb_spec (Z.of_nat (length a + length slack)) (Z.of_nat (length a) + Z.of_nat (length b))); [lia|].
  by rewrite Nat2Z.id, take_app_length, drop_app_add.
Qed.

Lemma recv_first bs chunks :
  bs <> [] -> Z.of_nat (length bs) <= DB_BUFLEN ->
  _dbrecv fill (bs :: chunks) = recv_loop fill chunks (received bs) 0 (Z.of_nat (length bs)).
Proof.
  intros Hne Hl. unfold _dbrecv, received. set (N := Z.to_nat DB_BUFLEN). assert (length bs <= N)%nat as HN by lia.
  clearbody N. rewrite take_ge by done. destruct (Nat.eqb_spec (length bs) 0); [by destruct bs|].
  pose proof (store_at_app [] bs (replicate N 0) ltac:(by rewrite length_replicate)) as E.
  cbn [app length] in E. change (Z.of_nat 0) with 0 in E. by rewrite E, bind_Done, drop_replicate.
Qed.

Lemma recv_whole reply more :
  whole reply -> _dbrecv fill (reply :: more) = Done (Some (received reply, Z.of_nat (length reply))).
Proof.
  intros [[r ->] Hl]. rewrite recv_first; [|by destruct r|done].
  unfold received. destruct more; cbn [recv_loop]; rewrite Z.add_0_l, check_whole, bind_Done; done.
Qed.

(** One more piece, when the buffer is not full. *)
Lemma recv_more bs chunks buf n r :
  _dbcheck buf (n + r) = Done 0 -> n + r <> Z.of_nat (length buf) -> bs <> [] -> Z.of_nat (length bs) <= DB_BUFLEN - r ->
  recv_loop fill (bs :: chunks) buf n r =
  (buf' ← store_at (n + r) bs buf; recv_loop fill chunks buf' (n + r) (Z.of_nat (length bs))).
Proof.
  intros Hc Hf Hne Hl. cbn [recv_loop]. rewrite Hc, bind_Done. change (negb (0 =? 0)) with false. cbv iota.
  destruct (Z.eqb_spec (n + r) (Z.of_nat (length buf))); [done|]. rewrite take_ge by lia.
  by destruct (Nat.eqb_spec (length bs) 0); [by destruct bs|].
Qed.

(** The operations of the pool leave the record of what went out alone. *)
Lemma get_conn_quiet t s r s' :
  _db_get_conn W t s = Done (r, s') ->
  wire s' = wire s /\ closed s' = closed s /\ (is_Some (t_conn t) -> is_Some r).
Proof.
  unfold _db_get_conn, _db_new_conn. intros E.
  destruct (_db_free_conn_count s <? 0); [done|]. destruct (_db_free_conn_count s =? 0).
  - destruct (t_conn t) as [[a f]|]; [|injection E as <- <-; by split_all; try intros [? ?]].
    destruct (_dbjiffies W (t_time t).1 (t_time t).2 (clk s)). unfold _dbenter_pool_conn_hash in E.
    match type of E with context [deref ?x ?y] => destruct (deref x y) end; [|done]. rewrite !bind_Done in E.
    injection E as <- <-. by split_all.
  - destruct (tget (tbl (conns s)) FREE_LIST) as [|a l]; [done|]. destruct (deref (conns s) a); [|done].
    rewrite bind_Done in E. injection E as <- <-. by split_all.
Qed.

Lemma conn_free_quiet a s s' : _db_conn_free a s = Done s' -> wire s' = wire s /\ closed s' = closed s.
Proof.
  unfold _db_conn_free, _dbpush_free_conn_list. destruct (deref (conns s) a); [|done]. rewrite bind_Done.
  by intros [= <-].
Qed.

(** A server that takes the whole request and answers with [reply] at once. *)
Record serves (t : try) (data reply : list Z) : Prop := Serves {
  serves_conn : is_Some (t_conn t);
  serves_sends : Forall (Z.lt 0) (t_sends t);
  serves_enough : Z.of_nat (length data) <= foldr Z.add 0 (t_sends t);
  serves_reply : t_chunks t = [reply];
  serves_whole : whole reply
}.

Lemma do_served t ts data db cmd reply s :
  serves t data reply -> fresh t s -> at_rest s -> Z.of_nat (size (objs (conns s))) + 1 < 2 ^ 31 ->
  exists s' d, at_rest s' /\ wire s' = wire s ++ [(d, data)] /\ closed s' = closed s /\
    _dbdo W fill (t :: ts) data db cmd s =
    (db' ← _dbphrase (Z.of_nat (length reply)) (set_buf (received reply) db) cmd; Done (db', s')).
Proof.
  intros [Hc Hp He Hr Hw] Hf Hs Hb. destruct (get_conn_sound t s Hf Hs Hb) as (r & s1 & E & H1).
  destruct (get_conn_quiet _ _ _ _ E) as (Ew & Ec & Hsome). destruct (Hsome Hc) as [a ->]. destruct H1 as [Hu _].
  destruct (opened_deref s1 _ a (proj1 Hu) (proj2 Hu)) as (c & Hd & _).
  destruct (conn_free_sound a _ (send_in_use a (fd c) data s1 Hu)) as (s3 & E3 & Hs3 & _).
  destruct (conn_free_quiet _ _ _ E3) as [Ew3 Ec3]. exists s3, (fd c). split; [done|].
  split; [rewrite Ew3; cbn [wire send_wire]; by rewrite Ew|]. split; [by rewrite Ec3|].
  unfold _dbdo. cbn [redo]. unfold exchange.
  change (default silent (head (t :: ts))) with t. rewrite E, bind_Done, Hd, bind_Done, (send_complete _ data Hp He).
  change (0 =? 0) with true. cbn [negb]. rewrite Hr, recv_whole, !bind_Done by done. by rewrite E3, bind_Done.
Qed.

(** C12. A served [get] from end to end: the request goes out as the encoding of
    the command and the key, the result has the key and the value the server
    encoded, and the connection is idle in the pool again. *)
Theorem get_served t ts k v s :
  honest k -> serves t (ssdb [_dbstr GET; k]) (ssdb [str_ok; v]) -> fresh t s -> at_rest s ->
  Z.of_nat (size (objs (conns s))) + 1 < 2 ^ 31 ->
  exists db' s' d q, dbget W fill (t :: ts) (Some k) (Z.of_nat (length k)) s = Done (db', s') /\
    wire s' = wire s ++ [(d, ssdb [_dbstr GET; k])] /\ at_rest s' /\
    rno db' = DB_GET_OK /\ kvs db' = [KV (POwn k) (Z.of_nat (length k)) q (Z.of_nat (length v))] /\
    text_of (src_buf db') q (Z.of_nat (length v)) = Done v /\ dbfree db' = Done tt.
Proof.
  intros Hk Hsv Hf Hs Hb.
  assert (small v) as Hv.
  { pose proof (proj2 (serves_whole _ _ _ Hsv)) as Hl. unfold ssdb in Hl. rewrite !bind_cons in Hl.
    rewrite !length_app, !length_blk in Hl. unfold small, DB_BUFLEN in *. lia. }
  rewrite dbget_spec by done.
  destruct (do_served t ts _ (get_result k) GET _ s Hsv Hf Hs Hb) as (s' & d & Hs' & Hw & _ & ->).
  destruct (get_reply v (KV (POwn k) (Z.of_nat (length k)) PNull 0)
              (replicate (Z.to_nat DB_BUFLEN - length (ssdb [str_ok; v])) 0)
              (set_buf (received (ssdb [str_ok; v])) (get_result k))) as (db' & q & E & Hr & _ & Hkv & Ht); try done.
  exists db', s', d, q. rewrite E, bind_Done. split_all; try done. unfold dbfree. rewrite Hkv.
  by destruct (free_key db').
Qed.

End Pool.

(** ** Where it goes wrong *)

Section Flaws.

Context (fill : nat -> Z).

#[local] Opaque DB_BUFLEN.

(** A status the code does not know, such as [error] or [client_error]. *)
Definition unknown_status (st : list Z) : Prop := st <> [] /\ small st /\ length st <> 2%nat /\ length st <> 9%nat.

Lemma phrase_unknown st rest slack db cmd :
  unknown_status st -> src_buf db = (blk st ++ rest) ++ slack ->
  _dbphrase (Z.of_nat (length (blk st ++ rest))) db cmd =
  reply_data cmd (Z.of_nat (length (blk st))) (Z.of_nat (length (blk st ++ rest))) (set_rno DB_NORET db).
Proof.
  intros (Hne & Hs & H2 & H9) Eb. unfold _dbphrase. rewrite Eb.
  pose proof (after_nl_blk [] st rest slack Hs) as Ea. cbn [app] in Ea. change (Z.of_nat (length [])) with 0 in Ea.
  rewrite Z.sub_0_r in Ea. rewrite Ea. rewrite <- app_assoc at 1.
  pose proof (atoi_blk [] st (rest ++ slack) Hs) as Et. cbn [app] in Et. change (Z.of_nat (length [])) with 0 in Et.
  rewrite Et, !bind_Done. destruct (Z.leb_spec (Z.of_nat (length st)) 0); [destruct st; simpl in *; [done|lia]|].
  assert (body 0 st + Z.of_nat (length st) + 1 = Z.of_nat (length (blk st))) as Hb by (rewrite length_blk; unfold body; lia).
  rewrite Hb. unfold range. destruct (Z.ltb_spec (body 0 st) 0); [unfold body in *; lia|].
  destruct (Z.ltb_spec (Z.of_nat (length st) `min` 127) 0); [lia|]. cbn [orb].
  match goal with |- context [?x <? ?y] => destruct (Z.ltb_spec x y) as [Hl|_] end; [rewrite !length_app in Hl; lia|].
  rewrite bind_Done. destruct (Z.eqb_spec (Z.of_nat (length st)) 2); [lia|].
  by destruct (Z.eqb_spec (Z.of_nat (length st)) 9); [lia|].
Qed.

(** An error the server reports is taken for success: with a status other
    than [ok] and [not_found] whose length is neither 2 nor 9, [del] and
    [flushdb] succeed, and [get] succeeds with a value of length [-1]. *)
Theorem error_taken_for_success st slack db x :
  unknown_status st -> kvs db = [x] -> src_buf db = ssdb [st] ++ slack ->
  let n := Z.of_nat (length (ssdb [st])) in
  _dbphrase n db DEL = Done (set_rno DB_DEL_OK db) /\
  _dbphrase n db FLUSHDB = Done (set_rno DB_FLUSHDB_OK db) /\
  exists db', _dbphrase n db GET = Done db' /\ rno db' = DB_GET_OK /\ val_len <$> head (kvs db') = Some (-1).
Proof.
  intros Hst Hx Eb n. unfold n. assert (ssdb [st] = blk st ++ [NL]) as Es
    by (unfold ssdb; by rewrite bind_cons, blks_nil, app_nil_r).
  rewrite Es in *. rewrite !(phrase_unknown st [NL] slack) by done. split; [done|]. split; [done|].
  unfold reply_data, one_value, _dbatoi. cbn [src_buf set_rno kvs]. rewrite Eb, Hx, <- app_assoc. cbn [app].
  rewrite rd_mid, !bind_Done. change (negb (is_digit NL)) with true. cbv iota. rewrite bind_Done.
  unfold after_nl, memchr_nl. rewrite !length_app. cbn [length].
  destruct (Z.ltb_spec (Z.of_nat (length (blk st))) 0); [lia|].
  match goal with |- context [?x <? ?y] => destruct (Z.ltb_spec x y) as [Hl|_] end; [lia|]. cbn [orb].
  rewrite Nat2Z.id, drop_app_length. cbn [length].
  replace (Z.of_nat (length (blk st) + 1) - Z.of_nat (length (blk st))) with 1 by lia.
  destruct (Z.ltb_spec (Z.of_nat (S (length slack))) 1); [lia|]. change (1 <? 0) with false. cbn [orb].
  change (find_nl (take (Z.to_nat 1) (NL :: slack))) with (Some 0). simpl fmap. rewrite !bind_Done.
  replace (Z.of_nat (length (blk st)) + 0 + 1 + -1) with (Z.of_nat (length (blk st))) by lia.
  rewrite wr_app, bind_Done. by eexists.
Qed.

Lemma check_incomplete a slack :
  (2 <= length a)%nat -> (forall r, a <> r ++ [NL; NL]) -> _dbcheck (a ++ slack) (Z.of_nat (length a)) = Done 0.
Proof.
  intros Ha Hn. destruct a as [|y a _] using rev_ind; [simpl in Ha; lia|].
  destruct a as [|x a _] using rev_ind; [simpl in Ha; lia|]. unfold _dbcheck.
  rewrite !length_app. cbn [length]. rewrite <- !app_assoc. cbn [app].
  replace (Z.of_nat (length a + 1 + 1) - 2) with (Z.of_nat (length a)) by lia. rewrite rd_mid, bind_Done.
  replace (Z.of_nat (length a + 1 + 1) - 1) with (Z.of_nat (length (a ++ [x]))) by (rewrite length_app; simpl; lia).
  change (a ++ x :: y :: slack) with (a ++ [x] ++ y :: slack). rewrite app_assoc, rd_mid, bind_Done.
  destruct (Z.eqb_spec x NL) as [->|]; [|done]. destruct (Z.eqb_spec y NL) as [->|]; [|done].
  destruct (Hn a). by rewrite <- app_assoc.
Qed.

(** A reply in three pieces can be written behind its buffer: the room for
    a piece is computed from the length of the one before it and not from what
    is left of the buffer. *)
Theorem recv_overflows a b c more :
  (2 <= length a)%nat -> b <> [] ->
  (forall r, a <> r ++ [NL; NL]) -> (forall r, a ++ b <> r ++ [NL; NL]) ->
  Z.of_nat (length a + length b) < DB_BUFLEN -> Z.of_nat (length b + length c) <= DB_BUFLEN ->
  DB_BUFLEN < Z.of_nat (length a + length b + length c) ->
  _dbrecv fill (a :: b :: c :: more) = Fault OutOfBounds.
Proof.
  intros Ha Hb Hna Hnab Hab Hbc Habc. rewrite recv_first by (lia || (intros ->; simpl in Ha; lia)). unfold received.
  set (z := (Z.to_nat DB_BUFLEN - length a)%nat). assert (Z.of_nat (length a + z) = DB_BUFLEN) as Hz by lia. clearbody z.
  rewrite recv_more by (rewrite ?Z.add_0_l, ?length_app, ?length_replicate; (by apply check_incomplete) || lia || done).
  rewrite Z.add_0_l, store_at_app, bind_Done by (rewrite length_replicate; lia). rewrite app_assoc, drop_replicate.
  assert (Z.of_nat (length a) + Z.of_nat (length b) = Z.of_nat (length (a ++ b))) as El by (rewrite length_app; lia).
  rewrite recv_more; rewrite ?El.
  - unfold store_at. rewrite !length_app, length_replicate.
    destruct (Z.ltb_spec (Z.of_nat (length a + length b + (z - length b))) (Z.of_nat (length a + length b) + Z.of_nat (length c)));
      [done|lia].
  - apply check_incomplete; [rewrite length_app; lia|done].
  - rewrite !length_app, length_replicate. lia.
  - intros ->. simpl in *. lia.
  - lia.
Qed.

(** A scan whose request has 128 to 255 bytes faults: its length is kept in
    a signed character and copied as a huge one. *)
Theorem long_scan_faults W ts a b max s :
  honest a -> honest b -> 1 <= max < 2 ^ 31 ->
  128 <= Z.of_nat (length ([a; b; dec max] ≫= blk)) < 256 ->
  Db.dbscan W fill ts (Some a) (Z.of_nat (length a)) (Some b) (Z.of_nat (length b)) max s = Fault OutOfBounds.
Proof.
  intros [_ Ha] [_ Hb] Hm Hl. unfold Db.dbscan. destruct (Z.ltb_spec max 1); [lia|].
  rewrite numlen_dec, bind_Done by lia. rewrite !block_text_blk.
  change (dec (Z.of_nat (length (dec max))) ++ [NL] ++ dec max ++ [NL]) with (blk (dec max)).
  replace (blk a ++ blk b ++ blk (dec max)) with ([a; b; dec max] ≫= blk)
    by (by rewrite !bind_cons, blks_nil, app_nil_r).
  set (text := [a; b; dec max] ≫= blk) in *. unfold small in *.
  pose proof (dec_length (Z.of_nat (length a)) ltac:(lia)). pose proof (dec_length (Z.of_nat (length b)) ltac:(lia)).
  pose proof (dec_length max ltac:(lia)). pose proof (dec_length (Z.of_nat (length (dec max))) ltac:(lia)).
  assert (Z.of_nat (length text) + 1 <= Z.of_nat (length a) + Z.of_nat (length b) + Z.of_nat (length (dec max)) + 64) as Hfit.
  { unfold text. rewrite !bind_cons, blks_nil, !length_app, !length_blk. simpl length. lia. }
  rewrite sint_ok, bind_Done by lia. unfold Db.sprintf_block. destruct (Z.leb_spec (Z.of_nat (length text) + 1)
    (Z.of_nat (length a) + Z.of_nat (length b) + Z.of_nat (length (dec max)) + 64)); [|lia]. rewrite bind_Done.
  assert (s8 (Z.of_nat (length text)) = Z.of_nat (length text) - 256) as ->.
  { unfold wraps. change (2 ^ (8 - 1)) with 128. change (2 ^ 8) with 256.
    rewrite <- (Z_mod_plus_full _ (-1)), Z.mod_small by lia. lia. }
  unfold Db._dbcmd, Db.cmd_text. change (Z.of_nat (length (Db.block_text _ (Db._dbstr SCAN)))) with 7.
  rewrite sint_ok, bind_Done by lia. destruct (Z.eqb_spec (Z.of_nat (length text) - 256) 0); [lia|].
  unfold range. destruct (Z.ltb_spec (Z.of_nat (length text) - 256) 0); [|lia]. by rewrite orb_true_r.
Qed.

End Flaws.

(** ** The hypotheses can hold *)

Section Examples.

Import Db.

(** The server closes the first connection and answers on the second. *)
Definition ex_lost : try := Try (Some (4096, 5)) (1, 0) [8] [].
Definition ex_good : try := Try (Some (4096, 6)) (2, 0) [8; 100] [ssdb [str_ok; ex_value]].

Lemma ex_fresh t : t = ex_lost \/ t = ex_good -> fresh t ex_pool.
Proof. intros [-> | ->] a f [= <- <-]; by split. Qed.


Lemma get_served_witness :
  exists db' s' d q, dbget 64 ex_zero [ex_good] (Some ex_key) 2 ex_pool = Done (db', s') /\
    wire s' = wire ex_pool ++ [(d, ssdb [_dbstr GET; ex_key])] /\ at_rest s' /\
    rno db' = DB_GET_OK /\ kvs db' = [KV (POwn ex_key) 2 q 3] /\
    text_of (src_buf db') q 3 = Done ex_value /\ dbfree db' = Done tt.
Proof.
  apply (get_served 64 ex_zero ex_good [] ex_key ex_value ex_pool).
  - apply ex_honest.
  - split; try done.
    + by repeat constructor.
    + split; [|done]. by exists [50; NL; 111; 107; NL; 51; NL; 118; NL; NL].
  - apply ex_fresh. by right.
  - apply init_at_rest.
  - done.
Defined.

Lemma error_taken_for_success_witness :
  _dbphrase 9 (set_kvs [no_kv] (set_buf (ssdb [[101; 114; 114; 111; 114]]) _dbcreate)) DEL =
    Done (set_rno DB_DEL_OK (set_kvs [no_kv] (set_buf (ssdb [[101; 114; 114; 111; 114]]) _dbcreate))).
Proof.
  refine (proj1 (error_taken_for_success [101; 114; 114; 111; 114] [] _ no_kv _ _ _)); [by split_all|done|done].
Defined.

Lemma recv_overflows_witness :
  _dbrecv ex_zero [[50; 51]; replicate 4 65; replicate 10236 65] = Fault OutOfBounds.
Proof.
  apply (recv_overflows ex_zero [50; 51] (replicate 4 65) (replicate 10236 65) []).
  - done.
  - done.
  - intros r E. apply (f_equal (fun l => last l)) in E. rewrite (last_app r) in E. done.
  - intros r E. apply (f_equal (fun l => last l)) in E. rewrite (last_app r) in E. done.
  - done.
  - rewrite length_replicate. done.
  - rewrite length_replicate. done.
Defined.

End Examples.
