(* ===== verification/Store.v ===== *)
(** * Store: the record store as the rest of the program sees it

    [auto_data_save.c] keeps its records in an SSDB server, through the calls
    of [db.c].  [RecordStore] are those calls on some state; what the caller
    gets is the status and the records of the result, or a null pointer.
    [StoreContract] is the documented behaviour of the server: it holds a map
    from keys to values; a call that reports success has done its work, and
    one that does not has changed nothing or done its work nevertheless;
    [scan] lists the keys behind its first bound up to its second one in the
    order of their bytes.  [Reliable] adds that no call fails.  A map with the
    obvious operations is an instance of all three. *)

From stdpp Require Import sorting.
From S2P Require Import Prelude CString Db.
Import Db.
Local Open Scope Z_scope.

(** ** The order of the keys *)

Fixpoint key_ltb (a b : list Z) : bool :=
  match a, b with
  | _, [] => false
  | [], _ :: _ => true
  | x :: a, y :: b => (x <? y) || ((x =? y) && key_ltb a b)
  end.

Definition key_le (a b : list Z) : Prop := key_ltb b a = false.

#[global] Instance key_le_dec a b : Decision (key_le a b).
Proof. unfold key_le. apply _. Defined.

Lemma key_ltb_irrefl a : key_ltb a a = false.
Proof. induction a as [|x a IH]; [done|]. simpl. rewrite Z.ltb_irrefl, Z.eqb_refl. done. Qed.

Lemma key_ltb_trans a : forall b c, key_ltb a b = true -> key_ltb b c = true -> key_ltb a c = true.
Proof.
  induction a as [|x a IH]; intros [|y b] [|z c]; simpl; try done.
  rewrite !orb_true_iff, !andb_true_iff, !Z.ltb_lt, !Z.eqb_eq. intros [H1|[-> H1]] [H2|[-> H2]]; [lia..|].
  right. split; [done|]. by eapply IH.
Qed.

Lemma key_total a : forall b, key_ltb a b = true \/ a = b \/ key_ltb b a = true.
Proof.
  induction a as [|x a IH]; intros [|y b]; simpl; auto.
  destruct (Z.lt_total x y) as [H|[->|H]].
  - left. apply orb_true_iff. left. lia.
  - rewrite Z.ltb_irrefl, Z.eqb_refl. simpl. destruct (IH b) as [|[->|]]; auto.
  - right. right. apply orb_true_iff. left. lia.
Qed.

Lemma key_le_lt a b : key_le a b <-> key_ltb a b = true \/ a = b.
Proof.
  unfold key_le. split.
  - intros H. destruct (key_total a b) as [|[|E]]; [auto..|congruence].
  - intros [H| ->]; [|apply key_ltb_irrefl]. destruct (key_ltb b a) eqn:E; [|done].
    pose proof (key_ltb_trans _ _ _ H E) as C. by rewrite key_ltb_irrefl in C.
Qed.

#[global] Instance key_le_trans : Transitive key_le.
Proof.
  intros a b c. rewrite !key_le_lt. intros [H1| ->] [H2| ->]; auto. left. by eapply key_ltb_trans.
Qed.

#[global] Instance key_le_total : Total key_le.
Proof. intros a b. rewrite !key_le_lt. destruct (key_total a b) as [|[|]]; auto. Qed.

Lemma key_ltb_le_trans a b c : key_ltb a b = true -> key_le b c -> key_ltb a c = true.
Proof. intros H1 [H2| ->]%key_le_lt; [by eapply key_ltb_trans|done]. Qed.

(** A common beginning does not matter. *)
Lemma key_ltb_app p a b : key_ltb (p ++ a) (p ++ b) = key_ltb a b.
Proof. induction p as [|x p IH]; [done|]. simpl. by rewrite Z.ltb_irrefl, Z.eqb_refl. Qed.

(** ** The records of a range *)

Abbreviation table := (gmap (list Z) (list Z)).
Abbreviation record := (list Z * list Z)%type.

Definition in_range (a b k : list Z) : Prop := key_ltb a k = true /\ key_le k b.

#[global] Instance in_range_dec a b k : Decision (in_range a b k).
Proof. unfold in_range. apply _. Defined.

(** The records with keys behind [a] up to [b], in order. *)
Definition in_order (x y : record) : Prop := key_le x.1 y.1.

#[global] Instance in_order_dec x y : Decision (in_order x y).
Proof. unfold in_order. apply _. Defined.

Definition listing (a b : list Z) (m : table) : list record :=
  merge_sort in_order (filter (fun x => in_range a b x.1) (map_to_list m)).

Lemma elem_of_listing a b m k v : (k, v) ∈ listing a b m <-> m !! k = Some v /\ in_range a b k.
Proof.
  unfold listing. rewrite merge_sort_Permutation, list_elem_of_filter, elem_of_map_to_list. tauto.
Qed.

Lemma NoDup_listing a b m : NoDup (listing a b m).*1.
Proof.
  unfold listing. rewrite merge_sort_Permutation. pose proof (NoDup_fst_map_to_list m) as H.
  induction (map_to_list m) as [|x l IH]; [apply NoDup_nil_2|]. rewrite fmap_cons in H. inversion_clear H as [|? ? Hx Hl].
  rewrite filter_cons. case_decide; [|by apply IH]. rewrite fmap_cons. constructor; [|by apply IH].
  intros (y & E & Hy)%list_elem_of_fmap. apply list_elem_of_filter in Hy as [_ Hy]. apply Hx. rewrite E.
  by apply list_elem_of_fmap_2.
Qed.

Lemma sorted_listing a b m : StronglySorted in_order (listing a b m).
Proof.
  apply StronglySorted_merge_sort.
  - intros x y z. apply key_le_trans.
  - intros x y. unfold in_order. destruct (key_le_total x.1 y.1); auto.
Qed.

(** ** The calls *)

(** [None] is the null pointer of a failed allocation; [kvs] are the records of
    the result, [kvn] their number. *)
Record reply := Reply { rno : Z; kvs : list record }.

Class RecordStore (S : Type) := {
  dbget : cstring -> Z -> S -> option reply * S;
  dbset : cstring -> Z -> list Z -> Z -> S -> option reply * S;
  dbscan : cstring -> Z -> cstring -> Z -> Z -> S -> option reply * S;
  dbdel : cstring -> Z -> S -> option reply * S;
  dbmulti_set : list arg -> S -> option reply * S
}.

(** A call that returned and reports [ok]. *)
Definition succeeded (ok : Z) (r : option reply) : Prop := exists l, r = Some (Reply ok l).

Definition len (k : list Z) : Z := Z.of_nat (length k).

(** The effect of [multi_set]. *)
Definition set_all (l : list record) (m : table) : table := foldl (fun m x => <[x.1 := x.2]> m) m l.

Definition honest_args (l : list record) : list arg := (fun x => Arg x.1 (len x.1) x.2 (len x.2)) <$> l.

Class StoreContract (S : Type) `{RecordStore S} := {
  contents : S -> table;
  get_keeps k n s : contents (dbget k n s).2 = contents s;
  get_finds k s v : (dbget k (len k) s).1 = Some (Reply DB_GET_OK [(k, v)]) -> contents s !! k = Some v;
  get_ok_one k s l : (dbget k (len k) s).1 = Some (Reply DB_GET_OK l) -> exists v, l = [(k, v)];
  get_misses k s l : (dbget k (len k) s).1 = Some (Reply DB_NOT_FOUND l) -> contents s !! k = None /\ l = [];
  scan_keeps a n b m max s : contents (dbscan a n b m max s).2 = contents s;
  scan_lists a b max s l :
    (dbscan a (len a) b (len b) max s).1 = Some (Reply DB_SCAN_OK l) ->
    l = take (Z.to_nat max) (listing a b (contents s));
  del_or_not k s : contents (dbdel k (len k) s).2 = contents s \/ contents (dbdel k (len k) s).2 = delete k (contents s);
  del_deletes k s : succeeded DB_DEL_OK (dbdel k (len k) s).1 -> contents (dbdel k (len k) s).2 = delete k (contents s);
  set_or_not k v s :
    contents (dbset k (len k) v (len v) s).2 = contents s \/
    contents (dbset k (len k) v (len v) s).2 = <[k := v]> (contents s);
  set_sets k v s :
    succeeded DB_SET_OK (dbset k (len k) v (len v) s).1 ->
    contents (dbset k (len k) v (len v) s).2 = <[k := v]> (contents s);
  mset_or_not l s :
    contents (dbmulti_set (honest_args l) s).2 = contents s \/
    contents (dbmulti_set (honest_args l) s).2 = set_all l (contents s);
  mset_sets l s :
    succeeded DB_MULTI_SET_OK (dbmulti_set (honest_args l) s).1 ->
    contents (dbmulti_set (honest_args l) s).2 = set_all l (contents s)
}.

Class Reliable (S : Type) `{StoreContract S} := {
  get_works k s :
    (dbget k (len k) s).1 = Some (match contents s !! k with
                                  | Some v => Reply DB_GET_OK [(k, v)] | None => Reply DB_NOT_FOUND [] end);
  scan_works a b max s : 1 <= max -> succeeded DB_SCAN_OK (dbscan a (len a) b (len b) max s).1;
  del_works k s : k <> [] -> succeeded DB_DEL_OK (dbdel k (len k) s).1;
  mset_works l s : l <> [] -> succeeded DB_MULTI_SET_OK (dbmulti_set (honest_args l) s).1
}.

(** ** A map as a store *)

#[export] Instance table_store : RecordStore table := {
  dbget k n m :=
    (Some (match m !! take (Z.to_nat n) k with Some v => Reply DB_GET_OK [(k, v)] | None => Reply DB_NOT_FOUND [] end), m);
  dbset k n v vn m := (Some (Reply DB_SET_OK []), <[take (Z.to_nat n) k := take (Z.to_nat vn) v]> m);
  dbscan a n b bn max m :=
    (Some (Reply DB_SCAN_OK (take (Z.to_nat max) (listing (take (Z.to_nat n) a) (take (Z.to_nat bn) b) m))), m);
  dbdel k n m := (Some (Reply DB_DEL_OK []), delete (take (Z.to_nat n) k) m);
  dbmulti_set l m :=
    (Some (Reply DB_MULTI_SET_OK []),
     set_all ((fun x => (take (Z.to_nat (g_klen x)) (g_key x), take (Z.to_nat (g_vlen x)) (g_val x))) <$> l) m)
}.

Lemma take_len {A} (l : list A) : take (Z.to_nat (Z.of_nat (length l))) l = l.
Proof. rewrite Nat2Z.id. by apply take_ge. Qed.

Lemma table_args l :
  ((fun x => (take (Z.to_nat (g_klen x)) (g_key x), take (Z.to_nat (g_vlen x)) (g_val x))) <$> honest_args l) = l.
Proof.
  unfold honest_args. rewrite <- list_fmap_compose. rewrite <- (list_fmap_id l) at 2. apply list_fmap_ext. intros i [k v] _.
  unfold compose, len. cbn [g_klen g_key g_vlen g_val fst snd]. by rewrite !take_len.
Qed.

#[export] Instance table_contract : StoreContract table.
Proof.
  refine {| contents := fun m : table => m |}.
  all: simpl; unfold len; intros; rewrite ?take_len; auto.
  - rewrite take_len in *. destruct (s !! k); simplify_eq; done.
  - rewrite take_len in *. destruct (s !! k) as [v|]; simplify_eq. by exists v.
  - rewrite take_len in *. destruct (s !! k); simplify_eq; done.
  - rewrite !take_len in *. by simplify_eq.
  - right. by rewrite table_args.
  - by rewrite table_args.
Defined.

#[export] Instance table_reliable : Reliable table.
Proof.
  split; simpl; unfold len; intros; rewrite ?take_len; try by eexists.
Qed.
