(* ===== verification/ThreadPool.v ===== *)
(** * The thread pool ([src/TCP_C/thread.c])

    The pool, its worker threads, the threads that call [pool_add_task] and
    the one that calls [pool_destroy], as a transition system.  A step is what
    a thread does between two points at which another thread can interfere:
    the statements under the mutex are one step, except that the accesses to
    [shutdown] are steps of their own because [pool_destroy] writes it without
    the mutex.  The queue is the linked list of [task_st] nodes in the heap.

    [exec] is executable: it returns [None] when the thread cannot move, and a
    [Fault] when an assertion fails or a dangling pointer is followed. *)

From S2P Require Import Prelude.
Local Open Scope Z_scope.

Module ThreadPool.

Record task_st := Task { t_task : Z; t_parms : Z; t_next : addr }.

(** Where a worker is in [thread_routine]. *)
Inductive wpc :=
  | WLock                (** before [pthread_mutex_lock] *)
  | WTest                (** holds the mutex, before the loop condition *)
  | WWait                (** condition true, before [pthread_cond_wait] *)
  | WBlocked             (** asleep; the mutex is released *)
  | WWoken               (** woken, before the mutex is taken again *)
  | WTake                (** left the loop, before the test of [shutdown] *)
  | WCall (n : addr)     (** took the task, mutex released, before the call *)
  | WFree (n : addr)     (** after the call, before [wys_free] *)
  | WExit.

(** Where a caller is in [pool_add_task]. *)
Inductive cpc := CLock (n : addr) | CLink (n : addr) | CSignal.

(** Where the caller of [pool_destroy] is. *)
Inductive dpc := DIdle | DBroadcast | DJoin (k : nat) | DDone.

Inductive who := Worker (i : nat) | Client (c : nat).

#[global] Instance wpc_eq_dec : EqDecision wpc.
Proof. solve_decision. Defined.
#[global] Instance who_eq_dec : EqDecision who.
Proof. solve_decision. Defined.

Record pool := Pool {
  lock : option who; head : addr; shutdown : Z; cur_task_list_size : Z;
  max_thread_num : nat
}.

(** [added], [taken] and [called] are histories: the tasks linked into the
    queue, taken from it and called, each in order. *)
Record state := State {
  p : pool; nodes : gmap addr task_st; workers : list wpc; clients : gmap nat cpc;
  destroyer : dpc; added : list (Z * Z); taken : list (Z * Z); called : list (Z * Z)
}.

Definition set_p (q : pool) (s : state) : state :=
  State q (nodes s) (workers s) (clients s) (destroyer s) (added s) (taken s) (called s).
Definition set_lock (w : option who) (s : state) : state :=
  set_p (Pool w (head (p s)) (shutdown (p s)) (cur_task_list_size (p s)) (max_thread_num (p s))) s.
Definition set_worker (i : nat) (c : wpc) (s : state) : state :=
  State (p s) (nodes s) (<[i := c]> (workers s)) (clients s) (destroyer s) (added s) (taken s) (called s).
Definition set_clients (m : gmap nat cpc) (s : state) : state :=
  State (p s) (nodes s) (workers s) m (destroyer s) (added s) (taken s) (called s).
Definition set_destroyer (d : dpc) (s : state) : state :=
  State (p s) (nodes s) (workers s) (clients s) d (added s) (taken s) (called s).
Definition set_nodes (h : gmap addr task_st) (s : state) : state :=
  State (p s) h (workers s) (clients s) (destroyer s) (added s) (taken s) (called s).

Definition thread_pool_init (max_thread_num : nat) : state :=
  State (Pool None NULL 0 0 max_thread_num) ∅ (replicate max_thread_num WLock) ∅ DIdle [] [] [].

(** [while(task_queue->next != NULL) task_queue = task_queue->next;] *)
Fixpoint last_node (fuel : nat) (h : gmap addr task_st) (a : addr) : outcome addr :=
  match fuel with
  | O => Fault OutOfBounds
  | S fuel =>
    x ← get_or UseAfterFree (h !! a);
    if t_next x =? NULL then Done a else last_node fuel h (t_next x)
  end.

Definition set_next (a n : addr) (h : gmap addr task_st) : outcome (gmap addr task_st) :=
  x ← get_or UseAfterFree (h !! a); Done (<[a := Task (t_task x) (t_parms x) n]> h).

(** The statements of [pool_add_task] under the mutex. *)
Definition link (n : addr) (s : state) : outcome state :=
  x ← get_or UseAfterFree (nodes s !! n);
  h_head ← (if negb (head (p s) =? NULL) then
      l ← last_node (size (nodes s)) (nodes s) (head (p s));
      h ← set_next l n (nodes s);
      Done (h, head (p s))
    else Done (nodes s, n));
  let '(h, hd) := (h_head : gmap addr task_st * addr) in
  if hd =? NULL then Fault AssertFailed else
  let q := p s in
  Done (State (Pool (lock q) hd (shutdown q) (s32 (cur_task_list_size q + 1)) (max_thread_num q))
          h (workers s) (clients s) (destroyer s)
          (added s ++ [(t_task x, t_parms x)]) (taken s) (called s)).

(** Taking a task, with the two assertions. *)
Definition take_task (s : state) : outcome (addr * state) :=
  let q := p s in
  if cur_task_list_size q =? 0 then Fault AssertFailed
  else if head q =? NULL then Fault AssertFailed
  else
    x ← get_or UseAfterFree (nodes s !! head q);
    Done (head q,
      State (Pool (lock q) (t_next x) (shutdown q) (s32 (cur_task_list_size q - 1)) (max_thread_num q))
        (nodes s) (workers s) (clients s) (destroyer s)
        (added s) (taken s ++ [(t_task x, t_parms x)]) (called s)).

(** One step of worker [i] in [thread_routine]. *)
Definition thread_routine (i : nat) (s : state) : option (outcome state) :=
  match workers s !! i with
  | Some WLock | Some WWoken =>
    match lock (p s) with
    | None => Some (Done (set_lock (Some (Worker i)) (set_worker i WTest s)))
    | Some _ => None
    end
  | Some WTest =>
    Some (Done (if (cur_task_list_size (p s) =? 0) && (shutdown (p s) =? 0)
                then set_worker i WWait s else set_worker i WTake s))
  | Some WWait => Some (Done (set_lock None (set_worker i WBlocked s)))
  | Some WTake =>
    Some (if negb (shutdown (p s) =? 0) then Done (set_lock None (set_worker i WExit s))
          else r ← take_task s;
               let '(n, s) := (r : addr * state) in
               Done (set_lock None (set_worker i (WCall n) s)))
  | Some (WCall n) =>
    Some (x ← get_or UseAfterFree (nodes s !! n);
          Done (State (p s) (nodes s) (<[i := WFree n]> (workers s)) (clients s) (destroyer s)
                  (added s) (taken s) (called s ++ [(t_task x, t_parms x)])))
  | Some (WFree n) =>
    Some (_ ← get_or UseAfterFree (nodes s !! n);
          Done (set_nodes (delete n (nodes s)) (set_worker i WLock s)))
  | Some WBlocked | Some WExit | None => None
  end.

(** A new call of [pool_add_task]: [n] is the node [wys_malloc] returned. *)
Definition call_add (c : nat) (task parms : Z) (n : addr) (s : state) : option (outcome state) :=
  match clients s !! c, nodes s !! n with
  | None, None =>
    if (0 <? n) && (n <? 2 ^ 32) then
      Some (Done (set_clients (<[c := CLock n]> (clients s))
                    (set_nodes (<[n := Task task parms NULL]> (nodes s)) s)))
    else None
  | _, _ => None
  end.

Definition is_blocked (s : state) (w : nat) : bool := bool_decide (workers s !! w = Some WBlocked).

(** [pthread_cond_signal] wakes one waiting thread, [w] when it waits. *)
Definition cond_signal (w : nat) (s : state) : option state :=
  if existsb (is_blocked s) (seq 0 (length (workers s))) then
    if is_blocked s w then Some (set_worker w WWoken s) else None
  else Some s.

Definition pool_add_task (c w : nat) (s : state) : option (outcome state) :=
  match clients s !! c with
  | Some (CLock n) =>
    match lock (p s) with
    | None => Some (Done (set_lock (Some (Client c)) (set_clients (<[c := CLink n]> (clients s)) s)))
    | Some _ => None
    end
  | Some (CLink n) =>
    Some (s ← link n s; Done (set_lock None (set_clients (<[c := CSignal]> (clients s)) s)))
  | Some CSignal => s ← cond_signal w s; Some (Done (set_clients (delete c (clients s)) s))
  | None => None
  end.

Definition cond_broadcast (ws : list wpc) : list wpc :=
  (fun c => if decide (c = WBlocked) then WWoken else c) <$> ws.

(** [while(pool->head != NULL)]: what is left in the queue is freed. *)
Fixpoint free_queue (fuel : nat) (a : addr) (h : gmap addr task_st) : outcome (gmap addr task_st) :=
  if a =? NULL then Done h else
  match fuel with
  | O => Fault OutOfBounds
  | S fuel =>
    x ← get_or UseAfterFree (h !! a);
    free_queue fuel (t_next x) (delete a h)
  end.

Definition pool_destroy (s : state) : option (outcome state) :=
  match destroyer s with
  | DIdle =>
    if negb (shutdown (p s) =? 0) then Some (Done (set_destroyer DDone s))
    else
      let q := p s in
      Some (Done (set_destroyer DBroadcast
        (set_p (Pool (lock q) (head q) 1 (cur_task_list_size q) (max_thread_num q)) s)))
  | DBroadcast =>
    Some (Done (set_destroyer (DJoin 0)
      (State (p s) (nodes s) (cond_broadcast (workers s)) (clients s) (destroyer s)
         (added s) (taken s) (called s))))
  | DJoin k =>
    if decide (k < max_thread_num (p s))%nat then
      if decide (workers s !! k = Some WExit) then Some (Done (set_destroyer (DJoin (S k)) s))
      else None
    else
      Some (h ← free_queue (size (nodes s)) (head (p s)) (nodes s);
            let q := p s in
            Done (set_destroyer DDone (set_nodes h
              (set_p (Pool (lock q) NULL (shutdown q) (cur_task_list_size q) (max_thread_num q)) s))))
  | DDone => None
  end.

(** ** Runs *)

Inductive event :=
  | EWorker (i : nat)
  | ECall (c : nat) (task parms : Z) (n : addr)
  | EAdd (c w : nat)
  | EDestroy
  | ESpurious (i : nat).  (** POSIX lets a waiting thread wake by itself *)

Definition exec (e : event) (s : state) : option (outcome state) :=
  match e with
  | EWorker i => thread_routine i s
  | ECall c task parms n => call_add c task parms n s
  | EAdd c w => pool_add_task c w s
  | EDestroy => pool_destroy s
  | ESpurious i =>
    if decide (workers s !! i = Some WBlocked) then Some (Done (set_worker i WWoken s)) else None
  end.

(** Callers of [pool_add_task] use the pool while it lives. *)
Definition alive (s : state) : Prop := destroyer s <> DDone.

Inductive reachable (n : nat) : state -> Prop :=
  | reach_init : reachable n (thread_pool_init n)
  | reach_step s e s' :
      reachable n s -> alive s -> exec e s = Some (Done s') -> reachable n s'.

Fixpoint run (es : list event) (s : state) : option (outcome state) :=
  match es with
  | [] => Some (Done s)
  | e :: es => match exec e s with Some (Done s) => run es s | r => r end
  end.

End ThreadPool.
