(* ===== verification/PoolFacts.v ===== *)
(** * Facts about the thread pool: safety, order, progress, and the race in
    [pool_destroy] *)

From S2P Require Import Prelude ThreadPool.
Local Open Scope Z_scope.

Import ThreadPool.

(** ** The queue as a list *)

Fixpoint chain (h : gmap addr task_st) (a : addr) (q : list addr) : Prop :=
  match q with
  | [] => a = NULL
  | x :: q => a = x /\ x <> NULL /\ exists t, h !! x = Some t /\ chain h (t_next t) q
  end.

Definition payload (h : gmap addr task_st) (a : addr) : Z * Z :=
  match h !! a with Some t => (t_task t, t_parms t) | None => (0, 0) end.

Lemma chain_ext h h' a q : (forall x, x ∈ q -> h' !! x = h !! x) -> chain h a q -> chain h' a q.
Proof.
  revert a. induction q as [|x q IH]; intros a He; [done|]. simpl.
  intros (-> & Hx & t & E & Hc). split; [done|]. split; [done|]. exists t.
  rewrite He by set_solver. split; [done|]. apply IH; [|done]. intros y Hy. apply He. set_solver.
Qed.

Lemma queue_live h a q x : chain h a q -> x ∈ q -> is_Some (h !! x).
Proof.
  revert a. induction q as [|y q IH]; intros a; [set_solver|].
  intros (_ & _ & t & E & Hc) [->|Hx]%elem_of_cons; [by eexists|]. by eapply IH.
Qed.

Lemma chain_size h a q : chain h a q -> NoDup q -> (length q <= size h)%nat.
Proof.
  intros Hc Hnd. rewrite <- size_dom, <- (size_list_to_set (C := gset addr) q) by done.
  apply subseteq_size. intros x Hx%elem_of_list_to_set. apply elem_of_dom. by eapply queue_live.
Qed.

Lemma last_node_spec h q0 l a fuel :
  chain h a (q0 ++ [l]) -> (length q0 < fuel)%nat -> last_node fuel h a = Done l.
Proof.
  revert a fuel. induction q0 as [|x q0 IH]; intros a [|fuel]; simpl; try lia.
  - intros (-> & Hl & t & -> & Hn) _. simpl. by rewrite Hn.
  - intros (-> & Hx & t & -> & Hc) Hf. simpl.
    destruct (Z.eqb_spec (t_next t) NULL) as [E|_]; [|apply IH; [done|lia]].
    rewrite E in Hc. destruct q0; simpl in Hc; naive_solver.
Qed.

Lemma chain_snoc h q0 l n a x t :
  chain h a (q0 ++ [l]) -> NoDup (q0 ++ [l]) -> n ∉ q0 ++ [l] -> n <> NULL ->
  h !! l = Some x -> h !! n = Some t -> t_next t = NULL ->
  chain (<[l := Task (t_task x) (t_parms x) n]> h) a ((q0 ++ [l]) ++ [n]).
Proof.
  revert a. induction q0 as [|y q0 IH]; intros a; simpl.
  - intros (-> & Hl & t' & E & Hn) _ Hni Hn0 El En Ht. split; [done|]. split; [done|].
    eexists. rewrite lookup_insert_eq. split; [done|]. simpl. split; [done|]. split; [done|].
    exists t. rewrite lookup_insert_ne by set_solver. done.
  - intros (-> & Hy & t' & E & Hc) [Hy' Hnd]%NoDup_cons Hni Hn0 El En Ht.
    split; [done|]. split; [done|]. exists t'. rewrite lookup_insert_ne by set_solver.
    split; [done|]. apply IH; try done. set_solver.
Qed.

Lemma free_queue_spec h a q fuel :
  chain h a q -> NoDup q -> (length q <= fuel)%nat ->
  exists h', free_queue fuel a h = Done h' /\ forall x, h' !! x = if decide (x ∈ q) then None else h !! x.
Proof.
  revert h a fuel. induction q as [|y q IH]; intros h a fuel.
  - intros -> _ _. exists h. split; [by destruct fuel|]. intros x.
    by rewrite decide_False by set_solver.
  - simpl chain. intros (-> & Hy & t & E & Hc) [Hyq Hnd]%NoDup_cons Hf. destruct fuel as [|fuel]; [simpl in Hf; lia|].
    simpl in Hf. cbn [free_queue]. destruct (Z.eqb_spec y NULL); [done|]. rewrite E. simpl.
    destruct (IH (delete y h) (t_next t) fuel) as (h' & -> & Hh'); [|done|lia|].
    + eapply chain_ext, Hc. intros x Hx. rewrite lookup_delete_ne; [done|]. by intros ->.
    + exists h'. split; [done|]. intros x. rewrite Hh'. destruct (decide (x = y)) as [->|Hne].
      * rewrite (decide_True (P := y ∈ y :: q)) by set_solver. rewrite lookup_delete_eq. by destruct decide.
      * rewrite lookup_delete_ne by done. destruct (decide (x ∈ q));
          [rewrite decide_True by set_solver|rewrite decide_False by set_solver]; done.
Qed.

(** ** The invariant *)

Definition wnode (c : wpc) : option addr :=
  match c with WCall n | WFree n => Some n | _ => None end.
Definition cnode (c : cpc) : option addr :=
  match c with CLock n | CLink n => Some n | CSignal => None end.

(** The node a thread holds outside the queue. *)
Definition holds (ws : list wpc) (cs : gmap nat cpc) (o : who) : option addr :=
  match o with Worker i => ws !! i ≫= wnode | Client c => cs !! c ≫= cnode end.

Definition wcrit (c : wpc) : bool := match c with WTest | WWait | WTake => true | _ => false end.
Definition ccrit (c : cpc) : bool := match c with CLink _ => true | _ => false end.

(** The thread is between [pthread_mutex_lock] and its unlock. *)
Definition critical (ws : list wpc) (cs : gmap nat cpc) (o : who) : bool :=
  match o with
  | Worker i => from_option wcrit false (ws !! i)
  | Client c => from_option ccrit false (cs !! c)
  end.

(** Nodes taken whose function is not called yet. *)
Definition to_call (c : wpc) : list addr := match c with WCall n => [n] | _ => [] end.
Definition calls (ws : list wpc) : list addr := ws ≫= to_call.

(** Heap, queue, ownership and histories. *)
Record data (h : gmap addr task_st) (hd cur : Z) (ws : list wpc) (cs : gmap nat cpc)
    (ad tk cl : list (Z * Z)) (q : list addr) : Prop := {
  d_chain : chain h hd q;
  d_nodup : NoDup q;
  d_size : cur = s32 (Z.of_nat (length q));
  d_range : forall a, is_Some (h !! a) -> 0 < a < 2 ^ 32;
  d_held : forall o a, holds ws cs o = Some a -> is_Some (h !! a) /\ a ∉ q;
  d_uniq : forall o o' a, holds ws cs o = Some a -> holds ws cs o' = Some a -> o = o';
  d_fresh : forall c a t, holds ws cs (Client c) = Some a -> h !! a = Some t -> t_next t = NULL;
  d_noleak : forall a, is_Some (h !! a) -> a ∈ q \/ exists o, holds ws cs o = Some a;
  d_added : ad = tk ++ (payload h <$> q);
  d_called : tk ≡ₚ cl ++ (payload h <$> calls ws)
}.

(** Mutex, program counters and wake-ups. *)
Record control (n : nat) (l : option who) (down : Z) (ws : list wpc) (cs : gmap nat cpc)
    (q : list addr) : Prop := {
  c_lock : forall o, l = Some o <-> critical ws cs o = true;
  c_len : length ws = n;
  c_wait : forall i, ws !! i = Some WWait -> q = [];
  c_take : forall i, ws !! i = Some WTake -> down = 0 -> q <> [];
  c_exit : forall i, ws !! i = Some WExit -> down <> 0;
  c_wake : q <> [] -> down = 0 -> (0 < n)%nat ->
    (exists c, cs !! c = Some CSignal) \/ exists i w, ws !! i = Some w /\ w <> WBlocked
}.

Definition inv (n : nat) (s : state) (q : list addr) : Prop :=
  data (nodes s) (head (p s)) (cur_task_list_size (p s)) (workers s) (clients s)
    (added s) (taken s) (called s) q /\
  control n (lock (p s)) (shutdown (p s)) (workers s) (clients s) q /\
  max_thread_num (p s) = n /\ (shutdown (p s) = 0 <-> destroyer s = DIdle).

(** ** How the parts change *)

Lemma nodup_bounded (l : list Z) (N : nat) :
  NoDup l -> (forall x, x ∈ l -> 0 <= x < Z.of_nat N) -> (length l <= N)%nat.
Proof.
  intros Hnd Hb. rewrite <- (length_seq N 0), <- (length_fmap Z.of_nat).
  apply submseteq_length, NoDup_submseteq; [done|]. intros x Hx. apply list_elem_of_fmap.
  specialize (Hb x Hx). exists (Z.to_nat x). rewrite elem_of_seq. split; lia.
Qed.

Lemma data_size h hd cur ws cs ad tk cl q :
  data h hd cur ws cs ad tk cl q -> (cur =? 0) = bool_decide (q = []).
Proof.
  intros [Hc Hnd -> Hr _ _ _ _ _ _]. assert (length (0%Z :: q) <= Z.to_nat (2 ^ 32)%Z)%nat as Hl.
  { assert (forall x, x ∈ q -> 0 < x < 2 ^ 32) as Hq by (intros x Hx; by eapply Hr, queue_live).
    apply nodup_bounded; [constructor; [|done]; intros H0; specialize (Hq 0 H0); lia|].
    intros x [->|Hx]%elem_of_cons; [|specialize (Hq x Hx)]; lia. }
  unfold wraps. destruct q as [|x q]; [done|].
  rewrite bool_decide_false by done. apply Z.eqb_neq. simpl length in *.
  change (2 ^ (32 - 1)) with 2147483648. change (2 ^ 32) with 4294967296 in *.
  destruct (Z_lt_le_dec (Z.of_nat (S (length q))) 2147483648).
  - rewrite Z.mod_small; lia.
  - pose proof (Z.mod_small (Z.of_nat (S (length q)) + 2147483648 - 4294967296) 4294967296) as E.
    rewrite <- (Z.mod_add _ 1) in E by lia. rewrite Z.mul_1_l, Z.sub_add in E. lia.
Qed.

Lemma holds_worker ws cs i c o :
  is_Some (ws !! i) ->
  holds (<[i := c]> ws) cs o = if decide (o = Worker i) then wnode c else holds ws cs o.
Proof.
  intros Hi%lookup_lt_is_Some. destruct decide as [->|Hne].
  - simpl. by rewrite list_lookup_insert_eq.
  - destruct o as [j|]; [|done]. simpl. rewrite list_lookup_insert_ne; [done|congruence].
Qed.

Lemma holds_client ws cs c x o :
  holds ws (<[c := x]> cs) o = if decide (o = Client c) then cnode x else holds ws cs o.
Proof.
  destruct decide as [->|Hne]; [simpl; by rewrite lookup_insert_eq|].
  destruct o; [done|]. simpl. rewrite lookup_insert_ne; [done|congruence].
Qed.

Lemma holds_gone ws cs c o :
  holds ws (delete c cs) o = if decide (o = Client c) then None else holds ws cs o.
Proof.
  destruct decide as [->|Hne]; [simpl; by rewrite lookup_delete_eq|].
  destruct o; [done|]. simpl. rewrite lookup_delete_ne; [done|congruence].
Qed.

Lemma critical_worker ws cs i c o :
  is_Some (ws !! i) ->
  critical (<[i := c]> ws) cs o = if decide (o = Worker i) then wcrit c else critical ws cs o.
Proof.
  intros Hi%lookup_lt_is_Some. destruct decide as [->|Hne].
  - simpl. by rewrite list_lookup_insert_eq.
  - destruct o as [j|]; [|done]. simpl. rewrite list_lookup_insert_ne; [done|congruence].
Qed.

Lemma critical_client ws cs c x o :
  critical ws (<[c := x]> cs) o = if decide (o = Client c) then ccrit x else critical ws cs o.
Proof.
  destruct decide as [->|Hne]; [simpl; by rewrite lookup_insert_eq|].
  destruct o; [done|]. simpl. rewrite lookup_insert_ne; [done|congruence].
Qed.

Lemma critical_gone ws cs c o :
  critical ws (delete c cs) o = if decide (o = Client c) then false else critical ws cs o.
Proof.
  destruct decide as [->|Hne]; [simpl; by rewrite lookup_delete_eq|].
  destruct o; [done|]. simpl. rewrite lookup_delete_ne; [done|congruence].
Qed.

(** Taking, releasing and keeping the mutex. *)
Section Mutex.
  Context (l : option who) (f : who -> bool) (me : who).
  Hypothesis Hf : forall o, l = Some o <-> f o = true.

Lemma lock_take o : l = None -> Some me = Some o <-> (if decide (o = me) then true else f o) = true.
Proof.
    intros El. destruct decide as [->|Hne]; [done|]. rewrite <- Hf, El. naive_solver.
Qed.

Lemma lock_release o :
    f me = true -> None = Some o <-> (if decide (o = me) then false else f o) = true.
Proof.
    intros Hm%Hf. destruct decide as [->|Hne]; [done|]. rewrite <- Hf, Hm. naive_solver.
Qed.

Lemma lock_keep b o : f me = b -> l = Some o <-> (if decide (o = me) then b else f o) = true.
Proof. intros <-. rewrite Hf. by destruct decide as [->|]. Qed.
End Mutex.

Lemma calls_insert ws i c :
  ws !! i = Some c -> exists r, calls ws ≡ₚ to_call c ++ r /\
    forall c', calls (<[i := c']> ws) ≡ₚ to_call c' ++ r.
Proof.
  intros Hi. exists (calls (take i ws) ++ calls (drop (S i) ws)). unfold calls.
  assert (forall c' : wpc, mbind to_call (take i ws ++ c' :: drop (S i) ws) ≡ₚ
    to_call c' ++ mbind to_call (take i ws) ++ mbind to_call (drop (S i) ws)) as E.
  { intros c'. rewrite bind_app, bind_cons. apply Permutation_app_swap_app. }
  split.
  - rewrite <- (take_drop_middle ws i c Hi) at 1. apply E.
  - intros c'. rewrite insert_take_drop by (by eapply lookup_lt_Some). apply E.
Qed.

Lemma calls_held ws a : a ∈ calls ws -> exists i, ws !! i = Some (WCall a).
Proof.
  unfold calls. intros (w & Ha & Hw)%list_elem_of_bind. apply list_elem_of_lookup in Hw as [j Hj].
  exists j. destruct w; simpl in Ha; set_solver.
Qed.

(** ** Steps that move program counters only *)

Lemma data_frame h hd cur ws cs ad tk cl q ws' cs' :
  data h hd cur ws cs ad tk cl q ->
  (forall o, holds ws' cs' o = holds ws cs o) -> calls ws' ≡ₚ calls ws ->
  data h hd cur ws' cs' ad tk cl q.
Proof.
  intros [] Hh Hc. split; try done.
  - intros o a. rewrite Hh. apply d_held0.
  - intros o o' a. rewrite !Hh. apply d_uniq0.
  - intros c a t. rewrite Hh. apply d_fresh0.
  - intros a Ha. destruct (d_noleak0 a Ha) as [|[o Ho]]; [by left|right; exists o; by rewrite Hh].
  - by rewrite Hc.
Qed.

(** A worker that neither takes nor drops a node. *)
Lemma data_worker h hd cur ws cs ad tk cl q i c c' :
  data h hd cur ws cs ad tk cl q -> ws !! i = Some c -> wnode c = None -> wnode c' = None ->
  data h hd cur (<[i := c']> ws) cs ad tk cl q.
Proof.
  intros D Hi Hc Hc'. apply (data_frame _ _ _ _ _ _ _ _ _ _ _ D).
  - intros o. rewrite holds_worker by by eexists. destruct decide as [->|]; [|done].
    simpl. rewrite Hi. simpl. congruence.
  - destruct (calls_insert ws i c Hi) as (r & -> & Hr). rewrite Hr. by destruct c, c'.
Qed.

Lemma control_worker n l l' down ws cs q i c c' :
  control n l down ws cs q -> ws !! i = Some c ->
  (forall o, l' = Some o <-> (if decide (o = Worker i) then wcrit c' else critical ws cs o) = true) ->
  (c' = WWait -> q = []) -> (c' = WTake -> down = 0 -> q <> []) -> (c' = WExit -> down <> 0) ->
  (c' = WBlocked -> q = []) ->
  control n l' down (<[i := c']> ws) cs q.
Proof.
  intros [Hl Hn Hw Ht He Hk] Hi Hl' Hcw Hct Hce Hcb.
  assert (forall j x, <[i := c']> ws !! j = Some x -> (j = i /\ x = c') \/ (j <> i /\ ws !! j = Some x)) as Hins.
  { intros j x. rewrite list_lookup_insert_Some. naive_solver. }
  split.
  - intros o. rewrite critical_worker by by eexists. apply Hl'.
  - by rewrite length_insert.
  - intros j [[_ Hx]|[_ Hj]]%Hins; eauto.
  - intros j [[_ Hx]|[_ Hj]]%Hins; eauto.
  - intros j [[_ Hx]|[_ Hj]]%Hins; eauto.
  - intros Hq Hd H0. destruct (Hk Hq Hd H0) as [|(j & w & Hj & Hne)]; [by left|]. right.
    destruct (decide (j = i)) as [->|Hji].
    + exists i, c'. rewrite list_lookup_insert_eq by (by eapply lookup_lt_Some). naive_solver.
    + exists j, w. by rewrite list_lookup_insert_ne by done.
Qed.

(** ** Steps that move a node *)

Lemma payload_ext h h' (l : list addr) :
  (forall a, a ∈ l -> payload h' a = payload h a) -> payload h' <$> l = payload h <$> l.
Proof. intros H. apply list_fmap_ext. intros i x Hx. by apply H, (list_elem_of_lookup_2 _ i). Qed.

Lemma payload_some h a t : h !! a = Some t -> payload h a = (t_task t, t_parms t).
Proof. unfold payload. by intros ->. Qed.

(** The head of the queue becomes the node worker [i] holds. *)
Lemma data_take h hd cur ws cs ad tk cl x q i t :
  data h hd cur ws cs ad tk cl (x :: q) -> ws !! i = Some WTake -> h !! x = Some t ->
  data h (t_next t) (s32 (cur - 1)) (<[i := WCall x]> ws) cs ad (tk ++ [(t_task t, t_parms t)]) cl q.
Proof.
  intros [Hc [Hxq Hnd]%NoDup_cons -> Hr Hh Hu Hf Hl Ha Hcl] Hi E. destruct Hc as (_ & _ & t' & E' & Hc).
  assert (t' = t) as -> by congruence.
  assert (is_Some (ws !! i)) as Hs by by eexists. split; try done.
  - rewrite wraps_minus_l. f_equal. simpl. lia.
  - intros o a. rewrite holds_worker by done. destruct decide as [->|]; [|intros Ho; destruct (Hh o a Ho); set_solver].
    intros [= <-]. split; [by eexists|done].
  - intros o o' a. rewrite !holds_worker by done.
    destruct (decide (o = Worker i)) as [->|], (decide (o' = Worker i)) as [->|]; simpl; try done.
    + intros [= <-] Ho. destruct (Hh o' _ Ho). set_solver.
    + intros Ho [= <-]. destruct (Hh o _ Ho). set_solver.
    + apply Hu.
  - intros a [Hax%elem_of_cons|[o Ho]]%Hl.
    + destruct (decide (a = x)) as [->|]; [|set_solver]. right. exists (Worker i).
      by rewrite holds_worker, decide_True.
    + right. exists o. rewrite holds_worker by done. destruct decide as [->|]; [|done].
      simpl in Ho. rewrite Hi in Ho. done.
  - rewrite Ha, fmap_cons, (payload_some _ _ _ E). by rewrite <- (assoc_L (++)).
  - destruct (calls_insert ws i _ Hi) as (r & Er & Hr'). rewrite Hr', Hcl, Er. simpl.
    rewrite (payload_some _ _ _ E). rewrite <- (assoc_L (++)). f_equiv.
    by rewrite Permutation_app_comm.
Qed.

(** The function is called; the node stays with the worker. *)
Lemma data_call h hd cur ws cs ad tk cl q i n t :
  data h hd cur ws cs ad tk cl q -> ws !! i = Some (WCall n) -> h !! n = Some t ->
  data h hd cur (<[i := WFree n]> ws) cs ad tk (cl ++ [(t_task t, t_parms t)]) q.
Proof.
  intros [] Hi E. assert (forall o, holds (<[i := WFree n]> ws) cs o = holds ws cs o) as Hh.
  { intros o. rewrite holds_worker by by eexists. destruct decide as [->|]; [|done]. simpl. by rewrite Hi. }
  split; try done.
  - intros o a. rewrite Hh. apply d_held0.
  - intros o o' a. rewrite !Hh. apply d_uniq0.
  - intros a Ha. destruct (d_noleak0 a Ha) as [|[o Ho]]; [by left|right; exists o; by rewrite Hh].
  - destruct (calls_insert ws i _ Hi) as (r & Er & Hr). rewrite Hr, d_called0, Er. simpl.
    rewrite (payload_some _ _ _ E), <- (assoc_L (++)). done.
Qed.

(** The node is freed. *)
Lemma data_free h hd cur ws cs ad tk cl q i n :
  data h hd cur ws cs ad tk cl q -> ws !! i = Some (WFree n) ->
  data (delete n h) hd cur (<[i := WLock]> ws) cs ad tk cl q.
Proof.
  intros [Hc Hnd Hs Hr Hh Hu Hf Hl Ha Hcl] Hi.
  assert (is_Some (ws !! i)) as His by by eexists.
  assert (holds ws cs (Worker i) = Some n) as Hn by (simpl; by rewrite Hi).
  destruct (Hh _ _ Hn) as [_ Hnq].
  assert (forall o a, holds (<[i := WLock]> ws) cs o = Some a -> holds ws cs o = Some a /\ a <> n) as Ho.
  { intros o a. rewrite holds_worker by done. destruct decide as [->|Hne]; [done|].
    intros E. split; [done|]. intros ->. by apply Hne, (Hu _ _ n). }
  destruct (calls_insert ws i _ Hi) as (r & Er & Hr').
  assert (forall a, a ∈ r -> a <> n) as Hrn.
  { intros a Har ->. assert (n ∈ calls (<[i := WLock]> ws)) as [j Hj]%calls_held by (rewrite Hr'; done).
    destruct (Ho (Worker j) n) as [_ ?]; [simpl; by rewrite Hj|done]. }
  split; try done.
  - eapply chain_ext, Hc. intros x Hx. apply lookup_delete_ne. by intros <-.
  - intros a [x [_ Hx]%lookup_delete_Some]. by apply Hr.
  - intros o a [Ho' Hne]%Ho. rewrite lookup_delete_ne by done. by apply (Hh o).
  - intros o o' a [H1 _]%Ho [H2 _]%Ho. by apply (Hu o o' a).
  - intros c a t [H1 _]%Ho [_ Hx]%lookup_delete_Some. by eapply Hf.
  - intros a [x [Hne Hx]%lookup_delete_Some]. destruct (Hl a) as [|[o Hoa]]; [by eexists|by left|].
    right. exists o. rewrite holds_worker by done. destruct decide as [->|]; [|done]. congruence.
  - rewrite Ha. f_equal. symmetry. apply payload_ext. intros a Haq. unfold payload.
    rewrite lookup_delete_ne; [done|]. by intros <-.
  - rewrite Hr', Hcl, Er. simpl. f_equiv. apply Permutation_refl'. symmetry. apply payload_ext.
    intros a Har. unfold payload. rewrite lookup_delete_ne; [done|]. symmetry. by apply Hrn.
Qed.

(** A call of [pool_add_task] has allocated its node. *)
Lemma data_new h hd cur ws cs ad tk cl q c n t :
  data h hd cur ws cs ad tk cl q -> cs !! c = None -> h !! n = None -> 0 < n < 2 ^ 32 ->
  t_next t = NULL ->
  data (<[n := t]> h) hd cur ws (<[c := CLock n]> cs) ad tk cl q.
Proof.
  intros [Hc Hnd Hs Hr Hh Hu Hf Hl Ha Hcl] Ec En Hn Ht.
  assert (n ∉ q) as Hnq by (intros Hq; destruct (queue_live _ _ _ _ Hc Hq); congruence).
  assert (forall o a, holds ws cs o = Some a -> a <> n) as Hhn.
  { intros o a Ho ->. destruct (Hh o n Ho) as [[] _]. congruence. }
  assert (forall l : list addr, (forall a, a ∈ l -> a <> n) -> payload (<[n := t]> h) <$> l = payload h <$> l) as Hp.
  { intros l Hla. apply payload_ext. intros a Hal. unfold payload. rewrite lookup_insert_ne; [done|].
    symmetry. by apply Hla. }
  split; try done.
  - eapply chain_ext, Hc. intros x Hx. apply lookup_insert_ne. by intros <-.
  - intros a [x [[<- _]|[_ Hx]]%lookup_insert_Some]; [done|]. apply Hr. by eexists.
  - intros o a. rewrite holds_client. destruct decide as [->|]; [intros [= <-]; by rewrite lookup_insert_eq|].
    intros Ho. rewrite lookup_insert_ne by (symmetry; by eapply Hhn). by apply (Hh o).
  - intros o o' a. rewrite !holds_client.
    destruct (decide (o = Client c)) as [->|], (decide (o' = Client c)) as [->|]; simpl; try done.
    + intros [= <-] Ho. by destruct (Hhn o' n).
    + intros Ho [= <-]. by destruct (Hhn o n).
    + apply Hu.
  - intros c' a t'. rewrite holds_client. destruct decide as [|].
    + intros [= <-]. rewrite lookup_insert_eq. naive_solver.
    + intros Ho. rewrite lookup_insert_ne by (symmetry; by eapply Hhn). by eapply Hf.
  - intros a. destruct (decide (a = n)) as [->|].
    + intros _. right. exists (Client c). by rewrite holds_client, decide_True.
    + rewrite lookup_insert_ne by done. intros [|[o Ho]]%Hl; [by left|]. right. exists o.
      rewrite holds_client. destruct decide as [->|]; [|done]. simpl in Ho. by rewrite Ec in Ho.
  - rewrite Ha, Hp; [done|]. by intros a Hq ->.
  - rewrite Hcl, Hp; [done|]. intros a [i Hi]%calls_held. apply (Hhn (Worker i)). simpl. by rewrite Hi.
Qed.

(** The node joins the end of the queue. *)
Lemma data_join h h' hd hd' cur ws cs ad tk cl q c n t :
  data h hd cur ws cs ad tk cl q -> cs !! c = Some (CLink n) -> h !! n = Some t ->
  chain h' hd' (q ++ [n]) -> dom h' = dom h -> (forall a, payload h' a = payload h a) ->
  (forall o a, holds ws cs o = Some a -> h' !! a = h !! a) ->
  data h' hd' (s32 (cur + 1)) ws (<[c := CSignal]> cs) (ad ++ [(t_task t, t_parms t)]) tk cl (q ++ [n]).
Proof.
  intros [Hc Hnd -> Hr Hh Hu Hf Hl Ha Hcl] Ec En Hc' Hd Hp Hk.
  assert (holds ws cs (Client c) = Some n) as Hn by (simpl; by rewrite Ec).
  assert (forall a, is_Some (h' !! a) <-> is_Some (h !! a)) as Hs
    by (intros a; by rewrite <- !elem_of_dom, Hd).
  destruct (Hh _ _ Hn) as [_ Hnq].
  assert (forall o a, holds ws (<[c := CSignal]> cs) o = Some a -> holds ws cs o = Some a /\ a <> n) as Ho.
  { intros o a. rewrite holds_client. destruct decide as [->|Hne]; [done|].
    intros E. split; [done|]. intros ->. by apply Hne, (Hu _ _ n). }
  split; try done.
  - apply NoDup_app. split; [done|]. split; [set_solver|]. apply NoDup_singleton.
  - rewrite wraps_plus_l. f_equal. rewrite length_app. simpl. lia.
  - intros a Hx%Hs. by apply Hr.
  - intros o a [Ho' Hne]%Ho. rewrite Hs. destruct (Hh o a Ho'). set_solver.
  - intros o o' a [H1 _]%Ho [H2 _]%Ho. by apply (Hu o o' a).
  - intros c' a t' [H1 _]%Ho. rewrite (Hk _ _ H1). by eapply Hf.
  - intros a [Hq|[o Hoa]]%Hs%Hl; [left; set_solver|]. destruct (decide (o = Client c)) as [->|].
    + left. set_solver.
    + right. exists o. by rewrite holds_client, decide_False.
  - rewrite fmap_app, (assoc_L (++)). simpl. rewrite Ha, Hp, (payload_some _ _ _ En).
    f_equal. f_equal. symmetry. apply payload_ext. auto.
  - rewrite Hcl. f_equiv. apply Permutation_refl'. symmetry. apply payload_ext. auto.
Qed.

(** [link] succeeds and joins the node of the caller to the queue. *)
Lemma link_spec s q c n :
  data (nodes s) (head (p s)) (cur_task_list_size (p s)) (workers s) (clients s)
    (added s) (taken s) (called s) q -> clients s !! c = Some (CLink n) ->
  exists h' hd' t, link n s =
    Done (State (Pool (lock (p s)) hd' (shutdown (p s)) (s32 (cur_task_list_size (p s) + 1)) (max_thread_num (p s)))
            h' (workers s) (clients s) (destroyer s) (added s ++ [(t_task t, t_parms t)]) (taken s) (called s)) /\
    data h' hd' (s32 (cur_task_list_size (p s) + 1)) (workers s) (<[c := CSignal]> (clients s))
      (added s ++ [(t_task t, t_parms t)]) (taken s) (called s) (q ++ [n]).
Proof.
  intros D Ec. pose proof D as [Hc Hnd Hs Hr Hh Hu Hf Hl Ha Hcl].
  assert (holds (workers s) (clients s) (Client c) = Some n) as Hn by (simpl; by rewrite Ec).
  destruct (Hh _ _ Hn) as [[t Et] Hnq]. pose proof (Hf c n t Hn Et) as Hnext.
  assert (n <> NULL) as Hn0 by (pose proof (Hr n (ex_intro _ t Et)); unfold NULL; lia).
  unfold link. rewrite Et. simpl.
  destruct q as [|x q0' _] using rev_ind.
  - simpl in Hc. rewrite Hc. simpl. destruct (Z.eqb_spec n NULL); [done|].
    exists (nodes s), n, t. split; [done|]. apply (data_join _ _ _ _ _ _ _ _ _ _ _ c n t D); try done.
    simpl. split_all; try done. eauto.
  - assert (head (p s) <> NULL) as Hhd by (destruct q0'; simpl in Hc; naive_solver).
    destruct (Z.eqb_spec (head (p s)) NULL); [done|]. simpl.
    pose proof (chain_size _ _ _ Hc Hnd) as Hsz. rewrite length_app in Hsz. simpl in Hsz.
    rewrite (last_node_spec _ q0' x) by (done || lia). simpl. unfold set_next.
    destruct (queue_live _ _ _ x Hc) as [y Ey]; [set_solver|]. rewrite Ey. simpl.
    destruct (Z.eqb_spec (head (p s)) NULL); [done|].
    eexists _, _, t. split; [done|]. apply (data_join _ _ _ _ _ _ _ _ _ _ _ c n t D); try done.
    + by eapply chain_snoc.
    + apply dom_insert_lookup_L. by eexists.
    + intros a. unfold payload. destruct (decide (a = x)) as [->|];
        [by rewrite lookup_insert_eq, Ey|by rewrite lookup_insert_ne].
    + intros o a Ho. rewrite lookup_insert_ne; [done|]. intros <-. destruct (Hh o x Ho). set_solver.
Qed.

(** ** Every step keeps the invariant and is safe *)

Definition safe_step (n : nat) (r : option (outcome state)) : Prop :=
  match r with
  | None => True
  | Some (Fault _) => False
  | Some (Done s) => alive s -> exists q, inv n s q
  end.

Lemma inv_lock_free n s q o : inv n s q -> lock (p s) = None -> critical (workers s) (clients s) o = false.
Proof.
  intros (_ & C & _) E. destruct (critical _ _ o) eqn:Ho; [|done].
  apply (c_lock _ _ _ _ _ _ C) in Ho. congruence.
Qed.

(** Worker steps that change its program counter, and the mutex with it. *)
Lemma worker_move_inv n s q i c c' l' :
  inv n s q -> workers s !! i = Some c -> wnode c = None -> wnode c' = None ->
  (forall o, l' = Some o <->
     (if decide (o = Worker i) then wcrit c' else critical (workers s) (clients s) o) = true) ->
  (c' = WWait -> q = []) -> (c' = WTake -> shutdown (p s) = 0 -> q <> []) ->
  (c' = WExit -> shutdown (p s) <> 0) -> (c' = WBlocked -> q = []) ->
  inv n (set_lock l' (set_worker i c' s)) q.
Proof.
  intros (D & C & Hm & Hd) Hi Hc Hc' Hl Hw Ht He Hb. split; [|split; [|done]]; simpl.
  - by eapply data_worker.
  - by eapply control_worker.
Qed.

Lemma set_lock_same s : set_lock (lock (p s)) s = s.
Proof. by destruct s as [[] ? ? ? ? ? ? ?]. Qed.

Lemma worker_take_inv n s q i :
  inv n s q -> workers s !! i = Some WTake -> shutdown (p s) = 0 ->
  exists x t q', q = x :: q' /\ nodes s !! x = Some t /\ take_task s = Done (x,
    State (Pool (lock (p s)) (t_next t) (shutdown (p s)) (s32 (cur_task_list_size (p s) - 1)) (max_thread_num (p s)))
      (nodes s) (workers s) (clients s) (destroyer s)
      (added s) (taken s ++ [(t_task t, t_parms t)]) (called s)).
Proof.
  intros (D & C & Hm & Hd) Hi E0. pose proof (c_take _ _ _ _ _ _ C i Hi E0) as Hq.
  unfold take_task. rewrite (data_size _ _ _ _ _ _ _ _ _ D), bool_decide_false by done.
  pose proof (d_chain _ _ _ _ _ _ _ _ _ D) as Hc. destruct q as [|x q']; [done|].
  destruct Hc as (-> & Hx & t & Et & _). destruct (Z.eqb_spec x NULL); [done|].
  rewrite Et. exists x, t, q'. done.
Qed.

Lemma control_take n l down ws cs x q i :
  control n l down ws cs (x :: q) -> ws !! i = Some WTake ->
  control n None down (<[i := WCall x]> ws) cs q.
Proof.
  intros C Hi. assert (critical ws cs (Worker i) = true) as Hcr by (simpl; by rewrite Hi).
  pose proof (control_worker n _ None _ _ _ _ i WTake (WCall x) C Hi
    (fun o => lock_release _ _ (Worker i) (c_lock _ _ _ _ _ _ C) o Hcr)
    ltac:(done) ltac:(done) ltac:(done) ltac:(done)) as [H1 H2 H3 H4 H5 H6]. split; try done.
  - intros j Hj. by specialize (H3 j Hj).
  - intros j Hj. destruct (decide (j = i)) as [->|Hne].
    { rewrite list_lookup_insert_eq in Hj; [done|by eapply lookup_lt_Some]. }
    rewrite list_lookup_insert_ne in Hj by done.
    assert (l = Some (Worker i)) as E1 by by apply C.
    assert (l = Some (Worker j)) as E2 by (apply C; simpl; by rewrite Hj). congruence.
  - intros _ _ _. right. exists i, (WCall x). split; [|done].
    apply list_lookup_insert_eq. by eapply lookup_lt_Some.
Qed.

Lemma worker_step_inv n s q i : inv n s q -> safe_step n (thread_routine i s).
Proof.
  intros I. pose proof I as (D & C & Hm & Hd). unfold thread_routine.
  destruct (workers s !! i) as [c|] eqn:Hi; [|done].
  assert (critical (workers s) (clients s) (Worker i) = wcrit c) as Hcr by (simpl; by rewrite Hi).
  assert (forall c', lock (p s) = None -> wcrit c' = true -> forall o, Some (Worker i) = Some o <->
    (if decide (o = Worker i) then wcrit c' else critical (workers s) (clients s) o) = true) as Htake.
  { intros c' E Hc' o. rewrite Hc'. by apply lock_take with (l := lock (p s)); [apply C|]. }
  assert (forall c', wcrit c = true -> wcrit c' = false -> forall o, None = Some o <->
    (if decide (o = Worker i) then wcrit c' else critical (workers s) (clients s) o) = true) as Hrel.
  { intros c' E Hc' o. rewrite Hc'. apply lock_release with (l := lock (p s)); [apply C|congruence]. }
  destruct c; try done.
  - destruct (lock (p s)) eqn:El; [done|]. intros _. exists q. eapply worker_move_inv; try done. by apply Htake.
  - intros _. exists q.
    assert (forall c', wcrit c' = true -> (c' = WWait -> q = []) ->
      (c' = WTake -> shutdown (p s) = 0 -> q <> []) -> c' <> WExit -> c' <> WBlocked -> wnode c' = None ->
      inv n (set_worker i c' s) q) as Hm'.
    { intros c' Hc' ?????. rewrite <- (set_lock_same (set_worker i c' s)).
      apply (worker_move_inv n s q i WTest); try done. intros o. apply lock_keep; [apply C|by rewrite Hc']. }
    rewrite (data_size _ _ _ _ _ _ _ _ _ D).
    destruct (bool_decide_reflect (q = [])), (Z.eqb_spec (shutdown (p s)) 0); simpl; apply Hm'; try done.
  - intros _. exists q. pose proof (c_wait _ _ _ _ _ _ C i Hi). eapply worker_move_inv; try done. by apply Hrel.
  - destruct (lock (p s)) eqn:El; [done|]. intros _. exists q. eapply worker_move_inv; try done. by apply Htake.
  - destruct (Z.eqb_spec (shutdown (p s)) 0) as [E0|E0]; simpl.
    + destruct (worker_take_inv n s q i I Hi E0) as (x & t & q' & -> & Et & ->). simpl. intros _. exists q'.
      split; [|split; [|done]]; simpl; [by eapply data_take|].
      by eapply control_take.
    + intros _. exists q. eapply worker_move_inv; try done. by apply Hrel.
  - destruct (d_held _ _ _ _ _ _ _ _ _ D (Worker i) n0) as [[t Et] _]; [simpl; by rewrite Hi|].
    rewrite Et. simpl. intros _. exists q. split; [by eapply data_call|]. split; [|done]. simpl.
    eapply control_worker; [done..| | | | |]; try done. intros o. by apply lock_keep; [apply C|].
  - destruct (d_held _ _ _ _ _ _ _ _ _ D (Worker i) n0) as [[t Et] _]; [simpl; by rewrite Hi|].
    rewrite Et. simpl. intros _. exists q. split; [by eapply data_free|]. split; [|done]. simpl.
    eapply control_worker; [done..| | | | |]; try done. intros o. by apply lock_keep; [apply C|].
Qed.

Lemma control_clients n l l' down ws cs cs' q :
  control n l down ws cs q -> (forall o, l' = Some o <-> critical ws cs' o = true) ->
  (forall c, cs !! c = Some CSignal -> cs' !! c = Some CSignal) ->
  control n l' down ws cs' q.
Proof. intros [] Hl Hs. split; try done. naive_solver. Qed.

Lemma call_add_inv n s q c tk pr a : inv n s q -> safe_step n (call_add c tk pr a s).
Proof.
  intros (D & C & Hm & Hd). unfold call_add.
  destruct (clients s !! c) eqn:Ec; [done|]. destruct (nodes s !! a) eqn:Ea; [done|].
  destruct (Z.ltb_spec 0 a), (Z.ltb_spec a (2 ^ 32)); simpl; try done. intros _. exists q.
  split; [by apply data_new|]. split; [|done]. simpl. eapply control_clients; [done| |].
  - intros o. rewrite critical_client. apply lock_keep; [apply C|]. simpl. by rewrite Ec.
  - intros c' Hc'. rewrite lookup_insert_ne; [done|]. congruence.
Qed.

Lemma cond_signal_inv n s q w s' c :
  inv n s q -> clients s !! c = Some CSignal -> cond_signal w s = Some s' ->
  inv n (set_clients (delete c (clients s')) s') q.
Proof.
  intros I Ec. pose proof I as (D & C & Hm & Hd). unfold cond_signal, is_blocked.
  assert (forall ws o, holds ws (delete c (clients s)) o = holds ws (clients s) o) as Hh.
  { intros ws o. rewrite holds_gone. destruct decide as [->|]; [|done]. simpl. by rewrite Ec. }
  assert (forall ws o, critical ws (delete c (clients s)) o = critical ws (clients s) o) as Hcr.
  { intros ws o. rewrite critical_gone. destruct decide as [->|]; [|done]. simpl. by rewrite Ec. }
  destruct (existsb _ _) eqn:Eb.
  - destruct (bool_decide_reflect (workers s !! w = Some WBlocked)) as [Hw|]; [|done]. intros [= <-].
    split; [|split; [|done]]; simpl.
    + eapply data_frame; [by eapply (data_worker _ _ _ _ _ _ _ _ _ w WBlocked WWoken)|apply Hh|done].
    + pose proof (control_worker n _ (lock (p s)) _ _ _ _ w WBlocked WWoken C Hw
        (fun o => lock_keep _ _ (Worker w) (c_lock _ _ _ _ _ _ C) false o ltac:(simpl; by rewrite Hw))
        ltac:(done) ltac:(done) ltac:(done) ltac:(done)) as [H1 H2 H3 H4 H5 H6]. split; try done.
      * intros o. by rewrite Hcr.
      * intros _ _ _. right. exists w, WWoken. split; [|done].
        apply list_lookup_insert_eq. by eapply lookup_lt_Some.
  - intros [= <-]. split; [eapply data_frame; [done|apply Hh|done]|]. split; [|done]. simpl.
    destruct C as [H1 H2 H3 H4 H5 H6]. split; try done.
    + intros o. by rewrite Hcr.
    + intros _ _ H0. right. destruct (lookup_lt_is_Some_2 (workers s) 0) as [x Hx]; [by rewrite H2|].
      exists O, x. split; [done|]. intros ->.
      apply not_true_iff_false in Eb. apply Eb, existsb_exists. exists O. split.
      * apply in_seq. lia.
      * by apply bool_decide_true.
Qed.

Lemma add_step_inv n s q c w : inv n s q -> safe_step n (pool_add_task c w s).
Proof.
  intros I. pose proof I as (D & C & Hm & Hd). unfold pool_add_task.
  destruct (clients s !! c) as [[a|a|]|] eqn:Ec; [| | |done].
  - destruct (lock (p s)) eqn:El; [done|]. intros _. exists q. split; [|split; [|done]]; simpl.
    + apply (data_frame _ _ _ _ _ _ _ _ _ _ _ D); [|done]. intros o. rewrite holds_client.
      destruct decide as [->|]; [|done]. simpl. by rewrite Ec.
    + eapply control_clients; [done| |].
      * intros o. rewrite critical_client.
        exact (lock_take _ _ (Client c) (c_lock _ _ _ _ _ _ C) o eq_refl).
      * intros c' Hc'. rewrite lookup_insert_ne; [done|]. congruence.
  - destruct (link_spec s q c a D Ec) as (h & hd & t & -> & D'). simpl. intros _. exists (q ++ [a]).
    split; [exact D'|]. split; [|done]. simpl.
    assert (lock (p s) = Some (Client c)) as El by (apply C; simpl; by rewrite Ec).
    destruct C as [H1 H2 H3 H4 H5 H6]. split; try done.
    + intros o. rewrite critical_client. apply (lock_release _ _ (Client c) H1 o).
      simpl. by rewrite Ec.
    + intros i Hi. assert (lock (p s) = Some (Worker i)) as E2 by (apply H1; simpl; by rewrite Hi). congruence.
    + intros i Hi. assert (lock (p s) = Some (Worker i)) as E2 by (apply H1; simpl; by rewrite Hi). congruence.
    + intros _ _ _. left. exists c. by rewrite lookup_insert_eq.
  - destruct (cond_signal w s) as [s'|] eqn:Es; [|done]. simpl. intros _. exists q.
    by eapply cond_signal_inv.
Qed.

Lemma broadcast_lookup ws i x :
  cond_broadcast ws !! i = Some x <->
  exists y, ws !! i = Some y /\ x = if decide (y = WBlocked) then WWoken else y.
Proof. unfold cond_broadcast. rewrite list_lookup_fmap_Some. naive_solver. Qed.

Lemma broadcast_same ws cs :
  (forall o, holds (cond_broadcast ws) cs o = holds ws cs o) /\
  (forall o, critical (cond_broadcast ws) cs o = critical ws cs o) /\
  calls (cond_broadcast ws) = calls ws.
Proof.
  unfold cond_broadcast. split_all.
  - intros [i|]; [|done]. simpl. rewrite list_lookup_fmap. destruct (ws !! i) as [[]|]; done.
  - intros [i|]; [|done]. simpl. rewrite list_lookup_fmap. destruct (ws !! i) as [[]|]; done.
  - unfold calls. induction ws as [|w ws IH]; [done|]. rewrite fmap_cons, !bind_cons, IH. by destruct w.
Qed.

Lemma destroy_inv n s q : inv n s q -> safe_step n (pool_destroy s).
Proof.
  intros I. pose proof I as (D & C & Hm & Hd). unfold pool_destroy. destruct (destroyer s) eqn:Ed; [| | |done].
  - rewrite (proj2 Hd eq_refl). simpl. intros _. exists q. split; [done|]. split; [|done]. simpl.
    destruct C as [H1 H2 H3 H4 H5 H6]. by split.
  - simpl. intros _. exists q. destruct (broadcast_same (workers s) (clients s)) as (Hh & Hc & Hk).
    assert (shutdown (p s) <> 0) as Hdn by (intros E%Hd; congruence).
    split; [|split; [|split; [done|]]]; simpl; [eapply data_frame; [done|done|by rewrite Hk]| |].
    + destruct C as [H1 H2 H3 H4 H5 H6]. split; try done.
      * intros o. by rewrite Hc.
      * unfold cond_broadcast. by rewrite length_fmap.
      * intros i (y & Hy & E)%broadcast_lookup. destruct decide; [done|]. subst. by eapply H3.
    + split; [|done]. intros E%Hd. congruence.
  - destruct decide; [destruct decide; [|done]|]; simpl.
    + intros _. exists q. split; [done|]. split; [done|]. split; [done|]. simpl.
      split; [intros E%Hd; congruence|done].
    + destruct D as [Hc Hnd Hs Hr Hh Hu Hf Hl Ha Hcl].
      destruct (free_queue_spec _ _ _ (size (nodes s)) Hc Hnd) as (h & -> & _); [by eapply chain_size|].
      simpl. intros Hal. by destruct Hal.
Qed.

Lemma exec_inv n s q e : inv n s q -> safe_step n (exec e s).
Proof.
  intros I. destruct e; simpl; eauto using worker_step_inv, call_add_inv, add_step_inv, destroy_inv.
  destruct decide as [Hi|]; [|done]. intros _. exists q.
  rewrite <- (set_lock_same (set_worker i WWoken s)).
  apply (worker_move_inv n s q i WBlocked); try done. intros o. pose proof I as (_ & C & _).
  apply lock_keep; [apply C|]. simpl. by rewrite Hi.
Qed.

Lemma pool_init_inv n : inv n (thread_pool_init n) [].
Proof.
  split; [|split; [|done]]; simpl.
  - split; try done.
    + constructor.
    + intros a [x Hx]. by rewrite lookup_empty in Hx.
    + intros [i|c] a; simpl; [|by rewrite lookup_empty].
      destruct (replicate n WLock !! i) eqn:E; [|done]. apply lookup_replicate in E as [-> _]. done.
    + intros [i|c] o' a; simpl; [|by rewrite lookup_empty].
      destruct (replicate n WLock !! i) eqn:E; [|done]. apply lookup_replicate in E as [-> _]. done.
    + intros a [x Hx]. by rewrite lookup_empty in Hx.
    + replace (calls (replicate n WLock)) with (@nil addr); [done|]. by induction n.
  - split; try done.
    + intros [i|c]; simpl; [|rewrite lookup_empty; naive_solver].
      destruct (replicate n WLock !! i) eqn:E; [|naive_solver]. apply lookup_replicate in E as [-> _]. naive_solver.
    + apply length_replicate.
    + intros i [? _]%lookup_replicate. done.
    + intros i [? _]%lookup_replicate. done.
Qed.

Lemma reachable_inv n s : reachable n s -> alive s -> exists q, inv n s q.
Proof.
  induction 1 as [|s e s' _ IH Ha E]; [eexists; apply pool_init_inv|]. destruct (IH Ha) as [q I].
  pose proof (exec_inv n s q e I) as H. rewrite E in H. exact H.
Qed.

(** ** Safety and order *)

(** C18. The pool is safe under every interleaving: as long as it is not
    destroyed, no thread can fail an assertion, follow a dangling pointer or
    free a node twice, whatever the workers, the callers of [pool_add_task],
    [pool_destroy] and spurious wake-ups do. *)
Theorem pool_safe n s e f : reachable n s -> alive s -> exec e s <> Some (Fault f).
Proof.
  intros Hr Ha E. destruct (reachable_inv n s Hr Ha) as [q I].
  pose proof (exec_inv n s q e I) as H. by rewrite E in H.
Qed.

(** The tasks waiting in the queue, in order. *)
Definition waiting (s : state) (ts : list (Z * Z)) : Prop :=
  exists q, chain (nodes s) (head (p s)) q /\ ts = (payload (nodes s) <$> q) /\
    cur_task_list_size (p s) = s32 (Z.of_nat (length q)).

Definition in_hand (s : state) : list (Z * Z) := payload (nodes s) <$> calls (workers s).

(** C19. Tasks are handed out first in, first out and called at most once: at
    any time the tasks added are those taken, in the same order, followed by
    those waiting, which [cur_task_list_size] counts; and the tasks taken are
    those called and those in the hands of a worker about to call them. *)
Theorem pool_fifo n s :
  reachable n s -> alive s ->
  exists ts, waiting s ts /\ added s = taken s ++ ts /\ taken s ≡ₚ called s ++ in_hand s.
Proof.
  intros Hr Ha. destruct (reachable_inv n s Hr Ha) as (q & [Hc Hnd Hs Hrg Hh Hu Hf Hl Had Hcl] & _).
  exists (payload (nodes s) <$> q). split; [by exists q|done].
Qed.

(** ** Progress *)

(** No worker and no caller in [pool_add_task] can move. *)
Definition quiescent (s : state) : Prop :=
  (forall i, thread_routine i s = None) /\ (forall c w, pool_add_task c w s = None).

Lemma quiescent_workers n s q i c :
  inv n s q -> quiescent s -> shutdown (p s) = 0 -> workers s !! i = Some c -> c = WBlocked.
Proof.
  intros I [Hw Hc] Hd Hi. pose proof I as (D & C & _). pose proof (Hw i) as H.
  unfold thread_routine in H. rewrite Hi in H.
  assert (lock (p s) = None) as El.
  { destruct (lock (p s)) as [[j|k]|] eqn:El; [| |done]; exfalso.
    - pose proof (proj1 (c_lock _ _ _ _ _ _ C (Worker j)) eq_refl) as Hj. simpl in Hj.
      specialize (Hw j). unfold thread_routine in Hw. destruct (workers s !! j) as [[]|]; done.
    - pose proof (proj1 (c_lock _ _ _ _ _ _ C (Client k)) eq_refl) as Hk. simpl in Hk.
      specialize (Hc k O). unfold pool_add_task in Hc. destruct (clients s !! k) as [[]|]; done. }
  rewrite El in H. destruct c; try done. by destruct (c_exit _ _ _ _ _ _ C i Hi).
Qed.

Lemma quiescent_clients n s q c :
  inv n s q -> quiescent s -> shutdown (p s) = 0 -> (0 < n)%nat -> clients s !! c <> Some CSignal.
Proof.
  intros I Hq Hd H0 Ec. pose proof I as (_ & C & _). destruct Hq as [Hw Hc].
  destruct (lookup_lt_is_Some_2 (workers s) 0) as [x Hx]; [by rewrite (c_len _ _ _ _ _ _ C)|].
  pose proof (quiescent_workers n s q O x I (conj Hw Hc) Hd Hx) as ->.
  specialize (Hc c O). unfold pool_add_task, cond_signal, is_blocked in Hc. rewrite Ec in Hc.
  rewrite (bool_decide_true (workers s !! 0%nat = Some WBlocked)) in Hc by done.
  destruct (existsb _ _); done.
Qed.

(** C20. No task is forgotten: while the pool is not being destroyed, the
    threads come to rest only when every task that was added has been called
    (no wake-up is lost between [pool_add_task] and the workers). *)
Theorem pool_progress n s :
  reachable n s -> (0 < n)%nat -> shutdown (p s) = 0 -> alive s -> quiescent s -> called s ≡ₚ added s.
Proof.
  intros Hr H0 Hd Ha Hq. destruct (reachable_inv n s Hr Ha) as (q & I). pose proof I as (D & C & _).
  assert (q = []) as ->.
  { destruct (decide (q = [])) as [|Hne]; [done|]. exfalso.
    destruct (c_wake _ _ _ _ _ _ C Hne Hd H0) as [[c Hc]|(i & w & Hi & Hw)].
    - by eapply quiescent_clients.
    - by apply Hw, (quiescent_workers n s q i w). }
  rewrite (d_added _ _ _ _ _ _ _ _ _ D), app_nil_r, (d_called _ _ _ _ _ _ _ _ _ D).
  replace (calls (workers s)) with (@nil addr); [by rewrite app_nil_r|].
  destruct (calls (workers s)) as [|a l] eqn:E; [done|]. exfalso.
  destruct (calls_held (workers s) a) as [i Hi]; [rewrite E; set_solver|].
  by apply (quiescent_workers n s [] i (WCall a) I Hq Hd) in Hi.
Qed.

(** ** The race in [pool_destroy] *)

(** Worker [0] sleeps, nobody is left to wake it, and it is waited for. *)
Definition hung (s : state) : Prop :=
  workers s !! 0%nat = Some WBlocked /\ clients s = ∅ /\ destroyer s = DJoin 0 /\
  (0 < max_thread_num (p s))%nat.

Definition internal (e : event) : Prop :=
  match e with EWorker _ | EAdd _ _ | EDestroy => True | _ => False end.

Lemma thread_routine_frame i s s' :
  thread_routine i s = Some (Done s') ->
  (exists c, workers s' = <[i := c]> (workers s)) /\ clients s' = clients s /\
  destroyer s' = destroyer s /\ max_thread_num (p s') = max_thread_num (p s).
Proof.
  unfold thread_routine, take_task. destruct (workers s !! i) as [[]|]; try done.
  - destruct (lock (p s)); [done|]. intros [= <-]. eauto.
  - intros [= <-]. destruct (_ && _); simpl; eauto.
  - intros [= <-]. eauto.
  - destruct (lock (p s)); [done|]. intros [= <-]. eauto.
  - destruct (negb _); [intros [= <-]; simpl; eauto|].
    destruct (_ =? 0); [done|]. destruct (_ =? NULL); [done|].
    destruct (nodes s !! _); simpl; [|done]. intros [= <-]. simpl. eauto.
  - destruct (nodes s !! _); simpl; [|done]. intros [= <-]. simpl. eauto.
  - destruct (nodes s !! _); simpl; [|done]. intros [= <-]. simpl. eauto.
Qed.

Lemma hung_step s e s' : hung s -> internal e -> exec e s = Some (Done s') -> hung s'.
Proof.
  intros (Hw & Hc & Hd & Hm) Hi. destruct e as [i| |c w| |]; try done; simpl.
  - destruct (decide (i = O)) as [->|Hne]; [unfold thread_routine; by rewrite Hw|].
    intros ([c Ew] & Ec & Ed & Em)%thread_routine_frame. unfold hung.
    rewrite Ew, Ec, Ed, Em, list_lookup_insert_ne by done. done.
  - unfold pool_add_task. rewrite Hc, lookup_empty. done.
  - unfold pool_destroy. rewrite Hd, decide_True by done. rewrite decide_False by congruence. done.
Qed.

Lemma hung_forever es s s' : hung s -> Forall internal es -> run es s = Some (Done s') -> hung s'.
Proof.
  revert s. induction es as [|e es IH]; intros s Hs Hes E; [by injection E as <-|].
  inversion_clear Hes as [|? ? He Hes']. simpl in E.
  destruct (exec e s) as [[s1|]|] eqn:Ee; try done. by eapply IH; [by eapply hung_step| |].
Qed.

(** C21. [pool_destroy] can hang: it sets [shutdown] and broadcasts without
    holding the mutex, so a worker that has just tested the condition goes to
    sleep after the broadcast; from then on no step of the workers, of callers
    or of [pool_destroy] itself ever lets it finish. *)
Theorem destroy_can_hang n :
  (0 < n)%nat ->
  exists s, reachable n s /\ destroyer s = DJoin 0 /\
    forall es s', Forall internal es -> run es s = Some (Done s') -> destroyer s' = DJoin 0.
Proof.
  intros Hn. destruct n as [|n]; [lia|]. set (ws := replicate n WLock).
  set (P := fun l sd => Pool l NULL sd 0 (S n)).
  assert (forall l sd w d l' sd' w' d' e, d <> DDone -> reachable (S n) (State (P l sd) ∅ (w :: ws) ∅ d [] [] []) ->
    exec e (State (P l sd) ∅ (w :: ws) ∅ d [] [] []) = Some (Done (State (P l' sd') ∅ (w' :: ws) ∅ d' [] [] [])) ->
    reachable (S n) (State (P l' sd') ∅ (w' :: ws) ∅ d' [] [] [])) as Hstep.
  { intros l sd w d l' sd' w' d' e Hd Hr E. by eapply reach_step. }
  assert (cond_broadcast (WWait :: ws) = WWait :: ws) as Eb.
  { unfold cond_broadcast, ws. by rewrite fmap_cons, fmap_replicate. }
  exists (State (P None 1) ∅ (WBlocked :: ws) ∅ (DJoin 0) [] [] []).
  split.
  - apply (Hstep (Some (Worker 0)) 1 WWait (DJoin 0) _ _ _ _ (EWorker 0)); [done| |done].
    apply (Hstep (Some (Worker 0)) 1 WWait DBroadcast _ _ _ _ EDestroy); [done| |].
    2:{ unfold exec, pool_destroy. cbn -[cond_broadcast]. by rewrite Eb. }
    apply (Hstep (Some (Worker 0)) 0 WWait DIdle _ _ _ _ EDestroy); [done| |done].
    apply (Hstep (Some (Worker 0)) 0 WTest DIdle _ _ _ _ (EWorker 0)); [done| |done].
    apply (Hstep None 0 WLock DIdle _ _ _ _ (EWorker 0)); [done| |done].
    apply reach_init.
  - split; [done|]. intros es s' Hes E. by apply (hung_forever es _ s') in E as (_ & _ & ? & _).
Qed.

(** ** Concrete runs *)

(** Two tasks are added and carried out by one worker. *)
Definition ex_run : list event :=
  [ECall 0 7 1 100; ECall 1 8 2 200; EAdd 0 0; EAdd 0 0; EWorker 0; EWorker 0; EWorker 0;
   EAdd 1 0; EAdd 1 0; EWorker 0; EWorker 0; EAdd 0 0; EAdd 1 0;
   EWorker 0; EWorker 0; EWorker 0; EWorker 0; EWorker 0; EWorker 0; EWorker 0; EWorker 0].

Definition ex_at (k : nat) : state :=
  match run (take k ex_run) (thread_pool_init 1) with Some (Done s) => s | _ => thread_pool_init 1 end.

Lemma ex_run_reachable k : (k <= 21)%nat -> reachable 1 (ex_at k) /\ alive (ex_at k).
Proof.
  induction k as [|k IH]; intros Hk; [split; [apply reach_init|done]|].
  destruct IH as [Hr Ha]; [lia|].
  assert (exists e, exec e (ex_at k) = Some (Done (ex_at (S k))) /\ alive (ex_at (S k))) as (e & E & Ha').
  { destruct (ex_run !! k) as [e|] eqn:Ek; [|apply lookup_ge_None in Ek; simpl in Ek; lia].
    exists e. clear Hr Ha. do 21 (destruct k as [|k]; [injection Ek as <-; by vm_compute|]). lia. }
  split; [by eapply reach_step|done].
Qed.

Lemma pool_safe_witness : exec (EWorker 0) (ex_at 6) <> Some (Fault AssertFailed).
Proof. destruct (ex_run_reachable 6) as [Hr Ha]; [lia|]. exact (pool_safe 1 (ex_at 6) (EWorker 0) AssertFailed Hr Ha). Defined.

Lemma pool_fifo_witness :
  exists ts, waiting (ex_at 9) ts /\ added (ex_at 9) = taken (ex_at 9) ++ ts /\ added (ex_at 9) = [(7, 1); (8, 2)].
Proof.
  destruct (ex_run_reachable 9) as [Hr Ha]; [lia|]. destruct (pool_fifo 1 (ex_at 9) Hr Ha) as (ts & H1 & H2 & _).
  exists ts. split; [exact H1|]. split; [exact H2|]. reflexivity.
Defined.

Lemma pool_progress_witness : called (ex_at 21) ≡ₚ added (ex_at 21) /\ called (ex_at 21) = [(7, 1); (8, 2)].
Proof.
  destruct (ex_run_reachable 21) as [Hr Ha]; [lia|]. split; [|reflexivity].
  apply (pool_progress 1 (ex_at 21) Hr); [lia|reflexivity|exact Ha|]. split.
  - intros [|i]; [reflexivity|]. vm_compute. by destruct i.
  - intros c w. reflexivity.
Defined.

Lemma destroy_can_hang_witness :
  exists s, reachable 4 s /\ destroyer s = DJoin 0 /\
    forall es s', Forall internal es -> run es s = Some (Done s') -> destroyer s' = DJoin 0.
Proof. apply (destroy_can_hang 4). lia. Defined.
