(* ===== verification/Server.v ===== *)
(** * The TCP front end ([src/TCP_C/main.c])

    [Framing] is [an_split_rcv_buf_to_json], which cuts the received bytes
    into JSON texts.  [Server] is the table of connections
    ([an_conn_array]), receiving, sending and the poll loop. *)

From S2P Require Import Prelude Registry CString Rules Users.
Local Open Scope Z_scope.

(** ** Cutting the byte stream *)

Module Framing.

Definition LF : Z := 10.
Definition LBRACE : Z := 123.
Definition RBRACE : Z := 125.

Section Split.

(** The code reads past the end of its buffer, so what lies behind the block
    on the heap is an argument. *)
Variable slack : Z -> Z.

(** The byte at offset [i] of [rcv_buf]. *)
Definition rd (buf : list Z) (i : Z) : Z :=
  if i <? Z.of_nat (length buf) then default 0 (buf !! Z.to_nat i)
  else slack (i - Z.of_nat (length buf)).

Definition rd_range (buf : list Z) (off : Z) (n : nat) : list Z :=
  (fun k => rd buf (off + Z.of_nat k)) <$> seq 0 n.

(** [memmove (rcv_buf, rcv_buf + off, n)]; [n] is converted to [size_t]. *)
Definition memmove (off n : Z) (buf : list Z) : outcome (list Z) :=
  if (n <? 0) || (Z.of_nat (length buf) <? n) then Fault OutOfBounds
  else Done (rd_range buf off (Z.to_nat n) ++ drop (Z.to_nat n) buf).

(** The first loop: how many bytes to drop before the line feed. *)
Fixpoint cut_loop (fuel : nat) (buf : list Z) (rcv_len cut_len : Z) : Z :=
  match fuel with
  | O => cut_len
  | S fuel =>
    if negb (rd buf cut_len =? 0) && (cut_len <? rcv_len) && negb (rd buf cut_len =? LF)
    then cut_loop fuel buf rcv_len (cut_len + 1)
    else cut_len
  end.

(** The scanning loop: [json_len], [start_p], [start_flag] at its end, or
    [None] for the jump to [OUT]. *)
Fixpoint scan_loop (fuel : nat) (buf : list Z) (rcv_len json_len start_p end_p start_flag packet_flag : Z) :
    option (Z * Z * Z) :=
  match fuel with
  | O => Some (json_len, start_p, start_flag)
  | S fuel =>
    if json_len <? rcv_len then
      let c := rd buf end_p in
      if c =? LF then
        if 1 <? packet_flag + 1 then None
        else scan_loop fuel buf rcv_len json_len (end_p + 1) (end_p + 1) start_flag (packet_flag + 1)
      else
        let start_flag := if c =? LBRACE then start_flag + 1
                          else if c =? RBRACE then start_flag - 1 else start_flag in
        if (start_flag =? 0) && (packet_flag =? 1) then Some (json_len + 1, start_p, start_flag)
        else scan_loop fuel buf rcv_len (json_len + 1) start_p (end_p + 1) start_flag packet_flag
    else Some (json_len, start_p, start_flag)
  end.

Fixpoint until_nul (l : list Z) : list Z :=
  match l with [] => [] | c :: l => if c =? 0 then [] else c :: until_nul l end.

Record result := Result {
  ret : Z; r_buf : list Z; r_len : Z;
  texts : list (list Z * Z)        (** the calls of [al_allocate_task] *)
}.

Definition cons_text (t : list Z * Z) (r : result) : result :=
  Result (ret r) (r_buf r) (r_len r) (t :: texts r).

(** From label [REDO] on; [json_len] keeps its value from the last round.
    [None] means that the fuel ran out. *)
Fixpoint redo (fuel : nat) (malloc_ok : nat -> bool) (buf : list Z) (rcv_len json_len : Z) :
    outcome (option result) :=
  match fuel with
  | O => Done None
  | S fuel =>
    match scan_loop (Z.to_nat rcv_len + 3) buf rcv_len json_len 0 0 0 0 with
    | None => Done (Some (Result (-1) buf rcv_len []))
    | Some (json_len, start_p, start_flag) =>
      if (0 <? json_len) && (start_flag =? 0) then
        if negb (malloc_ok fuel) then Done (Some (Result (-1) buf rcv_len []))
        else
          let text := until_nul (rd_range buf start_p (Z.to_nat json_len)) in
          buf ← memmove (json_len + 1) (rcv_len - json_len + 1) buf;
          let rcv_len := rcv_len - (json_len + 1) in
          if (0 <? rcv_len) && (start_flag =? 0) then
            r ← redo fuel malloc_ok buf rcv_len json_len;
            Done (option_map (cons_text (text, json_len)) r)
          else Done (Some (Result 0 buf rcv_len [(text, json_len)]))
      else if (0 <? rcv_len) && (start_flag =? 0) then redo fuel malloc_ok buf rcv_len json_len
      else Done (Some (Result 0 buf rcv_len []))
    end
  end.

Definition an_split_rcv_buf_to_json (malloc_ok : nat -> bool) (buf : list Z) (rcv_len : Z) :
    outcome (option result) :=
  let cut_len := cut_loop (Z.to_nat rcv_len + 1) buf rcv_len 0 in
  buf ← (if 0 <? cut_len then memmove cut_len (rcv_len - cut_len) buf else Done buf);
  let rcv_len := if 0 <? cut_len then rcv_len - cut_len else rcv_len in
  redo (Z.to_nat rcv_len + 2) malloc_ok buf rcv_len 0.

End Split.

End Framing.

(** ** Connections and the poll loop *)

Module Server.
Import Registry Sock.

Definition POLLIN : Z := 1.
Definition POLLOUT : Z := 4.
Definition POLLERR : Z := 8.
Definition AN_TCP_BUF_LEN : Z := 1024.
Definition SEND_ERROR : Z := -1.
Definition SEND_AGAIN : Z := 0.
Definition SEND_FINISH : Z := 1.
Definition SEND_SHUTDOWN : Z := 2.
Definition max_send_len : Z := 204800.
Definition EINTR : Z := 4.
Definition EAGAIN : Z := 11.

Record pollfd := Pollfd { fd : Z; events : Z; revents : Z }.

(** [closed], [wire] and [requests] record what left the program: closed
    descriptors, bytes given to the kernel per descriptor, and the calls of
    [al_allocate_task] with the index of the connection. *)
Record server := MkServer {
  an_conn_array : list pollfd; an_curfds : Z; an_tcp_fd : Z; table : socks;
  closed : list Z; wire : list (Z * list Z); requests : list (list Z * Z * Z)
}.

Definition set_array (l : list pollfd) (s : server) : server :=
  MkServer l (an_curfds s) (an_tcp_fd s) (table s) (closed s) (wire s) (requests s).
Definition set_curfds (n : Z) (s : server) : server :=
  MkServer (an_conn_array s) n (an_tcp_fd s) (table s) (closed s) (wire s) (requests s).
Definition set_table (t : socks) (s : server) : server :=
  MkServer (an_conn_array s) (an_curfds s) (an_tcp_fd s) t (closed s) (wire s) (requests s).

(** What the kernel and the allocator answer, per descriptor. *)
Record env := Env {
  e_nready : Z; e_revents : list Z; e_accept : Z;
  e_recv : Z -> list Z;               (** received bytes; [[]] also for an error *)
  e_send : Z -> Z; e_errno : Z;       (** result of [send] *)
  e_sock : gmap addr an_socket -> addr;            (** block for a new [an_socket_t] *)
  e_realloc : addr -> gmap addr (list Z) -> addr;  (** result of [wys_realloc] *)
  e_malloc_ok : nat -> bool; e_slack : Z -> Z
}.

Definition slot (i : Z) (s : server) : outcome pollfd :=
  get_or OutOfBounds (if i <? 0 then None else an_conn_array s !! Z.to_nat i).

Definition upd (i : Z) (f : pollfd -> pollfd) (s : server) : outcome server :=
  x ← slot i s; Done (set_array (<[Z.to_nat i := f x]> (an_conn_array s)) s).

Definition an_poll_init (s : server) : server :=
  set_curfds 1 (set_array
    (Pollfd (an_tcp_fd s) POLLIN 0 ::
     ((fun x => Pollfd (-1) POLLIN (revents x)) <$> tail (an_conn_array s))) s).

(** The first slot with the descriptor. *)
Fixpoint find_fd (f : Z) (l : list pollfd) (i : nat) : option nat :=
  match l with
  | [] => None
  | x :: l => if fd x =? f then Some i else find_fd f l (S i)
  end.

Definition an_sock_poll_del (f : Z) (s : server) : Z * server :=
  match find_fd f (an_conn_array s) 0 with
  | None => (-1, s)
  | Some i =>
    let l := alter (fun x => Pollfd (-1) POLLIN (revents x)) i (an_conn_array s) in
    (0, set_curfds (if Z.of_nat i =? an_curfds s - 1 then an_curfds s - 1 else an_curfds s) (set_array l s))
  end.

Definition m_sock_del_write (i : Z) : server -> outcome server :=
  upd i (fun x => Pollfd (fd x) (Z.land (events x) (Z.lnot POLLOUT)) (revents x)).
Definition m_sock_del_read (i : Z) : server -> outcome server :=
  upd i (fun x => Pollfd (fd x) (Z.land (events x) (Z.lnot POLLIN)) (revents x)).
Definition m_sock_add_write (i : Z) : server -> outcome server :=
  upd i (fun x => Pollfd (fd x) (Z.lor (events x) POLLOUT) (revents x)).
Definition m_sock_add_read (i : Z) : server -> outcome server :=
  upd i (fun x => Pollfd (fd x) (Z.lor (events x) POLLIN) (revents x)).

Definition CLOSESOCK (f : Z) (s : server) : server :=
  MkServer (an_conn_array s) (an_curfds s) (an_tcp_fd s) (table s) (closed s ++ [f]) (wire s) (requests s).

Definition an_sock_destory (i : Z) (s : server) : outcome server :=
  x ← slot i s;
  let s := CLOSESOCK (fd x) s in
  t ← an_socket_t_del i (table s);
  let s := set_table t s in
  x ← slot i s;
  Done (an_sock_poll_del (fd x) s).2.

(** [wys_realloc] of a receive buffer: the old contents, then bytes that the
    caller overwrites; on failure the old block is released. *)
Definition realloc_buf (b n r : Z) (m : gmap addr (list Z)) : outcome (gmap addr (list Z)) :=
  old ← (if b =? NULL then Done [] else get_or UseAfterFree (m !! b));
  let m := if b =? NULL then m else delete b m in
  Done (if r =? NULL then m else <[r := resize (Z.to_nat n) 0 old]> m).

Definition set_rcv (b l n : Z) (x : an_socket) : an_socket :=
  Socket (index x) (org_send_buf x) (send_buf x) (send_len x) (send_buflen x) b l n.

Definition set_sock (a : addr) (x : an_socket) (t : socks) : socks :=
  Socks (Reg (<[a := x]> (objs (sreg t))) (tbl (sreg t))) (bufs t).

(** [memcpy (rcv_buf + off, data, len)] *)
Definition memcpy (off : Z) (data buf : list Z) : outcome (list Z) :=
  if (off <? 0) || (Z.of_nat (length buf) <? off + Z.of_nat (length data)) then Fault OutOfBounds
  else Done (take (Z.to_nat off) buf ++ data ++ drop (Z.to_nat off + length data) buf).

(** The cutting of the buffer of socket [a]; running out of fuel is a hang. *)
Definition split_sock (e : env) (a : addr) (i : Z) (s : server) : outcome (option (Z * server)) :=
  x ← get_or UseAfterFree (objs (sreg (table s)) !! a);
  if rcv_buf x =? NULL then Done (Some (-1, s))
  else
    buf ← get_or UseAfterFree (bufs (table s) !! rcv_buf x);
    r ← Framing.an_split_rcv_buf_to_json (e_slack e) (e_malloc_ok e) buf (rcv_len x);
    match r with
    | None => Done None
    | Some r =>
      let t := set_sock a (set_rcv (rcv_buf x) (Framing.r_len r) (rcv_buflen x) x) (table s) in
      let t := Socks (sreg t) (<[rcv_buf x := Framing.r_buf r]> (bufs t)) in
      Done (Some (Framing.ret r,
        MkServer (an_conn_array s) (an_curfds s) (an_tcp_fd s) t (closed s) (wire s)
          (requests s ++ ((fun p => (p, index x)) <$> Framing.texts r))))
    end.

Definition an_tcp_recv (e : env) (i : Z) (s : server) : outcome (option (Z * server)) :=
  c ← slot i s;
  r ← an_socket_t_find_by_index i (table s);
  match r with
  | None => Done (Some (-1, s))
  | Some a =>
    let data := take (Z.to_nat AN_TCP_BUF_LEN) (e_recv e (fd c)) in
    let r_len := Z.of_nat (length data) in
    if r_len <=? 0 then Done (Some (-1, s))
    else
      x ← get_or UseAfterFree (objs (sreg (table s)) !! a);
      let need := r_len + rcv_len x in
      t ← (if rcv_buflen x <? need then
             let b := e_realloc e (rcv_buf x) (bufs (table s)) in
             m ← realloc_buf (rcv_buf x) need b (bufs (table s));
             Done (set_sock a (set_rcv b (rcv_len x) (if b =? NULL then rcv_buflen x else need) x)
                     (Socks (sreg (table s)) m))
           else Done (table s));
      x ← get_or UseAfterFree (objs (sreg t) !! a);
      if (rcv_buf x =? NULL) then Done (Some (-1, set_table t s))
      else
        buf ← get_or UseAfterFree (bufs t !! rcv_buf x);
        buf ← memcpy (rcv_len x) data buf;
        let x := set_rcv (rcv_buf x) (rcv_len x + r_len) (rcv_buflen x) x in
        let t := set_sock a x (Socks (sreg t) (<[rcv_buf x := buf]> (bufs t))) in
        split_sock e a i (set_table t s)
  end.

Definition an_ignore_errno (eno : Z) : Z :=
  if (eno =? EAGAIN) || (eno =? EINTR) then 0 else -1.

Definition send_bytes (f n : Z) (b : list Z) (s : server) : server :=
  MkServer (an_conn_array s) (an_curfds s) (an_tcp_fd s) (table s) (closed s)
    (wire s ++ [(f, take (Z.to_nat n) b)]) (requests s).

Definition an_tcp_send (e : env) (i : Z) (s : server) : outcome (Z * server) :=
  c ← slot i s;
  r ← an_socket_t_find_by_index i (table s);
  match r with
  | None => Done (SEND_SHUTDOWN, s)
  | Some a =>
    x ← get_or UseAfterFree (objs (sreg (table s)) !! a);
    st ← (if negb (send_len x =? 0) then
            buf ← get_or UseAfterFree (bufs (table s) !! send_buf x);
            let n := Z.min (e_send e (fd c)) (send_len x) in
            Done (n, if 0 <? n then send_bytes (fd c) n buf s else s)
          else Done (0, s));
    let '(n, s) := (st : Z * server) in
    if n <? 0 then
      if negb (an_ignore_errno (e_errno e) =? 0) then Done (SEND_ERROR, s)
      else s ← m_sock_add_write i s; Done (SEND_AGAIN, s)
    else if n =? 0 then Done (SEND_SHUTDOWN, s)
    else if n <? send_len x then s ← m_sock_del_write i s; Done (SEND_AGAIN, s)
    else
      s ← m_sock_del_write i s;
      m ← free_buf (send_buf x) (bufs (table s));
      let x := Socket (index x) (org_send_buf x) NULL 0 (send_buflen x) (rcv_buf x) (rcv_len x) (rcv_buflen x) in
      Done (SEND_FINISH, set_table (set_sock a x (Socks (sreg (table s)) m)) s)
  end.

Definition has (r f : Z) : bool := negb (Z.land r f =? 0).

Definition an_tcp_events_do (e : env) (i : Z) (s : server) : outcome (option (Z * server)) :=
  c ← slot i s;
  if has (revents c) POLLERR then s ← an_sock_destory i s; Done (Some (-1, s))
  else if has (revents c) POLLOUT then
    r ← an_tcp_send e i s;
    let '(send_stat, s) := (r : Z * server) in
    if send_stat =? SEND_FINISH then
      s ← m_sock_del_write i s; s ← an_sock_destory i s; Done (Some (0, s))
    else if send_stat =? SEND_AGAIN then s ← m_sock_add_write i s; Done (Some (0, s))
    else s ← an_sock_destory i s; Done (Some (0, s))
  else if has (revents c) POLLIN then
    r ← an_tcp_recv e i s;
    match r with
    | None => Done None
    | Some (r, s) =>
      if negb (r =? 0) then s ← an_sock_destory i s; Done (Some (0, s)) else Done (Some (0, s))
    end
  else Done (Some (0, s)).

(** The first free slot from [1] on. *)
Fixpoint find_free (l : list pollfd) (i : nat) : option nat :=
  match l with
  | [] => None
  | x :: l => if fd x <? 0 then Some i else find_free l (S i)
  end.

Definition an_sock_poll_add (e : env) (f : Z) (s : server) : Z * server :=
  match find_free (tail (an_conn_array s)) 1 with
  | None => (-1, s)
  | Some i =>
    let s := set_array (alter (fun x => Pollfd f (events x) POLLIN) i (an_conn_array s)) s in
    let s := if Z.of_nat i =? an_curfds s then set_curfds (an_curfds s + 1) s else s in
    let '(a, t) := an_socket_t_create (e_sock e (objs (sreg (table s)))) (table s) in
    if a =? NULL then (-1, set_table t s)
    else
      let h := an_socket_t_get_hash (Z.of_nat i) in
      let x := Socket (Z.of_nat i) NULL NULL 0 max_send_len NULL 0 0 in
      let t := Socks (Reg (<[a := x]> (objs (sreg t))) (add_head (F_HASH, (0, h)) a (tbl (sreg t)))) (bufs t) in
      (0, set_table t s)
  end.

(** [an_poll] returns, or the process exits. *)
Inductive poll_end := Returns (r : Z) (s : server) | Exits (s : server) | Hangs.

Fixpoint events_loop (fuel : nat) (e : env) (i : Z) (s : server) : outcome poll_end :=
  match fuel with
  | O => Done (Returns 0 s)
  | S fuel =>
    if i <? an_curfds s then
      c ← slot i s;
      if fd c =? -1 then events_loop fuel e (i + 1) s
      else if has (revents c) (Z.lor POLLIN (Z.lor POLLOUT POLLERR)) then
        r ← an_tcp_events_do e i s;
        match r with
        | None => Done Hangs
        | Some (r, s) => if negb (r =? 0) then Done (Exits s) else events_loop fuel e (i + 1) s
        end
      else events_loop fuel e (i + 1) s
    else Done (Returns 0 s)
  end.

(** [poll] stores the returned events of the first [an_curfds] slots. *)
Definition poll (e : env) (s : server) : server :=
  set_array (imap (fun k x =>
    if Z.of_nat k <? an_curfds s then Pollfd (fd x) (events x) (default 0 (e_revents e !! k)) else x)
    (an_conn_array s)) s.

Definition an_poll (e : env) (s : server) : outcome poll_end :=
  let s := poll e s in
  if e_nready e <? 1 then Done (Returns 0 s)
  else
    c ← slot 0 s;
    if has (revents c) POLLIN then
      if e_accept e <? 0 then events_loop 1024 e 1 s
      else
        let '(r, s) := an_sock_poll_add e (e_accept e) s in
        if negb (r =? 0) then Done (Returns 0 s) else events_loop 1024 e 1 s
    else events_loop 1024 e 1 s.

End Server.
