(* ===== verification/ServerFacts.v ===== *)
(** * Facts about the TCP front end: framing, the table of connections,
    sending *)

From S2P Require Import Prelude Registry CString Rules Users UsersFacts Server.
Local Open Scope Z_scope.

(** ** Framing *)

Module FramingFacts.
Import Framing.

(** The nesting depth after one more byte. *)
Definition depth (d c : Z) : Z :=
  if c =? LBRACE then d + 1 else if c =? RBRACE then d - 1 else d.

(** [J] brings the depth from [d] to 0 with its last byte and not before; it
    contains neither line feed nor NUL. *)
Fixpoint frame (d : Z) (J : list Z) : bool :=
  match J with
  | [] => false
  | c :: J' =>
    negb (c =? LF) && negb (c =? 0) &&
    match J' with [] => depth d c =? 0 | _ => negb (depth d c =? 0) && frame (depth d c) J' end
  end.

Section Split.
Context (slack : Z -> Z).

Lemma rd_lookup buf i k c :
  0 <= i -> buf !! k = Some c -> i = Z.of_nat k -> rd slack buf i = c.
Proof.
  intros Hi Hk ->. unfold rd. pose proof (lookup_lt_Some _ _ _ Hk).
  destruct (Z.ltb_spec (Z.of_nat k) (Z.of_nat (length buf))); [|lia]. by rewrite Nat2Z.id, Hk.
Qed.

Lemma rd_app pre x post i : i = Z.of_nat (length pre) -> rd slack (pre ++ x :: post) i = x.
Proof. intros ->. eapply (rd_lookup _ _ (length pre)); [lia| |done]. by apply list_lookup_middle. Qed.

Lemma rd_range_app pre mid post off n :
  off = Z.of_nat (length pre) -> n = length mid -> rd_range slack (pre ++ mid ++ post) off n = mid.
Proof.
  intros -> ->. apply list_eq. intros k. unfold rd_range. rewrite list_lookup_fmap.
  destruct (mid !! k) as [c|] eqn:E.
  - pose proof (lookup_lt_Some _ _ _ E). rewrite lookup_seq_lt by done. simpl. f_equal.
    apply (rd_lookup _ _ (length pre + k)); [lia| |lia].
    rewrite lookup_app_r by lia. replace (length pre + k - length pre)%nat with k by lia. by rewrite lookup_app_l.
  - rewrite lookup_seq_ge by (by apply lookup_ge_None). done.
Qed.

Lemma until_nul_frame d J : frame d J = true -> until_nul J = J.
Proof.
  revert d. induction J as [|c J IH]; intros d; [done|]. simpl.
  destruct (Z.eqb_spec c 0) as [->|]; [by rewrite andb_false_r|].
  intros [[_ _]%andb_prop HJ]%andb_prop. f_equal. destruct J; [done|].
  apply andb_prop in HJ as [_ HJ]. by eapply IH.
Qed.

(** The scan of one frame. *)
Lemma scan_frame J : forall pre post d fuel rcv_len json_len start_p,
  frame d J = true -> json_len + Z.of_nat (length J) <= rcv_len -> (length J <= fuel)%nat ->
  scan_loop slack fuel (pre ++ J ++ post) rcv_len json_len start_p (Z.of_nat (length pre)) d 1 =
  Some (json_len + Z.of_nat (length J), start_p, 0).
Proof.
  induction J as [|c J IH]; intros pre post d fuel rcv_len json_len start_p; [done|].
  intros Hf Hl Hfu. destruct fuel as [|fuel]; [simpl in Hfu; lia|]. simpl in Hl, Hfu.
  cbn [scan_loop]. destruct (Z.ltb_spec json_len rcv_len); [|lia].
  simpl app. rewrite rd_app by done. simpl in Hf.
  destruct (Z.eqb_spec c LF) as [->|_]; [done|]. simpl in Hf. fold (depth d c).
  apply andb_prop in Hf as [_ Hf]. destruct J as [|c' J].
  - apply Z.eqb_eq in Hf. rewrite Hf. done.
  - apply andb_prop in Hf as [Hd Hf]. apply negb_true_iff, Z.eqb_neq in Hd.
    destruct (Z.eqb_spec (depth d c) 0); [done|]. simpl andb. cbv iota.
    specialize (IH (pre ++ [c]) post (depth d c) fuel rcv_len (json_len + 1) start_p Hf).
    rewrite length_app in IH. simpl length in IH. rewrite <- !(assoc_L (++)) in IH. simpl app in IH.
    replace (Z.of_nat (length pre) + 1) with (Z.of_nat (length pre + 1)) by lia.
    simpl in Hl, Hfu |- *. rewrite IH by lia. do 3 f_equal. lia.
Qed.

Lemma scan_packet J post rcv_len :
  frame 0 J = true -> rcv_len = 1 + Z.of_nat (length J) \/ (1 + Z.of_nat (length J) <= rcv_len) ->
  scan_loop slack (Z.to_nat rcv_len + 3) (LF :: J ++ post) rcv_len 0 0 0 0 0 = Some (Z.of_nat (length J), 1, 0).
Proof.
  intros Hf Hl. replace (Z.to_nat rcv_len + 3)%nat with (S (Z.to_nat rcv_len + 2)) by lia.
  cbn [scan_loop]. destruct (Z.ltb_spec 0 rcv_len); [|lia].
  change (rd slack (LF :: J ++ post) 0) with LF. simpl.
  rewrite (scan_frame J [LF] post 0) by (done || lia). done.
Qed.

(** One round of [redo] on a buffer that starts with a packet. *)
Lemma redo_packet fuel J post rcv_len :
  frame 0 J = true -> 1 + Z.of_nat (length J) <= rcv_len <= Z.of_nat (length (LF :: J ++ post)) ->
  let buf := rd_range slack (LF :: J ++ post) (1 + Z.of_nat (length J)) (Z.to_nat (rcv_len - Z.of_nat (length J) + 1))
             ++ drop (Z.to_nat (rcv_len - Z.of_nat (length J) + 1)) (LF :: J ++ post) in
  let len := rcv_len - (Z.of_nat (length J) + 1) in
  redo slack (S fuel) (fun _ => true) (LF :: J ++ post) rcv_len 0 =
  if 0 <? len then
    r ← redo slack fuel (fun _ => true) buf len (Z.of_nat (length J));
    Done (option_map (cons_text (J, Z.of_nat (length J))) r)
  else Done (Some (Result 0 buf len [(J, Z.of_nat (length J))])).
Proof.
  intros Hf Hl buf len. assert (length J <> 0)%nat as H1 by (by destruct J). cbn [redo]. rewrite scan_packet by (done || lia).
  destruct (Z.ltb_spec 0 (Z.of_nat (length J))); [|lia]. simpl andb. cbv iota.
  rewrite (rd_range_app [LF] J post) by (done || lia). rewrite (until_nul_frame 0) by done.
  unfold memmove. simpl length in *. rewrite length_app in *.
  destruct (Z.ltb_spec (rcv_len - Z.of_nat (length J) + 1) 0); [lia|].
  destruct (Z.ltb_spec (Z.of_nat (S (length J + length post))) (rcv_len - Z.of_nat (length J) + 1)); [lia|].
  simpl orb. cbv iota. rewrite andb_true_r. cbn [mbind outcome_bind].
  unfold buf, len. rewrite (Z.add_comm 1). done.
Qed.

Lemma cut_spec g : forall pre t fuel rcv_len,
  Forall (fun c => c <> LF /\ c <> 0) g -> (length g < fuel)%nat ->
  Z.of_nat (length pre + length g) <= rcv_len ->
  cut_loop slack fuel (pre ++ g ++ LF :: t) rcv_len (Z.of_nat (length pre)) = Z.of_nat (length pre + length g).
Proof.
  induction g as [|c g IH]; intros pre t [|fuel] rcv_len Hg Hf Hl; simpl in Hf; try lia; cbn [cut_loop].
  - simpl app. rewrite rd_app by done. simpl. rewrite andb_false_r. f_equal. simpl. lia.
  - inversion_clear Hg as [|? ? [Hc1 Hc2] Hg']. simpl app. rewrite rd_app by done.
    destruct (Z.eqb_spec c 0), (Z.eqb_spec c LF); try done. simpl in Hl |- *.
    destruct (Z.ltb_spec (Z.of_nat (length pre)) rcv_len); [|lia]. simpl andb. cbv iota.
    specialize (IH (pre ++ [c]) t fuel rcv_len Hg'). rewrite length_app in IH. simpl length in IH.
    rewrite <- (assoc_L (++)) in IH. simpl app in IH.
    replace (Z.of_nat (length pre) + 1) with (Z.of_nat (length pre + 1)) by lia.
    rewrite IH by lia. f_equal. lia.
Qed.

(** Dropping what precedes the line feed. *)
Lemma split_cut g J post rcv_len ok :
  Forall (fun c => c <> LF /\ c <> 0) g ->
  Z.of_nat (length g) < rcv_len <= Z.of_nat (length (g ++ LF :: J ++ post)) ->
  rcv_len = Z.of_nat (length g + 1 + length J) ->
  exists post', length (LF :: J ++ post') = length (g ++ LF :: J ++ post) /\ (g = [] -> post' = post) /\
    an_split_rcv_buf_to_json slack ok (g ++ LF :: J ++ post) rcv_len =
    redo slack (length J + 3) ok (LF :: J ++ post') (1 + Z.of_nat (length J)) 0.
Proof.
  intros Hg Hl Er. unfold an_split_rcv_buf_to_json.
  rewrite (cut_spec g [] (J ++ post)) by (done || simpl; lia). simpl Nat.add.
  destruct (Z.ltb_spec 0 (Z.of_nat (length g))) as [H0|H0].
  - exists (drop (1 + length J) (g ++ LF :: J ++ post)).
    split; [simpl; rewrite length_app, length_drop, !length_app; simpl; rewrite length_app; lia|].
    split; [intros ->; simpl in H0; lia|]. unfold memmove.
    destruct (Z.ltb_spec (rcv_len - Z.of_nat (length g)) 0); [lia|].
    destruct (Z.ltb_spec (Z.of_nat (length (g ++ LF :: J ++ post))) (rcv_len - Z.of_nat (length g))); [lia|].
    simpl orb. cbv iota. cbn [mbind outcome_bind].
    replace (Z.to_nat (rcv_len - Z.of_nat (length g))) with (S (length J)) by lia.
    rewrite (rd_range_app g (LF :: J) post) by done.
    replace (S (length J) + 2)%nat with (length J + 3)%nat by lia. f_equal. lia.
  - assert (g = []) as -> by (destruct g; [done|simpl in H0; lia]). exists post. split; [done|]. split; [done|].
    cbn [mbind outcome_bind]. simpl app. f_equal; simpl in Er; lia.
Qed.

End Split.

(** One request is cut out exactly: when the received bytes are rubbish
    without a line feed, a line feed, and a text whose braces balance at its
    last byte, that text is handed to the allocator, nothing else is, and the
    buffer is empty afterwards, whatever lies behind the buffer.  When the
    text fills the block, the two bytes behind the block are read. *)
Theorem split_packet slack g J post :
  frame 0 J = true -> Forall (fun c => c <> LF /\ c <> 0) g ->
  exists buf', an_split_rcv_buf_to_json slack (fun _ => true) (g ++ LF :: J ++ post)
      (Z.of_nat (length g + 1 + length J)) =
    Done (Some (Result 0 buf' 0 [(J, Z.of_nat (length J))])) /\
    (g = [] -> post = [] -> take 2 buf' = [slack 0; slack 1]).
Proof.
  intros Hf Hg. destruct (split_cut slack g J post (Z.of_nat (length g + 1 + length J)) (fun _ => true))
    as (post' & Hl & Hp & ->); [done|rewrite length_app; simpl; rewrite length_app; lia|done|].
  replace (length J + 3)%nat with (S (length J + 2)) by lia.
  assert (length J <> 0)%nat by (by destruct J).
  rewrite (redo_packet slack _ J post') by (try done; simpl; rewrite length_app; lia).
  destruct (Z.ltb_spec 0 (1 + Z.of_nat (length J) - (Z.of_nat (length J) + 1))); [lia|].
  eexists. split; [by replace (1 + Z.of_nat (length J) - (Z.of_nat (length J) + 1)) with 0 by lia|].
  intros -> ->. rewrite (Hp eq_refl), app_nil_r.
  replace (Z.to_nat (1 + Z.of_nat (length J) - Z.of_nat (length J) + 1)) with 2%nat by lia.
  unfold rd_range, rd. simpl. rewrite take_0. change (Z.of_nat 0) with 0. change (Z.of_nat 1) with 1.
  destruct (Z.ltb_spec (1 + Z.of_nat (length J) + 0) (Z.of_nat (S (length J)))); [lia|].
  destruct (Z.ltb_spec (1 + Z.of_nat (length J) + 1) (Z.of_nat (S (length J)))); [lia|].
  f_equal; [f_equal; lia|]. f_equal. f_equal. lia.
Qed.

(** Two requests in one read are not cut correctly: [json_len] keeps its
    value for the second round, and when the second text is at least three
    bytes shorter than the first, the length given to [memmove] is negative
    and, as a [size_t], enormous. *)
Theorem split_second_crashes slack J1 J2 post :
  frame 0 J1 = true -> (length J2 + 2 < length J1)%nat ->
  an_split_rcv_buf_to_json slack (fun _ => true) (LF :: J1 ++ LF :: J2 ++ post)
    (Z.of_nat (1 + length J1 + 1 + length J2)) = Fault OutOfBounds.
Proof.
  intros Hf Hl. unfold an_split_rcv_buf_to_json.
  rewrite (cut_spec slack [] [] (J1 ++ LF :: J2 ++ post)) by (done || simpl; lia).
  change (0 <? Z.of_nat (length (@nil Z) + length (@nil Z))) with false. cbv iota. cbn [mbind outcome_bind].
  rewrite Nat2Z.id. replace (1 + length J1 + 1 + length J2 + 2)%nat with (S (S (2 + length J1 + length J2))) by lia.
  rewrite (redo_packet slack _ J1 (LF :: J2 ++ post)) by (try done; simpl; rewrite length_app; simpl; rewrite length_app; lia).
  set (buf := rd_range _ _ _ _ ++ _). clearbody buf.
  replace (Z.of_nat (1 + length J1 + 1 + length J2) - (Z.of_nat (length J1) + 1)) with (Z.of_nat (1 + length J2)) by lia.
  destruct (Z.ltb_spec 0 (Z.of_nat (1 + length J2))); [|lia].
  cbn [redo]. replace (Z.to_nat (Z.of_nat (1 + length J2)) + 3)%nat with (S (length J2 + 3)) by lia.
  cbn [scan_loop]. destruct (Z.ltb_spec (Z.of_nat (length J1)) (Z.of_nat (1 + length J2))); [lia|].
  destruct (Z.ltb_spec 0 (Z.of_nat (length J1))); [|lia]. simpl andb. cbv iota. simpl negb. cbv iota.
  unfold memmove. destruct (Z.ltb_spec (Z.of_nat (1 + length J2) - Z.of_nat (length J1) + 1) 0); [|lia]. done.
Qed.

(** The scan consumes at least one byte. *)
Lemma scan_progress slack buf rcv_len fuel : forall json_len sp ep fl pf j sp' fl',
  0 <= pf <= 1 -> 0 <= json_len -> 0 < rcv_len -> rcv_len - json_len + (1 - pf) < Z.of_nat fuel ->
  scan_loop slack fuel buf rcv_len json_len sp ep fl pf = Some (j, sp', fl') -> 0 < j.
Proof.
  induction fuel as [|fuel IH]; intros json_len sp ep fl pf j sp' fl' Hp Hj Hr Hf; [simpl; intros [= <- _ _]; lia|].
  cbn [scan_loop]. destruct (Z.ltb_spec json_len rcv_len); [|intros [= <- _ _]; lia].
  destruct (Z.eqb_spec (rd slack buf ep) LF).
  - destruct (Z.ltb_spec 1 (pf + 1)); [done|]. apply IH; lia.
  - destruct (_ && _); [intros [= <- _ _]; lia|]. apply IH; lia.
Qed.

Lemma redo_total slack ok fuel : forall buf rcv_len json_len,
  0 <= json_len -> rcv_len < Z.of_nat fuel -> redo slack fuel ok buf rcv_len json_len <> Done None \/ fuel = O.
Proof.
  induction fuel as [|fuel IH]; intros buf rcv_len json_len Hj Hf; [by right|]. left. cbn [redo].
  destruct (scan_loop _ _ _ _ _ _ _ _ _) as [[[j sp] fl]|] eqn:E; [|done].
  assert (0 < rcv_len -> 0 < j) as Hj'.
  { intros H. apply scan_progress in E; lia. }
  destruct (Z.ltb_spec 0 j) as [H1|H1]; simpl andb.
  - destruct (fl =? 0) eqn:Efl; [|rewrite ?andb_false_r; done]. destruct (negb (ok fuel)); [done|].
    unfold memmove. destruct (_ || _); [done|]. cbn [mbind outcome_bind].
    destruct (Z.ltb_spec 0 (rcv_len - (j + 1))) as [H2|H2]; simpl andb; cbv iota; [|done].
    match goal with |- context [redo slack fuel ok ?b ?n ?m] => destruct (IH b n m) as [H|H] end; [lia|lia| |lia].
    destruct (redo slack fuel ok _ _ _) as [[r|]|]; done.
  - destruct (Z.ltb_spec 0 rcv_len); [lia|]. done.
Qed.

(** [an_split_rcv_buf_to_json] always comes to an end. *)
Theorem split_total slack ok buf rcv_len :
  0 <= rcv_len -> an_split_rcv_buf_to_json slack ok buf rcv_len <> Done None.
Proof.
  intros H. unfold an_split_rcv_buf_to_json. set (cut := cut_loop _ _ _ _ _).
  destruct (Z.ltb_spec 0 cut).
  - unfold memmove. destruct (Z.ltb_spec (rcv_len - cut) 0); [done|]. simpl orb. destruct (_ <? _); [done|].
    cbn [mbind outcome_bind]. intros E.
    match type of E with redo _ ?f _ ?b ?n ?m = _ => destruct (redo_total slack ok f b n m) as [?|?] end; [lia|lia|done|lia].
  - cbn [mbind outcome_bind]. intros E.
    match type of E with redo _ ?f _ ?b ?n ?m = _ => destruct (redo_total slack ok f b n m) as [?|?] end; [lia|lia|done|lia].
Qed.

(** [{}] *)
Definition ex_braces : list Z := [LBRACE; RBRACE].

Lemma split_packet_witness :
  exists buf', an_split_rcv_buf_to_json (fun k => k) (fun _ => true) ([97; 98] ++ LF :: ex_braces ++ []) 5 =
    Done (Some (Result 0 buf' 0 [(ex_braces, 2)])).
Proof.
  destruct (split_packet (fun k => k) [97; 98] ex_braces []) as (buf & E & _);
    [reflexivity|repeat constructor; discriminate|]. exists buf. exact E.
Defined.

Lemma split_second_crashes_witness :
  an_split_rcv_buf_to_json (fun _ => 0) (fun _ => true)
    (LF :: [LBRACE; 97; 97; 97; RBRACE] ++ LF :: ex_braces ++ []) 9 = Fault OutOfBounds.
Proof. apply (split_second_crashes (fun _ => 0) [LBRACE; 97; 97; 97; RBRACE] ex_braces []); [reflexivity|simpl; lia]. Defined.

End FramingFacts.

(** ** The table of connections *)

Module ServerFacts.
Import Registry Sock SockFacts Server.

(** The descriptors of the slots: slots from [cur] on are free, open
    descriptors are distinct, slot 0 is the listening socket. *)
Record fdinv (l : list Z) (cur tcp : Z) : Prop := {
  f_len : length l = 1024%nat;
  f_cur : 1 <= cur <= 1024;
  f_free : forall i f, l !! i = Some f -> cur <= Z.of_nat i -> f = -1;
  f_fd : forall i f, l !! i = Some f -> f = -1 \/ 0 <= f;
  f_uniq : forall i j f, l !! i = Some f -> l !! j = Some f -> 0 <= f -> i = j;
  f_listen : l !! 0%nat = Some tcp /\ 0 <= tcp
}.

Definition fds (s : server) : list Z := fd <$> an_conn_array s.

(** Every socket belongs to an open slot. *)
Record pinv (s : server) : Prop := {
  p_fds : fdinv (fds s) (an_curfds s) (an_tcp_fd s);
  p_sock : sinv (table s);
  p_conn : forall a x, objs (sreg (table s)) !! a = Some x ->
    exists i f, index x = Z.of_nat i /\ (1 <= i)%nat /\ fds s !! i = Some f /\ 0 <= f
}.

Lemma fdinv_del l cur tcp i f :
  fdinv l cur tcp -> l !! i = Some f -> (1 <= i)%nat ->
  fdinv (<[i := -1]> l) (if Z.of_nat i =? cur - 1 then cur - 1 else cur) tcp.
Proof.
  intros [Hl Hc Hf Hd Hu [H0 Ht]] Hi H1.
  assert (forall j g, <[i := -1]> l !! j = Some g -> (j = i /\ g = -1) \/ (j <> i /\ l !! j = Some g)) as Hins.
  { intros j g. rewrite list_lookup_insert_Some. naive_solver. }
  pose proof (lookup_lt_Some _ _ _ Hi). split.
  - by rewrite length_insert.
  - destruct (Z.eqb_spec (Z.of_nat i) (cur - 1)); lia.
  - intros j g [[-> ->]|[Hne Hj]]%Hins; [done|]. destruct (Z.eqb_spec (Z.of_nat i) (cur - 1)); [|by apply Hf].
    intros Hle. apply (Hf j); [done|]. lia.
  - intros j g [[-> ->]|[_ Hj]]%Hins; [by left|by eapply Hd].
  - intros j k g [[-> ->]|[_ Hj]]%Hins [[-> ?]|[_ Hk]]%Hins; try lia. by apply Hu.
  - split; [|done]. rewrite list_lookup_insert_ne by lia. done.
Qed.

Lemma fdinv_add l cur tcp i f g :
  fdinv l cur tcp -> l !! i = Some g -> g < 0 -> (1 <= i)%nat -> 0 <= f -> f ∉ l ->
  (forall j h, (1 <= j < i)%nat -> l !! j = Some h -> 0 <= h) ->
  fdinv (<[i := f]> l) (if Z.of_nat i =? cur then cur + 1 else cur) tcp.
Proof.
  intros [Hl Hc Hf Hd Hu [H0 Ht]] Hi Hg H1 Hf0 Hnew Hfirst.
  pose proof (lookup_lt_Some _ _ _ Hi) as Hil.
  assert (Z.of_nat i <= cur) as Hic.
  { destruct (Z_le_gt_dec (Z.of_nat i) cur); [done|].
    destruct (lookup_lt_is_Some_2 l (Z.to_nat cur)) as [h Hh]; [lia|].
    assert (h = -1) by (apply (Hf _ _ Hh); lia). assert (0 <= h) by (apply (Hfirst (Z.to_nat cur)); [lia|done]). lia. }
  assert (forall j h, <[i := f]> l !! j = Some h -> (j = i /\ h = f) \/ (j <> i /\ l !! j = Some h)) as Hins.
  { intros j h. rewrite list_lookup_insert_Some. naive_solver. }
  assert (forall j, l !! j <> Some f) as Hnf.
  { intros j Hj. by apply Hnew, (list_elem_of_lookup_2 _ j). }
  split.
  - by rewrite length_insert.
  - destruct (Z.eqb_spec (Z.of_nat i) cur); lia.
  - intros j h [[-> ->]|[Hne Hj]]%Hins Hle; [destruct (Z.eqb_spec (Z.of_nat i) cur); lia|].
    apply (Hf j); [done|]. destruct (Z.eqb_spec (Z.of_nat i) cur); lia.
  - intros j h [[-> ->]|[_ Hj]]%Hins; [by right|by eapply Hd].
  - intros j k h [[-> ->]|[_ Hj]]%Hins [[-> Hk]|[_ Hk]]%Hins; try done.
    + by destruct (Hnf k).
    + subst h. by destruct (Hnf j).
    + by apply Hu.
  - split; [|done]. rewrite list_lookup_insert_ne by lia. done.
Qed.

Lemma find_fd_spec f l k :
  match find_fd f l k with
  | Some i => (k <= i)%nat /\ (fd <$> l) !! (i - k)%nat = Some f
  | None => f ∉ fd <$> l
  end.
Proof.
  revert k. induction l as [|x l IH]; intros k; simpl; [by apply not_elem_of_nil|].
  destruct (Z.eqb_spec (fd x) f) as [<-|Hne].
  - split; [done|]. by rewrite Nat.sub_diag.
  - specialize (IH (S k)). destruct (find_fd f l (S k)) as [i|].
    + destruct IH as [Hk Hi]. split; [lia|]. by replace (i - k)%nat with (S (i - S k)) by lia.
    + rewrite not_elem_of_cons. auto.
Qed.

Lemma find_free_spec l k :
  match find_free l k with
  | Some i => (k <= i)%nat /\ (exists g, (fd <$> l) !! (i - k)%nat = Some g /\ g < 0) /\
      (forall j h, (j < i - k)%nat -> (fd <$> l) !! j = Some h -> 0 <= h)
  | None => True
  end.
Proof.
  revert k. induction l as [|x l IH]; intros k; simpl; [done|].
  destruct (Z.ltb_spec (fd x) 0) as [Hlt|Hge].
  - split; [done|]. rewrite Nat.sub_diag. split; [by exists (fd x)|]. lia.
  - specialize (IH (S k)). destruct (find_free l (S k)) as [i|]; [|done].
    destruct IH as (Hk & Hg & Hf). split; [lia|]. replace (i - k)%nat with (S (i - S k)) by lia.
    split; [done|]. intros [|j] h Hj; simpl; [intros [= <-]; lia|]. apply Hf. lia.
Qed.

Lemma fds_alter (i : nat) (g : pollfd -> pollfd) f (l : list pollfd) :
  (forall x, fd (g x) = f) -> fd <$> alter g i l = <[i := f]> (fd <$> l).
Proof.
  intros Hg. revert i. induction l as [|x l IH]; intros [|i]; simpl; [done..| |].
  - by rewrite Hg.
  - f_equal. apply IH.
Qed.

(** Steps that leave descriptors and socket indices alone. *)
Definition keeps (s s' : server) : Prop :=
  fds s' = fds s /\ an_curfds s' = an_curfds s /\ an_tcp_fd s' = an_tcp_fd s /\
  index <$> objs (sreg (table s')) = index <$> objs (sreg (table s)).

Lemma pinv_keeps s s' : pinv s -> keeps s s' -> sinv (table s') -> pinv s'.
Proof.
  intros [Hf Hs Hc] (E1 & E2 & E3 & E4) Hs'. split; [by rewrite E1, E2, E3|done|].
  intros a x Ex. assert ((index <$> objs (sreg (table s))) !! a = Some (index x)) as E.
  { by rewrite <- E4, lookup_fmap, Ex. }
  rewrite lookup_fmap in E. apply fmap_Some in E as (y & Ey & Hy). rewrite Hy, E1. by eapply Hc.
Qed.

Lemma slot_done i s x : slot i s = Done x <-> 0 <= i /\ an_conn_array s !! Z.to_nat i = Some x.
Proof.
  unfold slot. destruct (Z.ltb_spec i 0); simpl; [split; [done|lia]|].
  destruct (an_conn_array s !! Z.to_nat i); simpl; naive_solver.
Qed.

Lemma upd_keeps i g s s' :
  (forall x, fd (g x) = fd x) -> upd i g s = Done s' -> keeps s s' /\ table s' = table s.
Proof.
  intros Hg (x & [Hi Hx]%slot_done & E)%outcome_bind_done. injection E as <-. split; [|done]. split; [|done].
  unfold fds. simpl. apply list_eq. intros j. rewrite !list_lookup_fmap.
  destruct (decide (j = Z.to_nat i)) as [->|]; [|by rewrite list_lookup_insert_ne].
  rewrite list_lookup_insert_eq by (by eapply lookup_lt_Some). rewrite Hx. simpl. by rewrite Hg.
Qed.

Lemma upd_inv i g s s' : (forall x, fd (g x) = fd x) -> pinv s -> upd i g s = Done s' -> pinv s'.
Proof.
  intros Hg Hp [Hk Et]%upd_keeps; [|done]. eapply pinv_keeps; [done..|]. rewrite Et. apply Hp.
Qed.

Lemma add_write_inv i s s' : pinv s -> m_sock_add_write i s = Done s' -> pinv s'.
Proof. by apply upd_inv. Qed.

Lemma del_write_inv i s s' : pinv s -> m_sock_del_write i s = Done s' -> pinv s' /\ table s' = table s.
Proof. intros Hp E. split; [by eapply upd_inv, E|]. by apply upd_keeps in E as [_ ?]. Qed.

(** Replacing the record of a socket, with its buffers. *)
Lemma sinv_set t a x x' m :
  sinv t -> objs (sreg t) !! a = Some x -> index x' = index x -> NoDup (own_bufs x') ->
  (forall b, b ∈ own_bufs x' -> is_Some (m !! b)) ->
  (forall b, b ∈ own_bufs x' -> b ∈ own_bufs x \/ bufs t !! b = None) ->
  (forall b, b ∉ own_bufs x -> is_Some (bufs t !! b) -> is_Some (m !! b)) ->
  sinv (Socks (Reg (<[a := x']> (objs (sreg t))) (tbl (sreg t))) m).
Proof.
  intros [Hh Hu Hb Hn Hd] E Hi Hnd Hlive Hown Hrest.
  assert (forall b y, <[a := x']> (objs (sreg t)) !! b = Some y ->
    (b = a /\ y = x') \/ (b <> a /\ objs (sreg t) !! b = Some y)) as Hins.
  { intros b y. rewrite lookup_insert_Some. naive_solver. }
  assert (forall b y c, b <> a -> objs (sreg t) !! b = Some y -> c ∈ own_bufs y -> c ∉ own_bufs x) as Hdis.
  { intros b y c Hne Ey Hc Hcx. apply Hne. by eapply Hd. }
  split; simpl.
  - replace (sock_place <$> <[a := x']> (objs (sreg t))) with (sock_place <$> objs (sreg t)); [done|].
    rewrite fmap_insert. symmetry. apply insert_id. rewrite lookup_fmap, E. simpl. unfold sock_place.
    by rewrite Hi.
  - intros b c y z [[-> ->]|[Hb' Ey]]%Hins [[-> ->]|[Hc' Ez]]%Hins Hyz; try done.
    + symmetry. eapply Hu; [done..|congruence].
    + eapply Hu; [done..|congruence].
    + by eapply Hu.
  - intros b y c [[-> ->]|[Hb' Ey]]%Hins Hc; [by apply Hlive|]. apply Hrest; [by eapply Hdis|by eapply Hb].
  - intros b y [[-> ->]|[_ Ey]]%Hins; [done|by eapply Hn].
  - intros b c y z d [[-> ->]|[Hb' Ey]]%Hins [[-> ->]|[Hc' Ez]]%Hins Hdy Hdz; try done.
    + exfalso. destruct (Hown d Hdy) as [Hx|Hx]; [by eapply (Hdis c z d)|]. destruct (Hb c z d Ez Hdz). congruence.
    + exfalso. destruct (Hown d Hdz) as [Hx|Hx]; [by eapply (Hdis b y d)|]. destruct (Hb b y d Ey Hdy). congruence.
    + by eapply Hd.
Qed.

(** A new socket without buffers. *)
Lemma sinv_new t a i n :
  sinv t -> objs (sreg t) !! a = None -> (forall b x, objs (sreg t) !! b = Some x -> index x <> i) ->
  sinv (Socks (Reg (<[a := Socket i NULL NULL 0 n NULL 0 0]> (<[a := Socket 0 NULL NULL 0 0 NULL 0 0]> (objs (sreg t))))
     (add_head (F_HASH, (0, an_socket_t_get_hash i)) a (tbl (sreg t)))) (bufs t)).
Proof.
  intros [Hh Hu Hb Hn Hd] Ha Hi. rewrite insert_insert_eq.
  set (x0 := Socket i NULL NULL 0 n NULL 0 0). assert (own_bufs x0 = []) as E0 by done.
  assert (forall b y, <[a := x0]> (objs (sreg t)) !! b = Some y ->
    (b = a /\ y = x0) \/ (b <> a /\ objs (sreg t) !! b = Some y)) as Hins.
  { intros b y. rewrite lookup_insert_Some. naive_solver. }
  split; simpl.
  - rewrite fmap_insert. apply indexed_add_head; [|done]. by rewrite lookup_fmap, Ha.
  - intros b c y z [[-> ->]|[Hb' Ey]]%Hins [[-> ->]|[Hc' Ez]]%Hins Hyz; try done.
    + by destruct (Hi c z Ez).
    + by destruct (Hi b y Ey).
    + by eapply Hu.
  - intros b y c [[-> ->]|[_ Ey]]%Hins Hc; [rewrite E0 in Hc; set_solver|by eapply Hb].
  - intros b y [[-> ->]|[_ Ey]]%Hins; [rewrite E0; constructor|by eapply Hn].
  - intros b c y z d [[-> ->]|[_ Ey]]%Hins [[-> ->]|[_ Ez]]%Hins Hy Hz;
      try (rewrite E0 in Hy; set_solver); try (rewrite E0 in Hz; set_solver). by eapply Hd.
Qed.

(** ** Closing and opening connections *)

Lemma poll_del_inv s i f :
  pinv s -> fds s !! i = Some f -> (1 <= i)%nat -> (forall a x, objs (sreg (table s)) !! a = Some x -> index x <> Z.of_nat i) ->
  pinv (an_sock_poll_del f s).2 /\ fds (an_sock_poll_del f s).2 !! i = Some (-1).
Proof.
  intros [Hf Hs Hc] Hi H1 Hno. unfold an_sock_poll_del.
  pose proof (find_fd_spec f (an_conn_array s) 0) as Hfind. fold (fds s) in Hfind.
  destruct (find_fd f (an_conn_array s) 0) as [j|]; [|by destruct Hfind; apply (list_elem_of_lookup_2 _ i)].
  destruct Hfind as [_ Hj]. rewrite Nat.sub_0_r in Hj.
  assert (0 <= f -> j = i) as Hji by (intros; by eapply (f_uniq _ _ _ Hf)).
  assert (1 <= j)%nat as H1'.
  { destruct (f_fd _ _ _ Hf i f Hi) as [->|]; [|rewrite Hji by done; done].
    destruct j; [|lia]. destruct (f_listen _ _ _ Hf) as [H0 ?]. rewrite H0 in Hj. injection Hj as Hj. lia. }
  pose proof (lookup_lt_Some _ _ _ Hj) as Hjl. simpl. split.
  - split; simpl; [|done|].
    + unfold fds. simpl. rewrite (fds_alter j _ (-1)) by done. by eapply fdinv_del.
    + intros a x Ex. destruct (Hc a x Ex) as (k & g & Hk & Hk1 & Hg & Hg0). exists k, g.
      unfold fds. simpl. rewrite (fds_alter j _ (-1)) by done. fold (fds s).
      rewrite list_lookup_insert_ne; [done|]. intros ->.
      rewrite Hj in Hg. injection Hg as ->. rewrite (Hji Hg0) in Hk. by eapply Hno.
  - unfold fds. simpl. rewrite (fds_alter j _ (-1)) by done. fold (fds s).
    destruct (decide (j = i)) as [->|Hne]; [by rewrite list_lookup_insert_eq|].
    rewrite list_lookup_insert_ne by done. rewrite Hi. f_equal.
    destruct (f_fd _ _ _ Hf i f Hi) as [|Hge]; [done|]. by destruct Hne, Hji.
Qed.

Lemma destory_ok s i :
  pinv s -> 1 <= i < 1024 ->
  exists s', an_sock_destory i s = Done s' /\ pinv s' /\ fds s' !! Z.to_nat i = Some (-1) /\
    (forall a x, objs (sreg (table s')) !! a = Some x -> index x <> i).
Proof.
  intros Hp Hi. pose proof Hp as [Hf Hs Hc]. unfold an_sock_destory.
  destruct (lookup_lt_is_Some_2 (an_conn_array s) (Z.to_nat i)) as [x Hx].
  { pose proof (f_len _ _ _ Hf) as Hl. unfold fds in Hl. rewrite length_fmap in Hl. lia. }
  assert (slot i s = Done x) as -> by (apply slot_done; split; [lia|done]). simpl.
  destruct (sock_del_ok (table s) i Hs) as (t & -> & Hs' & Ho & _); [unfold AN_POLL_MAX; lia|]. simpl.
  assert (slot i (set_table t (CLOSESOCK (fd x) s)) = Done x) as -> by (apply slot_done; split; [lia|done]).
  simpl. eexists. split; [reflexivity|].
  assert (pinv (set_table t (CLOSESOCK (fd x) s))) as Hp'.
  { split; [done|done|]. simpl. intros a y [Ey _]%Ho. by eapply Hc. }
  destruct (poll_del_inv _ (Z.to_nat i) (fd x) Hp') as [H1 H2].
  - unfold fds. simpl. by rewrite list_lookup_fmap, Hx.
  - lia.
  - simpl. intros a y [_ Hy]%Ho. rewrite Z2Nat.id by lia. done.
  - split; [done|]. split; [done|]. intros a y Ey. unfold an_sock_poll_del in Ey.
    destruct (find_fd _ _ _); simpl in Ey; by apply Ho in Ey as [_ ?].
Qed.

(** What the kernel and the allocator promise. *)
Record env_ok (e : env) (s : server) : Prop := {
  ok_accept : 0 <= e_accept e -> e_accept e ∉ fds s;
  ok_sock : forall h, e_sock e h = NULL \/ h !! e_sock e h = None;
  ok_realloc : forall b m, e_realloc e b m = NULL \/ e_realloc e b m = b \/ m !! e_realloc e b m = None
}.

Lemma poll_add_inv e s f :
  pinv s -> 0 <= f -> f ∉ fds s -> (forall h, e_sock e h = NULL \/ h !! e_sock e h = None) ->
  pinv (an_sock_poll_add e f s).2.
Proof.
  intros [Hf Hs Hc] Hf0 Hnew Hsock. unfold an_sock_poll_add.
  pose proof (find_free_spec (tail (an_conn_array s)) 1) as Hfree.
  destruct (find_free (tail (an_conn_array s)) 1) as [i|]; [|done].
  destruct Hfree as (H1 & (g & Hg & Hg0) & Hfirst).
  assert (forall j, (fd <$> tail (an_conn_array s)) !! j = fds s !! S j) as Htl.
  { intros j. unfold fds. by destruct (an_conn_array s). }
  rewrite Htl in Hg. replace (S (i - 1)) with i in Hg by lia.
  set (s1 := set_array _ s). set (s2 := if _ =? _ then _ else s1).
  assert (fds s1 = <[i := f]> (fds s)) as E1.
  { unfold fds, s1. simpl. by rewrite (fds_alter i _ f). }
  assert (fdinv (fds s2) (an_curfds s2) (an_tcp_fd s2)) as Hf2.
  { assert (fdinv (<[i := f]> (fds s)) (if Z.of_nat i =? an_curfds s then an_curfds s + 1 else an_curfds s) (an_tcp_fd s)) as H.
    { eapply fdinv_add; try done. intros j h Hj Hh. apply (Hfirst (j - 1)%nat); [lia|].
      rewrite Htl. by replace (S (j - 1)) with j by lia. }
    unfold s2. rewrite <- E1 in H. change (an_curfds s1) with (an_curfds s). by destruct (_ =? _). }
  assert (fds s2 = <[i := f]> (fds s)) as E2 by (unfold s2; by destruct (_ =? _)).
  assert (table s2 = table s) as Et by (unfold s2; by destruct (_ =? _)).
  assert (forall a x, objs (sreg (table s)) !! a = Some x ->
    exists k h, index x = Z.of_nat k /\ (1 <= k)%nat /\ k <> i /\ fds s2 !! k = Some h /\ 0 <= h) as Hc2.
  { intros a x Ex. destruct (Hc a x Ex) as (k & h & Hk & Hk1 & Hh & Hh0). exists k, h.
    assert (k <> i) by (intros ->; rewrite Hg in Hh; injection Hh as ->; lia).
    rewrite E2, list_lookup_insert_ne by done. done. }
  rewrite Et. unfold an_socket_t_create, create.
  set (a := e_sock e (objs (sreg (table s)))). destruct (Hsock (objs (sreg (table s)))) as [Ha|Ha]; fold a in Ha.
  - rewrite Ha. simpl. split; simpl; [exact Hf2| |].
    + by destruct (table s) as [[]].
    + intros b x Ex. destruct (Hc2 b x Ex) as (k & h & ? & ? & _ & ? & ?). by exists k, h.
  - destruct (Z.eqb_spec a NULL) as [->|Hn]; simpl.
    + split; simpl; [exact Hf2|by destruct (table s) as [[]]|].
      intros b x Ex. destruct (Hc2 b x Ex) as (k & h & ? & ? & _ & ? & ?). by exists k, h.
    + destruct (Z.eqb_spec a NULL); [done|]. simpl. split; simpl; [exact Hf2| |].
      * apply sinv_new; try done. intros b x Ex. destruct (Hc2 b x Ex) as (k & h & -> & ? & ? & _). lia.
      * intros b x. rewrite insert_insert_eq. intros [[<- <-]|[_ Ex]]%lookup_insert_Some; simpl.
        -- exists i, f. split; [done|]. split; [done|]. split; [|done]. change (fds s2 !! i = Some f). rewrite E2.
           apply list_lookup_insert_eq. by eapply lookup_lt_Some.
        -- destruct (Hc2 b x Ex) as (k & h & ? & ? & _ & ? & ?). by exists k, h.
Qed.

(** ** Receiving and sending *)

Lemma own_nodup x :
  NoDup (own_bufs x) <->
  (rcv_buf x = NULL \/ (rcv_buf x <> send_buf x /\ rcv_buf x <> org_send_buf x)) /\
  (send_buf x = NULL \/ send_buf x <> org_send_buf x).
Proof.
  unfold own_bufs. rewrite !filter_cons, filter_nil.
  destruct (decide (rcv_buf x <> NULL)) as [H1|H1], (decide (send_buf x <> NULL)) as [H2|H2],
    (decide (org_send_buf x <> NULL)) as [H3|H3];
    rewrite ?NoDup_cons, ?not_elem_of_cons, ?NoDup_nil; try apply dec_stable in H1;
    try apply dec_stable in H2; try apply dec_stable in H3;
    (split; [intros; destruct_and?; split; try (by left); right; repeat split; congruence|]);
    intros [[?|[? ?]] [?|?]]; repeat split; try congruence; apply not_elem_of_nil.
Qed.

(** Putting a socket back with the same buffers. *)
Lemma same_bufs_inv s a x x' m :
  sinv s -> objs (sreg s) !! a = Some x -> index x' = index x -> own_bufs x' = own_bufs x ->
  dom m = dom (bufs s) -> sinv (set_sock a x' (Socks (sreg s) m)).
Proof.
  intros Hs E Hi Hb Hm.
  assert (forall b, is_Some (m !! b) <-> is_Some (bufs s !! b)) as Hd by (intros b; by rewrite <- !elem_of_dom, Hm).
  apply (sinv_set s a x); try done.
  - rewrite Hb. by eapply s_nodup.
  - intros b. rewrite Hb, Hd. by eapply s_bufs.
  - intros b. rewrite Hb. by left.
  - intros b _. by rewrite Hd.
Qed.

Lemma keeps_sock s a x x' m s' :
  objs (sreg (table s)) !! a = Some x -> index x' = index x ->
  an_conn_array s' = an_conn_array s -> an_curfds s' = an_curfds s -> an_tcp_fd s' = an_tcp_fd s ->
  table s' = set_sock a x' (Socks (sreg (table s)) m) -> keeps s s'.
Proof.
  intros E Hi E1 E2 E3 ET. unfold keeps, fds. rewrite E1, E2, E3, ET. split_all; try done. simpl.
  rewrite fmap_insert. apply insert_id. by rewrite lookup_fmap, E, Hi.
Qed.

Lemma split_inv e a i s r s' : pinv s -> split_sock e a i s = Done (Some (r, s')) -> pinv s'.
Proof.
  intros Hp. unfold split_sock. intros (x & Ex & E)%outcome_bind_done.
  destruct (objs (sreg (table s)) !! a) as [y|] eqn:Ey; [|done]. injection Ex as ->.
  destruct (rcv_buf x =? NULL); [by injection E as _ <-|].
  apply outcome_bind_done in E as (buf & Eb & E). destruct (bufs (table s) !! rcv_buf x) as [b|] eqn:Ebuf; [|done].
  apply outcome_bind_done in E as ([res|] & _ & E); [|done]. injection E as _ <-.
  eapply pinv_keeps; [done| |].
  { by eapply keeps_sock with (x' := set_rcv (rcv_buf x) (Framing.r_len res) (rcv_buflen x) x)
      (m := <[rcv_buf x := Framing.r_buf res]> (bufs (table s))). }
  refine (same_bufs_inv (table s) a x (set_rcv (rcv_buf x) (Framing.r_len res) (rcv_buflen x) x)
    (<[rcv_buf x := Framing.r_buf res]> (bufs (table s))) _ Ey eq_refl eq_refl _); [apply Hp|].
  apply dom_insert_lookup_L. by eexists.
Qed.

(** Growing the receive buffer. *)
Lemma grow_inv e t a x n m l :
  sinv t -> objs (sreg t) !! a = Some x ->
  (forall b m, e_realloc e b m = NULL \/ e_realloc e b m = b \/ m !! e_realloc e b m = None) ->
  realloc_buf (rcv_buf x) n (e_realloc e (rcv_buf x) (bufs t)) (bufs t) = Done m ->
  sinv (set_sock a (set_rcv (e_realloc e (rcv_buf x) (bufs t)) (rcv_len x) l x) (Socks (sreg t) m)).
Proof.
  intros Hs E Hok. specialize (Hok (rcv_buf x) (bufs t)). set (b := e_realloc e (rcv_buf x) (bufs t)) in *.
  pose proof (proj1 (own_nodup x) (s_nodup _ Hs a x E)) as [N1 N2].
  assert (forall c, c <> NULL -> c = rcv_buf x \/ c = send_buf x \/ c = org_send_buf x -> is_Some (bufs t !! c)) as Hlive.
  { intros c Hc Hx. by apply (s_bufs _ Hs a x c E), elem_own_bufs. }
  unfold realloc_buf. intros (old & _ & Em)%outcome_bind_done. injection Em as Em.
  set (m0 := if rcv_buf x =? NULL then bufs t else delete (rcv_buf x) (bufs t)) in *.
  assert (forall c, c <> rcv_buf x \/ c = NULL -> is_Some (bufs t !! c) -> is_Some (m0 !! c)) as Hm0.
  { intros c Hc Hx. unfold m0. destruct (Z.eqb_spec (rcv_buf x) NULL); [done|].
    rewrite lookup_delete_ne; [done|]. intros <-. naive_solver. }
  assert (forall c, is_Some (m0 !! c) -> is_Some (m !! c)) as Hm1.
  { intros c Hc. rewrite <- Em. destruct (b =? NULL); [done|]. rewrite lookup_insert_is_Some. destruct (decide (b = c)); auto. }
  assert (b <> NULL -> is_Some (m !! b)) as Hmb.
  { intros Hb. rewrite <- Em. destruct (Z.eqb_spec b NULL); [done|]. by rewrite lookup_insert_eq. }
  assert (b <> NULL -> b <> rcv_buf x -> bufs t !! b = None) as Hfresh by naive_solver.
  apply (sinv_set t a x); try done.
  - apply own_nodup. simpl. split; [|done].
    destruct (decide (b = NULL)) as [|Hb]; [by left|]. right.
    destruct (decide (b = rcv_buf x)) as [->|Hne]; [naive_solver|].
    split; intros Hx; destruct (Hlive b Hb) as [? Hl]; try (rewrite (Hfresh Hb Hne) in Hl; done); auto.
  - intros c [Hc Hx]%elem_own_bufs. simpl in Hx. destruct (decide (c = b)) as [->|Hne]; [by apply Hmb|].
    apply Hm1, Hm0; [|by apply Hlive; naive_solver]. left. intros ->. naive_solver.
  - intros c [Hc Hx]%elem_own_bufs. simpl in Hx. rewrite elem_own_bufs.
    destruct (decide (c = b)) as [->|Hne]; [|left; naive_solver].
    destruct (decide (b = rcv_buf x)) as [->|Hne]; [left; naive_solver|right; by apply Hfresh].
  - intros c Hc Hx. apply Hm1, Hm0; [|done]. rewrite elem_own_bufs in Hc.
    destruct (decide (c = NULL)); [by right|left; naive_solver].
Qed.

Lemma set_sock_lookup a x t : objs (sreg (set_sock a x t)) !! a = Some x.
Proof. simpl. apply lookup_insert_eq. Qed.

Lemma recv_inv e i s r s' :
  pinv s -> (forall b m, e_realloc e b m = NULL \/ e_realloc e b m = b \/ m !! e_realloc e b m = None) ->
  an_tcp_recv e i s = Done (Some (r, s')) -> pinv s'.
Proof.
  intros Hp Hok. unfold an_tcp_recv. intros (c & _ & E)%outcome_bind_done.
  apply outcome_bind_done in E as ([a|] & _ & E); [|by injection E as _ <-].
  destruct (_ <=? 0); [by injection E as _ <-|].
  apply outcome_bind_done in E as (x & Ex & E). destruct (objs (sreg (table s)) !! a) as [y|] eqn:Ey; [|done].
  injection Ex as ->. apply outcome_bind_done in E as (t & Et & E).
  assert (exists x1, objs (sreg t) !! a = Some x1 /\ pinv (set_table t s)) as (x1 & Ex1 & Hp1).
  { destruct (rcv_buflen x <? _).
    - apply outcome_bind_done in Et as (m & Em & Et). injection Et as <-. eexists.
      split; [apply set_sock_lookup|]. eapply pinv_keeps; [done| |].
      + eapply keeps_sock with (m := m); [exact Ey| |done..]. done.
      + by eapply grow_inv; [apply Hp|..].
    - injection Et as <-. exists x. split; [done|]. by destruct s. }
  apply outcome_bind_done in E as (x2 & Ex2 & E). rewrite Ex1 in Ex2. injection Ex2 as <-.
  destruct (rcv_buf x1 =? NULL); [by injection E as _ <-|].
  apply outcome_bind_done in E as (buf & Eb & E). destruct (bufs t !! rcv_buf x1) as [b|] eqn:Ebuf; [|done].
  apply outcome_bind_done in E as (buf' & _ & E).
  match type of E with split_sock _ _ _ (set_table (set_sock _ ?z _) _) = _ => set (x3 := z) in * end.
  eapply split_inv, E. eapply (pinv_keeps (set_table t s)); [done| |].
  - by eapply keeps_sock with (x' := x3) (m := <[rcv_buf x1 := buf']> (bufs t)).
  - refine (same_bufs_inv t a x1 x3 (<[rcv_buf x1 := buf']> (bufs t)) _ Ex1 eq_refl eq_refl _); [apply Hp1|].
    apply dom_insert_lookup_L. by eexists.
Qed.

(** Releasing the send buffer after the last byte. *)
Lemma sent_inv t a x m :
  sinv t -> objs (sreg t) !! a = Some x -> free_buf (send_buf x) (bufs t) = Done m ->
  sinv (set_sock a (Socket (index x) (org_send_buf x) NULL 0 (send_buflen x) (rcv_buf x) (rcv_len x) (rcv_buflen x))
          (Socks (sreg t) m)).
Proof.
  intros Hs E Em. pose proof (proj1 (own_nodup x) (s_nodup _ Hs a x E)) as [N1 N2].
  assert (forall c, c <> send_buf x \/ c = NULL -> is_Some (bufs t !! c) -> is_Some (m !! c)) as Hm.
  { intros c Hc Hx. unfold free_buf in Em. destruct (Z.eqb_spec (send_buf x) NULL); [by injection Em as <-|].
    destruct (bufs t !! send_buf x); [|done]. injection Em as <-. rewrite lookup_delete_ne; [done|].
    intros <-. naive_solver. }
  apply (sinv_set t a x); try done.
  - apply own_nodup. simpl. split; [|by left].
    destruct (decide (rcv_buf x = NULL)); [by left|right]. by destruct N1 as [|[_ ?]].
  - intros c [Hc Hx]%elem_own_bufs. simpl in Hx. apply Hm.
    { left. intros ->. destruct Hx as [Hx|[Hx|Hx]], N1 as [N1|[N1 N1']], N2 as [N2|N2]; congruence. }
    apply (s_bufs _ Hs a x c E), elem_own_bufs. naive_solver.
  - intros c [Hc Hx]%elem_own_bufs. simpl in Hx. left. apply elem_own_bufs. naive_solver.
  - intros c Hc Hx. apply Hm; [|done]. rewrite elem_own_bufs in Hc.
    destruct (decide (c = NULL)); [by right|left; naive_solver].
Qed.

Lemma send_inv e i s r s' : pinv s -> an_tcp_send e i s = Done (r, s') -> pinv s'.
Proof.
  intros Hp. unfold an_tcp_send. intros (c & _ & E)%outcome_bind_done.
  apply outcome_bind_done in E as ([a|] & _ & E); [|by injection E as _ <-].
  apply outcome_bind_done in E as (x & Ex & E). destruct (objs (sreg (table s)) !! a) as [y|] eqn:Ey; [|done].
  injection Ex as ->. apply outcome_bind_done in E as ([n s1] & E1 & E).
  assert (pinv s1 /\ table s1 = table s) as [Hp1 Et].
  { destruct (negb _); [|by injection E1 as _ <-]. apply outcome_bind_done in E1 as (buf & _ & E1).
    injection E1 as _ <-. destruct (0 <? Z.min _ _); (split; [|done]); [|done].
    destruct Hp as [H1 H2 H3]. split; [exact H1|exact H2|exact H3]. }
  clear E1. destruct (n <? 0).
  { destruct (negb _); [by injection E as _ <-|]. apply outcome_bind_done in E as (s2 & E2 & E).
    injection E as _ <-. by eapply add_write_inv. }
  destruct (n =? 0); [by injection E as _ <-|]. destruct (n <? send_len x).
  { apply outcome_bind_done in E as (s2 & E2 & E). injection E as _ <-. by eapply del_write_inv. }
  apply outcome_bind_done in E as (s2 & E2 & E). apply outcome_bind_done in E as (m & Em & E). injection E as _ <-.
  apply del_write_inv in E2 as [Hp2 Et2]; [|done].
  assert (objs (sreg (table s2)) !! a = Some x) as Ex2 by (by rewrite Et2, Et).
  eapply (pinv_keeps s2); [done| |].
  - eapply keeps_sock with (m := m); [exact Ex2| |done..]. done.
  - by apply sent_inv; [apply Hp2|..].
Qed.

(** ** The poll loop *)

Lemma events_inv e i s r s' :
  pinv s -> (forall b m, e_realloc e b m = NULL \/ e_realloc e b m = b \/ m !! e_realloc e b m = None) ->
  1 <= i < 1024 -> an_tcp_events_do e i s = Done (Some (r, s')) -> pinv s'.
Proof.
  intros Hp Hre Hi.
  assert (forall s1 s2, pinv s1 -> an_sock_destory i s1 = Done s2 -> pinv s2) as Hdes.
  { intros s1 s2 H1 E. destruct (destory_ok s1 i H1 Hi) as (s3 & E3 & H3 & _). congruence. }
  unfold an_tcp_events_do. intros (c & _ & E)%outcome_bind_done.
  destruct (has (revents c) POLLERR).
  { apply outcome_bind_done in E as (s1 & E1 & E). injection E as _ <-. by eapply Hdes. }
  destruct (has (revents c) POLLOUT).
  - apply outcome_bind_done in E as ([st s1] & E1 & E). apply send_inv in E1; [|done].
    destruct (st =? SEND_FINISH); [|destruct (st =? SEND_AGAIN)].
    + apply outcome_bind_done in E as (s2 & E2 & E). apply outcome_bind_done in E as (s3 & E3 & E).
      injection E as _ <-. eapply Hdes, E3. by eapply del_write_inv.
    + apply outcome_bind_done in E as (s2 & E2 & E). injection E as _ <-. by eapply add_write_inv.
    + apply outcome_bind_done in E as (s2 & E2 & E). injection E as _ <-. by eapply Hdes.
  - destruct (has (revents c) POLLIN); [|by injection E as _ <-].
    apply outcome_bind_done in E as ([[q s1]|] & E1 & E); [|done]. apply recv_inv in E1; [|done..].
    destruct (negb _); [|by injection E as _ <-].
    apply outcome_bind_done in E as (s2 & E2 & E). injection E as _ <-. by eapply Hdes.
Qed.

Definition end_inv (r : poll_end) : Prop :=
  match r with Returns _ s | Exits s => pinv s | Hangs => True end.

Lemma loop_inv e fuel i s r :
  pinv s -> (forall b m, e_realloc e b m = NULL \/ e_realloc e b m = b \/ m !! e_realloc e b m = None) ->
  1 <= i -> events_loop fuel e i s = Done r -> end_inv r.
Proof.
  revert i s. induction fuel as [|fuel IH]; intros i s Hp Hre Hi; cbn [events_loop].
  { intros [= <-]. done. }
  destruct (Z.ltb_spec i (an_curfds s)) as [Hlt|]; [|intros [= <-]; done].
  assert (i < 1024) by (pose proof (f_cur _ _ _ (p_fds _ Hp)); lia).
  intros (c & _ & E)%outcome_bind_done. destruct (fd c =? -1); [by eapply IH, E; [|..|lia]|].
  destruct (has (revents c) _); [|by eapply IH, E; [|..|lia]].
  apply outcome_bind_done in E as ([[q s1]|] & E1 & E); [|by injection E as <-].
  apply events_inv in E1; [|done|done|lia].
  destruct (negb _); [by injection E as <-|]. by eapply IH, E; [|..|lia].
Qed.

Lemma poll_keeps e s : pinv s -> pinv (poll e s).
Proof.
  intros Hp. eapply pinv_keeps; [done| |apply Hp]. split; [|done]. unfold fds, poll. simpl.
  apply list_eq. intros k. rewrite !list_lookup_fmap, list_lookup_imap.
  destruct (an_conn_array s !! k); simpl; [|done]. by destruct (_ <? _).
Qed.

Lemma poll_slot e s (k : nat) c :
  an_conn_array s !! k = Some c -> Z.of_nat k < an_curfds s ->
  slot (Z.of_nat k) (poll e s) = Done (Pollfd (fd c) (events c) (default 0 (e_revents e !! k))).
Proof.
  intros Hc Hk. apply slot_done. split; [lia|]. rewrite Nat2Z.id. unfold poll, set_array. cbn [an_conn_array].
  rewrite list_lookup_imap, Hc. simpl. by destruct (Z.ltb_spec (Z.of_nat k) (an_curfds s)); [|lia].
Qed.

(** The table of connections stays consistent: after every call of
    [an_poll], whatever the peers do, open descriptors are in distinct slots
    below [an_curfds], every socket record belongs to an open slot, no two
    records have the same index, and no buffer belongs to two records or is
    dangling. *)
Theorem poll_consistent e s r :
  pinv s -> env_ok e s -> an_poll e s = Done r -> end_inv r.
Proof.
  intros Hp [Ha Hk Hre]. unfold an_poll. pose proof (poll_keeps e s Hp) as Hp1.
  assert (fds (poll e s) = fds s) as Ef.
  { unfold fds, poll. simpl. apply list_eq. intros k. rewrite !list_lookup_fmap, list_lookup_imap.
    destruct (an_conn_array s !! k); simpl; [|done]. by destruct (_ <? _). }
  destruct (_ <? 1); [intros [= <-]; done|]. intros (c & _ & E)%outcome_bind_done.
  destruct (has _ _); [|by eapply loop_inv, E].
  destruct (Z.ltb_spec (e_accept e) 0); [by eapply loop_inv, E|].
  pose proof (poll_add_inv e (poll e s) (e_accept e) Hp1) as Hadd. rewrite Ef in Hadd.
  specialize (Hadd ltac:(done) (Ha ltac:(done)) Hk). destruct (an_sock_poll_add _ _ _) as [q s1]. simpl in Hadd.
  destruct (negb _); [by injection E as <-|]. by eapply loop_inv, E.
Qed.

Lemma loop_error n e s i c :
  pinv s -> 1 <= i < an_curfds s -> slot i s = Done c -> 0 <= fd c -> Z.land (revents c) POLLERR <> 0 ->
  exists s', events_loop (S n) e i s = Done (Exits s').
Proof.
  intros Hp Hi Es Hfd He. cbn [events_loop]. pose proof (f_cur _ _ _ (p_fds _ Hp)).
  destruct (Z.ltb_spec i (an_curfds s)); [|lia]. unfold an_tcp_events_do. rewrite Es. cbn [mbind outcome_bind].
  destruct (Z.eqb_spec (fd c) (-1)); [lia|].
  assert (has (revents c) POLLERR = true) as -> by (unfold has; by apply negb_true_iff, Z.eqb_neq).
  assert (has (revents c) (Z.lor POLLIN (Z.lor POLLOUT POLLERR)) = true) as ->.
  { unfold has. apply negb_true_iff, Z.eqb_neq. intros E. apply He.
    assert (POLLERR = Z.land (Z.lor POLLIN (Z.lor POLLOUT POLLERR)) POLLERR) as -> by done.
    by rewrite Z.land_assoc, E. }
  cbv iota. destruct (destory_ok s i Hp) as (s' & -> & _); [lia|]. cbn [mbind outcome_bind].
  by exists s'.
Qed.

(** One broken connection ends the server: when [poll] reports [POLLERR]
    for the first connection, [an_poll] closes it and then exits the process,
    with all other connections. *)
Theorem poll_error_exits e s c :
  pinv s -> 1 < an_curfds s -> 0 < e_nready e ->
  Z.land (default 0 (e_revents e !! 0%nat)) POLLIN = 0 ->
  an_conn_array s !! 1%nat = Some c -> 0 <= fd c ->
  Z.land (default 0 (e_revents e !! 1%nat)) POLLERR <> 0 ->
  exists s', an_poll e s = Done (Exits s').
Proof.
  intros Hp Hcur Hn H0 Hc Hfd He. unfold an_poll. pose proof (poll_keeps e s Hp) as Hp1.
  destruct (Z.ltb_spec (e_nready e) 1); [lia|].
  destruct (f_listen _ _ _ (p_fds _ Hp)) as [Hl _]. unfold fds in Hl. rewrite list_lookup_fmap in Hl.
  destruct (an_conn_array s !! 0%nat) as [c0|] eqn:Ec0; [|done].
  assert (slot 0 (poll e s) = Done (Pollfd (fd c0) (events c0) (default 0 (e_revents e !! 0%nat)))) as ->
    by (apply (poll_slot e s 0 c0 Ec0); lia).
  cbn [mbind outcome_bind]. unfold has at 1. cbn [revents]. rewrite H0. simpl negb. cbv iota.
  apply (loop_error 1023 e (poll e s) 1 (Pollfd (fd c) (events c) (default 0 (e_revents e !! 1%nat)))); try done.
  apply (poll_slot e s 1 c Hc). lia.
Qed.

(** ** Sending in pieces *)

Lemma find_sock s i a x :
  pinv s -> i < 1024 -> objs (sreg (table s)) !! a = Some x -> index x = i ->
  an_socket_t_find_by_index i (table s) = Done (Some a).
Proof.
  intros Hp Hi Ex Hx. destruct (sock_find (table s) i (p_sock _ Hp)) as (r & -> & Hr); [unfold AN_POLL_MAX; lia|].
  destruct r as [b|]; [|by destruct (Hr a x Ex)]. destruct Hr as (y & Ey & Hy).
  do 2 f_equal. apply (s_uniq _ (p_sock _ Hp) b a y x); congruence.
Qed.

Lemma upd_done i g s c : slot i s = Done c ->
  exists s', upd i g s = Done s' /\ table s' = table s /\ wire s' = wire s /\ slot i s' = Done (g c).
Proof.
  intros Hc. unfold upd. rewrite Hc. simpl. eexists. split; [done|]. split; [done|]. split; [done|].
  apply slot_done in Hc as [Hi Hc]. apply slot_done. split; [done|]. simpl.
  apply list_lookup_insert_eq. by eapply lookup_lt_Some.
Qed.

Lemma send_step e s i a x c buf :
  pinv s -> i < 1024 -> slot i s = Done c -> objs (sreg (table s)) !! a = Some x -> index x = i ->
  bufs (table s) !! send_buf x = Some buf -> 0 < e_send e (fd c) -> 0 < send_len x ->
  exists r s', an_tcp_send e i s = Done (r, s') /\
    wire s' = wire s ++ [(fd c, take (Z.to_nat (Z.min (e_send e (fd c)) (send_len x))) buf)] /\
    if e_send e (fd c) <? send_len x then
      r = SEND_AGAIN /\ table s' = table s /\ slot i s' = Done (Pollfd (fd c) (Z.land (events c) (Z.lnot POLLOUT)) (revents c))
    else r = SEND_FINISH \/ send_buf x = NULL.
Proof.
  intros Hp Hi Hc Ex Hx Hb Hn Hl. unfold an_tcp_send. rewrite Hc. cbn [mbind outcome_bind].
  rewrite (find_sock s i a x) by done. cbn [mbind outcome_bind]. rewrite Ex. cbn [mbind outcome_bind get_or].
  destruct (Z.eqb_spec (send_len x) 0); [lia|]. simpl negb. cbv iota. rewrite Hb. cbn [mbind outcome_bind get_or].
  set (m := Z.min (e_send e (fd c)) (send_len x)). assert (0 < m) by lia.
  destruct (Z.ltb_spec 0 m); [|lia]. cbv iota. cbn [mbind outcome_bind].
  destruct (Z.ltb_spec m 0); [lia|]. destruct (Z.eqb_spec m 0); [lia|].
  set (s1 := send_bytes (fd c) m buf s).
  assert (slot i s1 = Done c) as Hc1 by done.
  destruct (upd_done i (fun x => Pollfd (fd x) (Z.land (events x) (Z.lnot POLLOUT)) (revents x)) s1 c Hc1)
    as (s2 & E2 & Et & Ew & Es).
  destruct (Z.ltb_spec m (send_len x)), (Z.ltb_spec (e_send e (fd c)) (send_len x)); try lia;
    unfold m_sock_del_write; rewrite E2; cbn [mbind outcome_bind].
  - eexists _, _. split; [done|]. split; [by rewrite Ew|]. by rewrite Et.
  - rewrite Et. unfold free_buf. change (bufs (table s1)) with (bufs (table s)). rewrite Hb.
    destruct (Z.eqb_spec (send_buf x) NULL); cbn [mbind outcome_bind]; (eexists _, _; split; [reflexivity|];
      split; [simpl; by rewrite Ew|by auto]).
Qed.

(** A response that the kernel takes in two pieces is corrupted: after a
    partial [send] neither the buffer nor [send_len] advances, so the next
    attempt starts from the first byte again and the peer receives the first
    [k] bytes twice. *)
Theorem partial_send_resends e e' s i a x c buf k :
  pinv s -> 1 <= i < 1024 -> slot i s = Done c -> objs (sreg (table s)) !! a = Some x -> index x = i ->
  bufs (table s) !! send_buf x = Some buf -> send_len x = Z.of_nat (length buf) ->
  0 < k < send_len x -> e_send e (fd c) = k -> send_len x <= e_send e' (fd c) ->
  exists s' r s'', an_tcp_send e i s = Done (SEND_AGAIN, s') /\ an_tcp_send e' i s' = Done (r, s'') /\
    wire s'' = wire s ++ [(fd c, take (Z.to_nat k) buf); (fd c, buf)].
Proof.
  intros Hp Hi Hc Ex Hx Hb Hl Hk Ek Ek'.
  destruct (send_step e s i a x c buf) as (r & s' & E1 & W1 & R1); try done; try lia.
  destruct (Z.ltb_spec (e_send e (fd c)) (send_len x)); [|lia]. destruct R1 as (-> & Et & Es).
  assert (pinv s') as Hp' by (by eapply send_inv).
  destruct (send_step e' s' i a x _ buf Hp' ltac:(lia) Es) as (r2 & s'' & E2 & W2 & _); rewrite ?Et; try done; simpl; try lia.
  exists s', r2, s''. split; [done|]. split; [done|]. rewrite W2, W1. simpl.
  rewrite <- (assoc_L (++)). simpl. rewrite Ek. replace (Z.min k (send_len x)) with k by lia.
  rewrite (Z.min_r _ (send_len x)) by lia. rewrite Hl, Nat2Z.id, firstn_all. done.
Qed.

(** ** A concrete server: one connection with four bytes to send *)

Definition ex_table : socks :=
  Socks (Reg {[ 64 := Socket 1 NULL 256 4 max_send_len NULL 0 0 ]}
          (add_head (F_HASH, (0, an_socket_t_get_hash 1)) 64 ∅)) {[ 256 := [1; 2; 3; 4] ]}.

Definition ex_server : server :=
  MkServer (Pollfd 3 POLLIN 0 :: Pollfd 7 POLLIN 0 :: replicate 1022 (Pollfd (-1) POLLIN 0)) 2 3 ex_table [] [] [].

Definition ex_env (sent rev : Z) : env :=
  Env 1 [0; rev] (-1) (fun _ => []) (fun _ => sent) 0 (fun _ => NULL) (fun _ _ => NULL) (fun _ => true) (fun _ => 0).

Lemma ex_table_inv : sinv ex_table.
Proof.
  assert (own_bufs (Socket 1 NULL 256 4 max_send_len NULL 0 0) = [256]) as Eb by reflexivity.
  split; unfold ex_table; simpl.
  - rewrite map_fmap_singleton. apply (indexed_add_head ∅ F_HASH ∅); [apply lookup_empty|apply indexed_empty].
  - intros a b x y [-> _]%lookup_singleton_Some [-> _]%lookup_singleton_Some. done.
  - intros a x b [_ <-]%lookup_singleton_Some. rewrite Eb, list_elem_of_singleton. intros ->. by eexists.
  - intros a x [_ <-]%lookup_singleton_Some. rewrite Eb. apply NoDup_singleton.
  - intros a a' x x' b [-> _]%lookup_singleton_Some [-> _]%lookup_singleton_Some. done.
Qed.

Lemma ex_server_inv : pinv ex_server.
Proof.
  assert (forall i f, fds ex_server !! i = Some f -> (i = 0%nat /\ f = 3) \/ (i = 1%nat /\ f = 7) \/ (2 <= i)%nat /\ f = -1) as Hf.
  { intros [|[|i]] f; unfold fds, ex_server; cbn [an_conn_array]; rewrite !fmap_cons; cbn [lookup list_lookup];
      [intros [= <-]; auto..|]. rewrite fmap_replicate. intros [-> _]%lookup_replicate. right. right. split; [lia|done]. }
  split.
  - split.
    + unfold fds. rewrite length_fmap. unfold ex_server. cbn [an_conn_array length]. by rewrite length_replicate.
    + simpl. lia.
    + intros i f H Hc. simpl in Hc. destruct (Hf i f H) as [[-> _]|[[-> _]|[_ ->]]]; [lia..|done].
    + intros i f H. destruct (Hf i f H) as [[_ ->]|[[_ ->]|[_ ->]]]; lia.
    + intros i j f H1 H2 H0. destruct (Hf i f H1), (Hf j f H2); naive_solver lia.
    + split; [reflexivity|simpl; lia].
  - exact ex_table_inv.
  - intros a x. simpl. rewrite lookup_singleton_Some. intros [_ <-]. exists 1%nat, 7. split; [done|]. split; [lia|].
    split; [reflexivity|lia].
Qed.

Lemma poll_consistent_witness : exists r, an_poll (ex_env 4 POLLOUT) ex_server = Done r /\ end_inv r.
Proof.
  destruct (an_poll (ex_env 4 POLLOUT) ex_server) as [r|f] eqn:E.
  - exists r. split; [reflexivity|]. apply (poll_consistent (ex_env 4 POLLOUT) ex_server r ex_server_inv); [|exact E].
    split; simpl; [lia|by left|by left].
  - exfalso. revert E. vm_compute. discriminate.
Defined.

Lemma poll_error_exits_witness : exists s', an_poll (ex_env 0 POLLERR) ex_server = Done (Exits s').
Proof.
  apply (poll_error_exits (ex_env 0 POLLERR) ex_server (Pollfd 7 POLLIN 0) ex_server_inv);
    [simpl; lia|simpl; lia|reflexivity|reflexivity|simpl; lia|discriminate].
Defined.

Lemma partial_send_resends_witness :
  exists s' r s'', an_tcp_send (ex_env 3 0) 1 ex_server = Done (SEND_AGAIN, s') /\
    an_tcp_send (ex_env 4 0) 1 s' = Done (r, s'') /\ wire s'' = [] ++ [(7, [1; 2; 3]); (7, [1; 2; 3; 4])].
Proof.
  apply (partial_send_resends (ex_env 3 0) (ex_env 4 0) ex_server 1 64 (Socket 1 NULL 256 4 max_send_len NULL 0 0)
    (Pollfd 7 POLLIN 0) [1; 2; 3; 4] 3 ex_server_inv); try reflexivity; simpl; lia.
Defined.

End ServerFacts.
