(* ===== verification/CJson.v ===== *)
(** * The JSON parser and printer ([src/TCP_C/cJSON.c])

    The requests of the web server arrive as JSON, so the daemon's behaviour
    on hostile input starts here.  A tree of [cJSON] structs is the inductive
    type [json]; the [type] field is its constructor.

    Text is a C string; the parser functions return the rest of the text
    after what they read.  Stepping over the terminator and writing past the
    block allocated for a string are faults.  Allocation succeeds throughout;
    [JsonParse] and [JsonPrint] are the same functions on memory.

    Doubles are a parameter: a type with the operations the code applies to
    it.  What is assumed about them is in [CJsonFacts]. *)

From S2P Require Import Prelude CString.
Local Open Scope Z_scope.

Module CJson.

Definition QUOTE : Z := 34.
Definition BSLASH : Z := 92.

(** The results of a parser function: success, [return 0], a fault, and a
    fourth that only says that the fuel was too small. *)
Inductive parsed (A : Type) :=
  | POk (a : A) (rest : cstring)
  | PErr
  | PFault (f : fault)
  | PFuel.
Arguments POk {A} a rest.
Arguments PErr {A}.
Arguments PFault {A} f.
Arguments PFuel {A}.

Definition pbind {A B} (p : parsed A) (k : A -> cstring -> parsed B) : parsed B :=
  match p with POk a r => k a r | PErr => PErr | PFault f => PFault f | PFuel => PFuel end.

Definition skip : cstring -> cstring :=
  fix skip s := match s with c :: s' => if c <=? 32 then skip s' else s | [] => [] end.

(** ** Strings *)

(** The first loop of [parse_string]: the length to allocate, or [None] when
    a backslash makes it step over the terminator. *)
Fixpoint string_len (s : cstring) : option nat :=
  match s with
  | [] => Some O
  | c :: s =>
    if c =? QUOTE then Some O
    else if c =? BSLASH then
      match s with [] => None | _ :: s => S <$> string_len s end
    else S <$> string_len s
  end.

Definition hex_value (c : Z) : option Z :=
  if is_digit c then Some (c - 48)
  else if (97 <=? c) && (c <=? 102) then Some (c - 87)
  else if (65 <=? c) && (c <=? 70) then Some (c - 55)
  else None.

(** Up to [w] hexadecimal digits. *)
Fixpoint hex_digits (w : nat) (s : cstring) (acc : Z) : Z :=
  match w, s with
  | S w, c :: s => match hex_value c with Some d => hex_digits w s (acc * 16 + d) | None => acc end
  | _, _ => acc
  end.

Definition is_space (c : Z) : bool := (c =? 32) || ((9 <=? c) && (c <=? 13)).

Fixpoint skip_space (s : cstring) : cstring :=
  match s with c :: s' => if is_space c then skip_space s' else s | [] => [] end.

(** [sscanf (s, "%4x", &uc)]: white space, then at most four characters of an
    optional sign, an optional [0x] and digits; [None] when nothing is
    converted and [uc] keeps its value. *)
Definition scan_digits (w : nat) (neg : bool) (s : cstring) : option Z :=
  let sgn v := u32 (if neg then - v else v) in
  let plain := match s with c :: _ => (_ ← hex_value c; Some (sgn (hex_digits w s 0))) | [] => None end in
  match w, s with
  | S (S w'), z :: x :: s' =>
    if (z =? 48) && ((x =? 120) || (x =? 88)) then
      match w', s' with
      | S _, c :: _ => (_ ← hex_value c; Some (sgn (hex_digits w' s' 0)))
      | _, _ => None
      end
    else plain
  | O, _ => None
  | _, _ => plain
  end.

Definition scan4x (s : cstring) : option Z :=
  match skip_space s with
  | c :: s' =>
    if c =? 45 then scan_digits 3 true s'
    else if c =? 43 then scan_digits 3 false s'
    else scan_digits 4 false (c :: s')
  | [] => None
  end.

Definition firstByteMark (len : Z) : Z :=
  if len =? 2 then 0xC0 else if len =? 3 then 0xE0 else if len =? 4 then 0xF0 else 0.

(** The UTF-8 bytes of [uc]: the fall-through [switch], last byte first. *)
Fixpoint utf8_bytes (n : nat) (len uc : Z) (tl : list Z) : list Z :=
  match n with
  | O => tl
  | S O => u8 (Z.lor uc (firstByteMark len)) :: tl
  | S n => utf8_bytes n len (Z.shiftr uc 6) (u8 (Z.land (Z.lor uc 0x80) 0xBF) :: tl)
  end.

Definition utf8 (uc : Z) : list Z :=
  let len := if uc <? 0x80 then 1 else if uc <? 0x800 then 2 else if uc <? 0x10000 then 3 else 4 in
  utf8_bytes (Z.to_nat len) len uc [].

(** The block [out] of [cap] bytes with what is written so far. *)
Definition put (cap : nat) (bs out : list Z) : option (list Z) :=
  if decide (length out + length bs <= cap)%nat then Some (out ++ bs) else None.

(** What the escape sequence after a backslash does: the bytes to write, how
    many characters to step over, and the new values of [uc] and [uc2], which
    start uninitialised. *)
Definition unescape (s : cstring) (uc : option Z * option Z) : outcome (list Z * nat * (option Z * option Z)) :=
  match s with
  | [] => Fault OutOfBounds
  | c :: s =>
    if c =? 98 then Done ([8], 1%nat, uc)
    else if c =? 102 then Done ([12], 1%nat, uc)
    else if c =? 110 then Done ([10], 1%nat, uc)
    else if c =? 114 then Done ([13], 1%nat, uc)
    else if c =? 116 then Done ([9], 1%nat, uc)
    else if c =? 117 then
      match (match scan4x s with Some v => Some v | None => uc.1 end) with
      | None => Fault ArithUB
      | Some u =>
        if ((0xDC00 <=? u) && (u <=? 0xDFFF)) || (u =? 0) then Done ([], 5%nat, (Some u, uc.2))
        else if (0xD800 <=? u) && (u <=? 0xDBFF) then
          if negb (char_at s 4 =? BSLASH) || negb (char_at s 5 =? 117) then Done ([], 5%nat, (Some u, uc.2))
          else
            match (match scan4x (drop 6 s) with Some v => Some v | None => uc.2 end) with
            | None => Fault ArithUB
            | Some u2 =>
              if (u2 <? 0xDC00) || (0xDFFF <? u2) then Done ([], 11%nat, (Some u, Some u2))
              else
                let u := Z.lor 0x10000 (Z.lor (Z.shiftl (Z.land u 0x3FF) 10) (Z.land u2 0x3FF)) in
                Done (utf8 u, 11%nat, (Some u, Some u2))
            end
        else Done (utf8 u, 5%nat, (Some u, uc.2))
      end
    else Done ([c], 1%nat, uc)
  end.

(** The second loop of [parse_string]. *)
Fixpoint string_copy (fuel : nat) (cap : nat) (s : cstring) (out : list Z) (uc : option Z * option Z) : parsed (list Z) :=
  match fuel with
  | O => PFuel
  | S fuel =>
    match s with
    | [] => match put cap [0] out with Some _ => POk out [] | None => PFault OutOfBounds end
    | c :: s' =>
      if c =? QUOTE then match put cap [0] out with Some _ => POk out s' | None => PFault OutOfBounds end
      else if negb (c =? BSLASH) then
        match put cap [c] out with Some out => string_copy fuel cap s' out uc | None => PFault OutOfBounds end
      else
        match unescape s' uc with
        | Fault f => PFault f
        | Done (bs, n, uc) =>
          match put cap bs out with
          | None => PFault OutOfBounds
          | Some out =>
            if decide (n <= length s')%nat then string_copy fuel cap (drop n s') out uc
            else PFault OutOfBounds
          end
        end
    end
  end.

Definition parse_string (str : cstring) : parsed cstring :=
  match str with
  | c :: s =>
    if negb (c =? QUOTE) then PErr
    else match string_len s with
         | None => PFault OutOfBounds
         | Some len => string_copy (S (length s)) (S len) s [] (None, None)
         end
  | [] => PErr
  end.

(** Four hexadecimal digits of a byte below 32. *)
Definition hex_char (d : Z) : Z := if d <? 10 then 48 + d else 87 + d.

Definition print_char (c : Z) : cstring :=
  if (31 <? c) && negb (c =? QUOTE) && negb (c =? BSLASH) then [c]
  else BSLASH ::
    (if c =? BSLASH then [BSLASH]
     else if c =? QUOTE then [QUOTE]
     else if c =? 8 then [98]
     else if c =? 12 then [102]
     else if c =? 10 then [110]
     else if c =? 13 then [114]
     else if c =? 9 then [116]
     else [117; 48; 48; hex_char (c / 16); hex_char (c mod 16)]).

Definition print_string_ptr (s : cstring) : cstring := QUOTE :: (s ≫= print_char) ++ [QUOTE].

(** ** Values *)

Section Values.

Context {dbl : Type}.
Variable of_dec : bool -> Z -> Z -> dbl.    (** the double computed from sign, digits and exponent *)
Variable to_int : dbl -> Z.                 (** [(int) d] *)
Variable near_int : Z -> dbl -> bool.       (** the test of [print_number] *)
Variable fmt_double : dbl -> cstring.       (** [sprintf] with [%.0f], [%e] or [%f] *)

Inductive json :=
  | JNull | JFalse | JTrue
  | JNumber (valuedouble : dbl) (valueint : Z)
  | JString (s : cstring)
  | JArray (l : list json)
  | JObject (l : list (cstring * json)).

Definition valuestring (v : json) : option cstring :=
  match v with JString s => Some s | _ => None end.

Fixpoint read_digits (s : cstring) (n k : Z) : Z * Z * cstring :=
  match s with
  | c :: s' => if is_digit c then read_digits s' (n * 10 + (c - 48)) (k + 1) else (n, k, s)
  | [] => (n, k, [])
  end.

(** The exponent is an [int]; its overflow is undefined. *)
Definition parse_exponent (s : cstring) : outcome (Z * cstring) :=
  match s with
  | c :: s =>
    if (c =? 101) || (c =? 69) then
      let '(neg, s) := match s with
                       | c :: s' => if c =? 43 then (false, s') else if c =? 45 then (true, s') else (false, s)
                       | [] => (false, []) end in
      let '(n, _, s) := read_digits s 0 0 in
      if 2 ^ 31 <=? n then Fault ArithUB else Done (if (neg : bool) then - n else n, s)
    else Done (0, c :: s)
  | [] => Done (0, [])
  end.

Definition parse_number (num : cstring) : parsed json :=
  let '(neg, s) := match num with c :: s => if c =? 45 then (true, s) else (false, num) | [] => (false, []) end in
  let s := match s with c :: s' => if c =? 48 then s' else s | [] => [] end in
  let '(n, s) := if (49 <=? char_at s 0) && (char_at s 0 <=? 57)
                 then let '(n, _, s) := read_digits s 0 0 in (n, s) else (0, s) in
  let '(n, scale, s) := if (char_at s 0 =? 46) && is_digit (char_at s 1)
                        then let '(n, k, s) := read_digits (tail s) n 0 in (n, - k, s) else (n, 0, s) in
  match parse_exponent s with
  | Fault f => PFault f
  | Done (subscale, s) =>
    let d := of_dec neg n (scale + subscale) in
    POk (JNumber d (to_int d)) s
  end.

Definition print_number (d : dbl) (i : Z) : cstring := if near_int i d then dec i else fmt_double d.

Definition str_null : cstring := [110; 117; 108; 108].
Definition str_false : cstring := [102; 97; 108; 115; 101].
Definition str_true : cstring := [116; 114; 117; 101].

(** [parse_array] and [parse_object] behind the opening bracket, and one turn
    of their loops; the parsers of what comes next are arguments. *)
Definition parse_array (elems : cstring -> parsed (list json)) (value : cstring) : parsed json :=
  match skip value with
  | d :: s => if d =? 93 then POk (JArray []) s else pbind (elems (d :: s)) (fun l r => POk (JArray l) r)
  | [] => pbind (elems []) (fun l r => POk (JArray l) r)
  end.

Definition array_turn (parse : cstring -> parsed json) (elems : cstring -> parsed (list json)) (value : cstring) :
    parsed (list json) :=
  pbind (parse (skip value)) (fun v r =>
    match skip r with
    | c :: r => if c =? 44 then pbind (elems r) (fun l r => POk (v :: l) r)
                else if c =? 93 then POk [v] r else PErr
    | [] => PErr
    end).

Definition parse_object (members : cstring -> parsed (list (cstring * json))) (value : cstring) : parsed json :=
  match skip value with
  | d :: s => if d =? 125 then POk (JObject []) s else pbind (members (d :: s)) (fun l r => POk (JObject l) r)
  | [] => pbind (members []) (fun l r => POk (JObject l) r)
  end.

Definition object_turn (parse : cstring -> parsed json) (members : cstring -> parsed (list (cstring * json)))
    (value : cstring) : parsed (list (cstring * json)) :=
  pbind (parse_string (skip value)) (fun name r =>
    match skip r with
    | c :: r =>
      if negb (c =? 58) then PErr
      else
        pbind (parse (skip r)) (fun v r =>
          match skip r with
          | c :: r => if c =? 44 then pbind (members r) (fun l r => POk ((name, v) :: l) r)
                      else if c =? 125 then POk [(name, v)] r else PErr
          | [] => PErr
          end)
    | [] => PErr
    end).

(** The parser core; one fuel serves the value and the two loops. *)
Fixpoint parse_value (fuel : nat) (value : cstring) {struct fuel} : parsed json :=
  match fuel with
  | O => PFuel
  | S fuel =>
    if is_prefix str_null value then POk JNull (drop 4 value)
    else if is_prefix str_false value then POk JFalse (drop 5 value)
    else if is_prefix str_true value then POk JTrue (drop 4 value)
    else match value with
    | c :: s =>
      if c =? QUOTE then pbind (parse_string value) (fun t r => POk (JString t) r)
      else if (c =? 45) || is_digit c then parse_number value
      else if c =? 91 then parse_array (parse_elems fuel) s
      else if c =? 123 then parse_object (parse_members fuel) s
      else PErr
    | [] => PErr
    end
  end
with parse_elems (fuel : nat) (value : cstring) {struct fuel} : parsed (list json) :=
  match fuel with O => PFuel | S fuel => array_turn (parse_value fuel) (parse_elems fuel) value end
with parse_members (fuel : nat) (value : cstring) {struct fuel} : parsed (list (cstring * json)) :=
  match fuel with O => PFuel | S fuel => object_turn (parse_value fuel) (parse_members fuel) value end.

Definition cJSON_Parse (value : cstring) : parsed json :=
  parse_value (2 * length value + 2) (skip value).

Definition tabs (depth : nat) : cstring := replicate depth 9.

Fixpoint print_value (v : json) (depth : nat) (fmt : bool) : cstring :=
  match v with
  | JNull => str_null
  | JFalse => str_false
  | JTrue => str_true
  | JNumber d i => print_number d i
  | JString s => print_string_ptr s
  | JArray l =>
    91 :: (fix elems (l : list json) : cstring :=
             match l with
             | [] => []
             | [v] => print_value v (S depth) fmt
             | v :: l => print_value v (S depth) fmt ++ [44] ++ (if fmt then [32] else []) ++ elems l
             end) l ++ [93]
  | JObject l =>
    [123] ++ (if fmt then [10] else []) ++
    (fix members (l : list (cstring * json)) : cstring :=
       match l with
       | [] => []
       | (name, v) :: l =>
         (if fmt then tabs (S depth) else []) ++ print_string_ptr name ++ [58] ++
         (if fmt then [9] else []) ++ print_value v (S depth) fmt ++
         (match l with [] => [] | _ => [44] end) ++ (if fmt then [10] else []) ++ members l
       end) l ++
    (if fmt then tabs depth else []) ++ [125]
  end.

Definition cJSON_Print (v : json) : cstring := print_value v 0 true.
Definition cJSON_PrintUnformatted (v : json) : cstring := print_value v 0 false.

(** Members are compared without regard to case; the first one wins. *)
Definition cJSON_GetObjectItem (object : json) (string : cstring) : option json :=
  match object with
  | JObject l => snd <$> List.find (fun p => strcasecmp_eq (fst p) string) l
  | _ => None
  end.

Definition cJSON_GetArraySize (array : json) : Z :=
  match array with JArray l => Z.of_nat (length l) | JObject l => Z.of_nat (length l) | _ => 0 end.

Definition cJSON_GetArrayItem (array : json) (item : Z) : option json :=
  match array with
  | JArray l => l !! Z.to_nat item
  | JObject l => snd <$> l !! Z.to_nat item
  | _ => None
  end.

End Values.

Arguments json : clear implicits.

End CJson.
