(* ===== verification/CJsonFacts.v ===== *)
(** * Facts about the JSON parser and printer: round trip, termination, and
    the heap overflow in [parse_string] *)

From S2P Require Import Prelude CString CJson.
Local Open Scope Z_scope.

Import CJson.

(** ** Strings *)

(** The 31 control characters. *)
Ltac control_char c :=
  assert (c = 1 \/ c = 2 \/ c = 3 \/ c = 4 \/ c = 5 \/ c = 6 \/ c = 7 \/ c = 8 \/ c = 9 \/ c = 10 \/ c = 11 \/
    c = 12 \/ c = 13 \/ c = 14 \/ c = 15 \/ c = 16 \/ c = 17 \/ c = 18 \/ c = 19 \/ c = 20 \/ c = 21 \/ c = 22 \/
    c = 23 \/ c = 24 \/ c = 25 \/ c = 26 \/ c = 27 \/ c = 28 \/ c = 29 \/ c = 30 \/ c = 31) as Hcases by lia;
  destruct_or? Hcases; subst c.

(** How a printed character looks to the parser. *)
Inductive shown (c : Z) : cstring -> Prop :=
  | shown_plain : c <> QUOTE -> c <> BSLASH -> shown c [c]
  | shown_escape e n : length e = n -> (1 <= n)%nat ->
      (forall t uc, exists uc', unescape (e ++ t) uc = Done ([c], n, uc')) ->
      (forall t, exists k, string_len (BSLASH :: e ++ t) = (fun m => m + k)%nat <$> string_len t /\ (1 <= k)%nat) ->
      shown c (BSLASH :: e).

Lemma print_char_shown c : is_char c -> shown c (print_char c).
Proof.
  intros [Hc0 Hc]. unfold print_char.
  destruct (Z.ltb_spec 31 c) as [H31|H31]; simpl andb.
  - destruct (Z.eqb_spec c QUOTE) as [->|Hq]; [|destruct (Z.eqb_spec c BSLASH) as [->|Hb]]; simpl.
    + apply (shown_escape _ _ 1); [done|done|intros; eexists; reflexivity|].
      intros t. exists 1%nat. split; [|done]. simpl. destruct (string_len t); simpl; [f_equal; lia|done].
    + apply (shown_escape _ _ 1); [done|done|intros; eexists; reflexivity|].
      intros t. exists 1%nat. split; [|done]. simpl. destruct (string_len t); simpl; [f_equal; lia|done].
    + by apply shown_plain.
  - assert (forall t (k : nat), S <$> string_len t = (fun m => m + 1)%nat <$> string_len t /\
      (fun m => m + k)%nat <$> (S <$> string_len t) = (fun m => m + S k)%nat <$> string_len t) as HS.
    { intros t k. destruct (string_len t); simpl; split; f_equal; lia. }
    control_char c; simpl;
      (eapply shown_escape; [reflexivity|simpl; lia|intros t uc; eexists; reflexivity|]);
      intros t; simpl; first [exists 1%nat; split; [apply (HS t O)|lia] | exists 5%nat; split; [|lia]];
      destruct (string_len t); simpl; f_equal; lia.
Qed.

Lemma string_len_printed s rest :
  Forall is_char s ->
  exists k, string_len ((s ≫= print_char) ++ QUOTE :: rest) = Some k /\ (length s <= k)%nat.
Proof.
  induction 1 as [|c s Hc Hs IH]; [by exists O|]. destruct IH as (k & Ek & Hk).
  rewrite bind_cons, <- (assoc_L (++)). destruct (print_char_shown c Hc) as [Hq Hb|e n He Hn Hu Hl].
  - simpl app. cbn [string_len]. destruct (Z.eqb_spec c QUOTE); [done|]. destruct (Z.eqb_spec c BSLASH); [done|].
    rewrite Ek. simpl. eexists. split; [done|]. lia.
  - destruct (Hl ((s ≫= print_char) ++ QUOTE :: rest)) as (m & E & Hm). simpl app. rewrite E, Ek. simpl.
    eexists. split; [done|]. lia.
Qed.

Lemma string_copy_printed s rest : forall out uc fuel cap,
  Forall is_char s -> (length s < fuel)%nat -> (length out + length s < cap)%nat ->
  string_copy fuel cap ((s ≫= print_char) ++ QUOTE :: rest) out uc = POk (out ++ s) rest.
Proof.
  induction s as [|c s IH]; intros out uc [|fuel] cap Hs Hf Hc; simpl in Hf, Hc; try lia.
  - simpl. unfold put. rewrite decide_True by (simpl; lia). by rewrite app_nil_r.
  - inversion_clear Hs as [|? ? Hcc Hs']. rewrite bind_cons, <- (assoc_L (++)).
    assert (put cap [c] out = Some (out ++ [c])) as Ep by (unfold put; rewrite decide_True by (simpl; lia); done).
    destruct (print_char_shown c Hcc) as [Hq Hb|e n He Hn Hu Hl].
    + simpl app. cbn [string_copy]. destruct (Z.eqb_spec c QUOTE); [done|]. destruct (Z.eqb_spec c BSLASH); [done|].
      simpl negb. cbv iota. rewrite Ep. rewrite IH by (done || rewrite ?length_app; simpl; lia).
      by rewrite <- (assoc_L (++)).
    + simpl app. cbn [string_copy]. change (BSLASH =? QUOTE) with false. change (BSLASH =? BSLASH) with true.
      simpl negb. cbv iota. destruct (Hu ((s ≫= print_char) ++ QUOTE :: rest) uc) as (uc' & ->). rewrite Ep.
      rewrite decide_True by (rewrite length_app; lia).
      rewrite drop_app_length' by done. rewrite IH by (done || rewrite ?length_app; simpl; lia).
      by rewrite <- (assoc_L (++)).
Qed.

Lemma print_char_length c : (1 <= length (print_char c))%nat.
Proof. unfold print_char. destruct (_ && _); simpl; lia. Qed.

Lemma printed_length s : (length s <= length (s ≫= print_char))%nat.
Proof.
  induction s as [|c s IH]; [done|]. rewrite bind_cons, length_app. pose proof (print_char_length c). simpl. lia.
Qed.

Lemma parse_string_printed s rest :
  Forall is_char s -> parse_string (print_string_ptr s ++ rest) = POk s rest.
Proof.
  intros Hs. unfold print_string_ptr. rewrite <- app_comm_cons, <- (assoc_L (++)). cbn [parse_string app].
  change (QUOTE =? QUOTE) with true. simpl negb. cbv iota.
  destruct (string_len_printed s rest Hs) as (k & Ek & Hk). rewrite Ek.
  rewrite string_copy_printed; [done|done| |simpl; lia].
  rewrite length_app. pose proof (printed_length s). simpl. lia.
Qed.

(** ** Numbers *)

(** What may follow a number. *)
Definition ends (rest : cstring) : Prop :=
  match rest with [] => True | c :: _ => is_digit c = false /\ c <> 46 /\ c <> 101 /\ c <> 69 end.

Lemma ends_head rest :
  ends rest -> ((49 <=? char_at rest 0) && (char_at rest 0 <=? 57)) = false /\
    (char_at rest 0 =? 46) = false /\ parse_exponent rest = Done (0, rest).
Proof.
  destruct rest as [|c rest]; [done|]. intros (Hd & H1 & H2 & H3). unfold char_at. simpl nth.
  unfold is_digit in Hd. split; [lia|]. split; [lia|]. cbn [parse_exponent].
  destruct (Z.eqb_spec c 101); [done|]. destruct (Z.eqb_spec c 69); [done|]. done.
Qed.

Lemma read_digits_app ds rest : forall n k,
  Forall (fun c => is_digit c = true) ds -> ends rest ->
  read_digits (ds ++ rest) n k = (read_dec ds n, k + Z.of_nat (length ds), rest).
Proof.
  induction ds as [|c ds IH]; intros n k Hd He.
  - simpl. unfold read_dec. simpl. rewrite Z.add_0_r. destruct rest as [|c rest]; [done|].
    simpl. destruct He as [-> _]. done.
  - inversion_clear Hd as [|? ? Hc Hd']. simpl. rewrite Hc, IH by done. f_equal. f_equal. lia.
Qed.

Lemma zero_digit c : is_digit c = true -> c <> 48 -> ((49 <=? c) && (c <=? 57)) = true /\ (c =? 48) = false.
Proof. unfold is_digit. intros H Hc. split; lia. Qed.

Lemma dec_cons i : - 2 ^ 31 <= i < 2 ^ 31 -> exists c t, dec i = c :: t /\ (c = 45 \/ is_digit c = true).
Proof.
  intros Hi. unfold dec. destruct (Z.ltb_spec i 0) as [H|H]; [eexists _, _; split; [reflexivity|by left]|].
  destruct (dec_loop_spec 19 i []) as (ds & -> & Hd & Hne & _); [split; [done|]; transitivity (2 ^ 31); [lia|done]|].
  destruct ds as [|c ds]; [done|]. inversion_clear Hd as [|? ? Hc _]. exists c, (ds ++ []). auto.
Qed.

Section Values.
Context {dbl : Type} (of_dec : bool -> Z -> Z -> dbl) (to_int : dbl -> Z)
  (near_int : Z -> dbl -> bool) (fmt_double : dbl -> cstring).

(** The double of an [int] is exact: it converts back, and [print_number]
    recognises it. *)
Definition exact_ints : Prop := forall neg n,
  0 <= n < 2 ^ 31 \/ (neg = true /\ n = 2 ^ 31) ->
  let i := if neg : bool then - n else n in
  to_int (of_dec neg n 0) = i /\ near_int i (of_dec neg n 0) = true.

Abbreviation json := (CJson.json dbl).
Abbreviation parse_value := (CJson.parse_value of_dec to_int).
Abbreviation parse_elems := (CJson.parse_elems of_dec to_int).
Abbreviation parse_members := (CJson.parse_members of_dec to_int).
Abbreviation parse_number := (CJson.parse_number of_dec to_int).
Abbreviation print_value := (CJson.print_value near_int fmt_double).
Abbreviation cJSON_Parse := (CJson.cJSON_Parse of_dec to_int).

(** The number item of an [int]. *)
Definition number (i : Z) : json := JNumber (of_dec (i <? 0) (Z.abs i) 0) i.

Lemma parse_number_digits neg ds n rest :
  Forall (fun c => is_digit c = true) ds -> ds <> [] -> read_dec ds 0 = n -> (hd 0 ds = 48 -> ds = [48]) ->
  ends rest -> hd 0 ds <> 45 ->
  parse_number ((if neg : bool then [45] else []) ++ ds ++ rest) =
  POk (JNumber (of_dec neg n 0) (to_int (of_dec neg n 0))) rest.
Proof.
  intros Hd Hne Hn Hz He H45. destruct (ends_head rest He) as (E1 & E2 & E3).
  destruct ds as [|c ds]; [done|]. simpl in H45, Hz. unfold CJson.parse_number.
  assert ((match (if neg then [45] else []) ++ (c :: ds) ++ rest with
    | x :: s => if x =? 45 then (true, s) else (false, (if neg then [45] else []) ++ (c :: ds) ++ rest)
    | [] => (false, []) end) = (neg, c :: ds ++ rest)) as ->.
  { destruct neg; simpl; [done|]. by destruct (Z.eqb_spec c 45). }
  inversion_clear Hd as [|? ? Hc Hd']. destruct (decide (c = 48)) as [->|H48].
  - assert (ds = []) as -> by (specialize (Hz eq_refl); by injection Hz). simpl in Hn. rewrite <- Hn. simpl app. cbv iota beta.
    change (48 =? 48) with true. cbv iota. rewrite E1, E2. simpl andb. cbv iota. rewrite E3. done.
  - destruct (zero_digit c Hc H48) as [F1 F2]. rewrite F2. change (char_at (c :: ds ++ rest) 0) with c. rewrite F1.
    rewrite (read_digits_app (c :: ds) rest) by (done || by constructor). rewrite Hn, E2. simpl andb. cbv iota.
    rewrite E3. done.
Qed.

Lemma parse_number_dec i rest :
  exact_ints -> - 2 ^ 31 <= i < 2 ^ 31 -> ends rest -> parse_number (dec i ++ rest) = POk (number i) rest.
Proof.
  intros Hex Hi He. assert (2 ^ 31 < 10 ^ Z.of_nat 20) as Hp by done.
  destruct (dec_loop_spec 19 (Z.abs i) []) as (ds & E & Hd & Hne & Hv & Hz); [lia|]. rewrite app_nil_r in E.
  assert (hd 0 ds <> 45) as H45.
  { destruct ds as [|c ds]; [done|]. inversion_clear Hd as [|? ? Hc _]. simpl. intros ->. done. }
  assert (dec i = (if i <? 0 then [45] else []) ++ ds) as ->.
  { unfold dec. rewrite <- E. destruct (Z.ltb_spec i 0); [rewrite Z.abs_neq by lia|rewrite Z.abs_eq by lia]; reflexivity. }
  rewrite <- (assoc_L (++)), (parse_number_digits _ ds (Z.abs i) rest Hd Hne); [|rewrite Hv; lia|exact Hz|exact He|exact H45].
  unfold number. destruct (Hex (i <? 0) (Z.abs i)) as [-> _].
  - destruct (Z.ltb_spec i 0); lia.
  - do 2 f_equal. destruct (Z.ltb_spec i 0); lia.
Qed.

(** ** Values *)

(** Induction over a tree: the children are in a list. *)
Fixpoint json_ind' (P : json -> Prop)
    (Hnull : P JNull) (Hfalse : P JFalse) (Htrue : P JTrue) (Hnum : forall d i, P (JNumber d i))
    (Hstr : forall s, P (JString s)) (Harr : forall l, Forall P l -> P (JArray l))
    (Hobj : forall l, Forall (fun m => P m.2) l -> P (JObject l)) (v : json) : P v :=
  let rec := json_ind' P Hnull Hfalse Htrue Hnum Hstr Harr Hobj in
  match v with
  | JNull => Hnull | JFalse => Hfalse | JTrue => Htrue
  | JNumber d i => Hnum d i
  | JString s => Hstr s
  | JArray l => Harr l ((fix go l : Forall P l :=
      match l with [] => Forall_nil_2 _ | v :: l => Forall_cons_2 _ _ _ (rec v) (go l) end) l)
  | JObject l => Hobj l ((fix go l : Forall (fun m => P m.2) l :=
      match l with [] => Forall_nil_2 _ | m :: l => Forall_cons_2 _ _ _ (rec m.2) (go l) end) l)
  end.

(** Trees whose strings are C strings and whose numbers are [int]s. *)
Fixpoint plain (v : json) : Prop :=
  match v with
  | JNumber d i => - 2 ^ 31 <= i < 2 ^ 31 /\ d = of_dec (i <? 0) (Z.abs i) 0
  | JString s => Forall is_char s
  | JArray l => (fix all (l : list json) : Prop := match l with [] => True | v :: l => plain v /\ all l end) l
  | JObject l => (fix all (l : list (cstring * json)) : Prop :=
      match l with [] => True | (k, v) :: l => Forall is_char k /\ plain v /\ all l end) l
  | _ => True
  end.

Lemma plain_array l : plain (JArray l) <-> Forall plain l.
Proof.
  simpl. induction l as [|v l IH]; [split; [constructor|done]|]. rewrite Forall_cons. by rewrite IH.
Qed.

Lemma plain_object l : plain (JObject l) <-> Forall (fun m => Forall is_char m.1 /\ plain m.2) l.
Proof.
  simpl. induction l as [|[k v] l IH]; [split; [constructor|done]|]. rewrite Forall_cons. simpl. rewrite IH. tauto.
Qed.

(** The calls of the parser that reading a tree back takes, at most. *)
Fixpoint cost (v : json) : nat :=
  match v with
  | JArray l => S ((fix sum (l : list json) : nat := match l with [] => O | v :: l => S (cost v + sum l) end) l)
  | JObject l => S ((fix sum (l : list (cstring * json)) : nat :=
      match l with [] => O | (_, v) :: l => S (cost v + sum l) end) l)
  | _ => 1%nat
  end.

Definition costs (l : list json) : nat := foldr (fun v n => S (cost v + n)) O l.

Lemma cost_array l : cost (JArray l) = S (costs l).
Proof. reflexivity. Qed.

Lemma cost_object l : cost (JObject l) = S (costs (snd <$> l)).
Proof. simpl. f_equal. induction l as [|[k v] l IH]; [done|]. simpl. by rewrite IH. Qed.

(** The bodies of arrays and objects as functions of their own. *)
Fixpoint print_elems (depth : nat) (fmt : bool) (l : list json) : cstring :=
  match l with
  | [] => []
  | [v] => print_value v depth fmt
  | v :: l => print_value v depth fmt ++ [44] ++ (if fmt then [32] else []) ++ print_elems depth fmt l
  end.

Fixpoint print_members (depth : nat) (fmt : bool) (l : list (cstring * json)) : cstring :=
  match l with
  | [] => []
  | (name, v) :: l =>
    (if fmt then tabs depth else []) ++ print_string_ptr name ++ [58] ++ (if fmt then [9] else []) ++
    print_value v depth fmt ++ (match l with [] => [] | _ => [44] end) ++ (if fmt then [10] else []) ++
    print_members depth fmt l
  end.

Lemma print_array l depth fmt :
  print_value (JArray l) depth fmt = 91 :: print_elems (S depth) fmt l ++ [93].
Proof. simpl. do 2 f_equal. induction l as [|v [|w l] IH]; [done..|]. by rewrite IH. Qed.

Lemma print_object l depth fmt :
  print_value (JObject l) depth fmt =
  [123] ++ (if fmt then [10] else []) ++ print_members (S depth) fmt l ++ (if fmt then tabs depth else []) ++ [125].
Proof. simpl. do 2 f_equal. f_equal. induction l as [|[k v] l IH]; [done|]. simpl. by rewrite IH. Qed.

(** ** White space *)

Lemma skip_blank w s : Forall (fun c => c <= 32) w -> skip (w ++ s) = skip s.
Proof.
  induction 1 as [|c w Hc Hw IH]; [done|]. simpl. destruct (Z.leb_spec c 32); [done|lia].
Qed.

Lemma skip_dark c s : 32 < c -> skip (c :: s) = c :: s.
Proof. intros Hc. simpl. destruct (Z.leb_spec c 32); [lia|done]. Qed.

Lemma blank_fmt (fmt : bool) c : c <= 32 -> Forall (fun c => c <= 32) (if fmt then [c] else []).
Proof. intros Hc. destruct fmt; repeat constructor; done. Qed.

Lemma blank_tabs (fmt : bool) n : Forall (fun c => c <= 32) (if fmt then tabs n else []).
Proof. destruct fmt; [|constructor]. unfold tabs. apply Forall_replicate. done. Qed.

(** A printed value starts with a visible character. *)
Lemma print_dark v depth fmt rest :
  exact_ints -> plain v ->
  exists c s, print_value v depth fmt ++ rest = c :: s /\ 32 < c /\
    (c = 123 \/ c = 91 \/ c = QUOTE \/ c = 110 \/ c = 102 \/ c = 116 \/ c = 45 \/ is_digit c = true).
Proof.
  intros Hex Hv. destruct v as [| | |d i|s|l|l]; try (eexists _, _; split; [reflexivity|]; unfold QUOTE; split; [lia|auto 10]).
  - destruct Hv as [Hi ->]. simpl. unfold print_number.
    destruct (Hex (i <? 0) (Z.abs i)) as [_ Hn]; [destruct (Z.ltb_spec i 0); lia|].
    replace (if i <? 0 then - Z.abs i else Z.abs i) with i in Hn by (destruct (Z.ltb_spec i 0); lia).
    rewrite Hn. destruct (dec_cons i Hi) as (c & t & -> & Hc). eexists _, _. split; [reflexivity|].
    unfold is_digit in *. split; [lia|]. destruct Hc; auto 10.
Qed.

(** ** Unfolding the parser *)

Lemma parse_value_S fuel c s :
  c <> 110 -> c <> 102 -> c <> 116 ->
  parse_value (S fuel) (c :: s) =
  if c =? QUOTE then pbind (parse_string (c :: s)) (fun t r => POk (JString t) r)
  else if (c =? 45) || is_digit c then parse_number (c :: s)
  else if c =? 91 then
    match skip s with
    | d :: s' => if d =? 93 then POk (JArray []) s' else pbind (parse_elems fuel (d :: s')) (fun l r => POk (JArray l) r)
    | [] => pbind (parse_elems fuel []) (fun l r => POk (JArray l) r)
    end
  else if c =? 123 then
    match skip s with
    | d :: s' => if d =? 125 then POk (JObject []) s' else pbind (parse_members fuel (d :: s')) (fun l r => POk (JObject l) r)
    | [] => pbind (parse_members fuel []) (fun l r => POk (JObject l) r)
    end
  else PErr.
Proof.
  intros H1 H2 H3. cbn [CJson.parse_value]. unfold str_null, str_false, str_true. cbn [is_prefix].
  destruct (Z.eqb_spec 110 c); [congruence|]. destruct (Z.eqb_spec 102 c); [congruence|].
  destruct (Z.eqb_spec 116 c); [congruence|]. reflexivity.
Qed.

Lemma parse_elems_S fuel s :
  parse_elems (S fuel) s = pbind (parse_value fuel (skip s)) (fun v r =>
    match skip r with
    | c :: r => if c =? 44 then pbind (parse_elems fuel r) (fun l r => POk (v :: l) r)
                else if c =? 93 then POk [v] r else PErr
    | [] => PErr
    end).
Proof. reflexivity. Qed.

Lemma parse_members_S fuel s :
  parse_members (S fuel) s = pbind (parse_string (skip s)) (fun name r =>
    match skip r with
    | c :: r =>
      if negb (c =? 58) then PErr
      else pbind (parse_value fuel (skip r)) (fun v r =>
        match skip r with
        | c :: r => if c =? 44 then pbind (parse_members fuel r) (fun l r => POk ((name, v) :: l) r)
                    else if c =? 125 then POk [(name, v)] r else PErr
        | [] => PErr
        end)
    | [] => PErr
    end).
Proof. reflexivity. Qed.

(** ** The round trip *)

Definition returns (v : json) : Prop := forall depth fmt fuel rest,
  (cost v <= fuel)%nat -> ends rest -> parse_value fuel (print_value v depth fmt ++ rest) = POk v rest.

Lemma ends_44 s : ends (44 :: s).
Proof. done. Qed.

Lemma returns_number d i : exact_ints -> plain (JNumber d i) -> returns (JNumber d i).
Proof.
  intros Hex Hp depth fmt [|fuel] rest Hf He; [simpl in Hf; lia|].
  destruct (print_dark (JNumber d i) depth fmt rest Hex Hp) as (c & s & E & _ & _).
  destruct Hp as [Hi ->]. destruct (Hex (i <? 0) (Z.abs i)) as [_ Hn]; [destruct (Z.ltb_spec i 0); lia|].
  replace (if i <? 0 then - Z.abs i else Z.abs i) with i in Hn by (destruct (Z.ltb_spec i 0); lia).
  cbn [CJson.print_value] in *. unfold print_number in *. rewrite Hn in *.
  assert (c = 45 \/ is_digit c = true) as Hc.
  { destruct (dec_cons i Hi) as (x & t & Et & Hx). rewrite Et in E. by injection E as <- _. }
  pose proof (parse_number_dec i rest Hex Hi He) as Hpn. rewrite E in *.
  assert (c <> 110 /\ c <> 102 /\ c <> 116 /\ c <> QUOTE) as (N1 & N2 & N3 & N4)
    by (unfold is_digit, QUOTE in *; lia).
  rewrite parse_value_S by done. destruct (Z.eqb_spec c QUOTE); [done|].
  replace ((c =? 45) || is_digit c) with true; [exact Hpn|]. destruct Hc as [-> | ->]; [done|by rewrite orb_true_r].
Qed.

Lemma elems_return l depth fmt rest :
  exact_ints -> Forall returns l -> Forall plain l -> l <> [] -> forall fuel, (costs l <= fuel)%nat ->
  parse_elems fuel (print_elems depth fmt l ++ 93 :: rest) = POk l rest.
Proof.
  intros Hex. induction l as [|v l IH]; [done|]. intros Hr Hp _ fuel Hf.
  apply Forall_cons in Hr as [Hv Hr]. apply Forall_cons in Hp as [Pv Pl]. simpl in Hf.
  destruct fuel as [|fuel]; [lia|]. rewrite parse_elems_S.
  assert (forall r, skip (print_value v depth fmt ++ r) = print_value v depth fmt ++ r) as Hsk.
  { intros r. destruct (print_dark v depth fmt r Hex Pv) as (c & s & -> & Hc & _). by apply skip_dark. }
  destruct l as [|w l].
  - simpl print_elems. rewrite Hsk, Hv by (done || lia). done.
  - cbn [print_elems]. rewrite <- !(assoc_L (++)). rewrite Hsk, Hv by (done || lia).
    cbn [pbind app]. rewrite skip_dark by done. change (44 =? 44) with true. cbv iota.
    destruct fuel as [|fuel]; [simpl in Hf; lia|].
    rewrite parse_elems_S, (skip_blank (if fmt then [32] else [])) by (by apply blank_fmt).
    rewrite <- (parse_elems_S fuel). rewrite IH; try done. simpl in *. lia.
Qed.

Lemma ends_blank w c s : Forall (fun c => c <= 32) w -> ends (c :: s) -> ends (w ++ c :: s).
Proof.
  intros Hw He. destruct w as [|x w]; [done|]. inversion_clear Hw as [|? ? Hx _]. simpl.
  unfold is_digit. split; [lia|]. lia.
Qed.

Lemma members_return l depth fmt w rest :
  exact_ints -> Forall (fun m => returns m.2) l -> Forall (fun m => Forall is_char m.1 /\ plain m.2) l ->
  Forall (fun c => c <= 32) w -> l <> [] -> forall fuel, (costs (snd <$> l) <= fuel)%nat ->
  parse_members fuel (print_members depth fmt l ++ w ++ 125 :: rest) = POk l rest.
Proof.
  intros Hex. induction l as [|[k v] l IH]; [done|]. intros Hr Hp Hw _ fuel Hf.
  apply Forall_cons in Hr as [Hv Hr]. apply Forall_cons in Hp as [[Pk Pv] Pl]. simpl in Hf, Hv, Pk, Pv.
  destruct fuel as [|fuel]; [lia|]. rewrite parse_members_S. cbn [print_members]. rewrite <- !(assoc_L (++)).
  rewrite skip_blank by apply blank_tabs.
  assert (forall r, skip (print_string_ptr k ++ r) = print_string_ptr k ++ r) as Hsk by (intros r; by apply skip_dark).
  rewrite Hsk, parse_string_printed by done. cbn [pbind app]. rewrite skip_dark by done.
  change (58 =? 58) with true. simpl negb. cbv iota. rewrite skip_blank by (by apply blank_fmt).
  assert (forall r, skip (print_value v depth fmt ++ r) = print_value v depth fmt ++ r) as Hsv.
  { intros r. destruct (print_dark v depth fmt r Hex Pv) as (c & s & -> & Hc & _). by apply skip_dark. }
  rewrite Hsv. destruct l as [|[k' v'] l].
  - cbn [app print_members]. rewrite Hv; [|lia|].
    2:{ rewrite (assoc_L (++)). apply ends_blank; [|done]. apply Forall_app. split; [by apply blank_fmt|done]. }
    cbn [pbind]. rewrite skip_blank by (by apply blank_fmt). rewrite skip_blank by done. rewrite skip_dark by done. done.
  - cbn [app]. rewrite Hv by (done || lia). cbn [pbind]. rewrite skip_dark by done.
    change (44 =? 44) with true. cbv iota. destruct fuel as [|fuel]; [simpl in Hf; lia|].
    rewrite parse_members_S, skip_blank by (by apply blank_fmt). rewrite <- (parse_members_S fuel).
    rewrite IH; try done. simpl in *. lia.
Qed.

Lemma array_returns l :
  exact_ints -> Forall (fun v => plain v -> returns v) l -> plain (JArray l) -> returns (JArray l).
Proof.
  intros Hex IH Hp. apply plain_array in Hp. intros depth fmt [|fuel] rest Hf He; [simpl in Hf; lia|]. rewrite cost_array in Hf.
  rewrite print_array. cbn [app]. rewrite <- (assoc_L (++)). rewrite parse_value_S by done. cbn [app].
  change (91 =? QUOTE) with false. change ((91 =? 45) || is_digit 91) with false. change (91 =? 91) with true. cbv iota.
  assert (Forall returns l) as Hr by (rewrite Forall_forall in *; auto).
  destruct l as [|v l]; [done|]. apply Forall_cons in Hp as [Pv Pl].
  pose proof (elems_return (v :: l) (S depth) fmt rest Hex Hr (Forall_cons_2 _ _ _ Pv Pl) ltac:(done) fuel ltac:(lia)) as E.
  assert (exists c s, print_elems (S depth) fmt (v :: l) ++ 93 :: rest = c :: s /\ 32 < c /\ c <> 93) as (c & s & Ec & Hc & Hn).
  { destruct l as [|w l]; cbn [print_elems]; rewrite <- ?(assoc_L (++));
      destruct (print_dark v (S depth) fmt (93 :: rest) Hex Pv) as (c & s & Ec & Hc & Hk).
    - exists c, s. unfold QUOTE, is_digit in Hk. split; [done|]. lia.
    - destruct (print_dark v (S depth) fmt ([44] ++ (if fmt then [32] else []) ++ print_elems (S depth) fmt (w :: l) ++ 93 :: rest) Hex Pv)
        as (c' & s' & Ec' & Hc' & Hk'). exists c', s'. unfold QUOTE, is_digit in Hk'. split; [exact Ec'|]. lia. }
  rewrite Ec in *. rewrite skip_dark by done. destruct (Z.eqb_spec c 93); [done|]. rewrite E. done.
Qed.

Lemma object_returns l :
  exact_ints -> Forall (fun m => plain m.2 -> returns m.2) l -> plain (JObject l) -> returns (JObject l).
Proof.
  intros Hex IH Hp. apply plain_object in Hp. intros depth fmt [|fuel] rest Hf He; [simpl in Hf; lia|]. rewrite cost_object in Hf.
  rewrite print_object. rewrite <- !(assoc_L (++)). cbn [app]. rewrite parse_value_S by done.
  change (123 =? QUOTE) with false. change ((123 =? 45) || is_digit 123) with false. change (123 =? 91) with false.
  change (123 =? 123) with true. cbv iota. rewrite skip_blank by (by apply blank_fmt).
  assert (Forall (fun m => returns m.2) l) as Hr by (rewrite Forall_forall in *; naive_solver).
  destruct l as [|[k v] l].
  { cbn [print_members app]. rewrite skip_blank by apply blank_tabs. rewrite skip_dark by done. done. }
  pose proof (members_return ((k, v) :: l) (S depth) fmt (if fmt then tabs depth else []) rest Hex Hr Hp
    (blank_tabs fmt depth) ltac:(done) fuel ltac:(lia)) as E.
  destruct fuel as [|fuel]; [simpl in Hf; lia|]. rewrite parse_members_S in E.
  set (body := print_members _ _ _ ++ _) in *.
  assert (exists s, skip body = QUOTE :: s) as [s Es].
  { unfold body. cbn [print_members]. rewrite <- !(assoc_L (++)), skip_blank by apply blank_tabs.
    unfold print_string_ptr. rewrite <- app_comm_cons, skip_dark by done. by eexists. }
  rewrite Es in *. change (QUOTE =? 125) with false. cbv iota. rewrite parse_members_S, skip_dark by done.
  rewrite E. done.
Qed.

Lemma value_returns v : exact_ints -> plain v -> returns v.
Proof.
  intros Hex. induction v as [| | |d i|s|l IH|l IH] using json_ind'; intros Hp.
  1-3: intros depth fmt [|fuel] rest Hf He; [simpl in Hf; lia|reflexivity].
  - by apply returns_number.
  - intros depth fmt [|fuel] rest Hf He; [simpl in Hf; lia|]. cbn [CJson.print_value].
    pose proof (parse_string_printed s rest Hp) as E. unfold print_string_ptr in *.
    rewrite <- app_comm_cons in *. rewrite parse_value_S by done. change (QUOTE =? QUOTE) with true. cbv iota.
    rewrite E. done.
  - by apply array_returns.
  - by apply object_returns.
Qed.

Lemma elems_length depth fmt l :
  Forall (fun v => forall fmt depth, plain v -> (cost v <= 2 * length (print_value v depth fmt))%nat) l -> Forall plain l ->
  (costs l <= 2 * length (print_elems depth fmt l) + 1)%nat.
Proof.
  induction l as [|v l IH]; intros Hl Hp; [simpl; lia|]. apply Forall_cons in Hl as [Hv Hl].
  apply Forall_cons in Hp as [Pv Pl]. specialize (IH Hl Pl). specialize (Hv fmt depth Pv).
  change (costs (v :: l)) with (S (cost v + costs l)). destruct l as [|w l]; [cbn [print_elems]; change (costs []) with O; lia|].
  change (print_elems depth fmt (v :: w :: l)) with
    (print_value v depth fmt ++ [44] ++ (if fmt then [32] else []) ++ print_elems depth fmt (w :: l)).
  rewrite !length_app. change (length [44]) with 1%nat. lia.
Qed.

Lemma members_length depth fmt l :
  Forall (fun m => forall fmt depth, plain m.2 -> (cost m.2 <= 2 * length (print_value m.2 depth fmt))%nat) l ->
  Forall (fun m => Forall is_char m.1 /\ plain m.2) l ->
  (costs (snd <$> l) <= 2 * length (print_members depth fmt l))%nat.
Proof.
  induction l as [|[k v] l IH]; intros Hl Hp; [simpl; lia|]. apply Forall_cons in Hl as [Hv Hl].
  apply Forall_cons in Hp as [[_ Pv] Pl]. specialize (IH Hl Pl). specialize (Hv fmt depth Pv). simpl in Hv.
  rewrite fmap_cons. change (costs (snd (k, v) :: (snd <$> l))) with (S (cost v + costs (snd <$> l))).
  cbn [print_members]. rewrite !length_app. change (length [58]) with 1%nat. lia.
Qed.

Lemma cost_length v : exact_ints -> forall fmt depth, plain v -> (cost v <= 2 * length (print_value v depth fmt))%nat.
Proof.
  intros Hex. induction v as [| | |d i|s|l IH|l IH] using json_ind'; intros fmt depth Hp; try (simpl; lia).
  - destruct (print_dark (JNumber d i) depth fmt [] Hex Hp) as (c & s & E & _). rewrite app_nil_r in E.
    rewrite E. simpl. lia.
  - rewrite cost_array, print_array. simpl length. rewrite length_app.
    pose proof (elems_length (S depth) fmt l IH (proj1 (plain_array l) Hp)). simpl. lia.
  - rewrite cost_object, print_object, !length_app.
    pose proof (members_length (S depth) fmt l IH (proj1 (plain_object l) Hp)). simpl. lia.
Qed.

(** C24. What [cJSON_Print] and [cJSON_PrintUnformatted] write,
    [cJSON_Parse] reads back: for every tree of C strings, [int]s, [true],
    [false], [null], arrays and objects, at any depth, the parser returns the
    same tree and leaves nothing over. *)
Theorem parse_print v fmt :
  exact_ints -> plain v -> cJSON_Parse (print_value v 0 fmt) = POk v [].
Proof.
  intros Hex Hp. unfold CJson.cJSON_Parse.
  destruct (print_dark v 0 fmt [] Hex Hp) as (c & s & E & Hc & _). rewrite app_nil_r in E.
  rewrite E, skip_dark, <- E by done. rewrite <- (app_nil_r (print_value v 0 fmt)) at 2.
  apply value_returns; [done|done| |done]. pose proof (cost_length v Hex fmt 0 Hp). lia.
Qed.

(** ** Termination *)

Lemma skip_length s : (length (skip s) <= length s)%nat.
Proof. induction s as [|c s IH]; [done|]. simpl. destruct (c <=? 32); simpl; lia. Qed.

Lemma string_copy_total fuel cap : forall s out uc,
  (length s < fuel)%nat ->
  match string_copy fuel cap s out uc with PFuel => False | POk _ r => (length r <= length s)%nat | _ => True end.
Proof.
  induction fuel as [|fuel IH]; intros s out uc Hf; [lia|]. cbn [string_copy]. destruct s as [|c s]; [by destruct (put _ _ _)|].
  simpl in Hf. destruct (c =? QUOTE); [destruct (put _ _ _); simpl; [lia|done]|].
  destruct (negb _).
  - destruct (put _ _ _) as [o|]; [|done]. specialize (IH s o uc ltac:(lia)).
    destruct (string_copy _ _ _ _ _); simpl in *; try done. lia.
  - destruct (unescape s uc) as [[[bs n] uc']|] eqn:Eu; [|done]. destruct (put _ _ _) as [o|]; [|done].
    destruct (decide _) as [Hn|]; [|done].
    specialize (IH (drop n s) o uc'). rewrite length_drop in IH. specialize (IH ltac:(lia)).
    destruct (string_copy _ _ _ _ _); simpl in *; try done. lia.
Qed.

Lemma parse_string_total s :
  match parse_string s with PFuel => False | POk _ r => (length r < length s)%nat | _ => True end.
Proof.
  destruct s as [|c s]; [done|]. cbn [parse_string]. destruct (negb _); [done|].
  destruct (string_len s) as [n|]; [|done]. pose proof (string_copy_total (S (length s)) (S n) s [] (None, None) ltac:(lia)).
  destruct (string_copy _ _ _ _ _); simpl; try done. lia.
Qed.

Lemma read_digits_length s : forall n k, (length (read_digits s n k).2 <= length s - (if is_digit (char_at s 0) then 1 else 0))%nat.
Proof.
  induction s as [|c s IH]; intros n k; [done|]. cbn [read_digits]. change (char_at (c :: s) 0) with c.
  destruct (is_digit c) eqn:Ec; [|simpl; lia]. specialize (IH (n * 10 + (c - 48)) (k + 1)). simpl length. lia.
Qed.

Lemma parse_exponent_length s n r : parse_exponent s = Done (n, r) -> (length r <= length s)%nat.
Proof.
  destruct s as [|c s]; [by intros [= <- <-]|]. cbn [parse_exponent]. destruct (_ || _); [|intros [= <- <-]; done].
  set (ns := match s with [] => _ | _ => _ end). assert (length ns.2 <= length s)%nat as Hs.
  { unfold ns. destruct s as [|x s]; [done|]. destruct (x =? 43), (x =? 45); simpl; lia. }
  destruct ns as [neg s1]. pose proof (read_digits_length s1 0 0) as Hd.
  destruct (read_digits s1 0 0) as [[m k] s2]. simpl in *. destruct (_ <=? _); [done|]. intros [= _ <-]. lia.
Qed.

Lemma parse_number_total c s :
  (c =? 45) || is_digit c = true ->
  match parse_number (c :: s) with PFuel => False | POk _ r => (length r < length (c :: s))%nat | _ => True end.
Proof.
  intros Hc. unfold CJson.parse_number.
  set (p := if c =? 45 then (true, s) else (false, c :: s)). destruct p as [neg s0] eqn:Ep.
  set (s1 := match s0 with [] => [] | x :: y => if x =? 48 then y else s0 end).
  set (p2 := if _ : bool then _ else (0, s1)). destruct p2 as [n s2] eqn:E2.
  assert (length s2 < length (c :: s))%nat as H2.
  { assert (length s1 <= length s0)%nat as Hs1 by (unfold s1; destruct s0 as [|x y]; [done|destruct (x =? 48); simpl; lia]).
    assert (length s2 <= length s1)%nat as Hs2.
    { unfold p2 in E2. destruct ((49 <=? char_at s1 0) && (char_at s1 0 <=? 57)); [|by injection E2 as _ <-]. pose proof (read_digits_length s1 0 0).
      destruct (read_digits s1 0 0) as [[? ?] ?]. injection E2 as _ <-. simpl in *. lia. }
    unfold p in Ep. destruct (Z.eqb_spec c 45) as [->|Hne]; [injection Ep as _ <-; simpl; lia|].
    injection Ep as _ <-. simpl in Hc. unfold s1 in *. destruct (Z.eqb_spec c 48); [simpl; lia|].
    unfold p2 in E2. change (char_at (c :: s) 0) with c in E2.
    destruct (zero_digit c Hc n0) as [E _]. rewrite E in E2. pose proof (read_digits_length (c :: s) 0 0) as Hr.
    change (char_at (c :: s) 0) with c in Hr. rewrite Hc in Hr.
    destruct (read_digits (c :: s) 0 0) as [[? ?] ?]. injection E2 as _ <-. simpl in *. lia. }
  set (p3 := if _ : bool then _ else (n, 0, s2)). destruct p3 as [[n3 sc] s3] eqn:E3.
  assert (length s3 <= length s2)%nat as H3.
  { unfold p3 in E3. destruct ((char_at s2 0 =? 46) && is_digit (char_at s2 1)); [|by injection E3 as _ _ <-]. pose proof (read_digits_length (tail s2) n 0) as Hr.
    destruct (read_digits (tail s2) n 0) as [[? ?] ?]. injection E3 as _ _ <-. simpl in *. destruct s2; simpl in *; lia. }
  destruct (parse_exponent s3) as [[e s4]|] eqn:E4; [|done]. apply parse_exponent_length in E4. lia.
Qed.

(** The call ends, and what it leaves over is shorter than its input. *)
Definition finishes {A} (p : parsed A) (s : cstring) : Prop :=
  match p with PFuel => False | POk _ r => (length r < length s)%nat | _ => True end.

Lemma finishes_bind {A B} (p : parsed A) (k : A -> cstring -> parsed B) s s' :
  finishes p s -> (length s <= length s')%nat ->
  (forall a r, (length r < length s)%nat -> finishes (k a r) s') -> finishes (pbind p k) s'.
Proof. destruct p; simpl; auto. Qed.

Lemma value_finishes fuel s :
  (2 * length s + 1 <= S fuel)%nat ->
  (forall s, (2 * length s + 2 <= fuel)%nat -> finishes (parse_elems fuel s) s) ->
  (forall s, (2 * length s + 2 <= fuel)%nat -> finishes (parse_members fuel s) s) ->
  finishes (parse_value (S fuel) s) s.
Proof.
  intros Hf He Hm. destruct s as [|c s]; [done|].
  assert (forall n, finishes (POk (JNull : json) (drop (S n) (c :: s))) (c :: s)) as Hd.
  { intros n. simpl. rewrite length_drop. lia. }
  pose proof (skip_length s) as Hsk. simpl in Hf.
  cbn [CJson.parse_value]. destruct (is_prefix str_null _); [apply (Hd 3%nat)|].
  destruct (is_prefix str_false _); [apply (Hd 4%nat)|]. destruct (is_prefix str_true _); [apply (Hd 3%nat)|].
  destruct (c =? QUOTE).
  { eapply finishes_bind; [apply parse_string_total|done|]. simpl. intros. done. }
  destruct ((c =? 45) || is_digit c) eqn:Hc; [by apply parse_number_total|].
  destruct (c =? 91); [|destruct (c =? 123); [|done]].
  - unfold parse_array. destruct (skip s) as [|d s'] eqn:Es; simpl in Hsk; [|destruct (d =? 93); [simpl; lia|]];
      (eapply finishes_bind; [apply He; simpl; lia|simpl; lia|]); simpl; intros; lia.
  - unfold parse_object. destruct (skip s) as [|d s'] eqn:Es; simpl in Hsk; [|destruct (d =? 125); [simpl; lia|]];
      (eapply finishes_bind; [apply Hm; simpl; lia|simpl; lia|]); simpl; intros; lia.
Qed.

Lemma parser_finishes fuel :
  (forall s, (2 * length s + 1 <= fuel)%nat -> finishes (parse_value fuel s) s) /\
  (forall s, (2 * length s + 2 <= fuel)%nat -> finishes (parse_elems fuel s) s) /\
  (forall s, (2 * length s + 2 <= fuel)%nat -> finishes (parse_members fuel s) s).
Proof.
  induction fuel as [|fuel (IHv & IHe & IHm)]; [split_all; intros; lia|]. split_all; intros s Hs.
  - by apply value_finishes.
  - rewrite parse_elems_S. pose proof (skip_length s).
    eapply finishes_bind; [apply IHv; lia|done|]. intros v r Hr. pose proof (skip_length r) as Hk.
    destruct (skip r) as [|c r']; [done|]. simpl in Hk. destruct (c =? 44); [|destruct (c =? 93); [simpl; lia|done]].
    eapply finishes_bind; [apply IHe; lia|lia|]. simpl. intros. lia.
  - rewrite parse_members_S. pose proof (skip_length s).
    eapply finishes_bind; [apply parse_string_total|done|]. intros k r Hr. pose proof (skip_length r) as Hk.
    destruct (skip r) as [|c r']; [done|]. simpl in Hk. destruct (negb _); [done|]. pose proof (skip_length r') as Hk'.
    eapply finishes_bind; [apply IHv; lia|lia|]. intros v r2 Hr2. pose proof (skip_length r2) as Hk2.
    destruct (skip r2) as [|c2 r3]; [done|]. simpl in Hk2. destruct (c2 =? 44); [|destruct (c2 =? 125); [simpl; lia|done]].
    eapply finishes_bind; [apply IHm; lia|lia|]. simpl. intros. lia.
Qed.

(** C25. [cJSON_Parse] ends on every text: the recursion through nested
    arrays and objects is bounded by the length of the text. *)
Theorem parse_total s : cJSON_Parse s <> PFuel.
Proof.
  intros E. unfold CJson.cJSON_Parse in E. pose proof (skip_length s).
  destruct (parser_finishes (2 * length s + 2)) as [H' _]. specialize (H' (skip s) ltac:(lia)).
  by rewrite E in H'.
Qed.

End Values.

(** ** Hostile strings *)

(** A character that [parse_string] copies as it is. *)
Definition copied (c : Z) : Prop := c <> QUOTE /\ c <> BSLASH.

(** One step of the copying loop on such a character. *)
Lemma string_copy_copied fuel cap c s out uc :
  copied c ->
  string_copy (S fuel) cap (c :: s) out uc =
  if decide (length out + 1 <= cap)%nat then string_copy fuel cap s (out ++ [c]) uc else PFault OutOfBounds.
Proof.
  intros [Hq Hb]. cbn [string_copy]. destruct (Z.eqb_spec c QUOTE); [done|]. destruct (Z.eqb_spec c BSLASH); [done|].
  simpl negb. cbv iota. unfold put. simpl length. by case_decide.
Qed.

(** [parse_string] can be made to write past its block: the first loop
    stops at a quote that the second loop, which steps over four characters
    after [\u] whatever they are, does not see.  Every text that starts with
    ["\u1"] and goes on with five ordinary characters overflows, and what
    follows is written behind the block. *)
Theorem parse_string_overflows a b c d e s :
  copied c -> copied d -> copied e ->
  parse_string (QUOTE :: BSLASH :: 117 :: 49 :: QUOTE :: a :: b :: c :: d :: e :: s) = PFault OutOfBounds.
Proof.
  intros Hc Hd He. cbn [parse_string]. change (QUOTE =? QUOTE) with true. simpl negb. cbv iota.
  change (string_len (BSLASH :: 117 :: 49 :: QUOTE :: a :: b :: c :: d :: e :: s)) with (Some 2%nat).
  transitivity (string_copy (9 + length s) 3 (c :: d :: e :: s) [1] (Some 1, None)); [done|].
  simpl (9 + length s)%nat. by rewrite !string_copy_copied by done.
Qed.

(** A backslash as the last character makes it step over the terminator. *)
Lemma parse_string_last_backslash s :
  Forall copied s -> parse_string (QUOTE :: s ++ [BSLASH]) = PFault OutOfBounds.
Proof.
  intros Hs. cbn [parse_string]. change (QUOTE =? QUOTE) with true. simpl negb. cbv iota.
  replace (string_len (s ++ [BSLASH])) with (@None nat); [done|].
  induction Hs as [|c s [Hc1 Hc2] Hs IH]; [done|]. simpl. destruct (Z.eqb_spec c QUOTE); [done|].
  destruct (Z.eqb_spec c BSLASH); [done|]. by rewrite <- IH.
Qed.

(** U+20000 and beyond come out wrong: the surrogate pair is put together with
    [|] where the bits overlap and [+] is meant. *)
Lemma surrogate_wrong :
  parse_string ([QUOTE; BSLASH; 117; 68; 56; 52; 48; BSLASH; 117; 68; 67; 48; 48; QUOTE]) = POk (utf8 0x10000) [] /\
  utf8 0x20000 <> utf8 0x10000.
Proof. split; [reflexivity|discriminate]. Qed.

(** ** Instances *)

(** Decimal numbers with an exponent satisfy what is assumed about doubles. *)
Definition ex_of_dec (neg : bool) (n e : Z) : Z * Z := (if neg then - n else n, e).
Definition ex_near (i : Z) (d : Z * Z) : bool := bool_decide (d = (i, 0)).

Lemma ex_exact : exact_ints ex_of_dec fst ex_near.
Proof. intros neg n _. split; [done|]. apply bool_decide_true. done. Qed.

(** [{"a": [1, true, "x"], "": {}}] *)
Definition ex_json : json (Z * Z) :=
  JObject [([97], JArray [JNumber (1, 0) 1; JTrue; JString [120; 10; 1; QUOTE]]); ([], JObject [])].

Lemma parse_print_witness :
  cJSON_Parse ex_of_dec fst (print_value ex_near (fun _ => []) ex_json 0 true) = POk ex_json [].
Proof.
  apply (parse_print ex_of_dec fst ex_near (fun _ => []) ex_json true ex_exact).
  cbn [plain ex_json]. unfold is_char, QUOTE. 
  split_all; repeat apply List.Forall_cons; try apply List.Forall_nil; first [exact I | reflexivity | lia].
Defined.

Lemma parse_string_overflows_witness :
  parse_string ([QUOTE; BSLASH; 117; 49; QUOTE; 65; 65; 65; 65; 65; QUOTE]) = PFault OutOfBounds.
Proof. apply (parse_string_overflows 65 65 65 65 65 [QUOTE]); split; discriminate. Defined.
