(* ===== verification/Allocator.v ===== *)
(** * Allocator: from a JSON request to a worker's task ([src/TCP_C/allocator.c])

    A request is the text [an_split_rcv_buf_to_json] cut out of the stream.
    [al_allocate_task] gets a block for the task, parses the text, prolongs
    the web session and stores the members of the JSON object in the C
    structure the command calls for.  The task's [data] is a block of bytes
    with the structures of [head.h] laid over it, so that a store past the end
    of the block shows as [OutOfBounds]; [wys_malloc] has zeroed it.

    The worker itself is not in the repository: handing over the task and the
    three calls that refresh the cached records are events of the result.
    The URI decoding changes the strings of the JSON tree in place; no
    function reads a member twice, so the tree itself is not threaded. *)

From Stdlib Require Import Ascii String.
From S2P Require Import Prelude CString Bytes CText Registry Timer Users Cache CJson.
Local Open Scope Z_scope.

Module Allocator.

Import CText CJson.

(** ** URI decoding *)

Definition is_hex_lower (c : Z) : bool := (97 <=? c) && (c <=? 102).
Definition is_hex_upper (c : Z) : bool := (65 <=? c) && (c <=? 70).

(** The value of a digit as [hex_to_char] computes it, 0 if it is none. *)
Definition hex_digit (c : Z) : Z :=
  if is_digit c then c - 48
  else if is_hex_lower c then (c - 97) + 10
  else if is_hex_upper c then (c - 65) + 10
  else 0.

Definition hex_to_char (c1 c2 : Z) : Z := u8 (u8 (hex_digit c1 * 16) + hex_digit c2).

Definition check_hex (c : Z) : bool := is_digit c || is_hex_lower c || is_hex_upper c.

(** The byte at [i] of the array [str] points to. *)
Definition at_ (b : list Z) (i : nat) : outcome Z := get_or OutOfBounds (b !! i).
Definition put_at (i : nat) (c : Z) (b : list Z) : outcome (list Z) :=
  if decide (i < length b)%nat then Done (<[i := c]> b) else Fault OutOfBounds.

(** [while ( *ptr ) { *ptr2 = *ptr; ptr2++; ptr++; }] and the terminator. *)
Fixpoint shift_loop (fuel : nat) (ptr2 ptr : nat) (b : list Z) : outcome (list Z) :=
  match fuel with
  | O => Fault OutOfBounds
  | S fuel =>
    c ← at_ b ptr;
    if c =? 0 then put_at ptr2 0 b
    else b ← put_at ptr2 c b; shift_loop fuel (S ptr2) (S ptr) b
  end.

(** The outer loop from [tmp] on. *)
Fixpoint parm_loop (fuel : nat) (tmp : nat) (b : list Z) : outcome (list Z) :=
  match fuel with
  | O => Fault OutOfBounds
  | S fuel =>
    c ← at_ b tmp;
    if c =? 0 then Done b
    else
      enc ← (if c =? 37 then
               h1 ← at_ b (tmp + 1);
               if check_hex h1 then h2 ← at_ b (tmp + 2); Done (check_hex h2) else Done false
             else Done false);
      b ← (if (enc : bool) then
             h1 ← at_ b (tmp + 1);
             h2 ← at_ b (tmp + 2);
             b ← put_at tmp (hex_to_char h1 h2) b;
             shift_loop (S (length b)) (tmp + 1) (tmp + 3) b
           else Done b);
      parm_loop fuel (S tmp) b
  end.

Definition __httpd_parm_do (b : list Z) : outcome (list Z) := parm_loop (S (length b)) 0 b.

(** The string left in [dest_buf]. *)
Definition snprintf_decodeURI (buf_size : Z) (src : option cstring) : outcome cstring :=
  s ← get_or NullDeref src;
  b ← __httpd_parm_do (s ++ [0]);
  Done (snprintf_s buf_size (c_string b)).

(** ** Numbers *)

(** The number a string starts with, as [atoi] and [atoll] read it. *)
Definition number_of (s : cstring) : Z :=
  let s := skip_space s in
  let '(neg, s) := match s with
                   | c :: s' => if c =? 45 then (true, s') else if c =? 43 then (false, s') else (false, s)
                   | [] => (false, []) end in
  let '(n, _, _) := read_digits s 0 0 in
  if (neg : bool) then - n else n.

(** The behaviour on a number out of range is undefined. *)
Definition ato (w : Z) (s : option cstring) : outcome Z :=
  s ← get_or NullDeref s;
  let n := number_of s in
  if (- 2 ^ (w - 1) <=? n) && (n <? 2 ^ (w - 1)) then Done n else Fault ArithUB.

Definition atoi := ato 32.
Definition atoll := ato 64.

(** ** The task's data *)

Definition GMT_REVERS_MASK : Z := 0xffffffff.
Definition AEFA_ALL : Z := 127.

Section Requests.

Context {dbl : Type} (of_dec : bool -> Z -> Z -> dbl) (to_int : dbl -> Z).

Abbreviation json := (json dbl).

(** How a member is stored: [atoi] into an integer of so many bytes, [atoll],
    the reversed time, or a decoded string into an array. *)
Inductive conv := AInt (w : nat) | ALl (w : nat) | ARev | AText (size : Z).

(** [if((json_value = cJSON_GetObjectItem(json_root, key)) != NULL) ...] *)
Record assign := Assign { a_key : string; a_conv : conv; a_off : nat }.

(** The bytes a conversion produces. *)
Definition converted (c : conv) (v : option cstring) : outcome (list Z) :=
  match c with
  | AInt w => n ← atoi v; Done (le w n)
  | ALl w => n ← atoll v; Done (le w n)
  | ARev => Done (le 8 (u64 (GMT_REVERS_MASK - atoull v)))
  | AText size => t ← snprintf_decodeURI size v; Done (t ++ [0])
  end.

Definition do_assign (root : json) (a : assign) (b : list Z) : outcome (list Z) :=
  match cJSON_GetObjectItem root (str (a_key a)) with
  | None => Done b
  | Some v => bs ← converted (a_conv a) (valuestring v); store (a_off a) bs b
  end.

Fixpoint do_assigns (root : json) (l : list assign) (b : list Z) : outcome (list Z) :=
  match l with
  | [] => Done b
  | a :: l => b ← do_assign root a b; do_assigns root l b
  end.

Local Open Scope string_scope.
Local Open Scope list_scope.
Local Open Scope Z_scope.

(** The members of [az_task_recv_user_t], in the order of the source. *)
Definition user_fields : list assign :=
  [Assign "uid" (AInt 4) 0; Assign "remark" (AText 64) 4; Assign "account" (AText 32) 68;
   Assign "password" (AText 16) 100; Assign "old_gid" (AInt 4) 116; Assign "new_gid" (AInt 4) 120;
   Assign "bind" (AInt 1) 124].
Definition al_parse_user_data (root : json) := do_assigns root user_fields.

(** [az_task_recv_group_t] *)
Definition group_fields : list assign :=
  [Assign "gid" (AInt 4) 0; Assign "group_name" (AText 32) 4; Assign "chart" (AInt 1) 37;
   Assign "record" (AInt 1) 36; Assign "control" (AInt 1) 38; Assign "usb_auth" (AInt 1) 39;
   Assign "cd_auth" (AInt 1) 40].
Definition al_parse_group_data (root : json) := do_assigns root group_fields.

(** [az_task_recv_file_t] *)
Definition file_fields : list assign :=
  [Assign "old_gid" (AInt 4) 0; Assign "old_filename" (AText 256) 8; Assign "new_gid" (AInt 4) 4;
   Assign "new_filename" (AText 256) 264].
Definition file_authority (root : json) (b : list Z) : outcome (list Z) :=
  match cJSON_GetObjectItem root (str "authority") with
  | Some v => n ← atoi (valuestring v); store 520 (le 4 (ntohl (u32 n))) b
  | None => store 520 (le 4 AEFA_ALL) b
  end.
Definition al_parse_file_data (root : json) (b : list Z) : outcome (list Z) :=
  b ← do_assigns root file_fields b;
  b ← file_authority root b;
  do_assign root (Assign "filetype" (AInt 1) 524) b.

(** The body of the loop of [al_parse_encrypt_data] at [i]; [group_count]
    entries are written. *)
Definition encrypt_item (root : json) (i : Z) (group_count : nat) (b : list Z) : outcome (nat * list Z) :=
  match cJSON_GetObjectItem root (dec i) with
  | None => Done (group_count, b)
  | Some v =>
    b ← store (4 + 8 * group_count) (le 4 i) b;
    n ← atoi (valuestring v);
    b ← store (4 + 8 * group_count + 4) (le 4 (htonl (u32 n))) b;
    Done (S group_count, b)
  end.

Definition encrypt_step (root : json) (s : Z * nat * list Z) : (Z * nat * list Z) + outcome (list Z) :=
  let '(i, group_count, b) := s in
  match load 0 4 b with
  | Fault f => inr (Fault f)
  | Done group_num =>
    if Z.of_nat group_count <? s32 group_num then
      match encrypt_item root i group_count b with
      | Fault f => inr (Fault f)
      | Done (group_count, b) => if i =? 2 ^ 31 - 1 then inr (Fault ArithUB) else inl (i + 1, group_count, b)
      end
    else inr (Done b)
  end.

(** The counter is an [int]: 2^31 iterations are all there can be. *)
Definition INT_ITERS : positive := 2 ^ 31.

Definition al_parse_encrypt_data (root : json) (b : list Z) : outcome (list Z) :=
  b ← do_assign root (Assign "group_num" (AInt 4) 0) b;
  match loop INT_ITERS (encrypt_step root) (0, O, b) with inr r => r | inl _ => Fault ArithUB end.

(** [az_task_recv_qq_t] *)
Definition qq_fields : list assign :=
  [Assign "uid" (AInt 4) 0; Assign "gid" (AInt 4) 4; Assign "qq_id" (AInt 4) 8;
   Assign "start_time" ARev 12; Assign "end_time" ARev 20; Assign "page_flag" (AInt 4) 44;
   Assign "keyword" (AText 16) 28].
Definition al_parse_qq_msg_data (root : json) := do_assigns root qq_fields.

Definition process_fields : list assign := [Assign "uid" (AInt 4) 0].
Definition al_parse_process_data (root : json) := do_assigns root process_fields.

(** [az_task_recv_detail_t] *)
Definition detail_fields : list assign :=
  [Assign "uid" (AInt 4) 4; Assign "gid" (AInt 4) 8; Assign "act_type" (AInt 4) 0;
   Assign "start_time" ARev 12; Assign "end_time" ARev 20; Assign "page_flag" (AInt 4) 28].
Definition al_parse_detail_data (root : json) := do_assigns root detail_fields.

(** [az_task_recv_calc_t] *)
Definition calc_fields : list assign :=
  [Assign "uid" (AInt 4) 0; Assign "gid" (AInt 4) 4; Assign "start_time" ARev 8;
   Assign "end_time" ARev 16; Assign "page_flag" (AInt 4) 24].
Definition al_parse_calc_data (root : json) := do_assigns root calc_fields.

(** [az_task_recv_work_acts_t]; the entries start at byte 60, 96 bytes each. *)
Definition work_fields : list assign :=
  [Assign "listcount" (AInt 4) 0; Assign "gid" (AInt 4) 4; Assign "type" (AInt 1) 8;
   Assign "describe" (AText 48) 9].

(** The stores into one [az_task_recv_work_act_t] at [o]; a missing piece is a
    null pointer of [carg]. *)
Definition work_entry (o : nat) (carg : list cstring) (b : list Z) : outcome (list Z) :=
  gid ← atoi (carg !! 0%nat);
  b ← store (o + 80) (le 4 gid) b;
  old_gid ← atoi (carg !! 1%nat);
  b ← store (o + 88) (le 4 old_gid) b;
  worktype ← atoi (carg !! 2%nat);
  b ← store (o + 84) (le 1 worktype) b;
  process ← get_or NullDeref (carg !! 3%nat);
  b ← store (o + 48) (snprintf_s 32 process ++ [0]) b;
  workname ← get_or NullDeref (carg !! 4%nat);
  store o (snprintf_s 48 workname ++ [0]) b.

(** The body of the loop at [i]; [n] entries are written. *)
Definition work_item (root : json) (i : Z) (n : nat) (b : list Z) : outcome (nat * list Z) :=
  match cJSON_GetObjectItem root (dec i) with
  | None => Done (n, b)
  | Some v =>
    temp_buf ← snprintf_decodeURI 1024 (valuestring v);
    let carg := split_string temp_buf 124 6 in
    if (4 <=? length carg)%nat
    then b ← work_entry (60 + 96 * n) carg b; Done (S n, b)
    else Done (n, b)
  end.

Definition work_step (root : json) (s : Z * nat * list Z) : (Z * nat * list Z) + outcome (list Z) :=
  let '(i, n, b) := s in
  match load 0 4 b with
  | Fault f => inr (Fault f)
  | Done listcount =>
    if i <? s32 listcount then
      match work_item root i n b with
      | Fault f => inr (Fault f)
      | Done (n, b) => inl (i + 1, n, b)
      end
    else inr (Done b)
  end.

Definition al_parse_work_data (root : json) (b : list Z) : outcome (list Z) :=
  b ← do_assigns root work_fields b;
  match loop INT_ITERS (work_step root) (0, O, b) with inr r => r | inl _ => Fault ArithUB end.

(** [az_task_recv_forbidact_t] *)
Definition forbid_fields : list assign :=
  [Assign "old_name" (AText 32) 0; Assign "new_name" (AText 32) 32; Assign "old_gid" (AInt 4) 64;
   Assign "new_gid" (AInt 4) 68; Assign "act_type" (AInt 1) 72; Assign "is_forbid" (AInt 1) 73;
   Assign "search_flag" (AInt 1) 74].
Definition al_parse_forbid_data (root : json) := do_assigns root forbid_fields.

(** [az_task_recv_warning_msg_t] *)
Definition warning_fields : list assign :=
  [Assign "warning_msg" (AText 128) 0; Assign "error_msg" (AText 128) 128;
   Assign "warning_en" (AInt 1) 256; Assign "error_en" (AInt 1) 257].
Definition al_parse_waring_data (root : json) := do_assigns root warning_fields.

(** [az_task_recv_system_t] *)
Definition system_fields : list assign :=
  [Assign "breaktime" (AText 128) 0; Assign "jumpurl" (AText 128) 128; Assign "password" (AText 16) 256;
   Assign "login_bind" (AInt 1) 306; Assign "start_time" (ALl 8) 272; Assign "end_time" (ALl 8) 280;
   Assign "t_start_time" (ALl 8) 288; Assign "t_end_time" (ALl 8) 296; Assign "work_day" (AInt 2) 304].
Definition al_parse_system_data (root : json) := do_assigns root system_fields.

(** A local array of [al_parse_client_data], zeroed, filled by [snprintf]. *)
Definition local_text (root : json) (key : string) (size : Z) : outcome cstring :=
  match cJSON_GetObjectItem root (str key) with
  | None => Done nil
  | Some v => s ← get_or NullDeref (valuestring v); Done (snprintf_s size s)
  end.

(** [snprintf(dst,1024,"http://%s:%s/%s",ip,port,json_value->valuestring)] *)
Definition url_at (root : json) (key : string) (ip port : cstring) (off : nat) (b : list Z) : outcome (list Z) :=
  match cJSON_GetObjectItem root (str key) with
  | None => Done b
  | Some v =>
    s ← get_or NullDeref (valuestring v);
    store off (snprintf_s 1024 (str "http://" ++ ip ++ str ":" ++ port ++ str "/" ++ s) ++ [0]) b
  end.

(** [update_info_t]: [upgrade_url] and [version_info], 1024 bytes each. *)
Definition al_parse_client_data (root : json) (b : list Z) : outcome (list Z) :=
  ip ← local_text root "ip" 64;
  port ← local_text root "port" 8;
  b ← url_at root "txt_name" ip port 1024 b;
  url_at root "rar_name" ip port 0 b.

Definition al_parse_import_data (root : json) (b : list Z) : outcome (list Z) :=
  match cJSON_GetObjectItem root (str "filedata") with
  | None => Done b
  | Some v => s ← get_or NullDeref (valuestring v); store 0 (s ++ [0]) b
  end.

(** ** The request *)

(** The members of [wk_head_t] that are used, and the data. *)
Record wk_task := WkTask { token : Z; cmd : Z; fd_index : Z; data : list Z }.

Inductive effect := SyncQQ | SyncDetail | SyncCalc | AddTask (wk : wk_task) | FreeText.

Definition between (a b x : Z) : bool := (a <=? x) && (x <=? b).

(** The [switch] on the command (the numbers are those of [cmds.h]): the
    records refreshed and the parser called. *)
Definition dispatch (c : Z) (root : json) (b : list Z) : list effect * outcome (list Z) :=
  if between 100 105 c then ([], al_parse_user_data root b)  (* AZ_USER_ADD .. AZ_USER_GETBASE *)
  else if c =? 107 then ([], al_parse_import_data root b)  (* AZ_USER_IMPORT *)
  else if between 200 205 c then ([], al_parse_group_data root b)  (* AZ_GROUP_ADD .. AZ_GROUP_GETBASE *)
  else if between 300 304 c then ([], al_parse_file_data root b)  (* AZ_FILE_ADD .. AZ_FILE_GETALL *)
  else if between 305 306 c then ([], al_parse_encrypt_data root b)  (* AZ_FILE_GETAUTH, AZ_FILE_MODAUTH *)
  else if between 400 402 c then ([SyncQQ], al_parse_qq_msg_data root b)  (* AZ_QQ_MSG_GETUSER .. AZ_QQ_MSG_GETQQ *)
  else if between 503 508 c then ([SyncDetail], al_parse_detail_data root b)  (* AZ_DETAIL_GETUSER .. AZ_DETAIL_EXPORTALL *)
  else if between 518 519 c then ([], al_parse_process_data root b)  (* AZ_GET_USER_PROCESS, AZ_SET_USER_PROCESS_STAT *)
  else if between 509 512 c then ([SyncCalc], al_parse_calc_data root b)  (* AZ_CALC_GETUSER .. AZ_CALC_GETINDEX *)
  else if between 513 516 c then ([], al_parse_calc_data root b)  (* AZ_CALC_GETUSER_JS .. AZ_CALC_GETMONTH_JS *)
  else if between 600 605 c then ([], al_parse_work_data root b)  (* AZ_WORK_ADD .. AZ_WORK_GETACT *)
  else if between 700 704 c then ([], al_parse_forbid_data root b)  (* AZ_FORBID_ADD .. AZ_FORBID_GETALL *)
  else if c =? 800 then ([], al_parse_waring_data root b)  (* AZ_WARNING_MOD *)
  else if c =? 900 then ([], al_parse_system_data root b)  (* AZ_SYSTEM_MOD *)
  else if c =? 950 then ([], al_parse_client_data root b)  (* AZ_CLIENT_UPDATA *)
  else ([], Done b).

(** The member [key] as an [int], or what the field held before. *)
Definition head_int (root : json) (key : string) (old : Z) : outcome Z :=
  match cJSON_GetObjectItem root (str key) with
  | None => Done old
  | Some v => atoi (valuestring v)
  end.

(** [while ( *p_space )]: plus signs become spaces. *)
Definition restore_spaces (s : cstring) : cstring := (fun c => if c =? 43 then 32 else c) <$> s.

(** [W] is the width of [unsigned long], [now] the value of [jiffies] and [p]
    what [wys_malloc] returns for a new session. *)
Definition al_parse_value_to_wk_task (W now : Z) (p : addr) (json_data : cstring) (wk : wk_task)
    (s : WebCache.caches) : outcome (list effect * WebCache.caches) :=
  match cJSON_Parse of_dec to_int (restore_spaces json_data) with
  | PFault f => Fault f
  | PFuel | PErr => Done (nil, s)
  | POk root _ =>
    c ← head_int root "cmd" (cmd wk);
    tok ← head_int root "token" (token wk);
    r ← WebCache.an_web_cache_t_find_create_by_token W tok now p s;
    let '(web_cache, s) := (r : addr * WebCache.caches) in
    if web_cache =? NULL then Done (nil, s)
    else
      let e := wrapu W (now + WebCache.COOKIE_AGEING_TIME * Timer.HZ) in
      let s := WebCache.Caches (WebCache.creg s) (WebCache.det s) (WebCache.qq s)
                 (Timer.mod_timer W web_cache e (WebCache.base s)).2 in
      let '(effs, parsed) := dispatch (u32 c) root (data wk) in
      d ← parsed;
      Done (effs ++ [AddTask (WkTask tok (u32 c) (fd_index wk) d)], s)
  end.

(** The zeroed task of a request of [data_len] bytes. *)
Definition new_task (data_len index : Z) : wk_task :=
  WkTask 0 0 (u32 index) (replicate (Z.to_nat (data_len + 1024)) 0).

(** [malloc_ok] says whether [wys_malloc] returned a block. *)
Definition al_allocate_task (W now : Z) (p : addr) (malloc_ok : bool) (text : cstring) (data_len index : Z)
    (s : WebCache.caches) : outcome (list effect * WebCache.caches) :=
  if negb malloc_ok then Done (nil, s)
  else
    r ← al_parse_value_to_wk_task W now p text (new_task data_len index) s;
    let '(effs, s) := (r : list effect * WebCache.caches) in
    Done (effs ++ [FreeText], s).

End Requests.

End Allocator.
