(* ===== verification/AllocatorFacts.v ===== *)
(** * AllocatorFacts: what becomes of a request

    URI decoding in place against a reference decoder and its round trip; the
    members of a request end in the fields of the structure its command calls
    for; a request prolongs its session; and the requests the parsers do not
    survive. *)

From Stdlib Require Import Ascii String.
From S2P Require Import Prelude CString Bytes CText Registry Timer TimerFacts Users Cache UsersFacts CJson CJsonFacts Allocator.
Import CText CJson Allocator.
Local Open Scope Z_scope.

(** ** URI decoding *)

Module UriFacts.

(** The decoder on lists: an escape is replaced wherever it starts. *)
Fixpoint uri_decode (s : cstring) : list Z :=
  match s with
  | [] => []
  | c :: s' =>
    match s' with
    | h1 :: h2 :: r =>
      if (c =? 37) && check_hex h1 && check_hex h2 then hex_to_char h1 h2 :: uri_decode r
      else c :: uri_decode s'
    | _ => c :: uri_decode s'
    end
  end.

Lemma at_app pre c r : at_ (pre ++ c :: r) (length pre) = Done c.
Proof. unfold at_. by rewrite list_lookup_middle. Qed.

Lemma at_app_r pre r k : at_ (pre ++ r) (length pre + k) = at_ r k.
Proof. unfold at_. by rewrite lookup_app_r, Nat.add_comm, Nat.add_sub by lia. Qed.

Lemma put_at_app pre c r d : put_at (length pre) d (pre ++ c :: r) = Done (pre ++ d :: r).
Proof.
  unfold put_at. rewrite decide_True by (rewrite length_app; simpl; lia). f_equal.
  rewrite <- (Nat.add_0_r (length pre)), insert_app_r. done.
Qed.

(** The inner loop moves the rest of the string to the left by [length gap]. *)
Lemma shift_loop_spec s : forall fuel pre gap junk,
  Forall (fun c => c <> 0) s -> gap <> [] -> (length s < fuel)%nat ->
  exists junk', shift_loop fuel (length pre) (length pre + length gap) (pre ++ gap ++ s ++ 0 :: junk) =
    Done (pre ++ s ++ 0 :: junk') /\ length junk' = (length gap + length junk)%nat.
Proof.
  induction s as [|c s IH]; intros [|fuel] pre gap junk Hs Hg Hf; simpl in Hf; try lia;
    destruct gap as [|g gap]; try done; cbn [shift_loop]; rewrite at_app_r.
  - replace (at_ _ _) with (Done 0) by (symmetry; apply (at_app (g :: gap))). simpl mbind. simpl Z.eqb. cbv iota.
    simpl app. rewrite put_at_app. exists (gap ++ 0 :: junk). split; [done|]. rewrite length_app. simpl. lia.
  - inversion_clear Hs as [|? ? Hc Hs'].
    replace (at_ _ _) with (Done c) by (symmetry; apply (at_app (g :: gap))). simpl mbind.
    destruct (Z.eqb_spec c 0); [done|]. simpl app. rewrite put_at_app. simpl mbind.
    destruct (IH fuel (pre ++ [c]) (gap ++ [c]) junk) as (junk' & E & Hl); [done|by destruct gap|lia|].
    exists junk'. rewrite !length_app in E. simpl in E, Hl |- *. rewrite <- !(assoc_L (++)) in E. simpl in E.
    rewrite length_app in Hl. simpl in Hl. split; [|lia].
    replace (S (length pre)) with (length pre + 1)%nat by lia.
    replace (S (length pre + S (length gap))) with (length pre + 1 + (length gap + 1))%nat by lia. done.
Qed.

Lemma uri_decode_escape h1 h2 r :
  check_hex h1 = true -> check_hex h2 = true -> uri_decode (37 :: h1 :: h2 :: r) = hex_to_char h1 h2 :: uri_decode r.
Proof. intros H1 H2. simpl. by rewrite H1, H2. Qed.

(** The first character is an escape or stays. *)
Inductive decode_view : cstring -> Prop :=
  | view_nil : decode_view []
  | view_escape h1 h2 r : check_hex h1 = true -> check_hex h2 = true -> decode_view (37 :: h1 :: h2 :: r)
  | view_char c s : uri_decode (c :: s) = c :: uri_decode s ->
      (c = 37 -> check_hex (char_at s 0) = true -> check_hex (char_at s 1) = false) -> decode_view (c :: s).

Lemma decode_cases s : decode_view s.
Proof.
  destruct s as [|c s]; [constructor|].
  destruct s as [|h1 [|h2 r]]; [by apply view_char|by apply view_char|].
  destruct (Z.eqb_spec c 37) as [->|Hc].
  - destruct (check_hex h1) eqn:H1; [destruct (check_hex h2) eqn:H2; [by constructor|]|];
      (apply view_char; [simpl; rewrite ?H1, ?H2; done|unfold char_at; cbn [nth]; congruence]).
  - apply view_char; [|done]. simpl. destruct (Z.eqb_spec c 37); done.
Qed.

Lemma at_char_at s junk k :
  (k <= length s)%nat -> at_ (s ++ 0 :: junk) k = Done (char_at s k).
Proof.
  intros Hk. unfold at_, char_at. destruct (decide (k < length s)%nat) as [Hlt|Hge].
  - rewrite lookup_app_l by done. destruct (lookup_lt_is_Some_2 s k Hlt) as [c Ec]. rewrite Ec. simpl.
    by rewrite (nth_lookup_Some s k 0 c Ec).
  - assert (k = length s) as -> by lia. by rewrite list_lookup_middle, nth_overflow by lia.
Qed.

Lemma check_hex_nonzero c : check_hex c = true -> c <> 0.
Proof. intros H ->. done. Qed.

Lemma parm_loop_spec n : forall s pre fuel junk,
  (length s <= n)%nat -> Forall (fun c => c <> 0) s -> (length s < fuel)%nat ->
  exists junk', parm_loop fuel (length pre) (pre ++ s ++ 0 :: junk) = Done (pre ++ uri_decode s ++ 0 :: junk') /\
    length (uri_decode s ++ 0 :: junk') = length (s ++ 0 :: junk).
Proof.
  induction n as [|n IH]; intros s pre [|fuel] junk Hn Hs Hf; try lia.
  { destruct s; [|simpl in Hn; lia]. exists junk. cbn [parm_loop]. simpl app. by rewrite at_app. }
  destruct (decode_cases s) as [|h1 h2 r H1 H2|c s Ed Hh].
  - exists junk. cbn [parm_loop]. simpl app. by rewrite at_app.
  - inversion_clear Hs as [|? ? _ Hs1]. inversion_clear Hs1 as [|? ? _ Hs2]. inversion_clear Hs2 as [|? ? _ Hr].
    rewrite uri_decode_escape by done. cbn [parm_loop]. simpl app. rewrite at_app. rewrite !at_app_r. rewrite bind_Done. simpl Z.eqb. cbv iota.
    change (at_ (37 :: h1 :: h2 :: r ++ 0 :: junk) 1) with (Done h1).
    change (at_ (37 :: h1 :: h2 :: r ++ 0 :: junk) 2) with (Done h2).
    rewrite !bind_Done, H1, ?bind_Done, H2, ?bind_Done, put_at_app, ?bind_Done.
    match goal with |- context [shift_loop ?f _ _ _] => assert (length r < f)%nat as HF
      by (rewrite length_app; simpl; rewrite length_app; lia); generalize dependent f end.
    intros F HF. destruct (shift_loop_spec r F (pre ++ [hex_to_char h1 h2]) [h1; h2] junk) as (j & E & Hj); [done|done|done|].
    rewrite <- !(assoc_L (++)), length_app in E. simpl app in E. simpl length in E.
    replace (length pre + 3)%nat with (length pre + 1 + 2)%nat by lia. rewrite E, bind_Done.
    simpl in Hn, Hf. destruct (IH r (pre ++ [hex_to_char h1 h2]) fuel j) as (j' & E' & Hl'); [lia|done|lia|].
    rewrite <- !(assoc_L (++)), length_app in E'. simpl in E'.
    replace (S (length pre)) with (length pre + 1)%nat by lia. exists j'.
    simpl. split; [done|]. rewrite !length_app in *. simpl in *. lia.
  - inversion_clear Hs as [|? ? Hc Hr]. rewrite Ed. cbn [parm_loop]. simpl app. rewrite at_app. simpl mbind.
    destruct (Z.eqb_spec c 0); [done|]. rewrite !at_app_r.
    simpl in Hn, Hf. destruct (IH s (pre ++ [c]) fuel junk) as (j' & E' & Hl'); [lia|done|lia|].
    rewrite <- !(assoc_L (++)), length_app in E'. simpl in E'. rewrite Nat.add_comm in E'.
    exists j'. simpl app. split; [|simpl length; lia].
    destruct (Z.eqb_spec c 37) as [->|]; simpl mbind; [|done].
    change (at_ (37 :: s ++ 0 :: junk) 1) with (at_ (s ++ 0 :: junk) 0).
    change (at_ (37 :: s ++ 0 :: junk) 2) with (at_ (s ++ 0 :: junk) 1).
    rewrite (at_char_at s junk 0), !bind_Done by lia. destruct (check_hex (char_at s 0)) eqn:E0; [|done].
    assert (1 <= length s)%nat by (destruct s; [done|simpl; lia]).
    rewrite (at_char_at s junk 1), !bind_Done by lia. by rewrite (Hh eq_refl eq_refl).
Qed.

(** C30. [__httpd_parm_do] stays inside the array and leaves there exactly what
    decoding the string from left to right gives. *)
Theorem parm_do_decodes s junk :
  Forall (fun c => c <> 0) s ->
  exists junk', __httpd_parm_do (s ++ 0 :: junk) = Done (uri_decode s ++ 0 :: junk') /\
    length (uri_decode s ++ 0 :: junk') = length (s ++ 0 :: junk).
Proof.
  intros Hs. apply (parm_loop_spec (length s) s [] _ junk); [lia|done|]. rewrite length_app. lia.
Qed.

Lemma parm_do_decodes_witness :
  exists junk', __httpd_parm_do (str "a%2Bb%4" ++ 0 :: [7]) = Done (uri_decode (str "a%2Bb%4") ++ 0 :: junk') /\
    length (uri_decode (str "a%2Bb%4") ++ 0 :: junk') = length (str "a%2Bb%4" ++ 0 :: [7]).
Proof. apply parm_do_decodes. vm_compute. repeat constructor; discriminate. Defined.

(** An encoder: the characters [keep] rejects become escapes, with digits in
    upper or lower case. *)
Definition hex_of (upper : bool) (n : Z) : Z := if n <? 10 then 48 + n else (if upper then 55 else 87) + n.
Definition uri_encode (upper : bool) (keep : Z -> bool) (s : cstring) : cstring :=
  s ≫= fun c => if keep c then [c] else [37; hex_of upper (c / 16); hex_of upper (c mod 16)].

Lemma hex_of_spec upper n : 0 <= n < 16 -> check_hex (hex_of upper n) = true /\ hex_digit (hex_of upper n) = n.
Proof.
  intros Hn. unfold check_hex, hex_digit, is_digit, is_hex_lower, is_hex_upper, hex_of.
  destruct upper; zcases; simpl; lia.
Qed.

Lemma hex_of_char upper c : is_char c -> hex_to_char (hex_of upper (c / 16)) (hex_of upper (c mod 16)) = c.
Proof.
  intros Hc. unfold is_char in Hc. pose proof (Z.mod_pos_bound c 16 ltac:(lia)) as Hm.
  assert (0 <= c / 16 < 16) as Hd by (split; [apply Z.div_pos; lia|apply Z.div_lt_upper_bound; lia]).
  unfold hex_to_char. rewrite (proj2 (hex_of_spec upper _ Hm)), (proj2 (hex_of_spec upper _ Hd)).
  rewrite (wrapu_small 8 (c / 16 * 16)) by lia. pose proof (Z.div_mod c 16 ltac:(lia)). rewrite wrapu_small; lia.
Qed.

Lemma decode_plain c s : c <> 37 -> uri_decode (c :: s) = c :: uri_decode s.
Proof. intros Hc. simpl. destruct s as [|h1 [|h2 r]]; [done|done|]. by destruct (Z.eqb_spec c 37). Qed.

Lemma decode_encode upper keep s :
  keep 37 = false -> Forall is_char s -> uri_decode (uri_encode upper keep s) = s.
Proof.
  intros Hk Hs. induction Hs as [|c s Hc Hs IH]; [done|]. unfold uri_encode. rewrite bind_cons. fold (uri_encode upper keep s).
  destruct (keep c) eqn:E.
  - simpl app. rewrite decode_plain by congruence. by rewrite IH.
  - assert (0 <= c / 16 < 16) by (unfold is_char in Hc; split; [apply Z.div_pos; lia|apply Z.div_lt_upper_bound; lia]).
    pose proof (Z.mod_pos_bound c 16 ltac:(lia)). cbn [app].
    rewrite uri_decode_escape by (apply hex_of_spec; done). by rewrite hex_of_char, IH.
Qed.

Lemma encode_nonzero upper keep s : Forall is_char s -> Forall (fun c => c <> 0) (uri_encode upper keep s).
Proof.
  intros Hs. unfold uri_encode. induction Hs as [|c s Hc Hs IH]; [constructor|]. rewrite bind_cons.
  apply Forall_app. split; [|done]. destruct (keep c); [by repeat constructor; unfold is_char in Hc; lia|].
  assert (0 <= c / 16) by (unfold is_char in Hc; apply Z.div_pos; lia).
  pose proof (Z.mod_pos_bound c 16 ltac:(lia)).
  repeat constructor; [done|..]; unfold hex_of; destruct upper; zcases; lia.
Qed.

Lemma char_nonzero s : Forall is_char s -> Forall (fun c => c <> 0) s.
Proof. intros Hs. eapply Forall_impl; [exact Hs|]. unfold is_char. intros c Hc. lia. Qed.

(** A text value survives the trip: whatever the sender escapes (all
    percent signs at least) and in whichever case, [snprintf_decodeURI]
    delivers the text, cut to the size of the field. *)
Theorem uri_roundtrip upper keep s size :
  keep 37 = false -> Forall is_char s ->
  snprintf_decodeURI size (Some (uri_encode upper keep s)) = Done (snprintf_s size s).
Proof.
  intros Hk Hs. unfold snprintf_decodeURI. simpl get_or. rewrite bind_Done.
  destruct (parm_loop_spec _ (uri_encode upper keep s) [] (S (length (uri_encode upper keep s ++ [0]))) []
    (Nat.le_refl _) (encode_nonzero upper keep s Hs)) as (j & E & _); [rewrite length_app; lia|].
  change (__httpd_parm_do (uri_encode upper keep s ++ [0]) = Done (uri_decode (uri_encode upper keep s) ++ 0 :: j)) in E.
  rewrite E, bind_Done, decode_encode by done.
  by rewrite c_string_app by (by apply char_nonzero).
Qed.

Lemma uri_roundtrip_witness :
  snprintf_decodeURI 64 (Some (uri_encode true (fun c => negb (c =? 37)) (str "100% a+b"))) = Done (snprintf_s 64 (str "100% a+b")).
Proof. apply uri_roundtrip; [reflexivity|]. vm_compute. repeat constructor. Defined.

End UriFacts.

(** ** The fields of a task *)

Module FieldFacts.

Import UriFacts.

Section Members.

Context {dbl : Type}.
Abbreviation json := (CJson.json dbl).
Implicit Types (root v : json) (b : list Z) (a : assign).

(** The bytes a field occupies. *)
Definition width (c : conv) : nat :=
  match c with AInt w | ALl w => w | ARev => 8 | AText size => Z.to_nat size end.

(** The member is of the kind the parser takes for granted. *)
Definition acceptable (c : conv) v : Prop :=
  match c, v with
  | AInt _, JString s => - 2 ^ 31 <= number_of s < 2 ^ 31
  | ALl _, JString s => - 2 ^ 63 <= number_of s < 2 ^ 63
  | ARev, _ => True
  | AText size, JString s => Forall (fun c => c <> 0) s /\ 1 <= size
  | _, _ => False
  end.

(** What is meant to be in the field then: the number, the reversed time, or
    the decoded text cut to the size of the field, with its terminator. *)
Definition stored (c : conv) v : list Z :=
  match c, v with
  | AInt w, JString s | ALl w, JString s => le w (number_of s)
  | ARev, _ => le 8 (u64 (GMT_REVERS_MASK - atoull (valuestring v)))
  | AText size, JString s => snprintf_s size (c_string (uri_decode s ++ [0])) ++ [0]
  | _, _ => []
  end.

Lemma decodeURI_spec size s :
  Forall (fun c => c <> 0) s ->
  snprintf_decodeURI size (Some s) = Done (snprintf_s size (c_string (uri_decode s ++ [0]))).
Proof.
  intros Hs. unfold snprintf_decodeURI. simpl get_or. rewrite bind_Done.
  destruct (parm_loop_spec _ s [] (S (length (s ++ [0]))) [] (Nat.le_refl _) Hs) as (j & E & _);
    [rewrite length_app; lia|].
  change (__httpd_parm_do (s ++ [0]) = Done (uri_decode s ++ 0 :: j)) in E.
  by rewrite E, bind_Done, (c_string_cut _ j []).
Qed.

Lemma ato_spec w s : - 2 ^ (w - 1) <= number_of s < 2 ^ (w - 1) -> ato w (Some s) = Done (number_of s).
Proof.
  intros Hs. unfold ato. simpl. destruct (Z.leb_spec (- 2 ^ (w - 1)) (number_of s)); [|lia].
  by destruct (Z.ltb_spec (number_of s) (2 ^ (w - 1))); [|lia].
Qed.

Lemma converted_spec c v :
  acceptable c v -> converted c (valuestring v) = Done (stored c v) /\ (length (stored c v) <= width c)%nat.
Proof.
  destruct c as [w|w| |size].
  - destruct v; try done. intros Hs. cbn [converted stored valuestring]. unfold atoi. rewrite ato_spec, bind_Done, length_le by done. done.
  - destruct v; try done. intros Hs. cbn [converted stored valuestring]. unfold atoll. rewrite ato_spec, bind_Done, length_le by done. done.
  - intros _. split; [done|]. cbn [stored width]. by rewrite length_le.
  - destruct v; try done. intros [Hs H1]. cbn [converted stored valuestring].
    rewrite decodeURI_spec by done. rewrite bind_Done. split; [done|]. rewrite length_app. by apply snprintf_short.
Qed.

(** Fields that do not overlap and lie within [n] bytes. *)
Definition apart a a' : Prop :=
  (a_off a + width (a_conv a) <= a_off a' \/ a_off a' + width (a_conv a') <= a_off a)%nat.
Fixpoint laid_out (n : nat) (l : list assign) : Prop :=
  match l with
  | [] => True
  | a :: l => (a_off a + width (a_conv a) <= n)%nat /\ Forall (apart a) l /\ laid_out n l
  end.

(** [b'] holds for [a] what the request says, and what [b] held if it is silent. *)
Definition holds root b b' a : Prop :=
  match cJSON_GetObjectItem root (str (a_key a)) with
  | Some v => field (a_off a) (length (stored (a_conv a) v)) b' = stored (a_conv a) v
  | None => field (a_off a) (width (a_conv a)) b' = field (a_off a) (width (a_conv a)) b
  end.

Definition accepts root a : Prop :=
  match cJSON_GetObjectItem root (str (a_key a)) with Some v => acceptable (a_conv a) v | None => True end.

Lemma do_assign_spec root a b :
  accepts root a -> (a_off a + width (a_conv a) <= length b)%nat ->
  exists b', do_assign root a b = Done b' /\ length b' = length b /\ holds root b b' a /\
    (forall i, (i < a_off a \/ a_off a + width (a_conv a) <= i)%nat -> b' !! i = b !! i).
Proof.
  unfold accepts, do_assign, holds. intros Ha Hb. destruct (cJSON_GetObjectItem _ _) as [v|]; [|by exists b].
  destruct (converted_spec _ _ Ha) as [-> Hw]. rewrite bind_Done.
  destruct (store_fits (a_off a) (stored (a_conv a) v) b) as [b' E]; [lia|]. exists b'.
  split; [done|]. split; [by eapply store_length|]. split; [by eapply store_field|].
  intros i Hi. eapply store_elsewhere; [exact E|lia].
Qed.

Lemma do_assigns_spec root l : forall b,
  laid_out (length b) l -> Forall (accepts root) l ->
  exists b', do_assigns root l b = Done b' /\ length b' = length b /\ Forall (holds root b b') l /\
    (forall i, Forall (fun a => (i < a_off a \/ a_off a + width (a_conv a) <= i)%nat) l -> b' !! i = b !! i).
Proof.
  induction l as [|a l IH]; intros b Hl Hacc; [exists b; by repeat split|].
  destruct Hl as (Hb & Hap & Hl). inversion_clear Hacc as [|? ? Ha Hacc'].
  destruct (do_assign_spec root a b Ha Hb) as (b1 & E1 & Hl1 & Hh1 & Ho1).
  destruct (IH b1) as (b2 & E2 & Hl2 & Hh2 & Ho2); [by rewrite Hl1|done|].
  exists b2. cbn [do_assigns]. rewrite E1, bind_Done. split; [done|]. split; [congruence|]. split.
  - constructor.
    + unfold holds in *. destruct (cJSON_GetObjectItem _ _) as [v|] eqn:Ev.
      * rewrite <- Hh1 at 2. apply field_ext. intros i Hi. apply Ho2. eapply Forall_impl; [exact Hap|].
        unfold accepts in Ha. rewrite Ev in Ha. destruct (converted_spec _ _ Ha) as [_ Hw].
        unfold apart. intros a' Ha'. simpl in Ha'. lia.
      * rewrite <- Hh1. apply field_ext. intros i Hi. apply Ho2. eapply Forall_impl; [exact Hap|].
        unfold apart. intros a' Ha'. simpl in Ha'. lia.
    + rewrite Forall_forall in Hap, Hh2 |- *. intros a' Ha'. specialize (Hap a' Ha'). specialize (Hh2 a' Ha').
      unfold holds in *. destruct (cJSON_GetObjectItem root (str (a_key a'))) as [v|]; [done|].
      rewrite Hh2. apply field_ext. intros i Hi. apply Ho1. unfold apart in Hap. lia.
  - intros i Hi. inversion_clear Hi as [|? ? Hia Hil]. rewrite Ho2 by done. by apply Ho1.
Qed.

(** The parsers that are a sequence of such assignments. *)
Definition handlers : list ((json -> list Z -> outcome (list Z)) * list assign) :=
  [(al_parse_user_data, user_fields); (al_parse_group_data, group_fields); (al_parse_qq_msg_data, qq_fields);
   (al_parse_process_data, process_fields); (al_parse_detail_data, detail_fields); (al_parse_calc_data, calc_fields);
   (al_parse_forbid_data, forbid_fields); (al_parse_waring_data, warning_fields); (al_parse_system_data, system_fields)].

Lemma handlers_laid_out h l n : (h, l) ∈ handlers -> (1024 <= n)%nat -> laid_out n l /\ forall root, h root = do_assigns root l.
Proof.
  intros Hh Hn. unfold handlers in Hh. rewrite !elem_of_cons in Hh.
  decompose [or] Hh; simplify_eq; try (by apply not_elem_of_nil in H); (split; [|done]); cbn;
    repeat match goal with
    | |- _ /\ _ => split
    | |- Forall _ [] => apply List.Forall_nil
    | |- Forall _ (_ :: _) => apply List.Forall_cons
    | |- apart _ _ => unfold apart; cbn
    end; lia || exact I.
Qed.


End Members.

(** [{"uid":"5","remark":"a%20b"}] for a new user *)
Definition ex_user : CJson.json (Z * Z) :=
  JObject [(str "uid", JString (str "5")); (str "remark", JString (str "a%20b"))].


End FieldFacts.

(** ** Requests *)

Module RequestFacts.

Import Registry WebCache.

Section Requests.

Context {dbl : Type} (of_dec : bool -> Z -> Z -> dbl) (to_int : dbl -> Z).
Context (W : Z) (HW : 32 <= W) (callback : Z -> Z -> list Timer.call).
Implicit Types (s : caches) (text : cstring) (wk w : wk_task).

Abbreviation request := (al_parse_value_to_wk_task of_dec to_int W).

(** A command that is sent as a JSON number instead of a string kills
    the server: [valuestring] is a null pointer then, and [atoi] reads it. *)
Theorem numeric_cmd_crashes now p text data_len index root rest v s :
  cJSON_Parse of_dec to_int (restore_spaces text) = POk root rest ->
  cJSON_GetObjectItem root (str "cmd") = Some v -> valuestring v = None ->
  al_allocate_task of_dec to_int W now p true text data_len index s = Fault NullDeref.
Proof.
  intros Hp Hc Hv. unfold al_allocate_task, al_parse_value_to_wk_task. simpl negb. cbv iota. rewrite Hp. unfold head_int.
  by rewrite Hc, Hv.
Qed.

(** Every session has its timer. *)
Definition sessions_timed s : Prop :=
  forall a x, objs (creg s) !! a = Some x -> a <> NULL /\ is_Some (Timer.timers (base s) !! a).

Lemma find_found {T} (h : gmap addr T) q l a : find h q l = Done (Some a) -> exists x, h !! a = Some x /\ q x = true.
Proof.
  induction l as [|c l IH]; simpl; [done|]. destruct (h !! c) as [x|] eqn:E; simpl; [|done].
  destruct (q x) eqn:Eq; [intros [= <-]; eauto|done].
Qed.

Lemma mod_set t e b tm :
  Timer.timers b !! t = Some tm ->
  exists tm', Timer.timers (Timer.__mod_timer W t e b).2 !! t = Some tm' /\
    Timer.expires tm' = e /\ Timer.linked tm' = true.
Proof.
  intros E. unfold Timer.__mod_timer.
  assert (exists r b' tm', (if Timer.timer_pending t b then (1, Timer.detach_timer t b) else (0, b)) = (r, b') /\
    Timer.timers b' !! t = Some tm') as (r & b' & tm' & -> & E').
  { destruct (Timer.timer_pending t b); eexists _, _, _; (split; [done|]); [|done].
    simpl. by rewrite lookup_alter_eq, E. }
  rewrite E'. unfold Timer.internal_add_timer, Timer.set_timer. simpl. rewrite lookup_insert_eq. simpl.
  rewrite lookup_insert_eq. by eexists.
Qed.

Lemma mod_timer_set t e b tm :
  Timer.timers b !! t = Some tm ->
  exists tm', Timer.timers (Timer.mod_timer W t e b).2 !! t = Some tm' /\
    Timer.expires tm' = e /\ Timer.linked tm' = true.
Proof.
  intros E. unfold Timer.mod_timer. rewrite E.
  destruct (Z.eqb_spec (Timer.expires tm) e) as [He|He]; simpl andb.
  - destruct (Timer.timer_pending t b) eqn:Hp; [|by eapply mod_set].
    exists tm. unfold Timer.timer_pending in Hp. by rewrite E in Hp.
  - by eapply mod_set.
Qed.

(** Looking a session up or creating it gives a session with a timer. *)
Lemma find_create_timed T tok p s a s' :
  reachable W callback T (base s) -> sessions_timed s -> Timer.timer_pending p (base s) = false ->
  an_web_cache_t_find_create_by_token W tok (wrapu W T) p s = Done (a, s') -> a <> NULL ->
  reachable W callback T (base s') /\ is_Some (Timer.timers (base s') !! a) /\
  an_web_cache_t_find_by_token tok s' = Done (Some a).
Proof.
  intros Hr Hs Hp E Ha. unfold an_web_cache_t_find_create_by_token in E.
  destruct (an_web_cache_t_find_by_token tok s) as [r|] eqn:Ef; [|done]. simpl in E. destruct r as [a0|].
  - injection E as <- <-. split; [done|]. split; [|done].
    apply find_found in Ef as (x & Ex & _). by eapply Hs.
  - injection E as E. unfold an_web_cache_t_create in E. destruct (Z.eqb_spec p NULL); [by injection E as <- _|].
    injection E as <- <-. cbn [base].
    destruct (SessionFacts.add_fresh W callback T (base s) p (wrapu W (wrapu W T + COOKIE_AGEING_TIME * Timer.HZ)) Hr Hp)
      as [Hr' Et].
    split; [done|]. split; [by rewrite Et|]. unfold an_web_cache_t_find_by_token. cbn [creg tbl objs].
    unfold add_head. rewrite tget_insert, decide_True by done. simpl. rewrite lookup_insert_eq. simpl.
    by rewrite Z.eqb_refl.
Qed.


End Requests.

(** Apostrophes for quotes, to write requests. *)
Definition quoted (s : string) : cstring := (fun c => if c =? 39 then QUOTE else c) <$> str s.

Definition ex_task : wk_task := new_task 176 0.

Lemma numeric_cmd_crashes_witness :
  al_allocate_task ex_of_dec fst 64 0 4096 true (quoted "{'cmd':100}") 11 0 SessionFacts.ex_caches = Fault NullDeref.
Proof.
  apply (numeric_cmd_crashes ex_of_dec fst 64 0 4096 (quoted "{'cmd':100}") 11 0
    (JObject [(str "cmd", JNumber (100, 0) 100)]) [] (JNumber (100, 0) 100)); reflexivity.
Defined.

Definition ex_request : outcome (list effect * caches) :=
  al_parse_value_to_wk_task ex_of_dec fst 64 (wrapu 64 1000) 4096 (quoted "{'cmd':'518','token':'7','uid':'5'}") ex_task
    SessionFacts.ex_caches.

Definition ex_wk : wk_task := WkTask 7 518 0 (le 4 5 ++ replicate 1196 0).

Lemma ex_request_effects :
  match ex_request with Done (effs, _) => effs = [] ++ [AddTask ex_wk] | Fault _ => False end.
Proof. vm_compute. reflexivity. Qed.


End RequestFacts.
