(* ===== verification/AllocatorBounds.v ===== *)
(** * AllocatorBounds: the request parsers with loops

    [al_parse_encrypt_data] looks for the members ["0"], ["1"], ... until it
    has found [group_num] of them; [al_parse_work_data] splits [listcount]
    members into entries of 96 bytes; [al_parse_import_data] copies a string
    of any length.  When they end, what they store, and whether it fits. *)

From Stdlib Require Import Ascii String.
From S2P Require Import Prelude CString Bytes CText CJson CJsonFacts Allocator AllocatorFacts.
Import CText CJson Allocator FieldFacts UriFacts.
Local Open Scope Z_scope.

Section Loops.

Context {dbl : Type}.
Abbreviation json := (CJson.json dbl).
Implicit Types (root v : json) (b : list Z).

(** ** The counters *)

Lemma counted_loop {S R} (step : S -> S + R) (i : S -> Z) (M : Z) :
  (forall s s', step s = inl s' -> i s' = i s + 1 /\ i s' <= M) ->
  forall n s s', (1 <= n)%nat -> loop_nat n step s = inl s' -> i s' = i s + Z.of_nat n /\ i s' <= M.
Proof.
  intros Hstep n. induction n as [|n IH]; intros s s' Hn; [lia|]. simpl.
  destruct (step s) as [s1|] eqn:E1; [|done]. destruct (Hstep _ _ E1) as [H1 H2].
  destruct n as [|n]; [intros [= <-]; lia|]. intros E. destruct (IH s1 s' ltac:(lia) E). lia.
Qed.

(** A loop whose [int] counter goes up by one ends within its 2^31 rounds. *)
Lemma int_loop_ends {S R} (step : S -> S + R) (i : S -> Z) s :
  (forall s s', step s = inl s' -> i s' = i s + 1 /\ i s' <= 2 ^ 31 - 1) -> i s = 0 ->
  exists r, loop INT_ITERS step s = inr r.
Proof.
  intros Hstep H0. rewrite loop_counts. destruct (loop_nat _ step s) as [s'|r] eqn:E; [|eauto]. exfalso.
  destruct (counted_loop step i (2 ^ 31 - 1) Hstep _ s s' (Pos2Nat.is_pos _) E) as [E1 E2].
  rewrite positive_nat_Z in E1. unfold INT_ITERS in E1. lia.
Qed.

Lemma encrypt_step_counts root s s' :
  encrypt_step root s = inl s' -> s'.1.1 = s.1.1 + 1 /\ s.1.1 <> 2 ^ 31 - 1.
Proof.
  destruct s as [[i c] b]. unfold encrypt_step. destruct (load 0 4 b) as [g|]; [|done].
  destruct (_ <? _); [|done]. destruct (encrypt_item _ _ _ _) as [[c' b']|]; [|done].
  destruct (Z.eqb_spec i (2 ^ 31 - 1)); [done|]. by intros [= <-].
Qed.

Lemma work_step_counts root s s' :
  work_step root s = inl s' -> s'.1.1 = s.1.1 + 1 /\ s'.1.1 <= 2 ^ 31 - 1.
Proof.
  destruct s as [[i c] b]. unfold work_step. destruct (load 0 4 b) as [g|]; [|done].
  destruct (Z.ltb_spec i (s32 g)) as [Hi|]; [|done].
  destruct (work_item _ _ _ _) as [[c' b']|]; [|done].
  intros [= <-]. simpl. pose proof (wraps_range 32 g ltac:(lia)). simpl in *. lia.
Qed.

(** ** Rights of the groups *)

Section Groups.

Context (root : json).

(** The groups below [n] the request names. *)
Definition groups (n : nat) : list Z :=
  filter (fun j => is_Some (cJSON_GetObjectItem root (dec j))) (Z.of_nat <$> seq 0 n).

Lemma groups_S n :
  groups (S n) = groups n ++ (if cJSON_GetObjectItem root (dec (Z.of_nat n)) then [Z.of_nat n] else []).
Proof.
  unfold groups. rewrite seq_S, fmap_app, filter_app. f_equal. simpl.
  destruct (cJSON_GetObjectItem root (dec (Z.of_nat n))) eqn:E.
  - by rewrite filter_cons_True by (rewrite E; eauto).
  - by rewrite filter_cons_False by (rewrite E; by intros [? ?]).
Qed.

(** The right of a group, in network byte order, behind its number. *)
Definition entry (j : Z) : list Z :=
  match cJSON_GetObjectItem root (dec j) with
  | Some (JString s) => le 4 j ++ le 4 (htonl (u32 (number_of s)))
  | _ => []
  end.

Definition right_ok (j : Z) : Prop :=
  match cJSON_GetObjectItem root (dec j) with Some v => acceptable (AInt 4) v | None => True end.

(** Before round [n] of the loop that started with [b0]. *)
Record round (b0 : list Z) (n : nat) (s : Z * nat * list Z) : Prop := {
  round_i : s.1.1 = Z.of_nat n;
  round_count : s.1.2 = length (groups n);
  round_len : length s.2 = length b0;
  round_num : field 0 4 s.2 = field 0 4 b0;
  round_entries : forall k j, groups n !! k = Some j -> field (4 + 8 * k) 8 s.2 = entry j
}.

(** The two stores of one entry. *)
Lemma entry_stored k i n b :
  (4 + 8 * S k <= length b)%nat ->
  exists b', (b ← store (4 + 8 * k) (le 4 i) b; store (4 + 8 * k + 4) (le 4 n) b) = Done b' /\
    length b' = length b /\ field (4 + 8 * k) 8 b' = le 4 i ++ le 4 n /\
    forall o w, (o + w <= 4 + 8 * k)%nat -> field o w b' = field o w b.
Proof.
  intros Hb. destruct (store_fits (4 + 8 * k) (le 4 i) b) as [b1 E1]; [rewrite length_le; lia|].
  pose proof (store_length _ _ _ _ E1) as L1.
  destruct (store_fits (4 + 8 * k + 4) (le 4 n) b1) as [b2 E2]; [rewrite length_le; lia|].
  pose proof (store_length _ _ _ _ E2) as L2. exists b2. rewrite E1, bind_Done. split; [done|].
  split; [congruence|]. split.
  - rewrite (field_join _ 4 4). pose proof (store_field _ _ _ _ E1) as F1. pose proof (store_field _ _ _ _ E2) as F2.
    rewrite length_le in F1, F2. rewrite F2, (store_other_field _ _ _ _ _ _ E2), F1 by lia. done.
  - intros o w Ho. by rewrite (store_other_field _ _ _ _ _ _ E2), (store_other_field _ _ _ _ _ _ E1) by lia.
Qed.

Lemma item_round b0 n s :
  round b0 n s -> right_ok (Z.of_nat n) -> (4 + 8 * length (groups (S n)) <= length b0)%nat ->
  exists c' b', encrypt_item root s.1.1 s.1.2 s.2 = Done (c', b') /\ round b0 (S n) (Z.of_nat n + 1, c', b').
Proof.
  destruct s as [[i c] b]. intros [Hi Hc Hl Hn He] Hok Hfit. cbn [fst snd] in *. subst i c.
  rewrite groups_S in Hfit. unfold right_ok in Hok. unfold encrypt_item.
  destruct (cJSON_GetObjectItem root (dec (Z.of_nat n))) as [v|] eqn:Ev.
  - destruct v as [| | | |t| |]; try done. rewrite length_app in Hfit. simpl in Hfit.
    destruct (entry_stored (length (groups n)) (Z.of_nat n) (htonl (u32 (number_of t))) b) as (b' & E & Hl' & Hf' & Ho');
      [lia|].
    apply outcome_bind_done in E as (b1 & E1 & E2).
    rewrite E1, bind_Done. cbn [valuestring]. unfold atoi. rewrite ato_spec, bind_Done, E2, bind_Done by done.
    eexists _, _. split; [done|]. split; cbn [fst snd].
    + lia.
    + rewrite groups_S, Ev, length_app. simpl. lia.
    + congruence.
    + rewrite Ho' by lia. done.
    + intros k j Hk. rewrite groups_S, Ev in Hk. apply lookup_app_Some in Hk as [Hk|[Hge Hk]].
      * rewrite Ho' by (apply lookup_lt_Some in Hk; lia). by apply He.
      * apply list_lookup_singleton_Some in Hk as [Hk <-]. replace k with (length (groups n)) by lia.
        unfold entry. by rewrite Ev.
  - eexists _, _. split; [done|]. split; cbn [fst snd]; rewrite ?groups_S, ?Ev, ?app_nil_r; try done. lia.
Qed.

(** Round [n] when there are groups to come. *)
Lemma round_step b0 n s N :
  round b0 n s -> load 0 4 b0 = Done N -> Z.of_nat (length (groups n)) < s32 N -> right_ok (Z.of_nat n) ->
  (4 + 8 * length (groups (S n)) <= length b0)%nat ->
  exists s', round b0 (S n) s' /\
    encrypt_step root s = if Z.of_nat n =? 2 ^ 31 - 1 then inr (Fault ArithUB) else inl s'.
Proof.
  intros Hs HN Hlt Hok Hfit. destruct (item_round b0 n s Hs Hok Hfit) as (c' & b' & E & Hs').
  exists (Z.of_nat n + 1, c', b'). split; [done|]. destruct s as [[i c] b]. destruct Hs as [Hi Hc Hl Hn _].
  cbn [fst snd] in *. subst i c. unfold encrypt_step. rewrite (load_field 0 4 b0 b Hl Hn), HN, E.
  by destruct (Z.ltb_spec (Z.of_nat (length (groups n))) (s32 N)); [|lia].
Qed.

Lemma rounds_run b0 N n :
  load 0 4 b0 = Done N -> (forall m, (m < n)%nat -> Z.of_nat (length (groups m)) < s32 N) ->
  (forall m, (m < n)%nat -> right_ok (Z.of_nat m)) -> (4 + 8 * length (groups n) <= length b0)%nat ->
  Z.of_nat n <= 2 ^ 31 - 1 ->
  exists s, loop_nat n (encrypt_step root) (0, O, b0) = inl s /\ round b0 n s.
Proof.
  intros HN. induction n as [|n IH]; intros Hlt Hok Hfit Hmax.
  { eexists. split; [done|]. split; try done. }
  assert (length (groups n) <= length (groups (S n)))%nat by (rewrite groups_S, length_app; lia).
  destruct IH as (s & E & Hs); [auto with lia..|lia|lia|].
  destruct (round_step b0 n s N Hs HN) as (s' & Hs' & E'); [apply Hlt; lia|apply Hok; lia|done|].
  destruct (Z.eqb_spec (Z.of_nat n) (2 ^ 31 - 1)); [lia|].
  exists s'. split; [|done]. replace (S n) with (n + 1)%nat by lia. rewrite loop_nat_add, E. simpl. by rewrite E'.
Qed.

(** The block after [group_num] is stored. *)
Lemma group_num_stored b t :
  cJSON_GetObjectItem root (str "group_num") = Some (JString t) -> - 2 ^ 31 <= number_of t < 2 ^ 31 ->
  (4 <= length b)%nat ->
  exists b0 N, do_assign root (Assign "group_num" (AInt 4) 0) b = Done b0 /\ length b0 = length b /\
    field 0 4 b0 = le 4 (number_of t) /\ load 0 4 b0 = Done N /\ s32 N = number_of t.
Proof.
  intros Hg Ht Hb. destruct (do_assign_spec root (Assign "group_num" (AInt 4) 0) b) as (b0 & E & Hl & Hh & _).
  { unfold accepts. cbn [a_key]. by rewrite Hg. }
  { simpl. lia. }
  unfold holds in Hh. cbn [a_key a_off a_conv] in Hh. rewrite Hg in Hh. cbn [stored] in Hh. rewrite length_le in Hh.
  exists b0, (wrapu 32 (number_of t)). repeat (split; [done|]). unfold load. rewrite decide_True by lia.
  rewrite Hh, unle_le. split; [done|]. rewrite <- (wraps_small 32 (number_of t)) at 2 by lia.
  apply wraps_cong. unfold wrapu. by rewrite Z.mod_mod by lia.
Qed.

(** [al_parse_encrypt_data] returns when the request names [group_num]
    groups, the last of them below 2^31 - 1, and has stored the groups in
    ascending order, each with its right in network byte order. *)
Theorem encrypt_entries b n t :
  cJSON_GetObjectItem root (str "group_num") = Some (JString t) -> - 2 ^ 31 <= number_of t < 2 ^ 31 ->
  number_of t <= Z.of_nat (length (groups n)) ->
  (forall m, (m < n)%nat -> Z.of_nat (length (groups m)) < number_of t /\ right_ok (Z.of_nat m)) ->
  (4 + 8 * length (groups n) <= length b)%nat -> Z.of_nat n <= 2 ^ 31 - 1 ->
  exists b', al_parse_encrypt_data root b = Done b' /\ length b' = length b /\ field 0 4 b' = le 4 (number_of t) /\
    forall k j, groups n !! k = Some j -> field (4 + 8 * k) 8 b' = entry j.
Proof.
  intros Hg Ht Hge Hm Hfit Hmax.
  destruct (group_num_stored b t Hg Ht ltac:(lia)) as (b0 & N & E0 & Hl0 & Hf0 & HN & HNt).
  destruct (rounds_run b0 N n HN) as (s & E & Hs); [intros m H; rewrite HNt; by apply Hm|by intros; apply Hm|lia|done|].
  exists s.2. unfold al_parse_encrypt_data. rewrite E0, bind_Done, loop_counts.
  rewrite (loop_nat_mono _ (n + 1) _ _ (Done s.2)).
  - destruct Hs as [_ _ Hl Hn He]. split; [done|]. split; [congruence|]. split; [congruence|done].
  - rewrite loop_nat_add, E. cbn [loop_nat]. destruct s as [[i c] b1]. destruct Hs as [_ Hc Hl Hn _]. cbn [fst snd] in *.
    unfold encrypt_step. rewrite (load_field 0 4 b0 b1 Hl Hn), HN, Hc, HNt.
    by destruct (Z.ltb_spec (Z.of_nat (length (groups n))) (number_of t)); [lia|].
  - unfold INT_ITERS. lia.
Qed.

Lemma groups_mono m n : (m <= n)%nat -> (length (groups m) <= length (groups n))%nat.
Proof. induction 1 as [|n _ IH]; [done|]. rewrite groups_S, length_app. lia. Qed.

(** With a [group_num] larger than the number of groups it names, a
    request keeps the only thread of the server busy for 2^31 rounds, at the
    end of which the counter overflows. *)
Theorem encrypt_overruns b t :
  cJSON_GetObjectItem root (str "group_num") = Some (JString t) -> - 2 ^ 31 <= number_of t < 2 ^ 31 ->
  Z.of_nat (length (groups (Z.to_nat (2 ^ 31)))) < number_of t ->
  (forall j, 0 <= j < 2 ^ 31 -> right_ok j) -> (4 + 8 * length (groups (Z.to_nat (2 ^ 31))) <= length b)%nat ->
  al_parse_encrypt_data root b = Fault ArithUB /\
  exists b0, do_assign root (Assign "group_num" (AInt 4) 0) b = Done b0 /\
    forall n, Z.of_nat n < 2 ^ 31 -> exists s, loop_nat n (encrypt_step root) (0, O, b0) = inl s.
Proof.
  intros Hg Ht Hlt Hok Hfit.
  destruct (group_num_stored b t Hg Ht ltac:(lia)) as (b0 & N & E0 & Hl0 & Hf0 & HN & HNt).
  assert (forall n, Z.of_nat n < 2 ^ 31 -> exists s, loop_nat n (encrypt_step root) (0, O, b0) = inl s /\ round b0 n s) as Hrun.
  { intros n Hn. apply (rounds_run b0 N n HN); [intros m Hm|intros m Hm; apply Hok; lia| |lia].
    - rewrite HNt. pose proof (groups_mono m (Z.to_nat (2 ^ 31)) ltac:(lia)). lia.
    - pose proof (groups_mono n (Z.to_nat (2 ^ 31)) ltac:(lia)). lia. }
  split; [|exists b0; split; [done|]; intros n Hn; destruct (Hrun n Hn) as (s & E & _); eauto].
  set (m := Z.to_nat (2 ^ 31 - 1)). destruct (Hrun m ltac:(lia)) as (s & E & Hs).
  assert (S m = Z.to_nat (2 ^ 31)) as Hm by lia.
  destruct (round_step b0 m s N Hs HN) as (s' & _ & E').
  { rewrite HNt. pose proof (groups_mono m (Z.to_nat (2 ^ 31)) ltac:(lia)). lia. }
  { apply Hok. lia. }
  { rewrite Hm. lia. }
  destruct (Z.eqb_spec (Z.of_nat m) (2 ^ 31 - 1)); [|lia].
  unfold al_parse_encrypt_data. rewrite E0, bind_Done, loop_counts.
  replace (Pos.to_nat INT_ITERS) with (m + 1)%nat by (unfold INT_ITERS; lia).
  rewrite loop_nat_add, E. cbn [loop_nat]. by rewrite E'.
Qed.

End Groups.

(** ** Work rules *)

Definition int_ok (s : cstring) : Prop := - 2 ^ 31 <= number_of s < 2 ^ 31.

(** What [split_string] makes of a member. *)
Definition pieces (s : cstring) : list cstring := split_string (snprintf_s 1024 (c_string (uri_decode s ++ [0]))) 124 6.

(** A member that is a rule: five fields at least, the first three numbers. *)
Definition rule_ok root (i : Z) : Prop :=
  match cJSON_GetObjectItem root (dec i) with
  | Some (JString s) =>
    Forall (fun c => c <> 0) s /\
    exists gid old_gid type process name rest,
      pieces s = gid :: old_gid :: type :: process :: name :: rest /\ int_ok gid /\ int_ok old_gid /\ int_ok type
  | _ => False
  end.

Lemma work_entry_runs o gid old_gid type process name rest b :
  int_ok gid -> int_ok old_gid -> int_ok type ->
  if decide (o + 92 <= length b)%nat then
    exists b', work_entry o (gid :: old_gid :: type :: process :: name :: rest) b = Done b' /\ length b' = length b /\
      forall o' w, (o' + w <= o)%nat -> field o' w b' = field o' w b
  else work_entry o (gid :: old_gid :: type :: process :: name :: rest) b = Fault OutOfBounds.
Proof.
  intros H0 H1 H2. unfold work_entry. cbn [lookup list_lookup]. unfold atoi. rewrite !ato_spec, !bind_Done by done.
  case_decide as Hb.
  - assert (forall off bs b1, length b1 = length b -> (o <= off)%nat -> (off + length bs <= o + 92)%nat ->
      exists b2, store off bs b1 = Done b2 /\ length b2 = length b /\
        forall o' w, (o' + w <= o)%nat -> field o' w b2 = field o' w b1) as Hst.
    { intros off bs b1 Hl Ho Hn. destruct (store_fits off bs b1) as [b2 E]; [lia|]. exists b2. split; [done|].
      split; [rewrite <- Hl; by eapply store_length|]. intros o' w Hw. apply (store_other_field _ _ _ _ _ _ E). lia. }
    pose proof (snprintf_short 32 process ltac:(lia)). pose proof (snprintf_short 48 name ltac:(lia)).
    destruct (Hst (o + 80)%nat (le 4 (number_of gid)) b) as (b1 & -> & L1 & F1); [done|lia|rewrite length_le; lia|].
    rewrite !bind_Done.
    destruct (Hst (o + 88)%nat (le 4 (number_of old_gid)) b1) as (b2 & -> & L2 & F2); [done|lia|rewrite length_le; lia|].
    rewrite !bind_Done.
    destruct (Hst (o + 84)%nat (le 1 (number_of type)) b2) as (b3 & -> & L3 & F3); [done|lia|rewrite length_le; lia|].
    simpl get_or. rewrite !bind_Done.
    destruct (Hst (o + 48)%nat (snprintf_s 32 process ++ [0]) b3) as (b4 & -> & L4 & F4); [done|lia|rewrite length_app; simpl; lia|].
    rewrite !bind_Done.
    destruct (Hst o (snprintf_s 48 name ++ [0]) b4) as (b5 & -> & L5 & F5); [done|lia|rewrite length_app; simpl; lia|].
    exists b5. split; [done|]. split; [done|]. intros o' w Hw. by rewrite F5, F4, F3, F2, F1.
  - destruct (store (o + 80) _ b) as [b1|f] eqn:E1; [|by rewrite (store_fault _ _ _ _ E1)]. rewrite !bind_Done.
    rewrite store_overflows; [done|]. rewrite (store_length _ _ _ _ E1), length_le. lia.
Qed.


(** One round on a rule. *)
Lemma work_item_runs root i n b :
  rule_ok root i ->
  if decide (60 + 96 * n + 92 <= length b)%nat then
    exists b', work_item root i n b = Done (S n, b') /\ length b' = length b /\ field 0 4 b' = field 0 4 b
  else work_item root i n b = Fault OutOfBounds.
Proof.
  unfold rule_ok, work_item. destruct (cJSON_GetObjectItem root (dec i)) as [[| | | |s| |]|]; try done.
  intros (Hs & gid & old & ty & pr & nm & rest & E & H0 & H1 & H2). cbn [valuestring].
  rewrite decodeURI_spec, bind_Done by done. fold (pieces s). rewrite E. cbn [length Nat.leb].
  pose proof (work_entry_runs (60 + 96 * n) gid old ty pr nm rest b H0 H1 H2) as Hw.
  case_decide; [|by rewrite Hw]. destruct Hw as (b' & -> & Hl & Hf). exists b'. rewrite bind_Done.
  split; [done|]. split; [done|]. apply Hf. lia.
Qed.

(** [n] rounds: they go well as long as the entries fit. *)
Lemma work_rounds root b L n :
  load 0 4 b = Done L -> Z.of_nat n <= s32 L -> (forall i, 0 <= i < s32 L -> rule_ok root i) ->
  (exists b', loop_nat n (work_step root) (0, O, b) = inl (Z.of_nat n, n, b') /\ length b' = length b /\
     field 0 4 b' = field 0 4 b /\ (n = O \/ 96 * n + 56 <= length b)%nat) \/
  (loop_nat n (work_step root) (0, O, b) = inr (Fault OutOfBounds) /\ (length b < 96 * n + 56)%nat).
Proof.
  intros HL. induction n as [|n IH]; intros Hn Hok; [left; exists b; auto|].
  destruct IH as [(b' & E & Hl & Hf & _)|[E Hlt]]; [lia|done| |right; split; [|lia]];
    replace (S n) with (n + 1)%nat by lia; rewrite loop_nat_add, E; [|done]. cbn [loop_nat].
  unfold work_step at 1 2. rewrite (load_field 0 4 b b' Hl Hf), HL.
  destruct (Z.ltb_spec (Z.of_nat n) (s32 L)); [|lia].
  pose proof (work_item_runs root (Z.of_nat n) n b' (Hok (Z.of_nat n) ltac:(lia))) as Hw. case_decide as Hd.
  - destruct Hw as (b2 & -> & Hl2 & Hf2). left. exists b2. split; [repeat f_equal; lia|].
    split; [congruence|]. split; [congruence|]. lia.
  - rewrite Hw. right. split; [done|lia].
Qed.

(** C34. [al_parse_work_data] needs 96 bytes for every rule of the request
    and checks nothing: it returns if the block the request got is large
    enough for all of them and writes behind the block if not. *)
Theorem work_overflows root b t :
  cJSON_GetObjectItem root (str "listcount") = Some (JString t) -> Forall (accepts root) work_fields ->
  1 <= number_of t -> (forall i, 0 <= i < number_of t -> rule_ok root i) -> (57 <= length b)%nat ->
  if decide (96 * number_of t + 56 <= Z.of_nat (length b)) then exists b', al_parse_work_data root b = Done b'
  else al_parse_work_data root b = Fault OutOfBounds.
Proof.
  intros Hg Hacc H1 Hok Hb. destruct (do_assigns_spec root work_fields b) as (b0 & E0 & Hl0 & Hh & _); [|done|].
  { unfold work_fields, laid_out, apart. simpl.
    repeat match goal with |- _ /\ _ => split | |- Forall _ [] => apply List.Forall_nil
      | |- Forall _ (_ :: _) => apply List.Forall_cons end; simpl; try lia; exact I. }
  assert (field 0 4 b0 = le 4 (number_of t) /\ number_of t < 2 ^ 31) as [Hf Ht].
  { inversion_clear Hh as [|? ? Hh0 _]. inversion_clear Hacc as [|? ? Ha0 _]. unfold holds, accepts in *.
    cbn [a_key a_off a_conv] in *. rewrite Hg in Hh0, Ha0. cbn [stored acceptable] in *. rewrite length_le in Hh0.
    split; [done|lia]. }
  assert (load 0 4 b0 = Done (wrapu 32 (number_of t))) as HL
    by (unfold load; rewrite decide_True by lia; by rewrite Hf, unle_le).
  assert (s32 (wrapu 32 (number_of t)) = number_of t) as Es.
  { rewrite <- (wraps_small 32 (number_of t)) at 2 by lia. apply wraps_cong. unfold wrapu. by rewrite Z.mod_mod by lia. }
  unfold al_parse_work_data. rewrite E0, bind_Done, loop_counts.
  destruct (work_rounds root b0 _ (Z.to_nat (number_of t)) HL) as [(b' & E & Hl & Hfb & Hfit)|[E Hlt]];
    [lia|by rewrite Es| |]; case_decide; try lia.
  - exists b'. rewrite (loop_nat_mono _ (Z.to_nat (number_of t) + 1) _ _ (Done b')); [done| |unfold INT_ITERS; lia].
    rewrite loop_nat_add, E. cbn [loop_nat]. unfold work_step. rewrite (load_field 0 4 b0 b' Hl Hfb), HL, Es.
    by destruct (Z.ltb_spec (Z.of_nat (Z.to_nat (number_of t))) (number_of t)); [lia|].
  - rewrite (loop_nat_mono _ _ _ _ _ E); [done|unfold INT_ITERS; lia].
Qed.

End Loops.

(** ** Imported files *)

Section Strings.

Context {dbl : Type} (of_dec : bool -> Z -> Z -> dbl) (to_int : dbl -> Z).
Abbreviation json := (CJson.json dbl).
Implicit Types (root v : json) (b : list Z) (s t : cstring) (n : nat).

(** Every string value of the tree has [n] characters at most. *)
Fixpoint short n v : Prop :=
  match v with
  | JString s => (length s <= n)%nat
  | JArray l => (fix all (l : list json) : Prop := match l with [] => True | v :: l => short n v /\ all l end) l
  | JObject l => (fix all (l : list (cstring * json)) : Prop := match l with [] => True | m :: l => short n m.2 /\ all l end) l
  | _ => True
  end.

Lemma short_array n l : short n (JArray l) <-> Forall (short n) l.
Proof. simpl. induction l as [|v l IH]; [done|]. by rewrite Forall_cons, <- IH. Qed.

Lemma short_object n l : short n (JObject l) <-> Forall (fun m => short n m.2) l.
Proof. simpl. induction l as [|v l IH]; [done|]. by rewrite Forall_cons, <- IH. Qed.

Lemma short_item n root k v : short n root -> cJSON_GetObjectItem root k = Some v -> short n v.
Proof.
  destruct root as [| | | | | |l]; try done. rewrite short_object, Forall_forall. intros Hs E.
  apply fmap_Some in E as (m & Ef & ->). apply List.find_some in Ef as [Hin _]. apply Hs. by apply list_elem_of_In.
Qed.

(** What a parser returns satisfies [Q] and leaves [n] characters at most. *)
Definition yields {A} (Q : A -> Prop) n (p : parsed A) : Prop :=
  match p with POk a r => Q a /\ (length r <= n)%nat | _ => True end.

Lemma yields_bind {A B} (Q : A -> Prop) (Q' : B -> Prop) n p (k : A -> cstring -> parsed B) :
  yields Q n p -> (forall a r, Q a -> (length r <= n)%nat -> yields Q' n (k a r)) -> yields Q' n (pbind p k).
Proof. destruct p; simpl; naive_solver. Qed.

Lemma string_copy_short fuel cap : forall s out uc t r,
  string_copy fuel cap s out uc = POk t r -> (length t < cap)%nat.
Proof.
  assert (forall out : list Z, forall o, put cap [0] out = Some o -> (length out < cap)%nat) as Hput.
  { intros out o. unfold put. case_decide as H; [|done]. simpl in H. lia. }
  induction fuel as [|fuel IH]; intros s out uc t r; [done|]. cbn [string_copy]. destruct s as [|c s].
  { destruct (put _ _ _) eqn:E; [|done]. intros [= <- _]. by eapply Hput. }
  destruct (c =? QUOTE); [destruct (put _ _ _) eqn:E; [|done]; intros [= <- _]; by eapply Hput|].
  destruct (negb _); [destruct (put _ _ _); [apply IH|done]|].
  destruct (unescape s uc) as [[[bs n] uc']|]; [|done]. destruct (put _ _ _); [|done].
  case_decide; [apply IH|done].
Qed.

Lemma string_len_bound n : forall s k, (length s <= n)%nat -> string_len s = Some k -> (k <= length s)%nat.
Proof.
  induction n as [|n IH]; intros [|c s] k Hn; simpl in Hn; try lia; try (intros [= <-]; simpl; lia).
  cbn [string_len]. destruct (c =? QUOTE); [intros [= <-]; lia|].
  destruct (c =? BSLASH).
  - destruct s as [|d s]; [done|]. intros (k' & E & ->)%fmap_Some. simpl in Hn. apply IH in E; [|lia]. simpl. lia.
  - intros (k' & E & ->)%fmap_Some. apply IH in E; [|lia]. simpl. lia.
Qed.

Lemma parse_string_yields s n : (length s <= n)%nat -> yields (fun t => length t <= n)%nat n (parse_string s).
Proof.
  intros Hn. unfold yields. pose proof (parse_string_total s) as Ht. destruct (parse_string s) as [t r| | |] eqn:E; try done.
  split; [|lia]. destruct s as [|c s]; [done|]. cbn [parse_string] in E. destruct (negb _); [done|].
  destruct (string_len s) as [k|] eqn:Ek; [|done]. apply string_copy_short in E.
  apply (string_len_bound (length s)) in Ek; [|lia]. simpl in Hn. lia.
Qed.

Lemma parser_yields n fuel :
  (forall s, (length s <= n)%nat -> yields (short n) n (parse_value of_dec to_int fuel s)) /\
  (forall s, (length s <= n)%nat -> yields (Forall (short n)) n (parse_elems of_dec to_int fuel s)) /\
  (forall s, (length s <= n)%nat -> yields (Forall (fun m => short n m.2)) n (parse_members of_dec to_int fuel s)).
Proof.
  induction fuel as [|fuel (IHv & IHe & IHm)]; [by split_all|]. split_all; intros s Hs.
  - cbn [parse_value]. destruct (is_prefix str_null s); [split; [done|rewrite length_drop; lia]|].
    destruct (is_prefix str_false s); [split; [done|rewrite length_drop; lia]|].
    destruct (is_prefix str_true s); [split; [done|rewrite length_drop; lia]|].
    destruct s as [|c s]; [done|]. destruct (c =? QUOTE).
    { eapply yields_bind; [by apply parse_string_yields|]. intros t r Ht Hr. split; [exact Ht|done]. }
    destruct (_ || _) eqn:Ec.
    { pose proof (parse_number_total of_dec to_int c s Ec) as Hp. unfold yields.
      destruct (parse_number _ _ _) as [v r| | |] eqn:Ep; try done. split; [|lia].
      unfold parse_number in Ep. repeat case_match; simplify_eq; done. }
    pose proof (skip_length s) as Hk. simpl in Hs.
    destruct (c =? 91); [|destruct (c =? 123); [|done]].
    + unfold parse_array. destruct (skip s) as [|d s']; simpl in Hk; [|destruct (d =? 93); [split; [done|lia]|]];
        (eapply yields_bind; [apply IHe; simpl; lia|]); intros l r Hl Hr; (split; [exact (proj2 (short_array n l) Hl)|done]).
    + unfold parse_object. destruct (skip s) as [|d s']; simpl in Hk; [|destruct (d =? 125); [split; [done|lia]|]];
        (eapply yields_bind; [apply IHm; simpl; lia|]); intros l r Hl Hr; (split; [exact (proj2 (short_object n l) Hl)|done]).
  - cbn [parse_elems]. unfold array_turn. pose proof (skip_length s). eapply yields_bind; [apply IHv; lia|]. intros v r Hv Hr.
    pose proof (skip_length r) as Hk. destruct (skip r) as [|c r']; [done|]. simpl in Hk.
    destruct (c =? 44); [|destruct (c =? 93); [split; [by repeat constructor|lia]|done]].
    eapply yields_bind; [apply IHe; lia|]. intros l r2 Hl Hr2. split; [by constructor|done].
  - cbn [parse_members]. unfold object_turn. pose proof (skip_length s). eapply yields_bind; [apply (parse_string_yields _ n); lia|].
    intros k r _ Hr. pose proof (skip_length r) as Hk. destruct (skip r) as [|c r']; [done|]. simpl in Hk.
    destruct (negb _); [done|]. pose proof (skip_length r'). eapply yields_bind; [apply IHv; lia|]. intros v r2 Hv Hr2.
    pose proof (skip_length r2) as Hk2. destruct (skip r2) as [|c2 r3]; [done|]. simpl in Hk2.
    destruct (c2 =? 44); [|destruct (c2 =? 125); [split; [by repeat constructor|lia]|done]].
    eapply yields_bind; [apply IHm; lia|]. intros l r4 Hl Hr4. split; [by constructor|done].
Qed.

(** "There is certainly enough room here": the text of an import fits
    into the block its request got, whatever the request is, because no string
    of a JSON tree is longer than the text it was parsed from. *)
Theorem import_fits text root rest b :
  cJSON_Parse of_dec to_int (restore_spaces text) = POk root rest -> (length text + 1024 <= length b)%nat ->
  al_parse_import_data root b <> Fault OutOfBounds.
Proof.
  intros Hp Hb. assert (short (length text) root) as Hs.
  { unfold cJSON_Parse in Hp. pose proof (skip_length (restore_spaces text)) as Hk.
    unfold restore_spaces in *. rewrite length_fmap in *.
    destruct (parser_yields (length text) (2 * length text + 2)) as [Hy _]. specialize (Hy _ Hk). rewrite Hp in Hy. exact (proj1 Hy). }
  unfold al_parse_import_data. destruct (cJSON_GetObjectItem root (str "filedata")) as [v|] eqn:Ev; [|done].
  pose proof (short_item _ _ _ _ Hs Ev) as Hv. destruct v as [| | | |s| |]; try done. simpl in Hv. simpl get_or.
  rewrite bind_Done. destruct (store_fits 0 (s ++ [0]) b) as [b' ->]; [rewrite length_app; simpl; lia|done].
Qed.

End Strings.

(** ** Instances *)

Definition text_member (k v : string) : cstring * CJson.json (Z * Z) := (str k, JString (str v)).

Definition ex_rights : CJson.json (Z * Z) :=
  JObject [text_member "group_num" "2"; text_member "8" "3"; text_member "3" "127"].

Lemma encrypt_entries_witness :
  exists b', al_parse_encrypt_data ex_rights (replicate 1024 0) = Done b' /\ field 4 8 b' = [3; 0; 0; 0; 0; 0; 0; 127].
Proof.
  destruct (encrypt_entries ex_rights (replicate 1024 0) 9 (str "2")) as (b' & E & _ & _ & He).
  - reflexivity.
  - vm_compute. split; [discriminate|reflexivity].
  - vm_compute. discriminate.
  - intros m Hm. do 9 (destruct m as [|m]; [vm_compute; repeat split; discriminate|]). lia.
  - rewrite length_replicate. vm_compute. lia.
  - lia.
  - exists b'. split; [exact E|]. exact (He O 3 eq_refl).
Defined.

(** A group number is not the name of another member. *)
Lemma dec_not_named j (k : cstring) :
  0 <= j < 2 ^ 31 -> is_digit (tolower (hd 0 k)) = false -> strcasecmp_eq k (dec j) = false.
Proof.
  intros Hj Hk. unfold dec. destruct (Z.ltb_spec j 0); [lia|].
  destruct (dec_loop_spec 19 j []) as (ds & E & Hf & Hne & _); [lia|]. rewrite E, app_nil_r.
  apply bool_decide_eq_false. intros Eq. destruct ds as [|d ds]; [done|]. destruct k as [|c k]; [done|].
  injection Eq as Ec _. inversion_clear Hf as [|? ? Hd _]. simpl in Hk. rewrite Ec in Hk. clear Ec.
  assert (tolower d = d) as Et; [|congruence].
  clear -Hd. apply andb_true_iff in Hd as [H1 H2]. apply Z.leb_le in H1, H2. unfold tolower.
  destruct (Z.leb_spec 65 d); [lia|done].
Qed.

Definition ex_no_rights : CJson.json (Z * Z) := JObject [text_member "group_num" "1"].

Lemma ex_no_group j : 0 <= j < 2 ^ 31 -> cJSON_GetObjectItem ex_no_rights (dec j) = None.
Proof.
  intros Hj. unfold ex_no_rights, cJSON_GetObjectItem. cbn [List.find fst text_member].
  by rewrite dec_not_named by done.
Qed.

Lemma ex_no_groups n : Z.of_nat n <= 2 ^ 31 -> groups ex_no_rights n = [].
Proof. induction n as [|n IH]; intros Hn; [done|]. by rewrite groups_S, IH, ex_no_group by lia. Qed.

Lemma encrypt_overruns_witness : al_parse_encrypt_data ex_no_rights (replicate 1024 0) = Fault ArithUB.
Proof.
  destruct (encrypt_overruns ex_no_rights (replicate 1024 0) (str "1")) as [E _]; [..|exact E].
  - reflexivity.
  - vm_compute. split; [discriminate|reflexivity].
  - rewrite ex_no_groups by lia. reflexivity.
  - intros j Hj. unfold right_ok. by rewrite ex_no_group.
  - rewrite ex_no_groups by lia. rewrite length_replicate. cbn [length]. lia.
Defined.

(** Fifteen rules, which a request of less than 300 bytes holds. *)
Definition ex_rules : CJson.json (Z * Z) :=
  JObject (text_member "listcount" "15" :: ((fun i => (dec i, JString (str "1|1|0|p|n"))) <$> seqZ 0 15)).

Lemma work_overflows_witness : al_parse_work_data ex_rules (replicate (1024 + 300) 0) = Fault OutOfBounds.
Proof.
  pose proof (work_overflows ex_rules (replicate (1024 + 300) 0) (str "15")) as H.
  rewrite decide_False in H by (vm_compute; auto). apply H.
  - reflexivity.
  - unfold work_fields. repeat apply List.Forall_cons; try apply List.Forall_nil; vm_compute; try exact I.
    split; [discriminate|reflexivity].
  - vm_compute. discriminate.
  - intros i Hi. change (number_of (str "15")) with 15 in Hi.
    assert (cJSON_GetObjectItem ex_rules (dec i) = Some (JString (str "1|1|0|p|n"))) as E.
    { assert (i ∈ seqZ 0 15) as Hin by (apply elem_of_seqZ; lia). clear Hi. revert i Hin. apply Forall_forall.
      let l := eval vm_compute in (seqZ 0 15) in change (seqZ 0 15) with l.
      repeat apply List.Forall_cons; try apply List.Forall_nil; vm_compute; reflexivity. }
    unfold rule_ok. rewrite E. split; [vm_compute; repeat constructor; discriminate|].
    exists (str "1"), (str "1"), (str "0"), (str "p"), (str "n"), []. vm_compute. repeat split; discriminate.
  - rewrite length_replicate. lia.
Defined.

Lemma import_fits_witness :
  al_parse_import_data (JObject [text_member "filedata" "a,b"]) (replicate 1043 0) <> Fault OutOfBounds.
Proof.
  apply (import_fits ex_of_dec fst (RequestFacts.quoted "{'filedata':'a,b'}") _ []).
  - reflexivity.
  - rewrite length_replicate. vm_compute. lia.
Defined.
