(* ===== verification/Save.v ===== *)
(** * Save: what is kept of the users' activities, and when
    ([src/TCP_C/auto_data_save.c])

    Every ten minutes a worker brings the tables of [Users] up to date and
    writes finished hours to the record store; once a day it writes the day's
    statistics per user and group, removes old records and starts afresh.
    After a restart the statistics that are missing are computed again.

    The store is any instance of [RecordStore].  The functions run in a monad
    over the tables and the store, in which a fault, the end of the process
    and a loop that has not ended yet are outcomes of their own.  What
    [wys_malloc] and [wys_realloc] answer is part of the state; [wys_malloc]
    zeroes the block.  The functions of the worker that are only declared in
    the repository are parameters. *)

From Stdlib Require Import Ascii String.
From S2P Require Import Prelude CString Bytes Registry Timer Rules CText Users Cache CJson Allocator Db Store.
Import Registry CText.
Local Open Scope string_scope.
Local Open Scope list_scope.
Local Open Scope Z_scope.

Module Save.

Definition DB_KVN_MAX : Z := 1024.
Definition DB_SCAN_MAX : Z := 1024.
Definition USERID_LEN : nat := 6.
Definition MAX_RULE_NUM : Z := 1024.
Definition AN_DETAIL_MAX : nat := 8.
Definition DAY : Z := 86400.

Definition PRE_USER_ID := str "stui-".
Definition PRE_USER_ID_SE := str "stui.".
Definition PRE_USER_GROUP := str "stug-".
Definition PRE_USER_GROUP_SE := str "stug.".
Definition PRE_USER_STAT := str "stus-".
Definition PRE_USER_STAT_SE := str "stus.".
Definition PRE_USERGROUP_CALC_ACTION := str "anuga-".
Definition PRE_USERGROUP_CALC_ACTTIME := str "anugat-".
Definition PRE_USER_ACTION := str "dyua-".
Definition PRE_USER_QQ_MESSAGE := str "dyuq-".
Definition PRE_USER_QQ_CALC_MSG := str "anuq-".
Definition PRE_USER_QQ_CALC_MSGTIME := str "anuqt-".
Definition PRE_USER_CALC_ACTION := str "anua-".
Definition PRE_USER_CALC_ACTTIME := str "anuat-".
Definition PRE_USER_DETAIL_ACTION := str "anud-".
Definition PRE_USER_DETAIL_ACTTIME := str "anudt-".

(** ** Running *)

(** [Exit]: the process has ended; [More]: the fuel was not enough. *)
Inductive res (T A : Type) := Ret (a : A) (s : T) | Bad (f : fault) | Exit (s : T) | More.
Arguments Ret {T A} a s.
Arguments Bad {T A} f.
Arguments Exit {T A} s.
Arguments More {T A}.

Definition M (T A : Type) : Type := T -> res T A.

#[global] Instance M_ret T : MRet (M T) := fun A a s => Ret a s.
#[global] Instance M_bind T : MBind (M T) := fun A B k m s =>
  match m s with Ret a s => k a s | Bad f => Bad f | Exit s => Exit s | More => More end.

Section Monad.
Context {T : Type}.
Definition lift {A} (o : outcome A) : M T A := fun s => match o with Done a => Ret a s | Fault f => Bad f end.
Definition gets {A} (f : T -> A) : M T A := fun s => Ret (f s) s.
Definition modify (f : T -> T) : M T unit := fun s => Ret tt (f s).
Definition more {A} : M T A := fun _ => More.
Definition an_exit {A} : M T A := fun s => Exit s.

Fixpoint each {X} (body : X -> M T unit) (l : list X) : M T unit :=
  match l with [] => mret tt | x :: l => _ ← body x; each body l end.

(** A loop whose body may leave the function with a return value. *)
Fixpoint for_each {X R} (body : X -> M T (option R)) (l : list X) : M T (option R) :=
  match l with
  | [] => mret None
  | x :: l => r ← body x; match r with Some r => mret (Some r) | None => for_each body l end
  end.

(** The same with a value that is carried from one turn to the next. *)
Fixpoint for_fold {X Y R} (body : X -> Y -> M T (Y + R)) (l : list X) (y : Y) : M T (Y + R) :=
  match l with
  | [] => mret (inl y)
  | x :: l => r ← body x y; match r with inl y => for_fold body l y | inr r => mret (inr r) end
  end.
End Monad.

(** How [wys_realloc] ends. *)
Inductive grown := InPlace | Moved | Failed.

Record st (S : Type) := St {
  t_users : UserAction.users; t_groups : Group.groups; t_details : Detail.details; t_qqs : QQ.qqs;
  t_work : WorkRule.work;
  auto_save_user_group_user_cnt : gmap Z Z;
  db : S;
  mallocs : list addr; reallocs : list grown;
  systime : option Z
}.
Arguments St {S}.
Arguments t_users {S}.
Arguments t_groups {S}.
Arguments t_details {S}.
Arguments t_qqs {S}.
Arguments t_work {S}.
Arguments auto_save_user_group_user_cnt {S}.
Arguments db {S}.
Arguments mallocs {S}.
Arguments reallocs {S}.
Arguments systime {S}.

(** What the functions take from outside: the fuel of loops without a bound of
    their own, the time zone, the tables of program names, and what the bytes
    a block grew by hold. *)
Class Env := {
  fuel : nat;
  localtime : Z -> tm;
  ww_chat_list : list cstring;
  ww_move_list : list cstring;
  junk : Z
}.

Section Save.

Context {S : Type} `{RecordStore S} `{Env}.

Abbreviation state := (st S).
Abbreviation P := (M state).

Definition set_users (x : UserAction.users) (s : state) : state :=
  St x (t_groups s) (t_details s) (t_qqs s) (t_work s) (auto_save_user_group_user_cnt s) (db s) (mallocs s) (reallocs s) (systime s).
Definition set_details (x : Detail.details) (s : state) : state :=
  St (t_users s) (t_groups s) x (t_qqs s) (t_work s) (auto_save_user_group_user_cnt s) (db s) (mallocs s) (reallocs s) (systime s).
Definition set_qqs (x : QQ.qqs) (s : state) : state :=
  St (t_users s) (t_groups s) (t_details s) x (t_work s) (auto_save_user_group_user_cnt s) (db s) (mallocs s) (reallocs s) (systime s).
Definition set_cnt (x : gmap Z Z) (s : state) : state :=
  St (t_users s) (t_groups s) (t_details s) (t_qqs s) (t_work s) x (db s) (mallocs s) (reallocs s) (systime s).
Definition set_db (x : S) (s : state) : state :=
  St (t_users s) (t_groups s) (t_details s) (t_qqs s) (t_work s) (auto_save_user_group_user_cnt s) x (mallocs s) (reallocs s) (systime s).
Definition set_mallocs (x : list addr) (s : state) : state :=
  St (t_users s) (t_groups s) (t_details s) (t_qqs s) (t_work s) (auto_save_user_group_user_cnt s) (db s) x (reallocs s) (systime s).
Definition set_reallocs (x : list grown) (s : state) : state :=
  St (t_users s) (t_groups s) (t_details s) (t_qqs s) (t_work s) (auto_save_user_group_user_cnt s) (db s) (mallocs s) x (systime s).

Definition set_systime (sec : Z) : P unit := modify (fun s =>
  St (t_users s) (t_groups s) (t_details s) (t_qqs s) (t_work s) (auto_save_user_group_user_cnt s) (db s) (mallocs s) (reallocs s)
     (Some (u32 sec))).

(** What [wys_malloc] returns if it is called here; null when there is no more
    memory. *)
Definition malloc : P addr := fun s =>
  match mallocs s with a :: l => Ret a (set_mallocs l s) | [] => Ret NULL s end.

Definition realloc : P grown := fun s =>
  match reallocs s with g :: l => Ret g (set_reallocs l s) | [] => Ret Moved s end.

(** An operation on the users, or on the store. *)
Definition on_users {A} (f : UserAction.users -> outcome (A * UserAction.users)) : P A := fun s =>
  match f (t_users s) with Done (a, x) => Ret a (set_users x s) | Fault e => Bad e end.

Definition on_db {A} (f : S -> A * S) : P A := fun s => let '(a, x) := f (db s) in Ret a (set_db x s).

(** ** Keys

    [snprintf] into an array of 64 characters returns the length of the whole
    text. *)
Definition buf64 (text : cstring) : cstring * Z := (snprintf_s 64 text, len text).

Definition get (text : cstring) : P (option reply) := on_db (dbget (buf64 text).1 (buf64 text).2).
Definition scan (a b : cstring) (max : Z) : P (option reply) :=
  on_db (dbscan (buf64 a).1 (buf64 a).2 (buf64 b).1 (buf64 b).2 max).
Definition del (text : cstring) : P (option reply) := on_db (dbdel (buf64 text).1 (buf64 text).2).

(** [!r || r->rno != ok] *)
Definition failed (ok : Z) (r : option reply) : bool :=
  match r with Some r => negb (rno r =? ok) | None => true end.

Definition found (r : option reply) : list record := match r with Some r => kvs r | None => [] end.

(** [%d] and [%llu]; a key is a C string. *)
Definition d (n : Z) : cstring := dec (s32 n).
Definition llu (n : Z) : cstring := dec n.
Definition dash : cstring := [45].
Definition dot : cstring := [46].
Definition cstr (key : list Z) : cstring := c_string (key ++ [0]).

(** ** Removing old records *)

Definition del_kvs (l : list record) : P unit := each (fun x => _ ← del (cstr x.1); mret tt) l.

(** [gmt_u64 ? gmt_u64+1 : 0] *)
Definition succ0 (gmt : Z) : Z := if gmt =? 0 then 0 else u64 (gmt + 1).

(** The loop the four functions share. *)
Fixpoint del_loop (n : nat) (start : Z -> cstring) (end_ : cstring) (next : list Z -> outcome Z) (gmt_u64 : Z) : P Z :=
  match n with
  | O => more
  | Datatypes.S n =>
    r ← scan (start gmt_u64) end_ DB_KVN_MAX;
    if failed DB_SCAN_OK r then mret (-1)
    else
      gmt_u64 ← (match last (found r) with Some x => lift (next x.1) | None => mret gmt_u64 end);
      _ ← del_kvs (found r);
      match found r with [] => mret 0 | _ => del_loop n start end_ next gmt_u64 end
  end.

(** [atoull (key + strlen (prefix) + USERID_LEN)] *)
Definition gmt_of_user (prefix : cstring) (key : list Z) : outcome Z :=
  let off := (length prefix + USERID_LEN)%nat in
  if decide (off <= length (cstr key))%nat then Done (atoull (Some (drop off (cstr key)))) else Fault OutOfBounds.

(** The text behind the next dash; without one the loop leaves the string. *)
Fixpoint after_dash (p : cstring) : outcome cstring :=
  match p with [] => Fault OutOfBounds | c :: p => if c =? 45 then Done p else after_dash p end.

Definition gmt_of_group (prefix : cstring) (key : list Z) : outcome Z :=
  if decide (length prefix <= length (cstr key))%nat then
    p ← after_dash (drop (length prefix) (cstr key)); Done (atoull (Some p))
  else Fault OutOfBounds.

Definition ww_del_user_db_data_by_uid_type_gmt_prefix (gmt_u64 uid : Z) (prefix : cstring) (type : Z) : P Z :=
  del_loop fuel (fun g => prefix ++ d uid ++ dash ++ d type ++ dash ++ llu (succ0 g))
    (prefix ++ d uid ++ dash ++ d type ++ dot) (gmt_of_user prefix) gmt_u64.

Definition ww_del_user_db_data_by_gmt_uid_prefix (gmt_u64 uid : Z) (prefix : cstring) : P Z :=
  del_loop fuel (fun g => prefix ++ d uid ++ dash ++ llu (succ0 g)) (prefix ++ d uid ++ dot) (gmt_of_user prefix) gmt_u64.

Definition ww_del_user_qq_msg_data_by_gmt_uid_prefix (gmt_u64 uid : Z) (prefix : cstring) (qq_id : Z) : P Z :=
  del_loop fuel (fun g => prefix ++ d uid ++ dash ++ d qq_id ++ dash ++ llu (succ0 g))
    (prefix ++ d uid ++ dash ++ d qq_id ++ dot) (gmt_of_user prefix) gmt_u64.

Definition ww_del_group_db_data_by_gmt_gid_prefix (gmt_u64 gid : Z) (prefix : cstring) : P Z :=
  del_loop fuel (fun g => prefix ++ d gid ++ dash ++ llu (succ0 g)) (prefix ++ d gid ++ dot) (gmt_of_group prefix) gmt_u64.

(** [qqs->account] *)
Definition account_of (v : list Z) : outcome Z := load 0 4 v.

(** One record of the inner loop. *)
Definition qq_contact (gmt_u64 uid : Z) (x : record) : P unit :=
  account ← lift (account_of x.2);
  _ ← ww_del_user_qq_msg_data_by_gmt_uid_prefix gmt_u64 uid PRE_USER_QQ_CALC_MSG account;
  if gmt_u64 =? 0 then _ ← del (cstr x.1); mret tt else mret tt.

(** [scanflag] is where the next scan starts, empty at first. *)
Fixpoint qq_loop (n : nat) (gmt_u64 uid : Z) (scanflag : cstring) : P Z :=
  match n with
  | O => more
  | Datatypes.S n =>
    let start := match scanflag with [] => PRE_USER_QQ_CALC_MSGTIME ++ d uid ++ dash | _ => scanflag end in
    r ← scan start (PRE_USER_QQ_CALC_MSGTIME ++ d uid ++ dot) DB_KVN_MAX;
    if failed DB_SCAN_OK r then mret (-1)
    else
      _ ← each (qq_contact gmt_u64 uid) (found r);
      match last (found r) with
      | None => mret 0
      | Some x =>
        account ← lift (account_of x.2);
        qq_loop n gmt_u64 uid (PRE_USER_QQ_CALC_MSGTIME ++ d uid ++ dash ++ d (account + 1))
      end
  end.

(** The parameter [prefix] is not used. *)
Definition ww_del_user_qq_data_by_gmt_uid_prefix (gmt_u64 uid : Z) : P Z := qq_loop fuel gmt_u64 uid [].

End Save.
End Save.
