(* ===== verification/SaveCalc.v ===== *)
(** * SaveCalc: the statistics of a day

    The functions of [auto_data_save.c] that write the statistics of users and
    groups, at the end of a day ([ww_save_all_user_calc_act_to_db],
    [ww_save_all_group_calc_act_to_db]) or again after the fact
    ([ww_save_user_calc_act_to_db], [resave_usergroup_calc_action] and the
    checks that call them).  A value is the packed structure
    [an_user_calc_acts_t]: twelve bytes of header and a hundred per activity. *)

From Stdlib Require Import Ascii String.
From S2P Require Import Prelude CString Bytes Registry Timer Rules CText Users Cache CJson Allocator Db Store Save.
Import Registry CText Save.
Local Open Scope Z_scope.

Module SaveCalc.

Import UserAction.

Definition HEAD : nat := 12.
Definition ACT : nat := 100.

Section Calc.

Context {S : Type} `{RecordStore S} `{Env}.

Abbreviation P := (M (st S)).

(** ** The block of a save

    [save_datas] is [blk]; [save_data] points to byte [pos] of it, or into a
    block that is gone if not [here]. *)
Record sbuf := Sbuf { blk : list Z; act_num : Z; here : bool; pos : nat }.

Definition block_size (n : Z) : nat := (HEAD + Z.to_nat n * ACT)%nat.

(** The block of [save_datas] and the one of [kvs]. *)
Definition new_block : P (option sbuf) :=
  a ← malloc;
  k ← (if a =? NULL then mret NULL else malloc);
  mret (if k =? NULL then None else Some (Sbuf (replicate (block_size 1024) 0) 1024 true HEAD)).

(** [save_data = save_datas->data] *)
Definition rewind (b : sbuf) : sbuf := Sbuf (blk b) (act_num b) true HEAD.

(** One [an_user_calc_act_t]. *)
Definition put_action (pos : nat) (x : ww_action_list) (category : Z) (b : list Z) : outcome (list Z) :=
  b ← Bytes.store (pos + 80) (le 4 (time x)) b;
  b ← Bytes.store (pos + 84) (le 4 (type x)) b;
  b ← Bytes.store (pos + 48) (snprintf_s 32 (pro_name x) ++ [0]) b;
  b ← Bytes.store pos (snprintf_s 48 (act_name x) ++ [0]) b;
  b ← Bytes.store (pos + 92) (le 4 (key_click x)) b;
  b ← Bytes.store (pos + 96) (le 4 (mou_click x)) b;
  Bytes.store (pos + 88) (le 4 category) b.

(** [if(act_count > act_num)]: the block doubles.  [rebase] tells whether
    [save_data] is computed again. *)
Definition grow (rebase : bool) (act_count : Z) (b : sbuf) : P (option sbuf) :=
  if act_num b <? act_count then
    g ← realloc;
    let n := s32 (act_num b + act_num b) in
    let bytes := take (block_size n) (blk b) ++ replicate (block_size n - length (blk b)) junk in
    mret match g with
         | Failed => None
         | _ => Some (if rebase then Sbuf bytes n true (HEAD + Z.to_nat (act_count - 1) * ACT)
                      else Sbuf bytes n (here b && match g with InPlace => true | _ => false end) (pos b))
         end
  else mret (Some b).

Definition action (a : addr) : P ww_action_list :=
  s ← gets t_users; lift (get_or UseAfterFree (objs (areg s) !! a)).

Definition category_of (x : ww_action_list) (gid : Z) : P Z :=
  w ← gets t_work; lift (Category.ww_get_category_by_ww_action_list_st ww_chat_list ww_move_list x gid w).

(** The loop over the activities; [hook] is what else it does with one. *)
Fixpoint fill (hook : addr -> P unit) (rebase : bool) (gid : Z) (acts : list addr) (act_count : Z) (b : sbuf) :
    P (option (Z * sbuf)) :=
  match acts with
  | [] => mret (Some (act_count, b))
  | a :: acts =>
    let act_count := act_count + 1 in
    _ ← hook a;
    r ← grow rebase act_count b;
    match r with
    | None => mret None
    | Some b =>
      _ ← lift (if here b then Done tt else Fault UseAfterFree);
      x ← action a;
      c ← category_of x gid;
      bytes ← lift (put_action (pos b) x c (blk b));
      fill hook rebase gid acts act_count (Sbuf bytes (act_num b) true (pos b + ACT))
    end
  end.

Definition no_hook (_ : addr) : P unit := mret tt.

(** The header, and the value that goes to the store. *)
Definition seal (act_count gid : Z) (user_cnt : option Z) (b : list Z) : outcome (list Z) :=
  b ← Bytes.store 4 (le 4 act_count) b;
  b ← Bytes.store 0 (le 4 gid) b;
  match user_cnt with Some n => Bytes.store 8 (le 4 n) b | None => Done b end.

Definition value (act_count : Z) (b : list Z) : list Z := take (HEAD + Z.to_nat act_count * ACT) b.

Definition kv (key : cstring) (val : list Z) : Db.arg := Db.Arg (buf64 key).1 (buf64 key).2 val (len val).

Definition multi_set (l : list Db.arg) : P bool :=
  r ← on_db (dbmulti_set l); mret (failed DB_MULTI_SET_OK r).

(** A time of the store, [old] if there is none; [None] if the call failed. *)
Definition get_time (key : cstring) (old : Z) : P (option Z) :=
  r ← get key;
  if failed DB_GET_OK r && failed DB_NOT_FOUND r then mret None
  else match found r with
       | [] => mret (Some old)
       | x :: _ => t ← lift (load 0 8 x.2); mret (Some t)
       end.

Definition actions_of (owner : addr) (s : users) : list addr := tget (tbl (areg s)) (F_ALL, (owner, 0)).

Definition the_user (a : addr) : P ww_user_action := s ← gets t_users; lift (deref (ureg s) a).

Definition acttime_key (gid : Z) : cstring := PRE_USERGROUP_CALC_ACTTIME ++ d gid.

(** [if(t <= day_time) t = day_time + 24*3600;] *)
Definition next_day (t day_time : Z) : Z := if t <=? day_time then u64 (day_time + DAY) else t.

Definition ww_save_user_calc_act_to_db (user : addr) : P Z :=
  u ← the_user user;
  r ← get_time (acttime_key (group_id u)) 0;
  match r with
  | None => mret (-1)
  | Some group_time =>
    r ← get_time (acttime_key 0) 0;
    match r with
    | None => mret (-1)
    | Some all_group_time =>
      r ← new_block;
      match r with
      | None => mret (-1)
      | Some b =>
        s ← gets t_users;
        r ← fill no_hook false (group_id u) (actions_of user s) 0 b;
        match r with
        | None => mret (-1)
        | Some (act_count, b) =>
          bytes ← lift (seal act_count (group_id u) None (blk b));
          bad ← multi_set
            [kv (PRE_USER_CALC_ACTION ++ d (user_id u) ++ dash ++ llu (day_time u)) (value act_count bytes);
             kv (PRE_USER_CALC_ACTTIME ++ d (user_id u)) (le 8 (day_time u));
             kv (acttime_key (group_id u)) (le 8 (next_day group_time (day_time u)));
             kv (acttime_key 0) (le 8 (next_day all_group_time (day_time u)))];
          mret (if (bad : bool) then -1 else 0)
        end
      end
    end
  end.

(** [action_list] belongs to [owner]. *)
Definition ww_save_group_calc_act_to_db (gid : Z) (owner : addr) (histroy_u64 user_cnt : Z) : P Z :=
  r ← new_block;
  match r with
  | None => mret (-1)
  | Some b =>
    s ← gets t_users;
    r ← fill no_hook false gid (actions_of owner s) 0 b;
    match r with
    | None => mret (-1)
    | Some (act_count, b) =>
      bytes ← lift (seal act_count gid (Some user_cnt) (blk b));
      bad ← multi_set
        [kv (PRE_USERGROUP_CALC_ACTION ++ d gid ++ dash ++ llu histroy_u64) (value act_count bytes);
         kv (acttime_key gid) (le 8 histroy_u64)];
      mret (if (bad : bool) then -1 else 0)
    end
  end.

(** ** Statistics of a group *)

Definition set_action (a : addr) (x : ww_action_list) : P unit :=
  on_users (fun s => Done (tt, Users (ureg s) (Reg (<[a := x]> (objs (areg s))) (tbl (areg s))))).

(** The chain an activity belongs to; [index] is what the variable holds. *)
Definition action_index (x : ww_action_list) (index : Z) : Z :=
  if type x =? OT_BROWSER_CLOSE_URL then ww_action_name_hash (act_name x)
  else if type x =? OT_WINDOW_CLOSE then ww_action_name_hash (pro_name x) else index.

(** [list_add_tail] to the owner's list and [hlist_add_head] to its chain. *)
Definition enlist (owner a : addr) (index : Z) : P unit :=
  on_users (fun s =>
    let t := add_tail (F_ALL, (owner, 0)) a (tbl (areg s)) in
    Done (tt, Users (ureg s) (Reg (objs (areg s)) (add_head (F_HASH, (owner, index)) a t)))).

(** [time], [key_click] and [mou_click] grow. *)
Definition add_to (x : ww_action_list) (t k m : Z) : ww_action_list :=
  Action (act_name x) (pro_name x) (u32 (time x + t)) (type x) (u32 (key_click x + k)) (u32 (mou_click x + m)) (category x).

Definition ww_auto_save_syn_to_group (group a : addr) : P Z :=
  x ← action a;
  p ← malloc;
  g ← on_users (ww_action_st_user_name_type_find_create group (pro_name x) (act_name x) (type x) (category x) p);
  if g =? NULL then mret (-1)
  else
    y ← action g;
    _ ← (if type y =? 0 then
           let y := Action (take 48 (act_name x)) (take 32 (pro_name x)) 0 (type x) (key_click y) (mou_click y) (category x) in
           _ ← set_action g y;
           enlist group g (action_index y 0)
         else mret tt);
    y ← action g;
    _ ← set_action g (add_to y (time x) (key_click x) (mou_click x));
    mret 0.

(** [list_add_tail (&group->group_list, &auto_save_user_group_list)]; a group
    that is on a list already would tie the list to a loop. *)
Definition enlist_group (a : addr) : P unit :=
  on_users (fun s =>
    if is_linked F_GROUP a (tbl (ureg s)) then Fault UseAfterFree
    else Done (tt, Users (Reg (objs (ureg s)) (add_tail AUTO_SAVE a (tbl (ureg s)))) (areg s))).

Definition set_user (a : addr) (u : ww_user_action) : P unit :=
  on_users (fun s => Done (tt, Users (Reg (<[a := u]> (objs (ureg s))) (tbl (ureg s))) (areg s))).

(** [auto_save_user_group_user_cnt[gid]++] *)
Definition count_user (gid : Z) : P unit :=
  m ← gets auto_save_user_group_user_cnt;
  if (0 <=? gid) && (gid <? GROUP_ID_MAX) then modify (set_cnt (<[gid := u32 (default 0 (m !! gid) + 1)]> m))
  else lift (Fault OutOfBounds).

(** One user of [ww_save_all_user_calc_act_to_db]. *)
Definition save_user (group_all user : addr) (b : sbuf) : P (sbuf + Z) :=
  u ← the_user user;
  p ← malloc;
  group ← on_users (ww_user_action_gid_find_create (u32 (group_id u)) p);
  if group =? NULL then mret (inr (-1))
  else
    g ← the_user group;
    _ ← (if group_id g =? 0 then
           _ ← set_user group (UserAction (user_id g) (group_id u) (start_time g) (end_time g) (day_time u));
           all ← the_user group_all;
           _ ← (if day_time all <? day_time u
                then set_user group_all (UserAction (user_id all) (group_id all) (start_time all) (end_time all) (day_time u))
                else mret tt);
           enlist_group group
         else mret tt);
    _ ← count_user (group_id u);
    _ ← count_user 0;
    s ← gets t_users;
    r ← fill (fun a => _ ← ww_auto_save_syn_to_group group a; _ ← ww_auto_save_syn_to_group group_all a; mret tt)
             true (group_id u) (actions_of user s) 0 (rewind b);
    match r with
    | None => mret (inr (-1))
    | Some (act_count, b) =>
      bytes ← lift (seal act_count (group_id u) None (blk b));
      bad ← multi_set
        [kv (PRE_USER_CALC_ACTION ++ d (user_id u) ++ dash ++ llu (day_time u)) (value act_count bytes);
         kv (PRE_USER_CALC_ACTTIME ++ d (user_id u)) (le 8 (day_time u))];
      mret (if (bad : bool) then inr (-1) else inl (Sbuf bytes (act_num b) true (pos b)))
    end.

Definition ww_save_all_user_calc_act_to_db : P Z :=
  _ ← modify (set_cnt ∅);
  r ← new_block;
  match r with
  | None => mret (-1)
  | Some b =>
    p ← malloc;
    all ← on_users (ww_user_action_gid_find_create 0 p);
    if all =? NULL then mret (-1)
    else
      g ← the_user all;
      _ ← set_user all (UserAction (user_id g) 0 (start_time g) (end_time g) (day_time g));
      _ ← enlist_group all;
      s ← gets t_users;
      r ← for_fold (save_user all) (tget (tbl (ureg s)) (F_ALL, (0, 0))) b;
      mret match r with inl _ => 0 | inr r => r end
  end.

(** One group of [ww_save_all_group_calc_act_to_db]. *)
Definition save_group (group : addr) (b : sbuf) : P (sbuf + Z) :=
  g ← the_user group;
  s ← gets t_users;
  r ← fill no_hook false (group_id g) (actions_of group s) 0 (rewind b);
  match r with
  | None => mret (inr (-1))
  | Some (act_count, b) =>
    m ← gets auto_save_user_group_user_cnt;
    cnt ← lift (if (0 <=? group_id g) && (group_id g <? GROUP_ID_MAX) then Done (default 0 (m !! group_id g))
                else Fault OutOfBounds);
    bytes ← lift (seal act_count (group_id g) (Some cnt) (blk b));
    bad ← multi_set
      [kv (PRE_USERGROUP_CALC_ACTION ++ d (group_id g) ++ dash ++ llu (day_time g)) (value act_count bytes);
       kv (acttime_key (group_id g)) (le 8 (day_time g))];
    mret (if (bad : bool) then inr (-1) else inl (Sbuf bytes (act_num b) true (pos b)))
  end.

Definition ww_save_all_group_calc_act_to_db : P Z :=
  r ← new_block;
  match r with
  | None => mret (-1)
  | Some b =>
    s ← gets t_users;
    r ← for_fold save_group (tget (tbl (ureg s)) AUTO_SAVE) b;
    mret match r with inl _ => 0 | inr r => r end
  end.

End Calc.

End SaveCalc.
