(* ===== verification/SaveCheck.v ===== *)
(** * SaveCheck: statistics computed again

    After a restart, [ww_user_calc_action_save_check] looks for the days whose
    statistics were not written.  A user's day is put together from the log
    messages in the store ([resave_user_calc_action]), a group's from the
    statistics of its users ([resave_usergroup_calc_action]).  Times in the
    store are reversed: a later moment is a smaller number. *)

From Stdlib Require Import Ascii String.
From S2P Require Import Prelude CString Bytes Registry Timer Rules CText Users Cache CJson Allocator Db Store Save SaveCalc.
Import Registry CText Save SaveCalc.
Local Open Scope Z_scope.

Module SaveCheck.

Import UserAction.

(** The functions of the worker that add the part of an activity before
    midnight to the statistics of the day before. *)
Class Worker (S : Type) := {
  resave_out_time_calc_act_to_user : list Z -> Z -> Z -> M (st S) Z;
  resave_out_time_calc_act_to_group : list Z -> Z -> M (st S) Z
}.

Section Check.

Context {S : Type} `{RecordStore S} `{Env} `{Worker S}.

Abbreviation P := (M (st S)).

(** ** A group's day *)

(** The list and the table of chains on the stack. *)
Definition LOCAL : addr := -1.

Definition init_local : P unit :=
  on_users (fun s =>
    let t := init_heads F_HASH LOCAL (Z.to_nat HASH_SIZE) (<[(F_ALL, (LOCAL, 0)) := []]> (tbl (areg s))) in
    Done (tt, Users (ureg s) (Reg (objs (areg s)) t))).

Definition text_at (off : nat) (v : list Z) : outcome cstring := Category.until_nul (drop off v).

(** One [an_user_calc_act_t] of a saved value; [Some] is the return value. *)
Definition merge_act (v : list Z) (j : nat) : P (option Z) :=
  let o := (HEAD + j * ACT)%nat in
  pro ← lift (text_at (o + 48) v);
  act ← lift (text_at o v);
  ty ← lift (load (o + 84) 4 v);
  p ← malloc;
  a ← on_users (ww_action_st_hash_name_type_find_create LOCAL pro act ty p);
  if a =? NULL then mret (Some (-1))
  else
    x ← action a;
    _ ← (if type x =? 0 then
           c ← lift (load (o + 88) 4 v);
           let x := Action (snprintf_s 48 act) (snprintf_s 32 pro) 0 ty (key_click x) (mou_click x)
                      (if c =? Category.AN_CALC_ATTEMPT then 1 else 0) in
           _ ← set_action a x;
           enlist LOCAL a (action_index x 0)
         else mret tt);
    x ← action a;
    t ← lift (load (o + 80) 4 v);
    k ← lift (load (o + 92) 4 v);
    m ← lift (load (o + 96) 4 v);
    _ ← set_action a (add_to x t k m);
    mret None.

(** One user; the number of users so far is carried along. *)
Definition merge_user (gid histroy_u64 : Z) (x : record) (user_cnt : Z) : P (Z + Z) :=
  uid ← lift (load 0 4 x.2);
  r ← get (PRE_USER_CALC_ACTION ++ d uid ++ dash ++ llu histroy_u64);
  if failed DB_GET_OK r && failed DB_NOT_FOUND r then mret (inr (-1))
  else
    match found r with
    | [] =>
      r ← get (PRE_USER_GROUP ++ d uid);
      if failed DB_GET_OK r then mret (inr (-1))
      else
        y ← lift (get_or NullDeref (head (found r)));
        g ← lift (load 0 4 y.2);
        mret (inl (if negb (gid =? 0) && (g =? u32 gid) then u32 (user_cnt + 1) else user_cnt))
    | y :: _ =>
      g ← lift (load 0 4 y.2);
      if negb (gid =? 0) && negb (g =? u32 gid) then mret (inl user_cnt)
      else
        num ← lift (load 4 4 y.2);
        r ← for_each (merge_act y.2) (seq 0 (Z.to_nat num));
        mret match r with Some r => inr r | None => inl (u32 (user_cnt + 1)) end
    end.

Definition resave_usergroup_calc_action (gid histroy_u64 : Z) : P Z :=
  _ ← init_local;
  r ← scan PRE_USER_ID PRE_USER_ID_SE DB_KVN_MAX;
  ret ← (if failed DB_SCAN_OK r then mret (-1)
         else
           r ← for_fold (merge_user gid histroy_u64) (found r) 0;
           match r with
           | inr r => mret r
           | inl user_cnt =>
             r ← ww_save_group_calc_act_to_db gid LOCAL histroy_u64 user_cnt;
             mret (if r =? 0 then 0 else -1)
           end);
  _ ← on_users (fun s => s ← ww_user_action_list_del LOCAL s; Done (tt, s));
  mret ret.

(** ** Days that are missing *)

(** [while(histroy_u64 - today_time > 24*3600)]; the last day that was tried. *)
Fixpoint resave_days (n : nat) (resave : Z -> P Z) (today histroy_u64 : Z) : P (Z + Z) :=
  match n with
  | O => more
  | Datatypes.S n =>
    if DAY <? u64 (histroy_u64 - today) then
      let histroy_u64 := u64 (histroy_u64 - DAY) in
      r ← resave histroy_u64;
      if r =? 0 then resave_days n resave today histroy_u64 else mret (inr (-1))
    else mret (inl histroy_u64)
  end.

(** The check of one group; [histroy_u64] keeps its value when the store has
    none. *)
Definition check_group (today gid histroy_u64 : Z) : P (Z + Z) :=
  r ← get_time (acttime_key gid) histroy_u64;
  match r with
  | None => mret (inr (-1))
  | Some t =>
    let t := if t <=? today then u64 (today + 2 * DAY) else t in
    if today <? t then resave_days fuel (resave_usergroup_calc_action gid) today t else mret (inl t)
  end.

Definition the_group (a : addr) : P Group.ww_group_base_info :=
  s ← gets t_groups; lift (deref (Group.greg s) a).

Definition ww_usergroup_calc_action_save_check (today : Z) : P Z :=
  s ← gets t_groups;
  r ← for_fold (fun a t => g ← the_group a; check_group today (Group.gid g) t)
               (tget (tbl (Group.greg s)) (F_ALL, (0, 0))) 0;
  match r with
  | inr r => mret r
  | inl t => r ← check_group today 0 t; mret match r with inr r => r | inl _ => 0 end
  end.

(** ** A user's day *)

(** Numbers of a log message, in host order. *)
Definition net32 (off : nat) (v : list Z) : outcome Z := n ← load off 4 v; Done (ntohl n).
Definition net64 (off : nat) (v : list Z) : outcome Z := n ← load off 8 v; Done (ntohll n).

(** [strncpy] of the string at [off] into an array of [n] characters; a string
    that fills the array is kept without its terminator. *)
Definition strncpy_at (n off : nat) (v : list Z) : outcome cstring :=
  let l := take n (drop off v) in
  match Category.until_nul l with
  | Done t => Done t
  | Fault e => if decide (length l = n) then Done l else Fault e
  end.

(** Where the title of a window or the name of a site starts. *)
Definition name_at (ty : Z) : nat := (74 + if decide (ty = OT_WINDOW_CLOSE) then 4 else 12)%nat.

(** The activity a message belongs to, new activities being set up; [None] if
    there is no memory. *)
Definition message_action (user : addr) (ty : Z) (v : list Z) : P (option addr) :=
  cat ← lift (net32 20 v);
  nm ← lift (text_at (if decide (ty = OT_WINDOW_CLOSE) then 28 else name_at ty) v);
  p ← malloc;
  a ← on_users (ww_action_st_user_name_type_find_create user nm nm ty cat p);
  if a =? NULL then mret None
  else
    x ← action a;
    _ ← (if type x =? 0 then
           act ← lift (strncpy_at 48 (name_at ty) v);
           pro ← lift (strncpy_at 32 28 v);
           let x := Action act pro 0 ty (key_click x) (mou_click x) (if ty =? OT_WINDOW_CLOSE then cat else category x) in
           _ ← set_action a x;
           enlist user a (action_index x 0)
         else mret tt);
    mret (Some a).

(** An activity that began the day before: the part before midnight goes to
    that day, and the message is stored again without it. *)
Definition split_day (uid gid tm : Z) (key v : list Z) : P (option Z) :=
  r ← resave_out_time_calc_act_to_user v uid gid;
  if negb (r =? 0) then mret (Some (-1))
  else
    r ← resave_out_time_calc_act_to_group v gid;
    if negb (r =? 0) then mret (Some (-1))
    else
      r ← resave_out_time_calc_act_to_group v 0;
      if negb (r =? 0) then mret (Some (-1))
      else
        v ← lift (Bytes.store 0 (le 8 (htonll tm)) v);
        let val := take 2048 v in
        r ← on_db (dbset (buf64 (cstr key)).1 (buf64 (cstr key)).2 val (len val));
        mret (if failed DB_SET_OK r then Some (-1) else None).

(** One message; others than closed windows and sites are passed over. *)
Definition message (user : addr) (uid gid tm : Z) (x : record) : P (option Z) :=
  ty ← lift (net32 16 x.2);
  if negb (ty =? OT_BROWSER_CLOSE_URL) && negb (ty =? OT_WINDOW_CLOSE) then mret None
  else
    n ← lift (load 60 4 x.2);
    if n =? 0 then mret None
    else
      r ← message_action user ty x.2;
      match r with
      | None => mret (Some (-1))
      | Some a =>
        t1 ← lift (net64 0 x.2);
        t2 ← lift (net64 8 x.2);
        r ← (if t1 <? t2 then
               y ← action a;
               if t1 <? tm then
                 _ ← set_action a (add_to y (t2 - tm) 0 0);
                 u ← the_user user;
                 if day_time u =? u64 (GMT_REVERS_MASK - tm) then split_day uid gid tm x.1 x.2 else mret None
               else _ ← set_action a (add_to y (t2 - t1) 0 0); mret None
             else mret None);
        match r with
        | Some r => mret (Some r)
        | None =>
          y ← action a;
          k ← lift (net32 64 x.2);
          m ← lift (net32 68 x.2);
          _ ← set_action a (add_to y 0 k m);
          mret None
        end
      end.

Fixpoint messages (n : nat) (user : addr) (uid gid tm start end_ gmt_u64 : Z) : P (Z + Z) :=
  match n with
  | O => more
  | Datatypes.S n =>
    r ← scan (PRE_USER_ACTION ++ d uid ++ dash ++ llu (if gmt_u64 =? 0 then start else u64 (gmt_u64 + 1)))
             (PRE_USER_ACTION ++ d uid ++ dash ++ llu end_) DB_KVN_MAX;
    if failed DB_SCAN_OK r then mret (inr (-1))
    else
      gmt_u64 ← (match last (found r) with Some x => lift (gmt_of_user PRE_USER_ACTION x.1) | None => mret gmt_u64 end);
      e ← for_each (message user uid gid tm) (found r);
      match e with
      | Some e => mret (inr e)
      | None => match found r with [] => mret (inl gmt_u64) | _ => messages n user uid gid tm start end_ gmt_u64 end
      end
  end.

(** A user that is new is put on its lists. *)
Definition enlist_user (a : addr) (uid gid : Z) : P unit :=
  on_users (fun s =>
    k ← group_head gid;
    let t := add_head (F_HASH, (0, ww_user_action_st_get_hash uid)) a (tbl (ureg s)) in
    Done (tt, Users (Reg (objs (ureg s)) (add_tail k a (add_tail (F_ALL, (0, 0)) a t))) (areg s))).

Definition resave_user_calc_action (uid gid histroy_u64 : Z) : P Z :=
  let tm := u64 (GMT_REVERS_MASK - histroy_u64) in
  p ← malloc;
  user ← on_users (ww_user_action_id_find_create uid p);
  ret ← (if user =? NULL then mret (-1)
         else
           u ← the_user user;
           let start := u64 (histroy_u64 - DAY + 1) in
           let u1 := UserAction (if user_id u =? 0 then s32 uid else user_id u) gid start (end_time u) histroy_u64 in
           _ ← set_user user u1;
           _ ← (if user_id u =? 0 then enlist_user user uid gid else mret tt);
           r ← messages fuel user uid gid tm start (if histroy_u64 =? 0 then histroy_u64 else u64 (histroy_u64 + 1)) 0;
           match r with
           | inr r => mret r
           | inl gmt_u64 =>
             u ← the_user user;
             _ ← (if gmt_u64 <? end_time u
                  then set_user user (UserAction (user_id u) (group_id u) (start_time u) gmt_u64 (day_time u)) else mret tt);
             r ← ww_save_user_calc_act_to_db user;
             mret (if r =? 0 then 0 else -1)
           end);
  _ ← on_users (fun s => s ← ww_user_action_st_del user s; Done (tt, s));
  mret ret.

(** One user of the check; only the last day is tried. *)
Definition check_user (today : Z) (x : record) : P (option Z) :=
  uid ← lift (if decide (length PRE_USER_GROUP <= length (cstr x.1))%nat
              then Allocator.atoi (Some (drop (length PRE_USER_GROUP) (cstr x.1))) else Fault OutOfBounds);
  gid ← lift (load 0 4 x.2);
  r ← get (PRE_USER_CALC_ACTTIME ++ d uid);
  if failed DB_GET_OK r && failed DB_NOT_FOUND r then mret (Some (-1))
  else
    t ← (match found r with
         | y :: _ => if failed DB_GET_OK r then mret (u64 (today + 2 * DAY)) else lift (load 0 8 y.2)
         | [] => mret (u64 (today + 2 * DAY)) end);
    if (u64 (today + DAY) <? t) || (t <? today) then
      r ← resave_days fuel (resave_user_calc_action (u32 uid) (s32 gid)) today (u64 (today + 2 * DAY));
      mret match r with inr r => Some r | inl _ => None end
    else mret None.

(** Midnight of the day of [now], reversed. *)
Definition midnight (now : Z) : Z :=
  let '(_, _, _, hour, min, sec) := an_gmt_to_time localtime now in
  u64 (now - u32 (hour * 3600 + min * 60 + sec)).

Definition ww_user_calc_action_save_check (now : Z) : P Z :=
  let today := u64 (GMT_REVERS_MASK - midnight now) in
  r ← scan PRE_USER_GROUP PRE_USER_GROUP_SE DB_KVN_MAX;
  if failed DB_SCAN_OK r then mret (-1)
  else
    r ← for_each (check_user today) (found r);
    match r with
    | Some r => mret r
    | None => r ← ww_usergroup_calc_action_save_check today; mret (if r =? 0 then 0 else -1)
    end.

End Check.

End SaveCheck.
