(* ===== verification/SaveHour.v ===== *)
(** * SaveHour: the records of an hour

    [ww_save_all_user_detail_act_to_db] and [ww_save_all_user_qq_msg_to_db]
    write the activities and the chat messages of every full hour to the store
    and take them out of the tables.  Times are reversed, so an hour is saved
    from its end: of a user whose records reach from [start_time] to
    [end_time] the oldest hour is written and [end_time] moves down. *)

From Stdlib Require Import Ascii String.
From S2P Require Import Prelude CString Bytes Registry Timer Rules CText Users Cache CJson Allocator Db Store Save SaveCalc.
Import Registry CText Save SaveCalc.
Local Open Scope Z_scope.

Module SaveHour.

Section Hour.

Context {S : Type} `{RecordStore S} `{Env}.

Abbreviation P := (M (st S)).

Definition on_details {A} (f : Detail.details -> outcome (A * Detail.details)) : P A := fun s =>
  match f (t_details s) with Done (a, x) => Ret a (set_details x s) | Fault e => Bad e end.

Definition on_qqs {A} (f : QQ.qqs -> outcome (A * QQ.qqs)) : P A := fun s =>
  match f (t_qqs s) with Done (a, x) => Ret a (set_qqs x s) | Fault e => Bad e end.

(** ** Activities *)

Definition DHEAD : nat := 8.
Definition DACT : nat := 176.
Definition dblock_size (n : Z) : nat := (DHEAD + Z.to_nat n * DACT)%nat.

(** [save_datas[i]], [act_num[i]] and [act_count[i]]; [save_data[i]] is behind
    the entries written so far. *)
Record dbuf := Dbuf { dblk : list Z; dnum : Z; dcount : Z }.

(** [n] blocks of [MAX_RULE_NUM] entries. *)
Fixpoint new_dbufs (n : nat) : P (option (list dbuf)) :=
  match n with
  | O => mret (Some [])
  | Datatypes.S n =>
    a ← malloc;
    if a =? NULL then mret None
    else
      r ← new_dbufs n;
      mret (cons (Dbuf (replicate (dblock_size MAX_RULE_NUM) 0) MAX_RULE_NUM 0) <$> r)
  end.

(** One [an_user_detail_act_t]. *)
Definition put_detail (pos : nat) (x : Detail.an_detail_act) (b : list Z) : outcome (list Z) :=
  b ← Bytes.store pos (le 8 (Detail.time x)) b;
  b ← Bytes.store (pos + 8) (le 4 (Detail.type x)) b;
  b ← Bytes.store (pos + 16) (snprintf_s 32 (Detail.process x) ++ [0]) b;
  b ← Bytes.store (pos + 48) (snprintf_s 128 (Detail.actname x) ++ [0]) b;
  Bytes.store (pos + 12) (le 4 (Detail.category x)) b.

(** The block of a category, doubled when it is full. *)
Definition dgrow (b : dbuf) : P (option dbuf) :=
  if dnum b <? dcount b + 1 then
    g ← realloc;
    let n := s32 (dnum b + dnum b) in
    mret match g with
         | Failed => None
         | _ => Some (Dbuf (take (dblock_size n) (dblk b) ++ replicate (dblock_size n - length (dblk b)) junk) n (dcount b))
         end
  else mret (Some b).

Definition the_detail (a : addr) : P Detail.an_detail_act :=
  s ← gets t_details; lift (get_or UseAfterFree (objs (Detail.dacts s) !! a)).

(** The loop over a user's activities: later ones are dropped, earlier hours
    are passed over.  [dels] are the entries of [del_action], which has room
    for [act_num_max] of them: writing one more is a fault before the code
    comes to enlarge the array. *)
Fixpoint hour (acts : list addr) (end_time save_time act_num_max : Z) (bs : list dbuf) (dels : list addr) :
    P (option (list dbuf * list addr)) :=
  match acts with
  | [] => mret (Some (bs, dels))
  | a :: acts =>
    x ← the_detail a;
    if end_time <? Detail.time x then
      _ ← on_details (fun s => s ← Detail.an_detail_act_t_del a s; Done (tt, s));
      hour acts end_time save_time act_num_max bs dels
    else if Detail.time x <? save_time then hour acts end_time save_time act_num_max bs dels
    else
      _ ← lift (if act_num_max <=? Z.of_nat (length dels) then Fault OutOfBounds else Done tt);
      let i := Z.to_nat (Detail.category x) in
      b ← lift (get_or OutOfBounds (bs !! i));
      r ← dgrow b;
      match r with
      | None => mret None
      | Some b =>
        bytes ← lift (put_detail (dblock_size (dcount b)) x (dblk b));
        hour acts end_time save_time act_num_max (<[i := Dbuf bytes (dnum b) (dcount b + 1)]> bs) (dels ++ [a])
      end
  end.

(** The records of the categories, with their headers written. *)
Fixpoint hour_kvs (uid gid day_time hh : Z) (i : Z) (bs : list dbuf) : outcome (list Db.arg * list dbuf) :=
  match bs with
  | [] => Done ([], [])
  | b :: bs =>
    bytes ← Bytes.store 4 (le 4 (dcount b)) (dblk b);
    bytes ← Bytes.store 0 (le 4 gid) bytes;
    r ← hour_kvs uid gid day_time hh (i + 1) bs;
    let key := PRE_USER_DETAIL_ACTION ++ d uid ++ dash ++ d i ++ dash ++ llu day_time ++ dash ++ dec hh in
    Done (kv key (take (dblock_size (dcount b)) bytes) :: r.1, Dbuf bytes (dnum b) (dcount b) :: r.2)
  end.

Definition detail_user (a : addr) : P Detail.an_detail_user :=
  s ← gets t_details; lift (deref (Detail.dusers s) a).

Definition set_end_time (a : addr) (u : Detail.an_detail_user) (t : Z) : P unit :=
  on_details (fun s => Done (tt,
    Detail.Details (Reg (<[a := Detail.DetailUser (Detail.uid u) (Detail.gid u) (Detail.start_time u) t]> (objs (Detail.dusers s)))
                        (tbl (Detail.dusers s))) (Detail.dacts s) (Detail.dwk s))).

(** [hour] of [an_gmt_to_time] *)
Definition hour_of (gmt : Z) : Z := let '(_, _, _, h, _, _) := an_gmt_to_time localtime gmt in h.

(** The [while] of one user. *)
Fixpoint detail_hours (n : nat) (user : addr) (bs : list dbuf) : P (list dbuf + Z) :=
  match n with
  | O => more
  | Datatypes.S n =>
    u ← detail_user user;
    if 3600 <? u64 (Detail.end_time u - Detail.start_time u) then
      let bs := (fun b => Dbuf (dblk b) (dnum b) 0) <$> bs in
      s ← gets t_details;
      r ← hour (tget (tbl (Detail.dacts s)) (F_ALL, (user, 0))) (Detail.end_time u) (u64 (Detail.end_time u - 3600 + 1))
               MAX_RULE_NUM bs [];
      match r with
      | None => mret (inr (-1))
      | Some (bs, dels) =>
        let day_time := an_gmt_format_to_day_inver localtime (Detail.end_time u) in
        let hh := hour_of (s64 (GMT_REVERS_MASK - Detail.end_time u)) in
        r ← lift (hour_kvs (Detail.uid u) (Detail.gid u) day_time hh 0 bs);
        if Detail.end_time u =? 0 then mret (inr (-1))
        else
          bad ← multi_set (r.1 ++ [kv (PRE_USER_DETAIL_ACTTIME ++ d (Detail.uid u)) (le 8 (Detail.end_time u))]);
          if (bad : bool) then mret (inr (-1))
          else
            _ ← set_end_time user u (u64 (Detail.end_time u - 3600));
            _ ← each (fun a => on_details (fun s => s ← Detail.an_detail_act_t_del a s; Done (tt, s))) dels;
            detail_hours n user r.2
      end
    else mret (inl bs)
  end.

Definition ww_save_all_user_detail_act_to_db : P Z :=
  r ← new_dbufs AN_DETAIL_MAX;
  match r with
  | None => mret (-1)
  | Some bs =>
    del ← malloc;
    kvs ← (if del =? NULL then mret NULL else malloc);
    if kvs =? NULL then mret (-1)
    else
      s ← gets t_details;
      r ← for_fold (detail_hours fuel) (tget (tbl (Detail.dusers s)) (F_ALL, (0, 0))) bs;
      mret match r with inl _ => 0 | inr r => r end
  end.

(** ** Chat messages *)

Definition QHEAD : nat := 12.
Definition QMSG : nat := 84.
Definition MSGTIME : nat := 48.

(** The variables that live across contacts: the block and its room
    [base_buf_len], [offset_len], the room of [del_msg], and [msg_time_t]. *)
Record qbuf := Qbuf { qblk : list Z; qroom : Z; qoffset : Z; qdels : Z; msg_time_t : list Z }.

Definition the_msg (a : addr) : P QQ.an_qq_msg :=
  s ← gets t_qqs; lift (get_or UseAfterFree (objs (QQ.qmsgs s) !! a)).

(** One [an_qq_calc_msg_t] at [pos], and the latest time in the header. *)
Definition put_msg (pos : nat) (x : QQ.an_qq_msg) (b : list Z) : outcome (list Z) :=
  b ← Bytes.store (pos + 76) (le 4 (QQ.issend x)) b;
  b ← Bytes.store (pos + 80) (le 4 (QQ.msg_len x)) b;
  b ← Bytes.store pos (le 8 (QQ.time x)) b;
  b ← Bytes.store (pos + 8) (le 4 (QQ.user_account x)) b;
  b ← Bytes.store (pos + 44) (snprintf_s 32 (QQ.obj_name x) ++ [0]) b;
  b ← Bytes.store (pos + 12) (snprintf_s 32 (QQ.user_name x) ++ [0]) b;
  b ← (if QQ.msg_len x =? 0 then Done b else Bytes.store (pos + QMSG) (snprintf_s (QQ.msg_len x) (QQ.data x) ++ [0]) b);
  t ← load 0 8 b;
  if (t =? 0) || (t <? QQ.time x) then Bytes.store 0 (le 8 (QQ.time x)) b else Done b.

(** The block has room for [msg_save_len] bytes, or doubles; [pos] is where
    [save_data] points. *)
Definition qgrow (msg_save_len : Z) (pos : nat) (q : qbuf) : P (option (nat * qbuf)) :=
  if qroom q <? msg_save_len then
    g ← realloc;
    let n := s32 (qroom q + qroom q) in
    let size := (QHEAD + Z.to_nat n)%nat in
    mret match g with
         | Failed => None
         | _ => Some ((QHEAD + Z.to_nat (qoffset q))%nat,
                      Qbuf (take size (qblk q) ++ replicate (size - length (qblk q)) junk) n (qoffset q) (qdels q) (msg_time_t q))
         end
  else mret (Some (pos, q)).

(** The messages of a contact. *)
Fixpoint contact_msgs (msgs : list addr) (save_time msg_save_len : Z) (pos : nat) (q : qbuf) (dels : list addr) :
    P (option (Z * qbuf * list addr)) :=
  match msgs with
  | [] => mret (Some (msg_save_len, q, dels))
  | a :: msgs =>
    x ← the_msg a;
    if QQ.time x <? save_time then contact_msgs msgs save_time msg_save_len pos q dels
    else
      _ ← lift (if qdels q <=? Z.of_nat (length dels) then Fault OutOfBounds else Done tt);
      let msg_save_len := s32 (msg_save_len + (QQ.msg_len x + Z.of_nat QMSG)) in
      r ← qgrow msg_save_len pos q;
      match r with
      | None => mret None
      | Some (pos, q) =>
        b ← lift (put_msg pos x (qblk q));
        contact_msgs msgs save_time msg_save_len (QHEAD + Z.to_nat msg_save_len)
          (Qbuf b (qroom q) msg_save_len (qdels q) (msg_time_t q)) (dels ++ [a])
      end
  end.

Definition contact (a : addr) : P QQ.an_qq_obj :=
  s ← gets t_qqs; lift (get_or UseAfterFree (objs (QQ.qobjs s) !! a)).

(** [account], [time] and [name] of [msg_time_t]. *)
Definition put_msgtime (o : QQ.an_qq_obj) (end_time : Z) (b : list Z) : outcome (list Z) :=
  b ← Bytes.store 0 (le 4 (QQ.qq_account o)) b;
  b ← Bytes.store 40 (le 8 end_time) b;
  Bytes.store 8 (snprintf_s 32 (QQ.name o) ++ [0]) b.

(** [msg_time_t] as the store has it; the key is written with [%d] here. *)
Definition load_msgtime (uid end_time : Z) (o : QQ.an_qq_obj) (q : qbuf) : P (option (list Z)) :=
  r ← get (PRE_USER_QQ_CALC_MSGTIME ++ d uid ++ dash ++ d (QQ.qq_account o));
  if failed DB_GET_OK r && failed DB_NOT_FOUND r then mret None
  else if negb (failed DB_NOT_FOUND r) then
    b ← lift (put_msgtime o end_time (msg_time_t q));
    b ← lift (Bytes.store 4 (le 4 0) b);
    mret (Some b)
  else
    match found r with
    | [] => mret (Some (msg_time_t q))
    | x :: _ =>
      b ← lift (Bytes.store 0 x.2 (msg_time_t q));
      b ← lift (put_msgtime o end_time b);
      mret (Some b)
    end.

Definition set_obj (a : addr) (o : QQ.an_qq_obj) : P unit :=
  on_qqs (fun s => Done (tt, QQ.set_objs (Reg (<[a := o]> (objs (QQ.qobjs s))) (tbl (QQ.qobjs s))) s)).

(** One contact of a user. *)
Definition save_contact (u : QQ.an_qq_user) (a : addr) (q : qbuf) : P (qbuf + Z) :=
  let save_time := u64 (QQ.end_time u - 3600 + 1) in
  o ← contact a;
  if QQ.oend o <? save_time then mret (inl q)
  else
    r ← load_msgtime (QQ.uid u) (QQ.end_time u) o q;
    match r with
    | None => mret (inr (-1))
    | Some mt =>
      s ← gets t_qqs;
      r ← contact_msgs (tget (tbl (QQ.qmsgs s)) (F_ALL, (a, 0))) save_time 0 QHEAD
            (Qbuf (qblk q) (qroom q) (qoffset q) (qdels q) mt) [];
      match r with
      | None => mret (inr (-1))
      | Some (msg_save_len, q, dels) =>
        let n := Z.of_nat (length dels) in
        b ← lift (Bytes.store 8 (le 4 n) (qblk q));
        old ← lift (load 4 4 (msg_time_t q));
        mt ← lift (Bytes.store 4 (le 4 (u32 (old + n))) (msg_time_t q));
        let day_time := an_gmt_format_to_day_inver localtime (QQ.end_time u) in
        let hh := hour_of (s64 (GMT_REVERS_MASK - QQ.end_time u)) in
        bad ← multi_set
          [kv (PRE_USER_QQ_CALC_MSG ++ d (QQ.uid u) ++ dash ++ dec (QQ.qq_account o) ++ dash ++ llu day_time ++ dash ++ dec hh)
              (take (QHEAD + Z.to_nat msg_save_len) b);
           kv (PRE_USER_QQ_CALC_MSGTIME ++ d (QQ.uid u) ++ dash ++ dec (QQ.qq_account o)) mt];
        if (bad : bool) then mret (inr (-1))
        else
          o ← contact a;
          _ ← set_obj a (QQ.Obj (QQ.qq_account o) (QQ.name o) (QQ.msg_num o) (QQ.ostart o) (QQ.end_time u));
          _ ← each (fun m => on_qqs (fun s => s ← QQ.an_qq_msg_t_del m s; Done (tt, s))) dels;
          o ← contact a;
          _ ← set_obj a (QQ.Obj (QQ.qq_account o) (QQ.name o) (u32 (QQ.msg_num o - n)) (QQ.ostart o) (QQ.oend o));
          mret (inl (Qbuf b (qroom q) (qoffset q) (qdels q) mt))
      end
    end.

Definition qq_user (a : addr) : P QQ.an_qq_user :=
  s ← gets t_qqs; lift (deref (QQ.qusers s) a).

Definition set_qq_end (a : addr) (t : Z) : P unit :=
  u ← qq_user a;
  on_qqs (fun s => Done (tt, QQ.set_users (Reg (<[a := QQ.User (QQ.uid u) (QQ.gid u) (QQ.start_time u) t]> (objs (QQ.qusers s)))
                                               (tbl (QQ.qusers s))) s)).

(** The [while] of one user. *)
Fixpoint qq_hours (n : nat) (user : addr) (q : qbuf) : P (qbuf + Z) :=
  match n with
  | O => more
  | Datatypes.S n =>
    u ← qq_user user;
    if 3600 <? u64 (QQ.end_time u - QQ.start_time u) then
      s ← gets t_qqs;
      r ← for_fold (save_contact u) (tget (tbl (QQ.qobjs s)) (F_ALL, (user, 0))) q;
      match r with
      | inr r => mret (inr r)
      | inl q => _ ← set_qq_end user (u64 (QQ.end_time u - 3600)); qq_hours n user q
      end
    else mret (inl q)
  end.

Definition ww_save_all_user_qq_msg_to_db : P Z :=
  datas ← malloc;
  del ← (if datas =? NULL then mret NULL else malloc);
  kvs ← (if del =? NULL then mret NULL else malloc);
  if kvs =? NULL then mret (-1)
  else
    s ← gets t_qqs;
    r ← for_fold (qq_hours fuel) (tget (tbl (QQ.qusers s)) (F_ALL, (0, 0)))
          (Qbuf (replicate (QHEAD + 102400) 0) 102400 0 MAX_RULE_NUM (replicate MSGTIME 0));
    mret match r with inl _ => 0 | inr r => r end.

End Hour.

End SaveHour.
