(* ===== verification/SaveDay.v ===== *)
(** * SaveDay: the daily run

    What the worker does every ten minutes ([an_auto_data_save]), the timer
    that asks for it, the removal of old records and the comparison of the
    clock with the users' clocks ([ww_time_init]). *)

From Stdlib Require Import Ascii String.
From S2P Require Import Prelude CString Bytes Registry Timer Rules CText Users Cache CJson Allocator Db Store.
From S2P Require Import Save SaveCalc SaveCheck SaveHour.
Import Registry CText Save SaveCalc SaveHour.
Local Open Scope Z_scope.

Module SaveDay.

(** The functions of the worker that read new records into the tables and
    write the pages' scripts. *)
Class Refresh (S : Type) := {
  ww_add_or_init_calc_behavior_to_list : M (st S) unit;
  ww_add_or_init_detail_behavior_to_list : M (st S) unit;
  ww_add_or_init_qq_msg_to_list : Z -> M (st S) unit;
  ww_init_ww_month_action_js : M (st S) Z;
  ww_init_ww_high_action_js : M (st S) Z;
  ww_detail_act_list_init : M (st S) Z
}.

Section Day.

Context {S : Type} `{RecordStore S} `{Env}.

Abbreviation P := (M (st S)).

(** ** Old records *)

Definition all_users : P (list addr) := s ← gets t_users; mret (tget (tbl (UserAction.ureg s)) (F_ALL, (0, 0))).

Definition ww_del_all_dynamic_data (gmt_u64 : Z) : P Z :=
  let tm := u64 (GMT_REVERS_MASK - gmt_u64) in
  l ← all_users;
  _ ← each (fun a =>
    u ← the_user a;
    _ ← ww_del_user_db_data_by_gmt_uid_prefix tm (UserAction.user_id u) PRE_USER_ACTION;
    _ ← ww_del_user_db_data_by_gmt_uid_prefix tm (UserAction.user_id u) PRE_USER_QQ_MESSAGE;
    mret tt) l;
  mret 0.

(** [user] is what the loop left in the variable. *)
Definition ww_del_all_analyzer_data (gmt_u64 : Z) : P unit :=
  let tm := u64 (GMT_REVERS_MASK - gmt_u64) in
  l ← all_users;
  _ ← each (fun a =>
    u ← the_user a;
    _ ← each (fun i => _ ← ww_del_user_db_data_by_uid_type_gmt_prefix tm (UserAction.user_id u) PRE_USER_DETAIL_ACTION
                             (Z.of_nat i); mret tt) (seq 0 AN_DETAIL_MAX);
    _ ← ww_del_user_db_data_by_gmt_uid_prefix tm (UserAction.user_id u) PRE_USER_CALC_ACTION;
    mret tt) l;
  _ ← ww_del_group_db_data_by_gmt_gid_prefix tm 0 PRE_USERGROUP_CALC_ACTION;
  s ← gets t_groups;
  _ ← each (fun a =>
    g ← SaveCheck.the_group a;
    _ ← ww_del_group_db_data_by_gmt_gid_prefix tm (Group.gid g) PRE_USERGROUP_CALC_ACTION;
    mret tt) (tget (tbl (Group.greg s)) (F_ALL, (0, 0)));
  u ← the_user (default NULL (last l));
  _ ← ww_del_user_qq_data_by_gmt_uid_prefix tm (UserAction.user_id u);
  mret tt.

(** ** The clock *)

(** The time of the last message of a user that is on line, 0 for others;
    [None] if the function returns. *)
Fixpoint user_times (l : list record) : P (option (list Z)) :=
  match l with
  | [] => mret (Some [])
  | x :: l =>
    state ← lift (load 0 1 x.2);
    uid ← lift (if decide (length PRE_USER_STAT <= length (cstr x.1))%nat
                then Allocator.atoi (Some (drop (length PRE_USER_STAT) (cstr x.1))) else Fault OutOfBounds);
    if state =? 1 then
      r ← scan (PRE_USER_ACTION ++ dec (u32 uid) ++ dash) (PRE_USER_ACTION ++ dec (u32 uid) ++ dot) 10;
      if failed DB_SCAN_OK r then mret None
      else
        match found r with
        | [] => mret None
        | y :: _ =>
          gmt ← lift (gmt_of_user PRE_USER_ACTION y.1);
          r ← user_times l;
          mret (cons (u64 (GMT_REVERS_MASK - gmt)) <$> r)
        end
    else r ← user_times l; mret (cons 0 <$> r)
  end.

Definition on_line (l : list record) : bool := existsb (fun x => match load 0 1 x.2 with Done n => n =? 1 | Fault _ => false end) l.

(** More than an hour apart, as the unsigned arithmetic of the code has it. *)
Definition apart (a b : Z) : bool := (u64 (b + 3600) <? a) || (a <? u64 (b - 3600)).

Definition bump (i : nat) (l : list Z) : list Z := alter (fun n => u32 (n + 1)) i l.

(** The body of the two loops that compare the times. *)
Definition compare_times (times : list Z) (i j : nat) (flags : list Z) : list Z :=
  let a := nth i times 0 in
  let b := nth j times 0 in
  let flags := if a =? 0 then bump i flags else flags in
  let flags := if b =? 0 then bump j flags else flags in
  if apart a b then bump j (bump i flags) else flags.

Definition time_flags (times : list Z) : list Z :=
  let n := length times in
  foldl (fun flags i => foldl (fun flags j => compare_times times i j flags) flags (seq (i + 1) (n - (i + 1))))
        (replicate n 0) (seq 0 n).

(** The first user with the fewest flags. *)
Definition find_num (flags : list Z) : nat :=
  foldl (fun k i => if nth i flags 0 <? nth k flags 0 then i else k) 0%nat (seq 0 (length flags)).

(** [now] is the result of [time]; the program ends when the clock was set. *)
Definition ww_time_init (now : Z) : P Z :=
  r ← scan PRE_USER_STAT PRE_USER_STAT_SE DB_SCAN_MAX;
  if failed DB_SCAN_OK r then mret 0
  else
    match found r with
    | [] => mret 0
    | l =>
      if decide (DB_SCAN_MAX < Z.of_nat (length l)) then lift (Fault OutOfBounds)
      else
        t ← user_times l;
        match t with
        | None => mret 0
        | Some times =>
          if negb (on_line l) then mret 0
          else
            let t := nth (find_num (time_flags times)) times 0 in
            if (u64 (t + 30 * DAY) <? u64 now) || (u64 now <? u64 (t - 3600)) then _ ← set_systime t; an_exit
            else mret 0
        end
    end.

(** ** The run *)

Record an_auto_data_save_st := DataSave { mday : Z; day_time : Z }.

Context `{Refresh S}.

Definition WW_LOCAL_ACTION : Z := 100.

Definition on_users_ (f : UserAction.users -> outcome UserAction.users) : P unit :=
  on_users (fun s => s ← f s; Done (tt, s)).

(** [(tm - hour*3600 - min*60 - sec)], and the day and hour of [tm] *)
Definition start_of_day (tm : Z) : Z :=
  let '(_, _, _, hour, min, sec) := an_gmt_to_time localtime tm in
  s64 (tm - u32 (hour * 3600) - u32 (min * 60) - sec).

Definition day_of (tm : Z) : Z := let '(_, _, day, _, _, _) := an_gmt_to_time localtime tm in day.

(** An error ends the program. *)
Definition or_exit (m : P Z) : P unit := r ← m; if r =? 0 then mret tt else an_exit.

(** The work at the end of a day. *)
Definition end_of_day (tm : Z) : P unit :=
  _ ← or_exit ww_save_all_user_calc_act_to_db;
  _ ← or_exit ww_save_all_group_calc_act_to_db;
  _ ← ww_save_all_user_detail_act_to_db;
  _ ← ww_save_all_user_qq_msg_to_db;
  _ ← ww_del_all_dynamic_data (u64 (start_of_day tm));
  _ ← ww_del_all_analyzer_data (u64 (start_of_day tm - 180 * DAY));
  _ ← on_users_ UserAction.ww_user_action_st_clear;
  _ ← on_users_ UserAction.ww_user_action_st_group_clear;
  _ ← on_details (fun s => s ← Detail.an_detail_user_t_clear s; Done (tt, s));
  _ ← on_qqs (fun s => s ← QQ.an_qq_user_t_clear s; Done (tt, s));
  _ ← ww_add_or_init_calc_behavior_to_list;
  _ ← ww_add_or_init_detail_behavior_to_list;
  ww_add_or_init_qq_msg_to_list 1.

(** The pages' scripts, after the new day was noted. *)
Definition new_pages : P unit :=
  _ ← or_exit ww_init_ww_month_action_js;
  _ ← or_exit ww_init_ww_high_action_js;
  or_exit ww_detail_act_list_init.

(** The work every ten minutes. *)
Definition update : P unit :=
  _ ← ww_add_or_init_calc_behavior_to_list;
  _ ← ww_add_or_init_detail_behavior_to_list;
  _ ← ww_save_all_user_detail_act_to_db;
  _ ← ww_add_or_init_qq_msg_to_list 0;
  _ ← ww_save_all_user_qq_msg_to_db;
  mret tt.

(** [data_save] before the branch. *)
Definition with_day (tm : Z) (x : an_auto_data_save_st) : an_auto_data_save_st :=
  if day_time x =? 0 then DataSave (day_of tm) (u64 (start_of_day tm)) else x.

Definition day_is_over (tm : Z) (x : an_auto_data_save_st) : bool :=
  (3 <=? hour_of tm) && negb (mday x =? day_of tm) && (day_time x <? u64 tm).

(** [now] is what [time] returns to [ww_time_init]. *)
Definition an_auto_data_save (tm now : Z) (x : an_auto_data_save_st) : P (Z * an_auto_data_save_st) :=
  _ ← ww_time_init now;
  let x := with_day tm x in
  if day_is_over tm x then
    _ ← end_of_day tm;
    _ ← new_pages;
    mret (WW_LOCAL_ACTION, DataSave (day_of tm) (u64 (start_of_day tm)))
  else _ ← update; mret (WW_LOCAL_ACTION, x).

End Day.

(** ** The timer *)

Section Timer.

Context (W : Z).

Definition SAVE_FN : Z := 2.

(** [None] is a task that could not be allocated; the task itself is handed to
    the worker.  [now] is the value of [jiffies]. *)
Definition an_auto_data_save_timeout (data_save now : Z) (malloc_ok : bool) (b : Timer.tvec_base) :
    list addr * Timer.tvec_base :=
  (if malloc_ok then [data_save] else [], (Timer.mod_timer W data_save (wrapu W (now + 600 * Timer.HZ)) b).2).

(** Without memory the code goes on with the null pointer. *)
Definition an_data_save_init (p now : Z) (b : Timer.tvec_base) : outcome Timer.tvec_base :=
  if p =? NULL then Fault NullDeref
  else
    Done (Timer.add_timer W p
            (Timer.set_timer p (Timer.TimerList (wrapu W (now + 60 * Timer.HZ)) SAVE_FN p false) b)).

End Timer.

End SaveDay.
