(* ===== verification/PurgeFacts.v ===== *)
(** * PurgeFacts: which records are removed

    The loops of [Save] that remove old records, on a store that keeps its
    contract: whose records they touch, that they end, and which records are
    left. *)

From Stdlib Require Import Ascii String.
From S2P Require Import Prelude CString Bytes Registry Timer Rules CText CTextFacts Users Cache CJson Allocator Db DbFacts Store Save.
Import Registry CText Save.
Local Open Scope Z_scope.

(** ** Running *)

Section Running.
Context {T A B : Type}.

Lemma bind_Ret (m : M T A) (k : A -> M T B) s a s' : m s = Ret a s' -> (m ≫= k) s = k a s'.
Proof. intros E. unfold mbind, M_bind. by rewrite E. Qed.

Lemma bind_mret (a : A) (k : A -> M T B) s : (mret a ≫= k) s = k a s.
Proof. done. Qed.

Lemma bind_lift (a : A) (k : A -> M T B) s : (lift (Done a) ≫= k) s = k a s.
Proof. done. Qed.

Lemma bind_gets (f : T -> A) (k : A -> M T B) s : (gets f ≫= k) s = k (f s) s.
Proof. done. Qed.
End Running.

(** ** Ranges *)

Lemma key_le_app p a b : key_le (p ++ a) (p ++ b) <-> key_le a b.
Proof. unfold key_le. by rewrite key_ltb_app. Qed.

Lemma key_ltb_longer a b r : key_ltb a b = true -> key_ltb a (b ++ r) = true.
Proof.
  intros Hab. apply (key_ltb_le_trans _ b); [done|]. rewrite <- (app_nil_r b) at 1. apply key_le_app. by destruct r.
Qed.

Lemma key_ltb_cons x a y b : key_ltb (x :: a) (y :: b) = true <-> x < y \/ x = y /\ key_ltb a b = true.
Proof. cbn [key_ltb]. rewrite orb_true_iff, andb_true_iff, Z.ltb_lt, Z.eqb_eq. tauto. Qed.

Lemma key_le_cons x a y b : key_le (x :: a) (y :: b) <-> x < y \/ x = y /\ key_le a b.
Proof.
  unfold key_le. rewrite <- !not_true_iff_false, key_ltb_cons. split.
  - intros Hn. destruct (Z.lt_total x y) as [|[->|]]; [by left|right; split; [done|]; intros E; apply Hn; by right|].
    exfalso. apply Hn. by left.
  - intros [?|[-> Hb]] [?|[? ?]]; [lia|lia|lia|done].
Qed.

(** What lies between [q-...] and [q.] begins with [q-], or is [q.] itself. *)
Lemma between q x k :
  in_range (q ++ dash ++ x) (q ++ dot) k -> (exists r, k = q ++ dash ++ r) \/ k = q ++ dot.
Proof.
  unfold in_range. revert k. induction q as [|c q IH]; intros [|e k] [H1 H2]; try discriminate.
  - apply key_ltb_cons in H1. apply key_le_cons in H2. destruct H1 as [H1|[<- _]]; [|left; by exists k].
    destruct H2 as [H2|[-> H2]]; [lia|]. right. destruct k; [done|discriminate].
  - apply key_ltb_cons in H1. apply key_le_cons in H2.
    destruct H1 as [H1|[<- H1]]; [lia|]. destruct H2 as [H2|[_ H2]]; [lia|].
    destruct (IH k) as [[r ->]| ->]; [by split|left; by exists r|by right].
Qed.

(** ** Numbers in keys *)

Abbreviation digit c := (is_digit c = true).

Lemma read_dec_acc ds : forall a, read_dec ds a = a * 10 ^ Z.of_nat (length ds) + read_dec ds 0.
Proof.
  induction ds as [|c ds IH]; intros a; [unfold read_dec; simpl; lia|]. change (length (c :: ds)) with (S (length ds)).
  change (read_dec (c :: ds) a) with (read_dec ds (a * 10 + (c - 48))).
  change (read_dec (c :: ds) 0) with (read_dec ds (0 * 10 + (c - 48))).
  rewrite (IH (a * 10 + _)), (IH (0 * 10 + _)), Nat2Z.inj_succ, Z.pow_succ_r by lia. ring.
Qed.

Lemma read_dec_cons c ds : read_dec (c :: ds) 0 = (c - 48) * 10 ^ Z.of_nat (length ds) + read_dec ds 0.
Proof. change (read_dec (c :: ds) 0) with (read_dec ds (0 * 10 + (c - 48))). by rewrite read_dec_acc. Qed.

Lemma digit_bounds c : digit c -> 48 <= c <= 57.
Proof. unfold is_digit. lia. Qed.

Lemma pow10_pos n : 0 < 10 ^ Z.of_nat n.
Proof. apply Z.pow_pos_nonneg; lia. Qed.

Lemma read_dec_bounds ds : Forall (fun c => digit c) ds -> 0 <= read_dec ds 0 < 10 ^ Z.of_nat (length ds).
Proof.
  induction 1 as [|c ds Hc%digit_bounds Hds IH]; [done|]. rewrite read_dec_cons. cbn [length].
  rewrite Nat2Z.inj_succ, Z.pow_succ_r by lia. pose proof (pow10_pos (length ds)). nia.
Qed.

Lemma dec_digits n :
  0 <= n < 10 ^ 20 ->
  Forall (fun c => digit c) (dec n) /\ dec n <> [] /\ read_dec (dec n) 0 = n /\ (hd 0 (dec n) = 48 -> dec n = [48]).
Proof.
  intros Hn. unfold dec. destruct (Z.ltb_spec n 0); [lia|].
  destruct (dec_loop_spec 19 n [] Hn) as (ds & -> & Hd & Hne & Hv & Hz). rewrite app_nil_r.
  split; [done|]. split; [done|]. split; [|done]. rewrite Hv. lia.
Qed.

(** A number with [k + 1] digits. *)
Lemma length_dec k n : 10 ^ Z.of_nat k <= n < 10 ^ Z.of_nat (S k) -> n < 10 ^ 20 -> length (dec n) = S k.
Proof.
  intros Hn H20. pose proof (pow10_pos k). destruct (dec_digits n) as (Hd & Hne & Hv & Hz); [lia|].
  pose proof (read_dec_bounds _ Hd) as Hb. rewrite Hv in Hb.
  destruct (dec n) as [|c ds] eqn:E; [done|]. cbn [length] in *.
  assert (Z.of_nat k < Z.of_nat (S (length ds))) as H1 by (apply (Z.pow_lt_mono_r_iff 10); lia).
  destruct (decide (c = 48)) as [->|Hc].
  - specialize (Hz eq_refl). injection Hz as ->. unfold read_dec in Hv. simpl in Hv. lia.
  - inversion_clear Hd as [|? ? Hc'%digit_bounds Hds]. rewrite read_dec_cons in Hv.
    pose proof (read_dec_bounds _ Hds) as Hb'. pose proof (pow10_pos (length ds)).
    assert (10 ^ Z.of_nat (length ds) < 10 ^ Z.of_nat (S k)) as H2 by nia.
    apply Z.pow_lt_mono_r_iff in H2; lia.
Qed.

(** Numbers of the same length are ordered as their numerals are. *)
Lemma key_ltb_digits a : forall b,
  length a = length b -> Forall (fun c => digit c) a -> Forall (fun c => digit c) b ->
  key_ltb a b = true <-> read_dec a 0 < read_dec b 0.
Proof.
  induction a as [|x a IH]; intros [|y b] Hl Ha Hb; try done. injection Hl as Hl.
  inversion_clear Ha as [|? ? Hx%digit_bounds Ha']. inversion_clear Hb as [|? ? Hy%digit_bounds Hb'].
  rewrite key_ltb_cons, IH, !read_dec_cons, Hl by done.
  pose proof (read_dec_bounds _ Ha') as H1. pose proof (read_dec_bounds _ Hb') as H2. rewrite Hl in H1.
  pose proof (pow10_pos (length b)). destruct (Z.lt_total x y) as [|[->|]]; nia.
Qed.

Lemma dec_ltb a b : 10 ^ 9 <= a < 10 ^ 10 -> 10 ^ 9 <= b < 10 ^ 10 -> key_ltb (dec a) (dec b) = true <-> a < b.
Proof.
  intros Ha Hb. destruct (dec_digits a) as (Hda & _ & Hva & _); [lia|].
  destruct (dec_digits b) as (Hdb & _ & Hvb & _); [lia|].
  rewrite key_ltb_digits, Hva, Hvb; [done| |done..]. rewrite !(length_dec 9) by lia. done.
Qed.

Lemma dec_zero_first n : 0 < n < 10 ^ 20 -> key_ltb (dec 0) (dec n) = true.
Proof.
  intros Hn. change (dec 0) with [48]. destruct (dec_digits n) as (Hd & Hne & Hv & Hz); [lia|].
  destruct (dec n) as [|c ds]; [done|]. inversion_clear Hd as [|? ? Hc%digit_bounds Hds]. apply key_ltb_cons.
  destruct (decide (c = 48)) as [->|]; [|left; lia]. specialize (Hz eq_refl). injection Hz as ->.
  unfold read_dec in Hv. simpl in Hv. lia.
Qed.

(** [atoull] reads back what was printed. *)
Lemma read_value ds : forall a, Forall (fun c => digit c) ds ->
  fold_left (fun a d => a * 10 + d) ((fun c => c - 48) <$> ds) a = read_dec ds a.
Proof.
  induction ds as [|c ds IH]; intros a Hd; [done|]. inversion_clear Hd. rewrite fmap_cons. simpl. by rewrite IH.
Qed.

Lemma atoull_dec n : 0 < n < 2 ^ 64 -> atoull (Some (dec n)) = n.
Proof.
  intros Hn. destruct (dec_digits n) as (Hd & Hne & Hv & Hz); [lia|].
  assert (dec n = numeral ((fun c => c - 48) <$> dec n)) as E.
  { unfold numeral. rewrite <- list_fmap_compose. rewrite <- (list_fmap_id (dec n)) at 1.
    apply list_fmap_ext. intros. unfold compose. simpl. lia. }
  destruct (dec n) as [|c ds] eqn:Ec; [done|]. rewrite E, fmap_cons.
  destruct (atoull_numeral (c - 48) ((fun c => c - 48) <$> ds)) as [Hat _].
  { intros x. rewrite <- fmap_cons with (f := fun c => c - 48). intros (y & -> & Hy)%list_elem_of_fmap.
    rewrite Forall_forall in Hd. specialize (Hd y Hy). apply digit_bounds in Hd. lia. }
  rewrite Hat.
  - unfold value. rewrite <- fmap_cons with (f := fun c => c - 48), read_value, Hv by done. apply Z.mod_small. lia.
  - intros Hc. assert (c = 48) as -> by lia. specialize (Hz eq_refl). injection Hz as ->.
    unfold read_dec in Hv. simpl in Hv. lia.
Qed.

(** ** The loop *)

Section Loop.

Context {S : Type} `{StoreContract S} `{Env}.

Abbreviation state := (st S).
Abbreviation table := Store.table.

Definition short (t : cstring) : Prop := (length t < 64)%nat.

Lemma buf64_short t : short t -> buf64 t = (t, len t).
Proof. intros Ht. unfold buf64. rewrite snprintf_fits; [done|]. unfold short in Ht. lia. Qed.

(** The keys of the program: C strings that fit into the arrays. *)
Definition plain (k : list Z) : Prop := short k /\ Forall (fun c => c <> 0) k.

Lemma plain_cstr k : plain k -> cstr k = k.
Proof. intros [_ Hk]. unfold cstr. by apply c_string_app. Qed.

Definition well_keyed (m : table) : Prop := forall k (v : list Z), m !! k = Some v -> plain k.

Lemma set_db_db (s : state) : set_db (db s) s = s.
Proof. by destruct s. Qed.

Lemma set_db_set x y (s : state) : set_db y (set_db x s) = set_db y s.
Proof. done. Qed.

Lemma scan_run a b max (s : state) :
  short a -> short b ->
  scan a b max s = Ret (dbscan a (len a) b (len b) max (db s)).1 (set_db (dbscan a (len a) b (len b) max (db s)).2 s).
Proof.
  intros Ha Hb. unfold scan, on_db. rewrite !buf64_short by done. simpl. by destruct (dbscan _ _ _ _ _ _).
Qed.

(** Records are only removed, and only those that satisfy [R]. *)
Definition shrunk (R : list Z -> Prop) (m m' : table) : Prop :=
  forall k, m' !! k = m !! k \/ (R k /\ m' !! k = None).

Lemma shrunk_refl R m : shrunk R m m.
Proof. by left. Qed.

Lemma shrunk_trans R m1 m2 m3 : shrunk R m1 m2 -> shrunk R m2 m3 -> shrunk R m1 m3.
Proof.
  intros Ha Hb k. destruct (Hb k) as [->|?]; [apply Ha|]. by right.
Qed.

Lemma shrunk_weaken (R R' : list Z -> Prop) m m' : (forall k, R k -> R' k) -> shrunk R m m' -> shrunk R' m m'.
Proof. intros HR Ha k. destruct (Ha k) as [|[? ?]]; auto. Qed.

Lemma shrunk_sub R m m' k v : shrunk R m m' -> m' !! k = Some v -> m !! k = Some v.
Proof. intros Hs E. destruct (Hs k) as [<-|[_ ?]]; [done|congruence]. Qed.

Lemma shrunk_keyed R m m' : shrunk R m m' -> well_keyed m -> well_keyed m'.
Proof. intros Hs Hm k v E. eapply Hm, shrunk_sub; done. Qed.

(** Deleting the records of a listing: of each it happened or not. *)
Lemma del_kvs_run l : forall s : state,
  Forall (fun x => plain x.1) l ->
  exists x, del_kvs l s = Ret tt (set_db x s) /\ shrunk (fun k => k ∈ l.*1) (contents (db s)) (contents x).
Proof.
  induction l as [|[k v] l IH]; intros s Hl.
  - exists (db s). rewrite set_db_db. split; [done|apply shrunk_refl].
  - inversion_clear Hl as [|? ? Hk Hl']. simpl in Hk. unfold del_kvs in *. cbn [each fst].
    unfold del, on_db. rewrite plain_cstr, buf64_short by (done || apply Hk). cbn [fst snd].
    pose proof (del_or_not k (db s)) as Hd. destruct (dbdel k (len k) (db s)) as [r y] eqn:Ey. simpl in Hd.
    destruct (IH (set_db y s) Hl') as (x & E & Hs). exists x. split.
    { unfold mbind, M_bind. rewrite Ey. exact E. }
    simpl db in Hs. eapply shrunk_trans; [|eapply shrunk_weaken; [|exact Hs]; intros ? ?; rewrite fmap_cons; by right].
    intros k'. rewrite fmap_cons. destruct Hd as [->| ->]; [by left|].
    destruct (decide (k' = k)) as [->|]; [right; split; [left|by rewrite lookup_delete_eq]|left; by rewrite lookup_delete_ne].
Qed.

Context (start : Z -> cstring) (end_ : cstring) (next : list Z -> outcome Z).
Context (R : list Z -> Prop) (good : Z -> Prop).
Context (Hshort : forall g, good g -> short (start g)) (Hshort' : short end_).
Context (HR : forall g k, good g -> in_range (start g) end_ k -> R k).

(** The times read off the keys that are listed keep the loop in its range. *)
Definition steady (m : table) : Prop :=
  forall g k (v : list Z), good g -> in_range (start g) end_ k -> m !! k = Some v -> exists g', next k = Done g' /\ good g'.

Lemma steady_shrunk Q m m' : shrunk Q m m' -> steady m -> steady m'.
Proof. intros Hs Hm g k v Hg Hk E. eapply Hm; [done..|]. by eapply shrunk_sub. Qed.

Lemma listed_plain a b n m : well_keyed m -> Forall (fun x => plain x.1) (take n (listing a b m)).
Proof.
  intros Hm. apply Forall_take, Forall_forall. intros [k v] [E _]%elem_of_listing. by eapply Hm.
Qed.

Lemma del_loop_ext start' next' : (forall g, start g = start' g) -> (forall k, next k = next' k) ->
  forall n g (s : state), del_loop n start end_ next g s = del_loop n start' end_ next' g s.
Proof.
  intros Hs Hn. induction n as [|n IH]; intros g s; [done|]. cbn [del_loop]. rewrite <- Hs.
  unfold mbind, M_bind. destruct (scan (start g) end_ DB_KVN_MAX s) as [r s1| | |]; try done.
  destruct (failed DB_SCAN_OK r); [done|]. destruct (last (found r)) as [x|].
  - rewrite <- Hn. destruct (lift (next x.1) s1) as [g' s2| | |]; try done.
    destruct (del_kvs (found r) s2) as [? s3| | |]; try done. by destruct (found r).
  - simpl. destruct (del_kvs (found r) s1) as [? s3| | |]; try done. by destruct (found r).
Qed.

(** One turn. *)
Lemma del_turn n g (s : state) :
  good g -> well_keyed (contents (db s)) -> steady (contents (db s)) ->
  exists x, contents x = contents (db s) /\
  (failed DB_SCAN_OK (dbscan (start g) (len (start g)) end_ (len end_) DB_KVN_MAX (db s)).1 = true /\
   del_loop (Datatypes.S n) start end_ next g s = Ret (-1) (set_db x s) \/
   let l := take 1024 (listing (start g) end_ (contents (db s))) in
   (dbscan (start g) (len (start g)) end_ (len end_) DB_KVN_MAX (db s)).1 = Some (Reply DB_SCAN_OK l) /\
   match l with
   | [] => del_loop (Datatypes.S n) start end_ next g s = Ret 0 (set_db x s)
   | _ => exists g' y, (good g' /\ exists k v, (k, v) ∈ l /\ next k = Done g') /\ del_kvs l (set_db x s) = Ret tt (set_db y s) /\
       del_loop (Datatypes.S n) start end_ next g s = del_loop n start end_ next g' (set_db y s)
   end).
Proof.
  intros Hg Hm Hst. cbn [del_loop].
  destruct (dbscan (start g) (len (start g)) end_ (len end_) DB_KVN_MAX (db s)) as [r x] eqn:Ex.
  exists x. pose proof (scan_keeps (start g) (len (start g)) end_ (len end_) DB_KVN_MAX (db s)) as Hk.
  rewrite Ex in Hk. split; [done|].
  assert (scan (start g) end_ DB_KVN_MAX s = Ret r (set_db x s)) as Es
    by (rewrite scan_run, Ex by auto; done).
  rewrite (bind_Ret _ _ _ _ _ Es). clear Es.
  destruct (failed DB_SCAN_OK r) eqn:Ef; [by left|]. right.
  destruct r as [[rn l]|]; [|done]. simpl in Ef. apply negb_false_iff, Z.eqb_eq in Ef as ->.
  pose proof (scan_lists (start g) end_ DB_KVN_MAX (db s) l ltac:(by rewrite Ex)) as El.
  change (Z.to_nat DB_KVN_MAX) with 1024%nat in El. rewrite <- El. split; [done|]. cbn [found kvs].
  assert (Forall (fun x => plain x.1) l) as Hp by (rewrite El; by apply listed_plain).
  destruct l as [|x0 l0]; [done|]. set (l := x0 :: l0) in *.
  destruct (last l) as [z|] eqn:Ez; [|by apply last_None in Ez].
  assert (z ∈ listing (start g) end_ (contents (db s))) as Hz.
  { apply last_Some_elem_of in Ez. rewrite El in Ez. by apply elem_of_take in Ez as (i & Hi & _); eapply list_elem_of_lookup_2. }
  destruct z as [k v]. apply elem_of_listing in Hz as [E Hr].
  destruct (Hst g k v Hg Hr E) as (g' & En & Hg').
  destruct (del_kvs_run l (set_db x s) Hp) as (y & Ey & _). exists g', y.
  split; [split; [done|]; exists k, v; split; [by apply last_Some_elem_of|done]|]. split; [done|].
  cbn [fst]. rewrite En, bind_lift. unfold mbind, M_bind. by rewrite Ey.
Qed.

(** Whatever the store does, only records of [R] go. *)
Lemma del_loop_safe n : forall g (s : state),
  good g -> well_keyed (contents (db s)) -> steady (contents (db s)) ->
  match del_loop n start end_ next g s with
  | Ret z s' => exists x, s' = set_db x s /\ shrunk R (contents (db s)) (contents x)
  | More => True
  | _ => False
  end.
Proof.
  induction n as [|n IH]; intros g s Hg Hm Hst; [done|].
  destruct (del_turn n g s Hg Hm Hst) as (x & Ex & [[_ ->]|[_ Ht]]).
  { exists x. split; [done|]. rewrite Ex. apply shrunk_refl. }
  set (l := take 1024 (listing (start g) end_ (contents (db s)))) in *.
  assert (Forall (fun x => plain x.1) l) as Hp by by apply listed_plain.
  assert (shrunk (fun k => k ∈ l.*1) (contents (db s)) (contents x)) as Hsx by (rewrite Ex; apply shrunk_refl).
  assert (forall k, k ∈ l.*1 -> R k) as HlR.
  { intros k ((k1 & v) & -> & Hin)%list_elem_of_fmap. unfold l in Hin. apply elem_of_take in Hin as (i & Hi & _).
    apply list_elem_of_lookup_2, elem_of_listing in Hi as [_ Hi]. by eapply HR. }
  destruct (del_kvs_run l (set_db x s) Hp) as (y' & Ey' & Hs). simpl db in Hs. rewrite Ex in Hs.
  clearbody l. destruct l as [|x0 l0].
  { rewrite Ht. exists x. split; [done|]. rewrite Ex. apply shrunk_refl. }
  destruct Ht as (g' & y & [Hg' _] & Ey & ->). rewrite Ey' in Ey. injection Ey as ->.
  assert (shrunk R (contents (db s)) (contents y)) as HsR by (eapply shrunk_weaken; [exact HlR|exact Hs]).
  specialize (IH g' (set_db y s) Hg'). simpl db in IH.
  specialize (IH (shrunk_keyed _ _ _ HsR Hm) (steady_shrunk _ _ _ HsR Hst)).
  destruct (del_loop n start end_ next g' (set_db y s)) as [z s'|f|s'|]; try done.
  destruct IH as (w & -> & Hw). exists w. split; [done|]. by eapply shrunk_trans.
Qed.

(** On a store that does not fail the loop ends, and the first batch is gone. *)
Context `{!Reliable S}.

Lemma del_kvs_all l : forall s : state,
  Forall (fun x => plain x.1 /\ x.1 <> []) l ->
  exists x, del_kvs l s = Ret tt (set_db x s) /\ forall k, k ∈ l.*1 -> contents x !! k = None.
Proof.
  induction l as [|[k v] l IH]; intros s Hl.
  - exists (db s). rewrite set_db_db. split; [done|]. intros k Hk. by apply elem_of_nil in Hk.
  - inversion_clear Hl as [|? ? [Hk Hne] Hl']. simpl in Hk, Hne. unfold del_kvs in *. cbn [each fst].
    unfold del, on_db. rewrite plain_cstr, buf64_short by (done || apply Hk). cbn [fst snd].
    pose proof (del_deletes k (db s) (del_works k (db s) Hne)) as Hdel.
    destruct (dbdel k (len k) (db s)) as [r y] eqn:Ey. simpl in Hdel.
    destruct (IH (set_db y s) Hl') as (x0 & E & Hs). exists x0. split.
    { unfold mbind, M_bind. rewrite Ey. exact E. }
    destruct (del_kvs_run l (set_db y s)) as (x' & E' & Hsh); [eapply Forall_impl; [done|]; naive_solver|].
    unfold del_kvs in E'. rewrite E in E'. injection E' as <-. simpl db in Hsh. rewrite Hdel in Hsh.
    intros k'. rewrite fmap_cons, elem_of_cons. intros [->|Hin]; [|by apply Hs]. simpl.
    destruct (Hsh k) as [->|[_ ?]]; [apply lookup_delete_eq|done].
Qed.

Lemma shrunk_subseteq R' m m' : shrunk R' m m' -> m' ⊆ m.
Proof. intros Hs. apply map_subseteq_spec. intros k v. by eapply shrunk_sub. Qed.

Lemma listing_length_mono (a b a' b' : list Z) (m m' : table) :
  (forall k, in_range a b k -> in_range a' b' k) -> m' ⊆ m -> (length (listing a b m') <= length (listing a' b' m))%nat.
Proof.
  intros Hab Hm. apply submseteq_length, NoDup_submseteq; [eapply NoDup_fmap_1, NoDup_listing|].
  intros [k v]. rewrite !elem_of_listing. intros [E Hr]. split; [by eapply lookup_weaken|auto].
Qed.

Lemma shrunk_less R' m m' k v : shrunk R' m m' -> m !! k = Some v -> m' !! k = None -> (size m' < size m)%nat.
Proof.
  intros Hs E E'. apply map_subset_size, map_subset_alt. split.
  - by eapply shrunk_subseteq.
  - exists k. rewrite E. by split.
Qed.

Lemma del_loop_ends n : forall g (s : state),
  good g -> well_keyed (contents (db s)) -> steady (contents (db s)) -> (size (contents (db s)) < n)%nat ->
  exists x, del_loop n start end_ next g s = Ret 0 (set_db x s) /\ shrunk R (contents (db s)) (contents x) /\
    forall k v, (k, v) ∈ take 1024 (listing (start g) end_ (contents (db s))) -> contents x !! k = None.
Proof.
  induction n as [|n IH]; intros g s Hg Hm Hst Hn; [lia|].
  pose proof (del_loop_safe (Datatypes.S n) g s Hg Hm Hst) as Hsafe.
  destruct (del_turn n g s Hg Hm Hst) as (x & Ex & [[Ef _]|[_ Ht]]).
  { destruct (scan_works (start g) end_ DB_KVN_MAX (db s)) as [l El]; [done|]. by rewrite El in Ef. }
  destruct (take 1024 (listing (start g) end_ (contents (db s)))) as [|x0 l0] eqn:El.
  { exists x. split; [done|]. rewrite Ex. split; [apply shrunk_refl|]. intros k v Hk. by apply elem_of_nil in Hk. }
  destruct Ht as (g' & y & [Hg' _] & Ey & E). rewrite E in Hsafe |- *. clear E.
  assert (Forall (fun x => plain x.1 /\ x.1 <> []) (x0 :: l0)) as Hp.
  { rewrite <- El. apply Forall_take, Forall_forall. intros [k v] [Ek Hk]%elem_of_listing. split; [by eapply Hm|].
    destruct Hk as [Hk _]. intros E. simpl in E. subst k. by destruct (start g). }
  destruct (del_kvs_all (x0 :: l0) (set_db x s) Hp) as (y' & Ey' & Hgone). rewrite Ey in Ey'. injection Ey' as <-.
  destruct (del_kvs_run (x0 :: l0) (set_db x s)) as (y' & Ey' & Hs); [eapply Forall_impl; [done|]; naive_solver|].
  rewrite Ey in Ey'. injection Ey' as <-. simpl db in Hs. rewrite Ex in Hs.
  assert (contents (db s) !! x0.1 = Some x0.2) as E0.
  { assert (x0 ∈ take 1024 (listing (start g) end_ (contents (db s)))) as Hx0 by (rewrite El; left).
    apply elem_of_take in Hx0 as (i & Hi & _). apply list_elem_of_lookup_2 in Hi. destruct x0 as [k0 v0]. apply elem_of_listing in Hi. apply Hi. }
  pose proof (shrunk_less _ _ _ _ _ Hs E0 (Hgone x0.1 ltac:(rewrite fmap_cons; left))) as Hless.
  destruct (IH g' (set_db y s) Hg') as (z & E & Hz & _); simpl db.
  { by eapply shrunk_keyed. } { by eapply steady_shrunk. } { lia. }
  exists z. rewrite E in Hsafe. destruct Hsafe as (z' & Ez & Hsafe). injection Ez as <-.
  split; [done|]. split; [done|]. intros k v Hk. simpl db in Hz.
  destruct (Hz k) as [->|[_ ?]]; [|done]. apply Hgone. by apply list_elem_of_fmap_2' with (k, v).
Qed.

(** When every listed key leads to [g1], what [g1] starts at is gone in the end. *)
Lemma del_loop_wipes n g g1 (s : state) :
  good g -> good g1 -> well_keyed (contents (db s)) -> steady (contents (db s)) -> (size (contents (db s)) < n)%nat ->
  (forall k v, contents (db s) !! k = Some v -> in_range (start g) end_ k -> next k = Done g1) ->
  (exists k v, contents (db s) !! k = Some v /\ in_range (start g) end_ k) ->
  (length (listing (start g1) end_ (contents (db s))) <= 1024)%nat ->
  exists x, del_loop (Datatypes.S n) start end_ next g s = Ret 0 (set_db x s) /\
    forall k, in_range (start g1) end_ k -> contents x !! k = None.
Proof.
  intros Hg Hg1 Hm Hst Hn Hall (k0 & v0 & E0 & Hr0) Hlen.
  destruct (del_turn n g s Hg Hm Hst) as (x & Ex & [[Ef _]|[_ Ht]]).
  { destruct (scan_works (start g) end_ DB_KVN_MAX (db s)) as [l El]; [done|]. by rewrite El in Ef. }
  assert (forall k v, (k, v) ∈ take 1024 (listing (start g) end_ (contents (db s))) -> next k = Done g1) as Hnx.
  { intros k v (i & Hi & _)%elem_of_take. apply list_elem_of_lookup_2, elem_of_listing in Hi as [E Hr]. by eapply Hall. }
  pose proof (listed_plain (start g) end_ 1024 _ Hm) as Hp.
  destruct (take 1024 (listing (start g) end_ (contents (db s)))) as [|x0 l0] eqn:El.
  { pose proof (proj2 (elem_of_listing (start g) end_ _ k0 v0) (conj E0 Hr0)) as Hin.
    destruct (listing (start g) end_ (contents (db s))); [by apply elem_of_nil in Hin|done]. }
  destruct Ht as (g' & y & (_ & k & v & Hkv & Enext) & Ey & ->). rewrite (Hnx k v Hkv) in Enext. injection Enext as <-.
  destruct (del_kvs_run (x0 :: l0) (set_db x s) Hp) as (y' & Ey' & Hs). rewrite Ey in Ey'. injection Ey' as <-.
  simpl db in Hs. rewrite Ex in Hs. pose proof (shrunk_subseteq _ _ _ Hs) as Hsub.
  destruct (del_loop_ends n g1 (set_db y s) Hg1) as (z & E & Hz & Hgone); simpl db in *.
  { by eapply shrunk_keyed. } { by eapply steady_shrunk. } { pose proof (map_subseteq_size _ _ Hsub). lia. }
  exists z. split; [done|]. intros k1 Hk1. pose proof (listing_length_mono (start g1) end_ _ _ _ _ (fun _ Hk => Hk) Hsub).
  rewrite take_ge in Hgone by lia. destruct (Hz k1) as [Ek|[_ ?]]; [|done].
  destruct (contents y !! k1) as [v1|] eqn:Ev; [|done]. by apply (Hgone k1 v1), elem_of_listing.
Qed.

End Loop.

(** ** The records of a user *)

Section Purge.

Context {S : Type} `{StoreContract S} `{Env}.

Abbreviation state := (st S).
Abbreviation table := Store.table.

(** A time as it is kept in keys, with ten digits; so is the next second. *)
Definition stamp (t : Z) : Prop := 10 ^ 9 <= t < 10 ^ 10 - 1.

(** The keys from [q-] to [q.] are a time behind [q-]. *)
Definition dated (q : cstring) (m : table) : Prop :=
  forall k (v : list Z), m !! k = Some v -> in_range (q ++ dash) (q ++ dot) k -> exists t, k = q ++ dash ++ dec t /\ stamp t.

(** Behind the second after [gmt]; with [gmt = 0] every time. *)
Definition later (gmt t : Z) : Prop := gmt = 0 \/ gmt + 1 < t.

Definition old_record (q : cstring) (gmt : Z) (k : list Z) : Prop :=
  exists t, k = q ++ dash ++ dec t /\ stamp t /\ later gmt t.

Lemma dec_uid uid : 10000 <= uid <= 99999 -> d uid = dec uid /\ length (dec uid) = 5%nat.
Proof.
  intros Hu. split; [|apply (length_dec 4); lia]. unfold d. f_equal. apply wraps_small; lia.
Qed.

Lemma dec_plain n : 0 <= n < 10 ^ 20 -> Forall (fun c => c <> 0) (dec n).
Proof. intros Hn. destruct (dec_digits n Hn) as [Hd _]. eapply Forall_impl; [exact Hd|]. intros c Hc%digit_bounds. lia. Qed.

Section Dated.

(** A family of records [q-TIME]; [next] reads the time off a key. *)
Context (q : cstring) (gmt : Z) (Hq : (length q <= 50)%nat) (Hgmt : gmt = 0 \/ stamp gmt).

Abbreviation start := (fun g => q ++ dash ++ llu (succ0 g)).

Definition good (g : Z) : Prop := g = gmt \/ (stamp g /\ later gmt g).

Lemma start_succ0 g : good g -> succ0 g = 0 /\ g = 0 /\ gmt = 0 \/ succ0 g = g + 1 /\ stamp g /\ (later gmt g \/ g = gmt).
Proof.
  unfold good, succ0, stamp, later in *. intros Hg. destruct (Z.eqb_spec g 0) as [->|]; [left; lia|].
  right. split; [apply Z.mod_small; lia|]. lia.
Qed.

Lemma start_short g : good g -> short (start g).
Proof.
  intros Hg. unfold short. rewrite !length_app. unfold llu.
  destruct (start_succ0 g Hg) as [(-> & _)|(-> & Hs & _)]; [simpl; lia|].
  unfold stamp in Hs. rewrite (length_dec 9) by lia. simpl. lia.
Qed.

Lemma end_short : short (q ++ dot).
Proof. unfold short. rewrite !length_app. simpl. lia. Qed.

(** What lies behind the start is later. *)
Lemma start_range g t : good g -> stamp t -> in_range (start g) (q ++ dot) (q ++ dash ++ dec t) <-> later g t.
Proof.
  intros Hg Ht. unfold in_range. rewrite !key_ltb_app, key_le_app.
  assert (key_le (dash ++ dec t) dot) as Hle by (apply key_le_cons; left; lia).
  unfold later, llu. destruct (start_succ0 g Hg) as [(-> & -> & _)|(-> & Hs & _)]; unfold stamp in *.
  - split; [by left|]. intros _. split; [|done]. apply dec_zero_first. lia.
  - rewrite dec_ltb by lia. split; [intros [? _]; by right|]. intros [->|?]; [lia|]. by split.
Qed.

Lemma range_wider g k : in_range (start g) (q ++ dot) k -> in_range (q ++ dash) (q ++ dot) k.
Proof.
  unfold in_range. intros [Hlt Hle]. split; [|done].
  assert (key_le (q ++ dash) (start g)) as Hp.
  { rewrite key_le_app. rewrite <- (app_nil_r dash) at 1. apply key_le_app. unfold key_le. by destruct (llu (succ0 g)). }
  apply key_le_lt in Hp as [Hp|Hp]; [by eapply key_ltb_trans|]. by rewrite Hp.
Qed.

(** The keys of such records keep the loop going as it should. *)
Lemma dated_steady next m :
  (forall t, stamp t -> next (q ++ dash ++ dec t) = Done t) -> dated q m -> steady start (q ++ dot) next good m.
Proof.
  intros Hnext Hm g k v Hg Hk E. destruct (Hm k v E (range_wider g k Hk)) as (t & -> & Ht).
  exists t. split; [by apply Hnext|]. right. split; [done|].
  apply start_range in Hk; [|done..]. destruct (start_succ0 g Hg) as [(_ & _ & ->)|(_ & Hs & Hl)]; [by left|].
  unfold later, stamp in *. lia.
Qed.

(** The range of every scan is within the first one. *)
Lemma start_mono g : good g -> key_le (start gmt) (start g).
Proof.
  intros [->|[Hs Hl]]; [unfold key_le; apply key_ltb_irrefl|]. rewrite !key_le_app. unfold llu.
  assert (good g) as Hg by (right; done). apply key_le_lt.
  destruct (start_succ0 gmt (or_introl eq_refl)) as [(-> & Hz & _)|(-> & Hs' & _)].
  - left. assert (succ0 g = g + 1) as -> by (destruct (start_succ0 g Hg) as [(? & ? & ?)|(-> & _)]; unfold stamp in *; lia).
    unfold stamp in Hs. apply dec_zero_first. lia.
  - unfold later, stamp in *. destruct (start_succ0 g Hg) as [(_ & -> & _)|(-> & _)]; [unfold stamp in *; lia|].
    left. apply dec_ltb; lia.
Qed.

Lemma range_first g k : good g -> in_range (start g) (q ++ dot) k -> in_range (start gmt) (q ++ dot) k.
Proof.
  intros Hg [Hlt Hle]. split; [|done]. pose proof (start_mono g Hg) as [Hm|Hm]%key_le_lt; [by eapply key_ltb_trans|].
  by rewrite Hm.
Qed.

Lemma range_old m k v : dated q m -> m !! k = Some v -> in_range (start gmt) (q ++ dot) k -> old_record q gmt k.
Proof.
  intros Hm E Hk. destruct (Hm k v E (range_wider _ k Hk)) as (t & -> & Ht). exists t. split; [done|]. split; [done|].
  apply start_range in Hk; [done|by left|done].
Qed.

Lemma shrunk_old m m' :
  dated q m -> shrunk (in_range (start gmt) (q ++ dot)) m m' -> shrunk (old_record q gmt) m m'.
Proof.
  intros Hm Hs k. destruct (Hs k) as [|[Hk E']]; [by left|].
  destruct (m !! k) as [v|] eqn:E; [right|left; congruence]. split; [by eapply range_old|done].
Qed.

(** The loop over such a family. *)
Context (next : list Z -> outcome Z) (Hnext : forall t, stamp t -> next (q ++ dash ++ dec t) = Done t).

Lemma family_safe n (s : state) :
  well_keyed (contents (db s)) -> dated q (contents (db s)) ->
  match del_loop n start (q ++ dot) next gmt s with
  | Ret _ s' => exists x, s' = set_db x s /\ shrunk (old_record q gmt) (contents (db s)) (contents x)
  | More => True
  | _ => False
  end.
Proof.
  intros Hk Hd.
  pose proof (del_loop_safe _ _ _ _ good start_short end_short range_first n gmt s (or_introl eq_refl) Hk
    (dated_steady next _ Hnext Hd)) as Hs.
  destruct (del_loop _ _ _ _ _ s) as [z s'| | |]; try done.
  destruct Hs as (x & -> & Hs). exists x. split; [done|]. by eapply shrunk_old.
Qed.

Lemma family_exact `{!Reliable S} n (s : state) :
  well_keyed (contents (db s)) -> dated q (contents (db s)) -> (size (contents (db s)) < n)%nat ->
  exists x, del_loop n start (q ++ dot) next gmt s = Ret 0 (set_db x s) /\
    shrunk (old_record q gmt) (contents (db s)) (contents x) /\
    ((length (listing (start gmt) (q ++ dot) (contents (db s))) <= 1024)%nat ->
     forall k, old_record q gmt k -> contents x !! k = None).
Proof.
  intros Hk Hd Hf.
  destruct (del_loop_ends _ _ _ _ good start_short end_short range_first n gmt s (or_introl eq_refl) Hk
    (dated_steady next _ Hnext Hd) Hf) as (x & E & Hs & Hall).
  exists x. split; [done|]. split; [by eapply shrunk_old|]. intros Hn k (t & -> & Ht & Hlt). rewrite take_ge in Hall by done.
  destruct (Hs (q ++ dash ++ dec t)) as [Ek|[_ ?]]; [|done].
  destruct (contents (db s) !! (q ++ dash ++ dec t)) as [v|] eqn:Ev; [|done].
  apply (Hall _ v), elem_of_listing. split; [done|]. apply start_range; [by left|done..].
Qed.

End Dated.

(** [atoull] at the time of a user's record. *)
Lemma gmt_of_user_key prefix uid t :
  Forall (fun c => c <> 0) prefix -> 10000 <= uid <= 99999 -> stamp t ->
  gmt_of_user prefix ((prefix ++ dec uid) ++ dash ++ dec t) = Done t.
Proof.
  unfold stamp. intros Hp Hu Ht. unfold gmt_of_user. destruct (dec_uid uid Hu) as [_ Hl].
  assert (cstr ((prefix ++ dec uid) ++ dash ++ dec t) = (prefix ++ dec uid) ++ dash ++ dec t) as ->.
  { unfold cstr. apply c_string_app. rewrite !Forall_app. split; [split; [done|apply dec_plain; lia]|].
    split; [by constructor|apply dec_plain; lia]. }
  rewrite !length_app, Hl. change (length dash) with 1%nat. rewrite decide_True by (unfold USERID_LEN; lia).
  f_equal. transitivity (atoull (Some (dec t))); [|apply atoull_dec; lia]. f_equal. f_equal.
  rewrite (app_assoc (prefix ++ _)). apply drop_app_length'. rewrite !length_app, Hl. unfold USERID_LEN. simpl. lia.
Qed.

Lemma user_family prefix uid gmt (s : state) : 10000 <= uid <= 99999 ->
  ww_del_user_db_data_by_gmt_uid_prefix gmt uid prefix s =
  del_loop fuel (fun g => (prefix ++ dec uid) ++ dash ++ llu (succ0 g)) ((prefix ++ dec uid) ++ dot) (gmt_of_user prefix) gmt s.
Proof.
  intros Hu. unfold ww_del_user_db_data_by_gmt_uid_prefix. rewrite (proj1 (dec_uid uid Hu)), <- app_assoc.
  apply del_loop_ext; [|done]. intros g. by rewrite <- app_assoc.
Qed.

(** C36. Whatever calls of the store fail, the removal of a user's old records
    never faults or ends the process, changes nothing but the store, and there
    only removes records of this user that lie behind the second after the
    given (reversed) time; every other record is kept as it is. *)
Theorem purge_safe prefix uid gmt (s : state) :
  Forall (fun c => c <> 0) prefix -> (length prefix <= 30)%nat -> 10000 <= uid <= 99999 -> gmt = 0 \/ stamp gmt ->
  well_keyed (contents (db s)) -> dated (prefix ++ dec uid) (contents (db s)) ->
  match ww_del_user_db_data_by_gmt_uid_prefix gmt uid prefix s with
  | Ret _ s' => exists x, s' = set_db x s /\
      forall k, contents x !! k = contents (db s) !! k \/ old_record (prefix ++ dec uid) gmt k /\ contents x !! k = None
  | More => True
  | _ => False
  end.
Proof.
  intros Hp Hl Hu Hg Hk Hd. rewrite user_family by done. apply family_safe; [|done| |done..].
  - rewrite length_app, (proj2 (dec_uid uid Hu)). lia.
  - intros t Ht. by apply gmt_of_user_key.
Qed.


(** ** The records of a group *)

Lemma after_dash_digits ds r : Forall (fun c => digit c) ds -> after_dash (ds ++ dash ++ r) = Done r.
Proof.
  induction 1 as [|c ds Hc%digit_bounds Hds IH]; [done|]. simpl. destruct (Z.eqb_spec c 45); [lia|done].
Qed.

Lemma gmt_of_group_key prefix gid t :
  Forall (fun c => c <> 0) prefix -> 0 <= gid < 2 ^ 31 -> stamp t ->
  gmt_of_group prefix ((prefix ++ dec gid) ++ dash ++ dec t) = Done t.
Proof.
  unfold stamp. intros Hp Hg Ht. unfold gmt_of_group.
  assert (cstr ((prefix ++ dec gid) ++ dash ++ dec t) = prefix ++ dec gid ++ dash ++ dec t) as ->.
  { rewrite <- app_assoc. unfold cstr. apply c_string_app. rewrite !Forall_app.
    repeat split; [done|apply dec_plain; lia|by constructor|apply dec_plain; lia]. }
  rewrite decide_True by (rewrite length_app; lia). rewrite drop_app_length.
  rewrite after_dash_digits by (apply dec_digits; lia). simpl. f_equal. apply atoull_dec. lia.
Qed.

Lemma length_dec_max k n : 0 <= n < 10 ^ Z.of_nat k -> (1 <= k <= 20)%nat -> (length (dec n) <= k)%nat.
Proof.
  intros Hn Hk. assert (10 ^ Z.of_nat k <= 10 ^ 20) by (apply Z.pow_le_mono_r; lia).
  destruct (dec_digits n) as (Hd & _ & Hv & Hz); [lia|]. destruct (dec n) as [|c ds]; [simpl; lia|].
  destruct (decide (c = 48)) as [->|Hc]; [specialize (Hz eq_refl); injection Hz as ->; simpl; lia|].
  inversion_clear Hd as [|? ? Hc'%digit_bounds Hds]. rewrite read_dec_cons in Hv.
  pose proof (read_dec_bounds _ Hds) as Hb. pose proof (pow10_pos (length ds)).
  assert (10 ^ Z.of_nat (length ds) < 10 ^ Z.of_nat k) as Hlt by nia. apply Z.pow_lt_mono_r_iff in Hlt; simpl; lia.
Qed.

(** The same for a group. *)
Theorem purge_group_exact `{!Reliable S} prefix gid gmt (s : state) :
  Forall (fun c => c <> 0) prefix -> (length prefix <= 30)%nat -> 0 <= gid < 2 ^ 31 -> gmt = 0 \/ stamp gmt ->
  well_keyed (contents (db s)) -> dated (prefix ++ dec gid) (contents (db s)) -> (size (contents (db s)) < fuel)%nat ->
  exists x, ww_del_group_db_data_by_gmt_gid_prefix gmt gid prefix s = Ret 0 (set_db x s) /\
    (forall k, contents x !! k = contents (db s) !! k \/ old_record (prefix ++ dec gid) gmt k /\ contents x !! k = None) /\
    ((length (listing ((prefix ++ dec gid) ++ dash ++ dec (succ0 gmt)) ((prefix ++ dec gid) ++ dot) (contents (db s))) <= 1024)%nat ->
     forall k, old_record (prefix ++ dec gid) gmt k -> contents x !! k = None).
Proof.
  intros Hp Hl Hu Hg Hk Hd Hf. unfold ww_del_group_db_data_by_gmt_gid_prefix.
  assert (d gid = dec gid) as -> by (unfold d; f_equal; apply wraps_small; lia).
  rewrite (del_loop_ext _ _ _ (fun g => (prefix ++ dec gid) ++ dash ++ llu (succ0 g)) (gmt_of_group prefix));
    [|intros; by rewrite <- app_assoc|done].
  rewrite (app_assoc prefix _ dot). apply family_exact; [|done| |done..].
  - rewrite length_app. pose proof (length_dec_max 10 gid). lia.
  - intros t Ht. by apply gmt_of_group_key.
Qed.

(** ** The records of a kind of activity *)

(** A one-digit number of at most two comes before a time of these decades. *)
Lemma dec_before_stamp i t : 0 <= i <= 2 -> 2 * 10 ^ 9 <= t < 10 ^ 10 -> key_ltb (dec i) (dec t) = true.
Proof.
  intros Hi Ht. assert (dec i = [48 + i]) as -> by (assert (i = 0 \/ i = 1 \/ i = 2) as [->|[-> | ->]] by lia; done).
  destruct (dec_digits t) as (Hd & _ & Hv & _); [lia|]. pose proof (length_dec 9 t) as Hl.
  destruct (dec t) as [|c ds]; [specialize (Hl ltac:(lia) ltac:(lia)); done|].
  specialize (Hl ltac:(lia) ltac:(lia)). injection Hl as Hl. inversion_clear Hd as [|? ? Hc%digit_bounds Hds].
  rewrite read_dec_cons, Hl in Hv. pose proof (read_dec_bounds _ Hds) as Hb. rewrite Hl in Hb.
  change (10 ^ Z.of_nat 9) with (10 ^ 9) in *. apply key_ltb_cons.
  destruct (decide (48 + i < c)); [by left|]. right. split; [lia|]. by destruct ds.
Qed.

Section Kind.

Context (prefix : cstring) (uid type gmt : Z).
Context (Hprefix : Forall (fun c => c <> 0) prefix) (Hlen : (length prefix <= 30)%nat).
Context (Huid : 10000 <= uid <= 99999) (Htype : type = 0 \/ type = 1) (Hgmt : stamp gmt) (Hgmt2 : 2 * 10 ^ 9 <= gmt).

Abbreviation qt := ((prefix ++ dec uid) ++ dash ++ dec type).
Abbreviation start := (fun g => qt ++ dash ++ llu (succ0 g)).

(** The records of the kind; behind the day the program writes the hour. *)
Definition recent (m : table) : Prop :=
  forall k (v : list Z), m !! k = Some v -> in_range (qt ++ dash) (qt ++ dot) k ->
  exists t r, k = qt ++ dash ++ dec t ++ r /\ Forall (fun c => c <> 0) r /\ stamp t /\ 2 * 10 ^ 9 <= t.

(** The number read is not the time but the kind. *)
Lemma gmt_of_user_kind t r :
  stamp t -> Forall (fun c => c <> 0) r -> gmt_of_user prefix (qt ++ dash ++ dec t ++ r) = Done type.
Proof.
  unfold stamp. intros Ht Hr. unfold gmt_of_user. destruct (dec_uid uid Huid) as [_ Hl].
  assert (cstr (qt ++ dash ++ dec t ++ r) = qt ++ dash ++ dec t ++ r) as ->.
  { unfold cstr. apply c_string_app. rewrite !Forall_app.
    repeat split; [done|apply dec_plain; lia|by constructor|apply dec_plain; lia|by constructor|apply dec_plain; lia|done]. }
  rewrite decide_True by (rewrite !length_app, Hl; unfold USERID_LEN; simpl; lia).
  f_equal. replace (qt ++ dash ++ dec t ++ r) with (((prefix ++ dec uid) ++ dash) ++ dec type ++ dash ++ dec t ++ r)
    by (by rewrite <- !app_assoc).
  rewrite drop_app_length'; [by destruct Htype as [-> | ->]|]. rewrite !length_app, Hl. unfold USERID_LEN. simpl. lia.
Qed.

Definition either (g : Z) : Prop := g = gmt \/ g = type.

Lemma succ0_kind : 0 <= succ0 type <= 2.
Proof. destruct Htype as [-> | ->]; vm_compute; by split. Qed.

Lemma kind_succ0 g : either g -> 0 <= succ0 g < 10 ^ 10 /\ key_le (start type) (start g).
Proof.
  pose proof succ0_kind. intros [->| ->]; [|split; [lia|unfold key_le; apply key_ltb_irrefl]].
  rewrite !key_le_app. unfold llu, stamp in *.
  assert (succ0 gmt = gmt + 1) as -> by (unfold succ0; destruct (Z.eqb_spec gmt 0); [lia|apply Z.mod_small; lia]).
  split; [lia|]. apply key_le_lt. left. apply dec_before_stamp; lia.
Qed.

Lemma kind_short g : either g -> short (start g).
Proof.
  intros [Hs _]%kind_succ0. unfold short, llu. rewrite !length_app, (proj2 (dec_uid uid Huid)).
  pose proof (length_dec_max 10 _ Hs ltac:(lia)). destruct Htype as [-> | ->]; simpl; lia.
Qed.

Lemma kind_end : short (qt ++ dot).
Proof. unfold short. rewrite !length_app, (proj2 (dec_uid uid Huid)). destruct Htype as [-> | ->]; simpl; lia. Qed.

Lemma kind_first g k : either g -> in_range (start g) (qt ++ dot) k -> in_range (start type) (qt ++ dot) k.
Proof.
  intros [_ Hs]%kind_succ0 [Hlt Hle]. split; [|done]. apply key_le_lt in Hs as [Hs|Hs]; [by eapply key_ltb_trans|].
  by rewrite Hs.
Qed.

Lemma kind_steady m : recent m -> steady start (qt ++ dot) (gmt_of_user prefix) either m.
Proof.
  intros Hm g k v Hg Hk E. destruct (Hm k v E (range_wider _ _ _ Hk)) as (t & r & -> & Hr & Ht & _).
  exists type. split; [by apply gmt_of_user_kind|by right].
Qed.

Lemma kind_all t r : stamp t -> 2 * 10 ^ 9 <= t -> in_range (start type) (qt ++ dot) (qt ++ dash ++ dec t ++ r).
Proof.
  unfold stamp. intros Ht Ht2. split.
  - rewrite !key_ltb_app. pose proof succ0_kind. apply key_ltb_longer, dec_before_stamp; lia.
  - rewrite key_le_app. apply key_le_cons. left. lia.
Qed.

Lemma kind_family (s : state) :
  ww_del_user_db_data_by_uid_type_gmt_prefix gmt uid prefix type s =
  del_loop fuel start (qt ++ dot) (gmt_of_user prefix) gmt s.
Proof.
  unfold ww_del_user_db_data_by_uid_type_gmt_prefix. rewrite (proj1 (dec_uid uid Huid)).
  assert (d type = dec type) as -> by (by destruct Htype as [-> | ->]).
  replace (prefix ++ dec uid ++ dash ++ dec type ++ dot) with (qt ++ dot) by (by rewrite <- !app_assoc).
  apply del_loop_ext; [|done]. intros g. by rewrite <- !app_assoc.
Qed.

End Kind.

(** C40. The removal by kind does not do what it should: for the kinds 0 and 1
    the number it goes on from is the kind, not the time of the last record.
    As soon as one record is too old, every record of the kind is removed, the
    ones that should have been kept included. *)
Theorem purge_kind_wipes `{!Reliable S} prefix uid type gmt (s : state) t0 r0 v0 :
  Forall (fun c => c <> 0) prefix -> (length prefix <= 30)%nat -> 10000 <= uid <= 99999 -> type = 0 \/ type = 1 ->
  stamp gmt -> 2 * 10 ^ 9 <= gmt ->
  well_keyed (contents (db s)) -> recent prefix uid type (contents (db s)) ->
  (Datatypes.S (size (contents (db s))) < fuel)%nat ->
  (length (listing (((prefix ++ dec uid) ++ dash ++ dec type) ++ dash) (((prefix ++ dec uid) ++ dash ++ dec type) ++ dot)
     (contents (db s))) <= 1024)%nat ->
  contents (db s) !! (((prefix ++ dec uid) ++ dash ++ dec type) ++ dash ++ dec t0 ++ r0) = Some v0 -> stamp t0 -> later gmt t0 ->
  exists x, ww_del_user_db_data_by_uid_type_gmt_prefix gmt uid prefix type s = Ret 0 (set_db x s) /\
    forall t r, stamp t -> 2 * 10 ^ 9 <= t ->
      contents x !! (((prefix ++ dec uid) ++ dash ++ dec type) ++ dash ++ dec t ++ r) = None.
Proof.
  intros Hp Hl Hu Ht Hg Hg2 Hk Hr Hf Hn E0 Hs Hlt. rewrite kind_family by done.
  destruct fuel as [|n]; [lia|].
  destruct (del_loop_wipes (fun g => ((prefix ++ dec uid) ++ dash ++ dec type) ++ dash ++ llu (succ0 g))
    (((prefix ++ dec uid) ++ dash ++ dec type) ++ dot) (gmt_of_user prefix)
    (in_range (((prefix ++ dec uid) ++ dash ++ dec type) ++ dash ++ llu (succ0 type)) (((prefix ++ dec uid) ++ dash ++ dec type) ++ dot))
    (either type gmt)) with (n := n) (g := gmt) (g1 := type) (s := s) as (x & E & Hx).
  - by apply kind_short.
  - by apply kind_end.
  - by apply kind_first.
  - apply _.
  - by left.
  - by right.
  - done.
  - by apply kind_steady.
  - lia.
  - intros k v E Hin. destruct (Hr k v E (range_wider _ _ _ Hin)) as (t & r & -> & Hr' & Hs' & _). by apply gmt_of_user_kind.
  - eexists _, v0. split; [done|].
    destruct (proj2 (start_range ((prefix ++ dec uid) ++ dash ++ dec type) gmt ltac:(rewrite !length_app, (proj2 (dec_uid uid Hu));
      destruct Ht as [-> | ->]; simpl; lia) (or_intror Hg) gmt t0 (or_introl eq_refl) Hs) Hlt) as [Hin _].
    split; [rewrite !app_assoc in *; by apply key_ltb_longer|]. rewrite key_le_app. apply key_le_cons. left. lia.
  - etransitivity; [|exact Hn]. apply listing_length_mono; [apply range_wider|done].
  - exists x. split; [done|]. intros t r Hs' Hs2. apply Hx. by apply kind_all.
Qed.

End Purge.

(** ** On a small store *)

#[export] Instance noon : Env := {|
  fuel := 20; localtime _ := Tm 0 0 12 1 0 100 0; ww_chat_list := []; ww_move_list := []; junk := 0
|}.

Definition blank {T} : reg T := Reg ∅ ∅.

Definition blank_st (m : Store.table) : st Store.table :=
  St (UserAction.Users blank blank) (Group.Groups blank 0) (Detail.Details blank blank blank) (QQ.QQs blank blank blank blank)
     blank ∅ m [] [] None.

Definition two_users : Store.table :=
  <[PRE_USER_ACTION ++ dec 10001 ++ dash ++ dec 2900000000 := [1]]>
  (<[PRE_USER_ACTION ++ dec 10001 ++ dash ++ dec 3100000000 := [2]]>
  (<[PRE_USER_ACTION ++ dec 10002 ++ dash ++ dec 3100000000 := [3]]> ∅)).

Lemma two_users_cases k v : two_users !! k = Some v ->
  k = PRE_USER_ACTION ++ dec 10001 ++ dash ++ dec 2900000000 \/
  k = PRE_USER_ACTION ++ dec 10001 ++ dash ++ dec 3100000000 \/
  k = PRE_USER_ACTION ++ dec 10002 ++ dash ++ dec 3100000000.
Proof.
  unfold two_users. intros [[<- _]|[_ [[<- _]|[_ [[<- _]|[_ E]]%lookup_insert_Some]]%lookup_insert_Some]]%lookup_insert_Some; auto.
  by rewrite lookup_empty in E.
Qed.

Lemma two_users_keyed : well_keyed two_users.
Proof.
  intros k v [->|[-> | ->]]%two_users_cases; (split; [vm_compute; lia|]); apply (bool_decide_unpack _); vm_compute; done.
Qed.

Lemma two_users_dated : dated (PRE_USER_ACTION ++ dec 10001) two_users.
Proof.
  intros k v [->|[-> | ->]]%two_users_cases Hr.
  - exists 2900000000. split; [done|unfold stamp; lia].
  - exists 3100000000. split; [done|unfold stamp; lia].
  - by destruct Hr as [_ Hr].
Qed.

Lemma prefix_plain : Forall (fun c => c <> 0) PRE_USER_ACTION.
Proof. apply (bool_decide_unpack _). vm_compute. done. Qed.

Lemma purge_safe_witness :
  match ww_del_user_db_data_by_gmt_uid_prefix 3000000000 10001 PRE_USER_ACTION (blank_st two_users) with
  | Ret _ s' => exists x, s' = set_db x (blank_st two_users) /\
      forall k, contents x !! k = contents (db (blank_st two_users)) !! k \/ old_record (PRE_USER_ACTION ++ dec 10001) 3000000000 k /\ contents x !! k = None
  | More => True
  | _ => False
  end.
Proof.
  refine (purge_safe PRE_USER_ACTION 10001 3000000000 (blank_st two_users) prefix_plain _ _ _ two_users_keyed two_users_dated);
    [vm_compute; lia|lia|right; unfold stamp; lia].
Defined.


Definition two_records : Store.table :=
  <[((PRE_USER_DETAIL_ACTION ++ dec 10001) ++ dash ++ dec 1) ++ dash ++ dec 2900000000 := [1]]>
  (<[((PRE_USER_DETAIL_ACTION ++ dec 10001) ++ dash ++ dec 1) ++ dash ++ dec 3100000000 := [2]]> ∅).

Lemma two_records_cases k v : two_records !! k = Some v ->
  k = ((PRE_USER_DETAIL_ACTION ++ dec 10001) ++ dash ++ dec 1) ++ dash ++ dec 2900000000 \/
  k = ((PRE_USER_DETAIL_ACTION ++ dec 10001) ++ dash ++ dec 1) ++ dash ++ dec 3100000000.
Proof.
  unfold two_records. intros [[<- _]|[_ [[<- _]|[_ E]]%lookup_insert_Some]]%lookup_insert_Some; auto.
  by rewrite lookup_empty in E.
Qed.

Lemma two_records_keyed : well_keyed two_records.
Proof.
  intros k v [->| ->]%two_records_cases; (split; [vm_compute; lia|]); apply (bool_decide_unpack _); vm_compute; done.
Qed.

Lemma two_records_recent : recent PRE_USER_DETAIL_ACTION 10001 1 two_records.
Proof.
  intros k v [->| ->]%two_records_cases _; [exists 2900000000, []|exists 3100000000, []]; unfold stamp; (split; [by rewrite app_nil_r|]); (split; [constructor|lia]).
Qed.

(** Of the two records the second is to be removed; both are. *)
Lemma purge_kind_wipes_witness :
  exists x, ww_del_user_db_data_by_uid_type_gmt_prefix 3000000000 10001 PRE_USER_DETAIL_ACTION 1 (blank_st two_records)
      = Ret 0 (set_db x (blank_st two_records)) /\
    contents x !! (((PRE_USER_DETAIL_ACTION ++ dec 10001) ++ dash ++ dec 1) ++ dash ++ dec 2900000000) = None.
Proof.
  destruct (purge_kind_wipes PRE_USER_DETAIL_ACTION 10001 1 3000000000 (blank_st two_records)
    3100000000 [] [2]) as (x & E & Hall);
    [apply (bool_decide_unpack _); vm_compute; done|vm_compute; lia|lia|by right|unfold stamp; lia|lia|apply two_records_keyed
    |apply two_records_recent|vm_compute; lia|vm_compute; lia|vm_compute; done
    |unfold stamp; lia|unfold later; lia|].
  exists x. split; [exact E|]. rewrite <- (app_nil_r (dec 2900000000)). apply Hall; unfold stamp; lia.
Defined.
