(* ===== verification/CalcFacts.v ===== *)
(** * CalcFacts: what is written of a day's statistics

    The value that goes to the store for a user's day holds the day's
    activities, and is read back as they were, by the offsets with which the
    rest of the program reads it.  With more than 1024 activities the
    functions that do not compute [save_data] again write to a block that is
    gone. *)

From Stdlib Require Import Ascii String.
From S2P Require Import Prelude CString Bytes Registry Timer Rules CText CTextFacts Users Cache CJson Allocator Db DbFacts.
From S2P Require Import Store Save SaveCalc SaveCheck PurgeFacts.
Import Registry CText Save SaveCalc SaveCheck.
Import UserAction.
Local Open Scope Z_scope.

(** ** Several stores *)

Abbreviation chunk := (nat * list Z)%type.

Fixpoint stores (l : list chunk) (b : list Z) : outcome (list Z) :=
  match l with [] => Done b | x :: l => b ← Bytes.store x.1 x.2 b; stores l b end.

Definition beside (x y : chunk) : Prop := (x.1 + length x.2 <= y.1 \/ y.1 + length y.2 <= x.1)%nat.

Fixpoint pairwise (l : list chunk) : Prop :=
  match l with [] => True | x :: l => Forall (beside x) l /\ pairwise l end.

Definition holds (b : list Z) (x : chunk) : Prop := field x.1 (length x.2) b = x.2.

Lemma stores_spec l : forall b,
  Forall (fun x => x.1 + length x.2 <= length b)%nat l -> pairwise l ->
  exists b', stores l b = Done b' /\ length b' = length b /\ Forall (holds b') l /\
    forall i, Forall (fun x => i < x.1 \/ x.1 + length x.2 <= i)%nat l -> b' !! i = b !! i.
Proof.
  induction l as [|x l IH]; intros b Hfit Hp; [by exists b|].
  inversion_clear Hfit as [|? ? Hx Hl]. destruct Hp as [Hxl Hp].
  destruct (store_fits x.1 x.2 b Hx) as [b1 E1]. pose proof (store_length _ _ _ _ E1) as L1.
  destruct (IH b1) as (b' & E & L & Hh & Hsame); [by rewrite L1|done|].
  exists b'. simpl. rewrite E1. split; [exact E|]. split; [congruence|]. split.
  - constructor; [|done]. unfold holds. rewrite <- (store_field _ _ _ _ E1) at 2. apply field_ext. intros i Hi. apply Hsame.
    eapply Forall_impl; [exact Hxl|]. unfold beside. intros y Hy. lia.
  - intros i Hi. inversion_clear Hi as [|? ? Hix Hil]. rewrite Hsame by done. by eapply store_elsewhere.
Qed.

Lemma holds_ext b b' x :
  (forall i, (x.1 <= i < x.1 + length x.2)%nat -> b' !! i = b !! i) -> holds b x -> holds b' x.
Proof. intros Hi Hh. unfold holds in *. rewrite <- Hh at 2. by apply field_ext. Qed.

(** What is read of it. *)
Lemma load_holds b o n v :
  holds b (o, le n v) -> (o + n <= length b)%nat -> load o n b = Done (wrapu (8 * Z.of_nat n) v).
Proof.
  unfold holds. simpl. rewrite length_le. intros Hh Hl. unfold load. rewrite decide_True by done. by rewrite Hh, unle_le.
Qed.

Lemma until_nul_app s r : Forall (fun c => c <> 0) s -> Category.until_nul (s ++ 0 :: r) = Done s.
Proof. induction 1 as [|c s Hc Hs IH]; [done|]. simpl. destruct (Z.eqb_spec c 0); [done|]. by rewrite IH. Qed.

Lemma text_holds b o s : holds b (o, s ++ [0]) -> Forall (fun c => c <> 0) s -> text_at o b = Done s.
Proof.
  unfold holds, text_at, field. simpl. intros Hh Hs. rewrite <- (take_drop (length (s ++ [0])) (drop o b)), Hh, <- app_assoc.
  by apply until_nul_app.
Qed.

(** ** One activity *)

Section Act.

Definition act_chunks (pos : nat) (x : ww_action_list) (c : Z) : list chunk :=
  [((pos + 80)%nat, le 4 (time x)); ((pos + 84)%nat, le 4 (type x)); ((pos + 48)%nat, snprintf_s 32 (pro_name x) ++ [0]);
   (pos, snprintf_s 48 (act_name x) ++ [0]); ((pos + 92)%nat, le 4 (key_click x)); ((pos + 96)%nat, le 4 (mou_click x));
   ((pos + 88)%nat, le 4 c)].

Definition act_here (b : list Z) (pos : nat) (xc : ww_action_list * Z) : Prop := Forall (holds b) (act_chunks pos xc.1 xc.2).

Lemma chunk_sizes pos x c :
  Forall (fun y => pos <= y.1 /\ y.1 + length y.2 <= pos + 100)%nat (act_chunks pos x c) /\ pairwise (act_chunks pos x c).
Proof.
  pose proof (snprintf_short 48 (act_name x) ltac:(lia)). pose proof (snprintf_short 32 (pro_name x) ltac:(lia)).
  unfold act_chunks. cbn [pairwise]. rewrite !Forall_cons. unfold beside. cbn [fst snd]. rewrite !length_app, !length_le.
  cbn [length]. split_and!; try apply Forall_nil_2; try done; lia.
Qed.

Lemma put_action_spec pos x c b :
  (pos + 100 <= length b)%nat ->
  exists b', put_action pos x c b = Done b' /\ length b' = length b /\ act_here b' pos (x, c) /\
    forall i, (i < pos \/ pos + 100 <= i)%nat -> b' !! i = b !! i.
Proof.
  intros Hl. destruct (chunk_sizes pos x c) as [Hs Hp].
  destruct (stores_spec (act_chunks pos x c) b) as (b' & E & L & Hh & Hsame).
  - eapply Forall_impl; [exact Hs|]. intros y Hy. simpl in Hy. lia.
  - done.
  - exists b'. split.
    + rewrite <- E. unfold put_action, act_chunks. cbn [stores fst snd].
      repeat (match goal with |- context [Bytes.store ?o ?l ?a] => destruct (Bytes.store o l a); [|done]; cbn [mbind outcome_bind] end).
      done.
    + split; [done|]. split; [done|]. intros i Hi. apply Hsame. eapply Forall_impl; [exact Hs|]. intros y Hy. simpl in Hy. lia.
Qed.

Lemma act_here_ext b b' pos xc :
  (forall i, (pos <= i < pos + 100)%nat -> b' !! i = b !! i) -> act_here b pos xc -> act_here b' pos xc.
Proof.
  intros Hi Hh. destruct (chunk_sizes pos xc.1 xc.2) as [Hs _]. unfold act_here in *.
  pose proof (proj2 (Forall_and _ _) (conj Hs Hh)) as Hb. eapply Forall_impl; [exact Hb|]. intros y [Hy Hhy].
  eapply holds_ext; [|exact Hhy]. intros i Hiy. apply Hi. simpl in Hy. lia.
Qed.

(** An activity as the statistics are read again ([merge_act], by the same
    offsets). *)
Record an_user_calc_act := CalcAct {
  c_act : cstring; c_pro : cstring; c_time : Z; c_type : Z; c_category : Z; c_key : Z; c_mou : Z
}.

Definition read_act (v : list Z) (j : nat) : outcome an_user_calc_act :=
  let o := (HEAD + j * ACT)%nat in
  pro ← text_at (o + 48) v;
  act ← text_at o v;
  t ← load (o + 80) 4 v;
  ty ← load (o + 84) 4 v;
  c ← load (o + 88) 4 v;
  k ← load (o + 92) 4 v;
  m ← load (o + 96) 4 v;
  Done (CalcAct act pro t ty c k m).

(** What becomes of an activity: names cut to their arrays. *)
Definition as_saved (x : ww_action_list) (c : Z) : an_user_calc_act :=
  CalcAct (snprintf_s 48 (act_name x)) (snprintf_s 32 (pro_name x)) (u32 (time x)) (u32 (type x)) (u32 c)
    (u32 (key_click x)) (u32 (mou_click x)).

Definition named (x : ww_action_list) : Prop := Forall (fun c => c <> 0) (act_name x) /\ Forall (fun c => c <> 0) (pro_name x).

Lemma snprintf_plain n (l : cstring) : Forall (fun c => c <> 0) l -> Forall (fun c => c <> 0) (snprintf_s n l).
Proof. intros Hl. unfold snprintf_s. destruct (n =? 0); [constructor|]. by apply Forall_take. Qed.

Lemma read_here v j x c :
  act_here v (HEAD + j * ACT) (x, c) -> (HEAD + S j * ACT <= length v)%nat -> named x ->
  read_act v j = Done (as_saved x c).
Proof.
  intros Hh Hl [Hn1 Hn2]. unfold act_here, act_chunks in Hh. rewrite !Forall_cons in Hh. cbn [fst snd] in Hh.
  destruct Hh as (H1 & H2 & H3 & H4 & H5 & H6 & H7 & _). unfold read_act.
  assert (HEAD + j * ACT + 100 <= length v)%nat as Hl' by (unfold ACT in *; lia).
  rewrite (text_holds _ _ _ H3) by by apply snprintf_plain. cbn [mbind outcome_bind].
  rewrite (text_holds _ _ _ H4) by by apply snprintf_plain. cbn [mbind outcome_bind].
  rewrite (load_holds _ _ _ _ H1), (load_holds _ _ _ _ H2), (load_holds _ _ _ _ H7), (load_holds _ _ _ _ H5),
    (load_holds _ _ _ _ H6) by lia. done.
Qed.

End Act.

(** ** The loop over the activities *)

Section Fill.

Context {S : Type} `{RecordStore S} `{Env}.

Abbreviation state := (st S).

(** The activities at the addresses, each with its category. *)
Definition acts_are (gid : Z) (s : state) (l : list addr) (xs : list (ww_action_list * Z)) : Prop :=
  Forall2 (fun a xc => objs (areg (t_users s)) !! a = Some xc.1 /\
    Category.ww_get_category_by_ww_action_list_st ww_chat_list ww_move_list xc.1 gid (t_work s) = Done xc.2) l xs.

Definition block_ok (cnt : Z) (n : nat) (b : sbuf) : Prop :=
  here b = true /\ pos b = (HEAD + Z.to_nat cnt * ACT)%nat /\ 0 <= cnt /\ cnt + Z.of_nat n <= act_num b /\
  (pos b + n * ACT <= length (blk b))%nat.

(** As long as the block is large enough, the activities are in it, behind
    what was there. *)
Lemma fill_spec rebase gid s l xs : acts_are gid s l xs ->
  forall cnt b, block_ok cnt (length l) b ->
  exists b', fill no_hook rebase gid l cnt b s = Ret (Some (cnt + Z.of_nat (length l), b')) s /\
    block_ok (cnt + Z.of_nat (length l)) 0 b' /\ length (blk b') = length (blk b) /\ act_num b' = act_num b /\
    (forall j xc, xs !! j = Some xc -> act_here (blk b') (HEAD + (Z.to_nat cnt + j) * ACT) xc) /\
    (forall i, (i < pos b)%nat -> blk b' !! i = blk b !! i).
Proof.
  induction 1 as [|a [x c] l xs [Ea Ec] Hl IH]; intros cnt b (Hh & Hp & Hc & Hn & Hlen).
  { exists b. simpl. rewrite Z.add_0_r. repeat split; try done; simpl in *; lia. }
  cbn [fill]. cbn [length] in *. simpl in Ea, Ec.

  assert (no_hook a s = Ret tt s) as E0 by done. rewrite (bind_Ret _ _ _ _ _ E0). clear E0.
  assert (grow rebase (cnt + 1) b s = Ret (Some b) s) as E0
    by (unfold grow; destruct (Z.ltb_spec (act_num b) (cnt + 1)); [lia|done]).
  rewrite (bind_Ret _ _ _ _ _ E0), Hh, bind_lift. clear E0.
  assert (action a s = Ret x s) as Ea' by (unfold action; rewrite bind_gets; simpl; by rewrite Ea).
  rewrite (bind_Ret _ _ _ _ _ Ea').
  assert (category_of x gid s = Ret c s) as Ec' by (unfold category_of; rewrite bind_gets; simpl; by rewrite Ec).
  rewrite (bind_Ret _ _ _ _ _ Ec').
  destruct (put_action_spec (pos b) x c (blk b)) as (bytes & -> & L & Hx & Hsame); [unfold ACT in *; lia|].
  rewrite bind_lift.
  destruct (IH (cnt + 1) (Sbuf bytes (act_num b) true (pos b + ACT))) as (b' & E & Hok & L' & Hnum & Hall & Hbefore).
  { repeat split; cbn [here pos act_num blk]; try done; unfold ACT in *; lia. }
  cbn [blk pos act_num] in *. exists b'. replace (cnt + Z.of_nat (Datatypes.S (length l))) with (cnt + 1 + Z.of_nat (length l)) by lia.
  split; [done|]. split; [done|]. split; [congruence|]. split; [done|]. split.
  - intros [|j] xc Hj; simpl in Hj.
    + injection Hj as <-. rewrite Nat.add_0_r, <- Hp. eapply act_here_ext; [|exact Hx]. intros i Hi. apply Hbefore.
      unfold ACT. lia.
    + replace (Z.to_nat cnt + Datatypes.S j)%nat with (Z.to_nat (cnt + 1) + j)%nat by lia. by apply Hall.
  - intros i Hi. rewrite Hbefore by lia. apply Hsame. by left.
Qed.

Lemma fill_app hook rebase gid l1 l2 : forall cnt b (s s1 : state) cnt1 b1,
  fill hook rebase gid l1 cnt b s = Ret (Some (cnt1, b1)) s1 ->
  fill hook rebase gid (l1 ++ l2) cnt b s = fill hook rebase gid l2 cnt1 b1 s1.
Proof.
  induction l1 as [|a l1 IH]; intros cnt b s s1 cnt1 b1 E; [by injection E as -> -> ->|].
  cbn [app fill] in *. unfold mbind, M_bind in *.
  destruct (hook a s) as [? s2| | |]; try done. destruct (grow rebase (cnt + 1) b s2) as [[b2|] s3| | |]; try done.
  destruct (lift _ s3) as [? s4| | |]; try done. destruct (action a s4) as [x s5| | |]; try done.
  destruct (category_of x gid s5) as [c s6| | |]; try done. destruct (lift _ s6) as [bytes s7| | |]; try done.
  by apply IH.
Qed.

(** The next activity needs a larger block; the old one is gone. *)
Lemma fill_lost gid a l cnt b (s : state) g :
  act_num b = cnt -> reallocs s = Moved :: g ->
  fill no_hook false gid (a :: l) cnt b s = Bad UseAfterFree.
Proof.
  intros Hn Hg. cbn [fill]. assert (no_hook a s = Ret tt s) as E by done. rewrite (bind_Ret _ _ _ _ _ E). clear E.
  unfold mbind, M_bind, grow. destruct (Z.ltb_spec (act_num b) (cnt + 1)); [|lia].
  unfold mbind, M_bind, realloc. rewrite Hg. cbn -[block_size take replicate]. by rewrite andb_false_r.
Qed.

(** ** The value *)

(** What a value says: whose day it is, and the activities. *)
Definition day_value (v : list Z) (gid : Z) (xs : list (ww_action_list * Z)) : Prop :=
  length v = (HEAD + length xs * ACT)%nat /\ load 0 4 v = Done (u32 gid) /\ load 4 4 v = Done (Z.of_nat (length xs)) /\
  forall j xc, xs !! j = Some xc -> read_act v j = Done (as_saved xc.1 xc.2).

Definition seal_chunks (n gid : Z) (cnt : option Z) : list chunk :=
  (4%nat, le 4 n) :: (0%nat, le 4 gid) :: match cnt with Some c => [(8%nat, le 4 c)] | None => [] end.

Lemma field_take o w n (b : list Z) : (o + w <= n)%nat -> field o w (take n b) = field o w b.
Proof. intros Hn. apply field_ext. intros i Hi. rewrite lookup_take_lt; [done|lia]. Qed.

Lemma seal_spec xs gid cnt (b : list Z) :
  (HEAD + length xs * ACT <= length b)%nat -> Z.of_nat (length xs) < 2 ^ 32 ->
  (forall xc, xc ∈ xs -> named xc.1) ->
  (forall j xc, xs !! j = Some xc -> act_here b (HEAD + j * ACT) xc) ->
  exists bytes, seal (Z.of_nat (length xs)) gid cnt b = Done bytes /\ length bytes = length b /\
    day_value (value (Z.of_nat (length xs)) bytes) gid xs /\
    (forall c, cnt = Some c -> load 8 4 (value (Z.of_nat (length xs)) bytes) = Done (u32 c)).
Proof.
  intros Hl Hn Hnamed Hacts. unfold HEAD in *.
  destruct (stores_spec (seal_chunks (Z.of_nat (length xs)) gid cnt) b) as (bytes & E & L & Hh & Hsame).
  { unfold seal_chunks. rewrite !Forall_cons. cbn [fst snd]. rewrite !length_le. split_and!; [lia|lia|].
    destruct cnt; [|constructor]. apply Forall_singleton. cbn [fst snd]. rewrite length_le. lia. }
  { unfold seal_chunks. cbn [pairwise]. rewrite !Forall_cons. unfold beside. cbn [fst snd]. rewrite !length_le.
    destruct cnt; cbn [pairwise]; rewrite ?Forall_cons; unfold beside; cbn [fst snd]; rewrite ?length_le;
      split_and!; try apply Forall_nil_2; try done; lia. }
  exists bytes. split.
  { rewrite <- E. unfold seal, seal_chunks. cbn [stores fst snd]. destruct (Bytes.store 4 _ b) as [b1|]; [|done].
    cbn [mbind outcome_bind]. destruct (Bytes.store 0 _ b1) as [b2|]; [|done]. cbn [mbind outcome_bind].
    destruct cnt; [|done]. cbn [stores fst snd]. by destruct (Bytes.store 8 _ b2). }
  split; [done|]. unfold value, day_value. rewrite Nat2Z.id. set (v := take (HEAD + length xs * ACT) bytes).
  assert (length v = 12 + length xs * ACT)%nat as Lv by (unfold v; rewrite length_take, L; unfold HEAD; lia).
  assert (forall y, (y.1 + length y.2 <= 12)%nat -> holds bytes y -> holds v y) as Hv.
  { intros y Hy H1. unfold holds, v. rewrite field_take; [done|unfold HEAD; lia]. }
  unfold seal_chunks in Hh. rewrite !Forall_cons in Hh. destruct Hh as (Hh4 & Hh0 & Hh8).
  apply Hv in Hh4; [|simpl; lia]. apply Hv in Hh0; [|simpl; lia].
  rewrite (load_holds v 0 4 gid Hh0) by lia. rewrite (load_holds v 4 4 _ Hh4) by lia.
  split; [split; [exact Lv|]; split; [done|]; split; [f_equal; apply Z.mod_small; simpl; lia|]|].
  - intros j [x c] Hj. pose proof (lookup_lt_Some _ _ _ Hj) as Hlt. apply read_here.
    + apply (act_here_ext b); [|by apply (Hacts j)]. intros i Hi. unfold v, HEAD, ACT in *. rewrite lookup_take_lt by lia.
      apply Hsame. unfold seal_chunks. rewrite !Forall_cons. cbn [fst snd]. rewrite !length_le. split_and!; [lia|lia|].
      destruct cnt; [|constructor]. apply Forall_singleton. cbn [fst snd]. rewrite length_le. lia.
    + unfold HEAD, ACT in *. lia.
    + apply (Hnamed (x, c)). by eapply list_elem_of_lookup_2.
  - intros c ->. rewrite Forall_singleton in Hh8. apply Hv in Hh8; [|simpl; lia]. apply (load_holds v 8 4 c Hh8). lia.
Qed.

Lemma new_block_run (s : state) a k rest :
  mallocs s = a :: k :: rest -> a <> NULL -> k <> NULL ->
  new_block s = Ret (Some (Sbuf (replicate (block_size 1024) 0) 1024 true HEAD)) (set_mallocs rest s).
Proof.
  intros E Ha Hk. unfold new_block.
  assert (malloc s = Ret a (set_mallocs (k :: rest) s)) as E1 by (unfold malloc; by rewrite E).
  rewrite (bind_Ret _ _ _ _ _ E1). destruct (Z.eqb_spec a NULL); [done|].
  assert (malloc (set_mallocs (k :: rest) s) = Ret k (set_mallocs rest s)) as E2 by done.
  rewrite (bind_Ret _ _ _ _ _ E2). by destruct (Z.eqb_spec k NULL).
Qed.

Lemma new_block_ok (n : nat) : (n <= 1024)%nat -> block_ok 0 n (Sbuf (replicate (block_size 1024) 0) 1024 true HEAD).
Proof.
  intros Hn. unfold block_ok. cbn [here pos act_num blk]. rewrite length_replicate. unfold block_size, ACT.
  split; [done|]. split; [done|]. split; [lia|]. split; lia.
Qed.

End Fill.

(** ** A user's day *)

Section Saved.

Context {S : Type} `{StoreContract S} `{!Reliable S} `{Env}.

Abbreviation state := (st S).
Abbreviation table := Store.table.

(** A time of the store, as [get_time] takes it. *)
Definition stored_time (m : table) (key : cstring) (old : Z) : Z :=
  match m !! key with Some v => unle (field 0 8 v) | None => old end.

Definition timed (m : table) (key : cstring) : Prop := forall v : list Z, m !! key = Some v -> (8 <= length v)%nat.

Lemma get_time_run key old (s : state) :
  short key -> timed (contents (db s)) key ->
  exists x, get_time key old s = Ret (Some (stored_time (contents (db s)) key old)) (set_db x s) /\ contents x = contents (db s).
Proof.
  intros Hk Ht. exists (dbget key (len key) (db s)).2. split; [|apply get_keeps].
  assert (get key s = Ret (dbget key (len key) (db s)).1 (set_db (dbget key (len key) (db s)).2 s)) as E.
  { unfold get, on_db. rewrite buf64_short by done. simpl. by destruct (dbget key (len key) (db s)). }
  unfold get_time. rewrite (bind_Ret _ _ _ _ _ E), get_works. unfold stored_time.
  destruct (contents (db s) !! key) as [v|] eqn:Ev; [|done]. cbn [failed rno found kvs].
  unfold load. rewrite decide_True by by apply Ht. done.
Qed.

Lemma multi_set_run (l : list record) (s : state) :
  l <> [] -> exists x, multi_set (honest_args l) s = Ret false (set_db x s) /\ contents x = set_all l (contents (db s)).
Proof.
  intros Hl. exists (dbmulti_set (honest_args l) (db s)).2. destruct (mset_works l (db s) Hl) as [r Er].
  split; [|apply mset_sets; by exists r]. unfold multi_set, on_db, mbind, M_bind.
  destruct (dbmulti_set (honest_args l) (db s)) as [a x]. simpl in Er. by subst a.
Qed.

Lemma kv_short key val : short key -> kv key val = Db.Arg key (len key) val (len val).
Proof. intros Hk. unfold kv. by rewrite buf64_short. Qed.

Lemma length_d n : (length (d n) <= 11)%nat.
Proof.
  unfold d. assert (- 2 ^ 31 <= s32 n < 2 ^ 31) as Hn.
  { pose proof (wraps_range 32 n ltac:(lia)). simpl in *. lia. }
  destruct (decide (s32 n < 0)) as [Hneg|].
  - assert (dec (s32 n) = 45 :: dec (- s32 n)) as ->.
    { unfold dec. destruct (Z.ltb_spec (s32 n) 0); [|lia]. destruct (Z.ltb_spec (- s32 n) 0); [lia|done]. }
    cbn [length]. pose proof (length_dec_max 10 (- s32 n)). lia.
  - pose proof (length_dec_max 10 (s32 n)). lia.
Qed.

Definition day_key (uid day : Z) : cstring := PRE_USER_CALC_ACTION ++ d uid ++ dash ++ llu day.
Definition last_day_key (uid : Z) : cstring := PRE_USER_CALC_ACTTIME ++ d uid.

Lemma day_key_short uid day : 0 <= day < 2 ^ 64 -> short (day_key uid day).
Proof.
  intros Hd. unfold short, day_key, llu. rewrite !length_app. pose proof (length_d uid).
  pose proof (length_dec_max 20 day). simpl. lia.
Qed.

Lemma last_day_key_short uid : short (last_day_key uid).
Proof. unfold short, last_day_key. rewrite length_app. pose proof (length_d uid). simpl. lia. Qed.

Lemma acttime_key_short gid : short (acttime_key gid).
Proof. unfold short, acttime_key. rewrite length_app. pose proof (length_d gid). simpl. lia. Qed.

Lemma calc_keys_differ uid uid' gid day :
  day_key uid day <> last_day_key uid' /\ day_key uid day <> acttime_key gid /\ last_day_key uid <> acttime_key gid.
Proof. by repeat split. Qed.

Lemma the_user_run user u (s : state) :
  user <> NULL -> objs (ureg (t_users s)) !! user = Some u -> the_user user s = Ret u s.
Proof.
  intros Hu Eu. unfold the_user. rewrite bind_gets. unfold deref. destruct (Z.eqb_spec user NULL); [done|].
  simpl. by rewrite Eu.
Qed.

(** The last days of a group and of everybody. *)
Lemma group_times gid (s : state) :
  timed (contents (db s)) (acttime_key gid) -> timed (contents (db s)) (acttime_key 0) ->
  exists x1 x2 t1 t2, get_time (acttime_key gid) 0 s = Ret (Some t1) (set_db x1 s) /\
    get_time (acttime_key 0) 0 (set_db x1 s) = Ret (Some t2) (set_db x2 s) /\ contents x2 = contents (db s).
Proof.
  intros Ht1 Ht2. destruct (get_time_run (acttime_key gid) 0 s (acttime_key_short _) Ht1) as (x1 & E1 & C1).
  destruct (get_time_run (acttime_key 0) 0 (set_db x1 s) (acttime_key_short _)) as (x2 & E2 & C2); [simpl; by rewrite C1|].
  simpl db in C2. rewrite C1 in C2. by eexists x1, x2, _, _.
Qed.

(** C37. A user's day is saved: with at most 1024 activities, memory, and a
    store whose calls work, [ww_save_user_calc_act_to_db] returns 0; the store
    then has the day under the user's key, the value decoding to the user's
    group and every activity with its names cut to their arrays, its category
    and its counters, and the day as the user's last one; only that and the
    two groups' times have changed. *)
Theorem user_day_saved (s : state) user u xs a k rest :
  user <> NULL -> objs (ureg (t_users s)) !! user = Some u ->
  acts_are (group_id u) s (actions_of user (t_users s)) xs -> (length xs <= 1024)%nat -> (forall xc, xc ∈ xs -> named xc.1) ->
  mallocs s = a :: k :: rest -> a <> NULL -> k <> NULL -> 0 <= day_time u < 2 ^ 64 ->
  timed (contents (db s)) (acttime_key (group_id u)) -> timed (contents (db s)) (acttime_key 0) ->
  exists x v, ww_save_user_calc_act_to_db user s = Ret 0 (set_db x (set_mallocs rest s)) /\
    contents x !! day_key (user_id u) (day_time u) = Some v /\ day_value v (group_id u) xs /\
    contents x !! last_day_key (user_id u) = Some (le 8 (day_time u)) /\
    forall key, key <> day_key (user_id u) (day_time u) -> key <> last_day_key (user_id u) ->
      key <> acttime_key (group_id u) -> key <> acttime_key 0 -> contents x !! key = contents (db s) !! key.
Proof.
  intros Hu Eu Hacts Hn Hnamed Em Ha Hk Hday Ht1 Ht2.
  assert (the_user user s = Ret u s) as E by by apply the_user_run.
  unfold ww_save_user_calc_act_to_db. rewrite (bind_Ret _ _ _ _ _ E). clear E.
  destruct (group_times (group_id u) s Ht1 Ht2) as (x1 & x2 & t1 & t2 & E1 & E2 & C2).
  rewrite (bind_Ret _ _ _ _ _ E1), (bind_Ret _ _ _ _ _ E2). clear E1 E2.
  rewrite (bind_Ret _ _ _ _ _ (new_block_run (set_db x2 s) a k rest Em Ha Hk)), bind_gets.
  set (s2 := set_mallocs rest (set_db x2 s)). change (t_users s2) with (t_users s).
  pose proof (Forall2_length _ _ _ Hacts) as Hlen.
  destruct (fill_spec false (group_id u) s2 (actions_of user (t_users s)) xs Hacts 0 _ (new_block_ok (length (actions_of user (t_users s))) ltac:(lia)))
    as (b & E & (_ & _ & _ & _ & Hfits) & L & _ & Hhere & _).
  rewrite (bind_Ret _ _ _ _ _ E). clear E. rewrite Z.add_0_l, Hlen. cbn [blk] in L. rewrite length_replicate in L.
  destruct (seal_spec xs (group_id u) None (blk b)) as (bytes & E & _ & Hv & _).
  { rewrite L. unfold block_size, HEAD, ACT. lia. } { lia. } { done. } { intros j xc Hj. by apply (Hhere j). }
  rewrite E, bind_lift. clear E. fold (day_key (user_id u) (day_time u)) (last_day_key (user_id u)).
  rewrite !kv_short by (apply day_key_short || apply last_day_key_short || apply acttime_key_short; done).
  set (v := value (Z.of_nat (length xs)) bytes) in *.
  set (l := [(day_key (user_id u) (day_time u), v); (last_day_key (user_id u), le 8 (day_time u));
             (acttime_key (group_id u), le 8 (next_day t1 (day_time u))); (acttime_key 0, le 8 (next_day t2 (day_time u)))]).
  destruct (multi_set_run l s2 ltac:(done)) as (x & E & Cx). unfold honest_args, l in E. cbn [fmap list_fmap fst snd] in E.
  rewrite (bind_Ret _ _ _ _ _ E). clear E. exists x, v. split; [done|].
  simpl db in Cx. rewrite C2 in Cx. unfold set_all, l in Cx. cbn [foldl fst snd] in Cx.
  destruct (calc_keys_differ (user_id u) (user_id u) (group_id u) (day_time u)) as (D1 & D2 & D3).
  destruct (calc_keys_differ (user_id u) (user_id u) 0 (day_time u)) as (_ & D4 & D5).
  rewrite Cx. split; [by rewrite !lookup_insert_ne, lookup_insert_eq by done|]. split; [done|].
  split; [by rewrite !lookup_insert_ne, lookup_insert_eq by done|]. intros key K1 K2 K3 K4. by rewrite !lookup_insert_ne by done.
Qed.

(** A user's day with more than 1024 activities is not saved: when the
    block has to move to grow, the function goes on writing to the old one
    ([save_data] is not computed again), which is freed. *)
Theorem large_day_lost (s : state) user u l1 a1 l2 xs a k rest g :
  user <> NULL -> objs (ureg (t_users s)) !! user = Some u ->
  actions_of user (t_users s) = l1 ++ a1 :: l2 -> length l1 = 1024%nat -> acts_are (group_id u) s l1 xs ->
  mallocs s = a :: k :: rest -> a <> NULL -> k <> NULL -> reallocs s = Moved :: g ->
  timed (contents (db s)) (acttime_key (group_id u)) -> timed (contents (db s)) (acttime_key 0) ->
  ww_save_user_calc_act_to_db user s = Bad UseAfterFree.
Proof.
  intros Hu Eu El Hl Hacts Em Ha Hk Hg Ht1 Ht2.
  assert (the_user user s = Ret u s) as E by by apply the_user_run.
  unfold ww_save_user_calc_act_to_db. rewrite (bind_Ret _ _ _ _ _ E). clear E.
  destruct (group_times (group_id u) s Ht1 Ht2) as (x1 & x2 & t1 & t2 & E1 & E2 & _).
  rewrite (bind_Ret _ _ _ _ _ E1), (bind_Ret _ _ _ _ _ E2). clear E1 E2.
  rewrite (bind_Ret _ _ _ _ _ (new_block_run (set_db x2 s) a k rest Em Ha Hk)), bind_gets.
  set (s2 := set_mallocs rest (set_db x2 s)). change (t_users s2) with (t_users s). rewrite El.
  destruct (fill_spec false (group_id u) s2 l1 xs Hacts 0 _ (new_block_ok (length l1) ltac:(lia)))
    as (b & E & _ & _ & Hnum & _).
  unfold mbind at 1, M_bind at 1. rewrite (fill_app _ _ _ _ _ _ _ _ _ _ _ E), (fill_lost _ _ _ _ _ s2 g); [done| |done].
  rewrite Hnum, Hl. done.
Qed.

(** ** Groups without a time *)

Lemma check_group_run today gid t0 (s : state) :
  timed (contents (db s)) (acttime_key gid) ->
  exists x, contents x = contents (db s) /\
    let t := stored_time (contents (db s)) (acttime_key gid) t0 in
    let t := if t <=? today then u64 (today + 2 * DAY) else t in
    check_group today gid t0 s =
      (if today <? t then resave_days fuel (resave_usergroup_calc_action gid) today t else mret (inl t)) (set_db x s).
Proof.
  intros Ht. destruct (get_time_run (acttime_key gid) t0 s (acttime_key_short _) Ht) as (x & E & C).
  exists x. split; [done|]. unfold check_group. by rewrite (bind_Ret _ _ _ _ _ E).
Qed.

Lemma resave_days_none n resave today t (s : state) :
  0 <= today < t -> t <= today + DAY -> resave_days (Datatypes.S n) resave today t s = Ret (inl t) s.
Proof.
  intros Hlt Hle. cbn [resave_days]. assert (u64 (t - today) = t - today) as -> by (apply Z.mod_small; unfold DAY in *; lia).
  by destruct (Z.ltb_spec DAY (t - today)); [lia|].
Qed.

(** The check for missing statistics forgets groups: the time of a group
    that is up to date stays in the variable, so a group behind it that has no
    time in the store is taken to be up to date as well and nothing is
    computed; checked on its own, its last two days are computed. *)
Theorem group_forgotten today g1 g2 v (s : state) :
  contents (db s) !! acttime_key g1 = Some v -> (8 <= length v)%nat ->
  0 <= today < unle (field 0 8 v) -> unle (field 0 8 v) <= today + DAY -> today < 2 ^ 63 -> (1 <= fuel)%nat ->
  contents (db s) !! acttime_key g2 = None ->
  (exists x, for_fold (fun g t => check_group today g t) [g1; g2] 0 s = Ret (inl (unle (field 0 8 v))) (set_db x s) /\
     contents x = contents (db s)) /\
  (exists x, check_group today g2 0 s =
     resave_days fuel (resave_usergroup_calc_action g2) today (today + 2 * DAY) (set_db x s) /\ contents x = contents (db s)).
Proof.
  intros E1 Hv Ht Ht' Htoday Hf E2.
  assert (timed (contents (db s)) (acttime_key g1)) as T1 by (intros v' E'; rewrite E1 in E'; by injection E' as <-).
  assert (timed (contents (db s)) (acttime_key g2)) as T2 by (intros v' E'; by rewrite E2 in E').
  destruct fuel as [|n] eqn:Ef; [lia|]. split.
  - destruct (check_group_run today g1 0 s T1) as (x1 & C1 & R1). unfold stored_time in R1. rewrite E1, Ef in R1. cbv zeta in R1.
    destruct (Z.leb_spec (unle (field 0 8 v)) today); [lia|]. destruct (Z.ltb_spec today (unle (field 0 8 v))); [|lia].
    rewrite resave_days_none in R1 by lia.
    destruct (check_group_run today g2 (unle (field 0 8 v)) (set_db x1 s)) as (x2 & C2 & R2); [simpl; by rewrite C1|].
    unfold stored_time in R2. change (db (set_db x1 s)) with x1 in R2, C2. rewrite C1, E2, Ef in R2. cbv zeta in R2.
    destruct (Z.leb_spec (unle (field 0 8 v)) today); [lia|]. destruct (Z.ltb_spec today (unle (field 0 8 v))); [|lia].
    rewrite resave_days_none in R2 by lia.
    exists x2. split; [|by rewrite C2]. cbn [for_fold]. rewrite (bind_Ret _ _ _ _ _ R1), (bind_Ret _ _ _ _ _ R2). done.
  - destruct (check_group_run today g2 0 s T2) as (x & C & R). exists x. split; [|done]. unfold stored_time in R.
    rewrite E2, Ef in R. cbv zeta in R. rewrite R. destruct (Z.leb_spec 0 today); [|lia].
    assert (u64 (today + 2 * DAY) = today + 2 * DAY) as -> by (apply Z.mod_small; unfold DAY; lia).
    by destruct (Z.ltb_spec today (today + 2 * DAY)); [|unfold DAY in *; lia].
Qed.

End Saved.

(** ** On small states *)

Definition ex_user : ww_user_action := UserAction 10001 2 0 0 2900000000.
Definition ex_action : ww_action_list := Action [65] [66] 5 151 1 2 0.

Definition ex_st (m : Store.table) (acts : list addr) : st Store.table :=
  St (Users (Reg {[100 := ex_user]} ∅) (Reg (list_to_map ((fun a => (a, ex_action)) <$> acts)) {[(F_ALL, (100, 0)) := acts]}))
     (Group.Groups blank 0) (Detail.Details blank blank blank) (QQ.QQs blank blank blank blank)
     blank ∅ m [8; 16] [Moved] None.

Lemma ex_acts m acts l : l ⊆ acts -> acts_are 2 (ex_st m acts) l ((fun _ => (ex_action, 6)) <$> l).
Proof.
  intros Hl. unfold acts_are. apply Forall2_fmap_r, Forall_Forall2_diag, Forall_forall. intros a Ha. split; [|by vm_compute].
  cbn [ex_st t_users areg objs fst]. apply Hl in Ha. clear Hl l. induction acts as [|b acts IH]; [by apply elem_of_nil in Ha|].
  rewrite fmap_cons. cbn [list_to_map foldr curry fst snd].
  destruct (decide (b = a)) as [->|Hne]; [by rewrite lookup_insert_eq|]. rewrite lookup_insert_ne by done.
  apply IH. apply elem_of_cons in Ha as [->|Ha]; done.
Qed.

Lemma ex_actions m acts : actions_of 100 (t_users (ex_st m acts)) = acts.
Proof. unfold actions_of, tget. cbn [ex_st t_users areg tbl]. by rewrite lookup_singleton_eq. Qed.

Lemma ex_named (l : list addr) xc : xc ∈ (fun _ => (ex_action, 6)) <$> l -> named xc.1.
Proof. intros (a & -> & _)%list_elem_of_fmap. by split; repeat constructor. Qed.

Lemma user_day_saved_witness :
  exists x v, ww_save_user_calc_act_to_db 100 (ex_st ∅ [200]) = Ret 0 (set_db x (set_mallocs [] (ex_st ∅ [200]))) /\
    contents x !! day_key 10001 2900000000 = Some v /\
    day_value v 2 [(ex_action, 6)].
Proof.
  destruct (user_day_saved (ex_st ∅ [200]) 100 ex_user [(ex_action, 6)] 8 16 []) as (x & v & E & Ev & Hv & _);
    [done|apply lookup_singleton_eq|rewrite ex_actions; exact (ex_acts ∅ [200] [200] (fun _ H => H))|simpl; lia
    |apply (ex_named [200])|done|done|done|simpl; lia|intros v E; discriminate|intros v E; discriminate|].
  exists x, v. split; [exact E|]. split; [exact Ev|exact Hv].
Defined.

Definition many : list addr := (fun n => Z.of_nat n + 200) <$> seq 0 1024.

Lemma large_day_lost_witness : ww_save_user_calc_act_to_db 100 (ex_st ∅ (many ++ [8000])) = Bad UseAfterFree.
Proof.
  apply (large_day_lost (ex_st ∅ (many ++ [8000])) 100 ex_user many 8000 [] ((fun _ => (ex_action, 6)) <$> many) 8 16 [] []);
    [done|apply lookup_singleton_eq|apply ex_actions|by vm_compute|apply ex_acts; intros b Hb; apply elem_of_app; by left|done|done|done|done
    |intros v E; discriminate|intros v E; discriminate].
Defined.

Definition ex_times : Store.table := {[acttime_key 1 := le 8 1010]}.

Lemma group_forgotten_witness :
  exists x, for_fold (fun g t => check_group 1000 g t) [1; 2] 0 (blank_st ex_times) = Ret (inl 1010) (set_db x (blank_st ex_times)).
Proof.
  destruct (group_forgotten 1000 1 2 (le 8 1010) (blank_st ex_times)) as [(x & E & _) _];
    [apply lookup_singleton_eq|by vm_compute|by vm_compute|by vm_compute|done|vm_compute; lia|by vm_compute|].
  exists x. exact E.
Defined.
