(* ===== verification/DayFacts.v ===== *)
(** * DayFacts: the clock and the daily run

    What the comparison of the users' clocks finds, and how the runs follow
    each other. *)

From Stdlib Require Import Ascii String.
From S2P Require Import Prelude CString Bytes Registry Timer TimerFacts Rules CText CTextFacts Users Cache CJson Allocator Db DbFacts.
From S2P Require Import Store Save SaveCalc SaveCheck SaveHour SaveDay PurgeFacts.
Import Registry CText Save SaveCalc SaveHour SaveDay.
Local Open Scope Z_scope.

(** ** Sums *)

Section Sums.
Context {A : Type}.

Definition sumz (f : A -> Z) (l : list A) : Z := foldr (fun x n => f x + n) 0 l.

Lemma sumz_cons f x l : sumz f (x :: l) = f x + sumz f l.
Proof. done. Qed.

Lemma sumz_app f l k : sumz f (l ++ k) = sumz f l + sumz f k.
Proof. induction l as [|x l IH]; [done|]. simpl. lia. Qed.

Lemma sumz_ext f g l : (forall x, x ∈ l -> f x = g x) -> sumz f l = sumz g l.
Proof.
  induction l as [|x l IH]; intros Hl; [done|]. simpl. rewrite (Hl x) by left. rewrite IH; [done|].
  intros y Hy. apply Hl. by right.
Qed.

Lemma sumz_zero f l : (forall x, x ∈ l -> f x = 0) -> sumz f l = 0.
Proof.
  intros Hl. rewrite (sumz_ext f (fun _ => 0)) by done. clear Hl. induction l as [|x l IH]; [done|]. simpl. lia.
Qed.

Lemma sumz_le f g l : (forall x, x ∈ l -> f x <= g x) -> sumz f l <= sumz g l.
Proof.
  induction l as [|x l IH]; intros Hl; [done|]. simpl. pose proof (Hl x ltac:(left)).
  assert (sumz f l <= sumz g l) by (apply IH; intros; apply Hl; by right). lia.
Qed.

Lemma sumz_const n l : sumz (fun _ => n) l = n * Z.of_nat (length l).
Proof. induction l as [|x l IH]; [simpl; lia|]. simpl. rewrite IH. lia. Qed.

Lemma sumz_plus f g l : sumz (fun x => f x + g x) l = sumz f l + sumz g l.
Proof. induction l as [|x l IH]; [done|]. simpl. lia. Qed.

#[global] Instance sumz_Permutation f : Proper ((≡ₚ) ==> eq) (sumz f).
Proof. induction 1; simpl; lia. Qed.
End Sums.

Lemma sumz_fmap {A B} (f : B -> Z) (g : A -> B) l : sumz f (g <$> l) = sumz (fun x => f (g x)) l.
Proof. induction l as [|x l IH]; [done|]. rewrite fmap_cons. simpl. by rewrite IH. Qed.

Lemma sumz_bind {A B} (f : B -> Z) (g : A -> list B) l : sumz f (l ≫= g) = sumz (fun x => sumz f (g x)) l.
Proof. induction l as [|x l IH]; [done|]. rewrite bind_cons, sumz_app, IH. done. Qed.

(** A part of the indices, counted. *)
Lemma sumz_part (f : nat -> Z) G n :
  NoDup G -> (forall g, g ∈ G -> (g < n)%nat) -> (forall i, 0 <= f i <= 1) ->
  sumz f G <= sumz f (seq 0 n) <= sumz f G + (Z.of_nat n - Z.of_nat (length G)).
Proof.
  intros Hnd Hlt Hf. destruct (submseteq_Permutation G (seq 0 n)) as (k & Hp).
  { apply NoDup_submseteq; [done|]. intros g Hg. apply elem_of_seq. specialize (Hlt g Hg). lia. }
  rewrite Hp, sumz_app. assert (0 <= sumz f k <= Z.of_nat (length k)) as Hk.
  { clear Hp. induction k as [|x k IH]; [simpl; lia|]. simpl. specialize (Hf x). lia. }
  apply Permutation_length in Hp. rewrite length_seq, length_app in Hp. lia.
Qed.

(** ** The flags *)

Section Clock.

Context (times : list Z).
Abbreviation n := (length times).
Abbreviation t i := (nth i times 0).

Definition Zb (b : bool) : Z := if b then 1 else 0.

(** What the pair [(i, j)] adds to the flags of [k]. *)
Definition share (k : nat) (p : nat * nat) : Z :=
  (if decide (k = p.1) then Zb (t k =? 0) + Zb (apart (t p.1) (t p.2)) else 0) +
  (if decide (k = p.2) then Zb (t k =? 0) + Zb (apart (t p.1) (t p.2)) else 0).

Definition pairs : list (nat * nat) := seq 0 n ≫= fun i => pair i <$> seq (i + 1) (n - (i + 1)).

Lemma length_bump i l : length (bump i l) = length l.
Proof. apply length_alter. Qed.

Lemma bump_nth k i l x : (i < length l)%nat -> nth k l 0 = u32 x ->
  nth k (bump i l) 0 = u32 (x + if decide (k = i) then 1 else 0).
Proof.
  intros Hi Hx. unfold bump. rewrite nth_lookup in *. case_decide as Hk.
  - subst k. rewrite list_lookup_alter_eq. destruct (lookup_lt_is_Some_2 l i Hi) as [y Ey]. rewrite Ey in *. simpl in *.
    subst y. unfold wrapu. by rewrite Zplus_mod_idemp_l.
  - rewrite list_lookup_alter_ne by done. rewrite Hx. f_equal. lia.
Qed.

Lemma bump_if_nth (b : bool) k i l x : (i < length l)%nat -> nth k l 0 = u32 x ->
  nth k (if b then bump i l else l) 0 = u32 (x + (if decide (k = i) then Zb b else 0)).
Proof.
  intros Hi Hx. destruct b; [by apply bump_nth|]. rewrite Hx. f_equal. simpl. case_decide; lia.
Qed.

Lemma compare_nth k i j l x :
  (i < length l)%nat -> (j < length l)%nat -> i <> j -> nth k l 0 = u32 x ->
  nth k (compare_times times i j l) 0 = u32 (x + share k (i, j)) /\ length (compare_times times i j l) = length l.
Proof.
  intros Hi Hj Hij Hx. unfold compare_times.
  pose proof (bump_if_nth (t i =? 0) k i l x Hi Hx) as H1.
  set (l1 := if t i =? 0 then bump i l else l) in *.
  assert (length l1 = length l) as L1 by (unfold l1; destruct (_ =? _); [apply length_bump|done]).
  pose proof (bump_if_nth (t j =? 0) k j l1 _ ltac:(lia) H1) as H2.
  set (l2 := if t j =? 0 then bump j l1 else l1) in *.
  assert (length l2 = length l) as L2 by (unfold l2; destruct (t j =? 0); [rewrite length_bump|]; done).
  pose proof (bump_if_nth (apart (t i) (t j)) k i l2 _ ltac:(lia) H2) as H3.
  set (l3 := if apart (t i) (t j) then bump i l2 else l2) in *.
  assert (length l3 = length l) as L3 by (unfold l3; destruct (apart _ _); [rewrite length_bump|]; done).
  pose proof (bump_if_nth (apart (t i) (t j)) k j l3 _ ltac:(lia) H3) as H4.
  replace (if apart (t i) (t j) then bump j (bump i l2) else l2) with (if apart (t i) (t j) then bump j l3 else l3)
    by (unfold l3; by destruct (apart (t i) (t j))).
  split; [|destruct (apart _ _); [rewrite length_bump|]; done].
  rewrite H4. f_equal. unfold share. simpl fst. simpl snd.
  destruct (decide (k = i)) as [Ei|]; destruct (decide (k = j)) as [Ej|]; [congruence|rewrite Ei; lia|rewrite Ej; lia|lia].
Qed.

Lemma foldl_pairs {A B C} (f : A -> B -> C -> C) (g : A -> list B) l : forall c,
  foldl (fun c i => foldl (fun c j => f i j c) c (g i)) c l = foldl (fun c p => f p.1 p.2 c) c (l ≫= fun i => pair i <$> g i).
Proof.
  induction l as [|i l IH]; intros c; [done|]. rewrite bind_cons, foldl_app, <- IH. simpl. f_equal.
  generalize c. induction (g i) as [|j js IHj]; intros c'; [done|]. rewrite fmap_cons. simpl. apply IHj.
Qed.

Lemma fold_flags k ps : Forall (fun p => (p.1 < n)%nat /\ (p.2 < n)%nat /\ p.1 <> p.2) ps ->
  forall l x, length l = n -> nth k l 0 = u32 x ->
  let r := foldl (fun flags p => compare_times times p.1 p.2 flags) l ps in
  nth k r 0 = u32 (x + sumz (share k) ps) /\ length r = n.
Proof.
  induction 1 as [|[i j] ps (Hi & Hj & Hij) Hps IH]; intros l x Hl Hx; cbn [foldl sumz foldr fst snd].
  { by rewrite Z.add_0_r. }
  simpl in Hi, Hj, Hij. destruct (compare_nth k i j l x ltac:(lia) ltac:(lia) Hij Hx) as [H1 L1].
  destruct (IH _ _ ltac:(etransitivity; [exact L1|done]) H1) as [-> ->]. split; [|done]. f_equal. unfold sumz. lia.
Qed.

Lemma flags_nth k : nth k (time_flags times) 0 = u32 (sumz (share k) pairs) /\ length (time_flags times) = n.
Proof.
  unfold time_flags. rewrite (foldl_pairs (fun i j flags => compare_times times i j flags)). fold pairs.
  apply (fold_flags k pairs) with (x := 0); [|apply length_replicate|].
  - apply Forall_forall. intros [i j]. unfold pairs. rewrite list_elem_of_bind.
    intros (i' & (j' & E & Hj)%list_elem_of_fmap & Hi). injection E as -> ->.
    apply elem_of_seq in Hi, Hj. simpl. lia.
  - clear. induction (length times) in k |- *; destruct k; done || apply IHn.
Qed.

(** The pairs [k] is in: one with every other index. *)
Definition others (k : nat) : list nat := seq 0 k ++ seq (k + 1) (n - (k + 1)).

Lemma share_row k i : (k < n)%nat -> (i < n)%nat ->
  sumz (share k) (pair i <$> seq (i + 1) (n - (i + 1))) =
  if decide (i < k)%nat then share k (i, k)
  else if decide (i = k) then sumz (fun j => share k (k, j)) (seq (k + 1) (n - (k + 1))) else 0.
Proof.
  intros Hk Hi. rewrite sumz_fmap. case_decide as H1; [|case_decide as H2; [by subst|]].
  - replace (seq (i + 1) (n - (i + 1))) with (seq (i + 1) (k - (i + 1)) ++ k :: seq (k + 1) (n - (k + 1))).
    + rewrite sumz_app, sumz_cons.
      rewrite !(sumz_zero (fun j => share k (i, j))); [lia| |];
        intros j Hj%elem_of_seq; unfold share; simpl; rewrite !decide_False by lia; done.
    + replace (n - (i + 1))%nat with ((k - (i + 1)) + S (n - (k + 1)))%nat by lia.
      rewrite seq_app. f_equal. simpl. f_equal; [lia|]. f_equal. lia.
  - apply sumz_zero. intros j Hj%elem_of_seq. unfold share. simpl. rewrite !decide_False by lia. done.
Qed.

Lemma share_sum k : (k < n)%nat ->
  sumz (share k) pairs =
  sumz (fun j => share k (j, k)) (seq 0 k) + sumz (fun j => share k (k, j)) (seq (k + 1) (n - (k + 1))).
Proof.
  intros Hk. unfold pairs. rewrite sumz_bind.
  erewrite sumz_ext; [|intros i Hi; apply share_row; [done|apply elem_of_seq in Hi; lia]].
  replace (seq 0 n) with (seq 0 k ++ k :: seq (k + 1) (n - (k + 1))).
  - rewrite sumz_app, sumz_cons, decide_False, decide_True by lia. f_equal.
    + apply sumz_ext. intros i Hi%elem_of_seq. by rewrite decide_True by lia.
    + etransitivity; [|apply Z.add_0_r]. f_equal. apply sumz_zero. intros i Hi%elem_of_seq.
      by rewrite !decide_False by lia.
  - replace n with (k + S (n - (k + 1)))%nat at 2 by lia. rewrite seq_app. f_equal. simpl. f_equal. f_equal. lia.
Qed.

(** Times as they are: none, or later than the first hour. *)
Context (Hreal : Forall (fun x => x = 0 \/ 3600 < x < 2 ^ 63) times) (Hn : (n <= 1024)%nat).

Lemma real_nth k : t k = 0 \/ 3600 < t k < 2 ^ 63.
Proof.
  rewrite nth_lookup. destruct (times !! k) as [x|] eqn:E; [|by left]. simpl. by eapply Forall_lookup_1 in Hreal.
Qed.

Lemma apart_spec i j : apart (t i) (t j) = true <-> t i = 0 \/ t j = 0 \/ 3600 < Z.abs (t i - t j).
Proof.
  pose proof (real_nth i) as Hi. pose proof (real_nth j) as Hj. unfold apart. rewrite orb_true_iff, !Z.ltb_lt.
  assert (u64 (t j + 3600) = t j + 3600) as -> by (apply Z.mod_small; lia).
  destruct Hj as [->|Hj]; [change (u64 (0 - 3600)) with (2 ^ 64 - 3600); lia|].
  assert (u64 (t j - 3600) = t j - 3600) as -> by (apply Z.mod_small; lia). lia.
Qed.

Lemma apart_sym i j : apart (t i) (t j) = apart (t j) (t i).
Proof. apply eq_true_iff_eq. rewrite !apart_spec. lia. Qed.

Lemma share_others k : (k < n)%nat ->
  sumz (share k) pairs = sumz (fun j => Zb (t k =? 0) + Zb (apart (t k) (t j))) (others k).
Proof.
  intros Hk. rewrite share_sum by done. unfold others. rewrite sumz_app.
  f_equal; apply sumz_ext; intros j Hj%elem_of_seq; unfold share; simpl.
  - rewrite decide_False, decide_True by lia. by rewrite (apart_sym k j).
  - rewrite decide_True, decide_False by lia. lia.
Qed.

Lemma length_others k : (k < n)%nat -> length (others k) = (n - 1)%nat.
Proof. intros Hk. unfold others. rewrite length_app, !length_seq. lia. Qed.

Lemma others_all (f : nat -> Z) k : (k < n)%nat -> sumz f (seq 0 n) = f k + sumz f (others k).
Proof.
  intros Hk. unfold others. rewrite sumz_app.
  replace n with (k + S (n - (k + 1)))%nat at 1 by lia. rewrite seq_app, sumz_app.
  change (seq (0 + k) (S (n - (k + 1)))) with (k :: seq (S k) (n - (k + 1))). rewrite sumz_cons.
  replace (S k) with (k + 1)%nat by lia. lia.
Qed.

(** The flags of a user: the users whose clocks are more than an hour apart,
    or every other user twice if there is no time. *)
Lemma flag_time k : (k < n)%nat -> t k <> 0 ->
  nth k (time_flags times) 0 = sumz (fun j => Zb (apart (t k) (t j))) (seq 0 n).
Proof.
  intros Hk Ht. rewrite (proj1 (flags_nth k)), share_others by done. rewrite (others_all _ k) by done.
  destruct (apart (t k) (t k)) eqn:E; [apply apart_spec in E; lia|]. simpl.
  destruct (Z.eqb_spec (t k) 0) as [|_]; [done|]. simpl. apply Z.mod_small.
  assert (0 <= sumz (fun j => Zb (apart (t k) (t j))) (others k) <= Z.of_nat (n - 1)); [|lia].
  rewrite <- (length_others k Hk). clear. induction (others k) as [|j l IH]; [simpl; lia|].
  simpl. destruct (apart _ _); simpl in *; lia.
Qed.

Lemma flag_none k : (k < n)%nat -> t k = 0 -> nth k (time_flags times) 0 = 2 * (Z.of_nat n - 1).
Proof.
  intros Hk Ht. rewrite (proj1 (flags_nth k)), share_others by done.
  rewrite (sumz_ext _ (fun _ => 2)).
  - rewrite sumz_const, length_others by done. unfold wrapu. rewrite Z.mod_small; lia.
  - intros j _. assert (apart (t k) (t j) = true) as -> by (apply apart_spec; by left). by rewrite Ht.
Qed.

Lemma find_num_spec flags : flags <> [] ->
  (find_num flags < length flags)%nat /\
  forall i, (i < length flags)%nat -> nth (find_num flags) flags 0 <= nth i flags 0.
Proof.
  intros Hne. unfold find_num.
  assert (forall l k, (k < length flags)%nat -> Forall (fun i => (i < length flags)%nat) l ->
    let r := foldl (fun k i => if nth i flags 0 <? nth k flags 0 then i else k) k l in
    (r < length flags)%nat /\ nth r flags 0 <= nth k flags 0 /\ forall i, i ∈ l -> nth r flags 0 <= nth i flags 0) as Hf.
  { induction l as [|i l IH]; intros k Hk Hl; simpl.
    { split; [done|]. split; [lia|]. intros i Hi. by apply elem_of_nil in Hi. }
    inversion_clear Hl as [|? ? Hi Hl'].
    destruct (Z.ltb_spec (nth i flags 0) (nth k flags 0)).
    - destruct (IH i Hi Hl') as (H1 & H2 & H3). split; [done|]. split; [lia|].
      intros j [->|Hj]%elem_of_cons; [done|auto].
    - destruct (IH k Hk Hl') as (H1 & H2 & H3). split; [done|]. split; [done|].
      intros j [->|Hj]%elem_of_cons; [lia|auto]. }
  destruct (Hf (seq 0 (length flags)) 0%nat) as (H1 & _ & H3).
  - destruct flags; [done|simpl; lia].
  - apply Forall_forall. intros i Hi%elem_of_seq. lia.
  - split; [done|]. intros i Hi. apply H3, elem_of_seq. lia.
Qed.

(** More than half of the users agree within an hour: the time that is chosen
    is within an hour of one of theirs. *)
Lemma majority G :
  NoDup G -> (forall g, g ∈ G -> (g < n)%nat /\ t g <> 0) ->
  (forall g h, g ∈ G -> h ∈ G -> Z.abs (t g - t h) <= 3600) -> (n < 2 * length G)%nat ->
  let k := find_num (time_flags times) in
  t k <> 0 /\ exists g, g ∈ G /\ Z.abs (t k - t g) <= 3600.
Proof.
  intros Hnd HG Hclose Hmaj k. destruct G as [|g0 G0]; [simpl in Hmaj; lia|]. set (G := g0 :: G0) in *.
  assert (g0 ∈ G) as Hg0 by left. destruct (HG g0 Hg0) as [Hlt0 Hne0].
  destruct (find_num_spec (time_flags times)) as [Hk Hmin].
  { intros E. pose proof (proj2 (flags_nth 0)) as L. rewrite E in L. simpl in L. lia. }
  rewrite (proj2 (flags_nth 0)) in Hk, Hmin. fold k in Hk, Hmin.
  assert (forall i, (0 <= Zb (apart (t g0) (t i)) <= 1) /\ (0 <= Zb (apart (t k) (t i)) <= 1)) as Hb
    by (intros i; destruct (apart (t g0) (t i)), (apart (t k) (t i)); simpl; lia).
  assert (nth g0 (time_flags times) 0 <= Z.of_nat n - Z.of_nat (length G)) as Hup.
  { rewrite flag_time by done.
    destruct (sumz_part (fun j => Zb (apart (t g0) (t j))) G n Hnd (fun g Hg => proj1 (HG g Hg)) (fun i => proj1 (Hb i))) as [_ Hs].
    rewrite (sumz_zero _ G) in Hs; [lia|]. intros g Hg. destruct (apart (t g0) (t g)) eqn:E; [|done].
    apply apart_spec in E. pose proof (Hclose g0 g Hg0 Hg). destruct (HG g Hg). lia. }
  specialize (Hmin g0 Hlt0). assert (t k <> 0) as Hk0.
  { intros E. rewrite flag_none in Hmin by done. assert (k <> g0) by congruence. lia. }
  split; [done|]. rewrite flag_time in Hmin by done.
  destruct (sumz_part (fun j => Zb (apart (t k) (t j))) G n Hnd (fun g Hg => proj1 (HG g Hg)) (fun i => proj2 (Hb i))) as [Hs _].
  destruct (decide (Exists (fun g => apart (t k) (t g) = false) G)) as [(g & Hg & Ha)%Exists_exists|Hno].
  - exists g. split; [done|]. apply not_true_iff_false in Ha. rewrite apart_spec in Ha. lia.
  - exfalso. rewrite (sumz_ext _ (fun _ => 1) G) in Hs; [rewrite sumz_const in Hs; lia|].
    intros g Hg. destruct (apart (t k) (t g)) eqn:E; [done|]. destruct Hno. apply Exists_exists. by exists g.
Qed.

End Clock.

(** ** The clock *)

Section Init.

Context {S : Type} `{RecordStore S} `{Env}.

Abbreviation state := (st S).

(** The clock is a month behind or an hour ahead, as the code measures it. *)
Definition off_clock (t now : Z) : Prop := t + 30 * DAY < now \/ now < t - 3600.


(** ** Old records *)

Lemma bind_never {A B} (m : M state A) (k : A -> M state B) s b s' :
  (forall a s0 s1, k a s0 <> Ret b s1) -> (m ≫= k) s <> Ret b s'.
Proof. intros Hk. unfold mbind, M_bind. destruct (m s); try done. Qed.

(** Without users the removal of old statistics never returns: after its
    loops it uses the user the first loop left, which is none.  If there are
    no groups either, it faults as soon as the records of the group of all
    users are gone. *)
Theorem analyzer_needs_user gmt (s : state) :
  tget (tbl (UserAction.ureg (t_users s))) (F_ALL, (0, 0)) = [] ->
  (forall s', ww_del_all_analyzer_data gmt s <> Ret tt s') /\
  (forall z x, tget (tbl (Group.greg (t_groups s))) (F_ALL, (0, 0)) = [] ->
     ww_del_group_db_data_by_gmt_gid_prefix (u64 (GMT_REVERS_MASK - gmt)) 0 PRE_USERGROUP_CALC_ACTION s = Ret z (set_db x s) ->
     ww_del_all_analyzer_data gmt s = Bad NullDeref).
Proof.
  intros Hu. assert (all_users s = Ret [] s) as E by (unfold all_users; rewrite bind_gets; by rewrite Hu).
  unfold ww_del_all_analyzer_data. rewrite (bind_Ret _ _ _ _ _ E). split.
  - intros s'. do 4 (apply bind_never; intros ? ? ?). unfold mbind at 1, M_bind. done.
  - intros z x Hg Ez. cbn [each]. rewrite bind_mret. rewrite (bind_Ret _ _ _ _ _ Ez), bind_gets.
    simpl t_groups. by rewrite Hg.
Qed.

End Init.

(** ** Three users *)

(** Two are on line a minute apart, one is on line a day behind. *)
Definition three_clocks : Store.table :=
  <[PRE_USER_STAT ++ dec 10001 := [1]]> (<[PRE_USER_STAT ++ dec 10002 := [1]]> (<[PRE_USER_STAT ++ dec 10003 := [1]]>
  (<[PRE_USER_ACTION ++ dec 10001 ++ dash ++ dec 2694967295 := [1]]>
  (<[PRE_USER_ACTION ++ dec 10002 ++ dash ++ dec 2694967235 := [1]]>
  (<[PRE_USER_ACTION ++ dec 10003 ++ dash ++ dec 2695053695 := [1]]> ∅))))).

Definition the_users : list record :=
  [(PRE_USER_STAT ++ dec 10001, [1]); (PRE_USER_STAT ++ dec 10002, [1]); (PRE_USER_STAT ++ dec 10003, [1])].

Lemma scan_table a b max m : short a -> short b ->
  scan a b max (blank_st m) = Ret (Some (Reply Db.DB_SCAN_OK (take (Z.to_nat max) (listing a b m)))) (blank_st m).
Proof. intros Ha Hb. rewrite scan_run by done. simpl. unfold len. by rewrite !take_len. Qed.

Lemma user_time_run (x : record) uid m y g l ts :
  load 0 1 x.2 = Done 1 ->
  (if decide (length PRE_USER_STAT <= length (cstr x.1))%nat
   then Allocator.atoi (Some (drop (length PRE_USER_STAT) (cstr x.1))) else Fault OutOfBounds) = Done uid ->
  short (PRE_USER_ACTION ++ dec (u32 uid) ++ dash) -> short (PRE_USER_ACTION ++ dec (u32 uid) ++ dot) ->
  head (take 10 (listing (PRE_USER_ACTION ++ dec (u32 uid) ++ dash) (PRE_USER_ACTION ++ dec (u32 uid) ++ dot) m)) = Some y ->
  gmt_of_user PRE_USER_ACTION y.1 = Done g ->
  user_times l (blank_st m) = Ret (Some ts) (blank_st m) ->
  user_times (x :: l) (blank_st m) = Ret (Some (u64 (GMT_REVERS_MASK - g) :: ts)) (blank_st m).
Proof.
  intros Ex Eu Ha Hb Ey Eg Et. cbn [user_times]. rewrite Ex, bind_lift, Eu, bind_lift. cbn [Z.eqb Pos.eqb].
  rewrite (bind_Ret _ _ _ _ _ (scan_table _ _ 10 m Ha Hb)). change (Z.to_nat 10) with 10%nat. cbn [failed rno found kvs].
  rewrite Z.eqb_refl. cbn [negb]. destruct (take 10 _) as [|y' ys]; [done|]. injection Ey as ->.
  by rewrite Eg, bind_lift, (bind_Ret _ _ _ _ _ Et).
Qed.

Lemma three_times : user_times the_users (blank_st three_clocks) =
  Ret (Some [1600000000; 1600000060; 1599913600]) (blank_st three_clocks).
Proof.
  apply (user_time_run _ 10001 _ (PRE_USER_ACTION ++ dec 10001 ++ dash ++ dec 2694967295, [1]) 2694967295);
    [by vm_compute|by vm_compute|vm_compute; lia|vm_compute; lia|by vm_compute|by vm_compute|].
  apply (user_time_run _ 10002 _ (PRE_USER_ACTION ++ dec 10002 ++ dash ++ dec 2694967235, [1]) 2694967235);
    [by vm_compute|by vm_compute|vm_compute; lia|vm_compute; lia|by vm_compute|by vm_compute|].
  apply (user_time_run _ 10003 _ (PRE_USER_ACTION ++ dec 10003 ++ dash ++ dec 2695053695, [1]) 2695053695);
    [by vm_compute|by vm_compute|vm_compute; lia|vm_compute; lia|by vm_compute|by vm_compute|done].
Qed.

Lemma three_users : scan PRE_USER_STAT PRE_USER_STAT_SE DB_SCAN_MAX (blank_st three_clocks) =
  Ret (Some (Reply Db.DB_SCAN_OK the_users)) (blank_st three_clocks).
Proof.
  rewrite scan_table by (vm_compute; lia).
  assert (take (Z.to_nat DB_SCAN_MAX) (listing PRE_USER_STAT PRE_USER_STAT_SE three_clocks) = the_users) as -> by by vm_compute.
  done.
Qed.


Lemma analyzer_needs_user_witness : ww_del_all_analyzer_data 1600000000 (blank_st ∅) = Bad NullDeref.
Proof.
  apply (proj2 (analyzer_needs_user 1600000000 (blank_st ∅) eq_refl) 0 ∅); [done|by vm_compute].
Defined.
