(* ===== verification/HourFacts.v ===== *)
(** * HourFacts: what is written of an hour's activities

    Hour by hour [ww_save_all_user_detail_act_to_db] moves a user's activities
    from the tables to the store: the value of a category has exactly the
    activities of that hour and category, and what is written is what leaves
    the table. *)

From Stdlib Require Import Ascii String.
From S2P Require Import Prelude CString Bytes Registry Timer Rules CText CTextFacts Users Cache CJson Allocator Db DbFacts.
From S2P Require Import Store Save SaveCalc SaveCheck SaveHour PurgeFacts CalcFacts.
Import Registry CText Save SaveCalc SaveCheck SaveHour.
Import Detail.
Local Open Scope Z_scope.

(** ** Filtering *)

Lemma filter_ext_in {A} (P Q : A -> Prop) `{!forall x, Decision (P x)} `{!forall x, Decision (Q x)} (l : list A) :
  (forall x, x ∈ l -> P x <-> Q x) -> filter P l = filter Q l.
Proof.
  induction l as [|x l IH]; intros Hx; [done|]. rewrite !filter_cons, IH by (intros y Hy; apply Hx; by right).
  specialize (Hx x ltac:(by left)). repeat case_decide; tauto.
Qed.

Lemma filter_all {A} (P : A -> Prop) `{!forall x, Decision (P x)} (l : list A) : Forall P l -> filter P l = l.
Proof. induction 1 as [|x l Hx Hl IH]; [done|]. by rewrite filter_cons_True, IH. Qed.

Lemma filter_fst {A B} (P : A -> Prop) `{!forall x, Decision (P x)} (l : list (A * B)) :
  filter P l.*1 = (filter (fun y => P y.1) l).*1.
Proof. induction l as [|y l IH]; [done|]. rewrite fmap_cons, !filter_cons, IH. by case_decide. Qed.

(** ** One activity *)

Definition detail_chunks (pos : nat) (x : an_detail_act) : list chunk :=
  [(pos, le 8 (time x)); ((pos + 8)%nat, le 4 (type x)); ((pos + 16)%nat, snprintf_s 32 (process x) ++ [0]);
   ((pos + 48)%nat, snprintf_s 128 (actname x) ++ [0]); ((pos + 12)%nat, le 4 (category x))].

Definition detail_here (b : list Z) (pos : nat) (x : an_detail_act) : Prop := Forall (holds b) (detail_chunks pos x).

Lemma detail_sizes pos x :
  Forall (fun y => pos <= y.1 /\ y.1 + length y.2 <= pos + 176)%nat (detail_chunks pos x) /\ pairwise (detail_chunks pos x).
Proof.
  pose proof (snprintf_short 128 (actname x) ltac:(lia)). pose proof (snprintf_short 32 (process x) ltac:(lia)).
  unfold detail_chunks. cbn [pairwise]. rewrite !Forall_cons. unfold beside. cbn [fst snd]. rewrite !length_app, !length_le.
  cbn [length]. split_and!; try apply Forall_nil_2; try done; lia.
Qed.

Lemma put_detail_spec pos x b :
  (pos + 176 <= length b)%nat ->
  exists b', put_detail pos x b = Done b' /\ length b' = length b /\ detail_here b' pos x /\
    forall i, (i < pos \/ pos + 176 <= i)%nat -> b' !! i = b !! i.
Proof.
  intros Hl. destruct (detail_sizes pos x) as [Hs Hp].
  destruct (stores_spec (detail_chunks pos x) b) as (b' & E & L & Hh & Hsame).
  - eapply Forall_impl; [exact Hs|]. intros y Hy. simpl in Hy. lia.
  - done.
  - exists b'. split.
    + rewrite <- E. unfold put_detail, detail_chunks. cbn [stores fst snd].
      repeat (match goal with |- context [Bytes.store ?o ?l ?a] => destruct (Bytes.store o l a); [|done]; cbn [mbind outcome_bind] end).
      done.
    + split; [done|]. split; [done|]. intros i Hi. apply Hsame. eapply Forall_impl; [exact Hs|]. intros y Hy. simpl in Hy. lia.
Qed.

Lemma detail_here_ext b b' pos x :
  (forall i, (pos <= i < pos + 176)%nat -> b' !! i = b !! i) -> detail_here b pos x -> detail_here b' pos x.
Proof.
  intros Hi Hh. destruct (detail_sizes pos x) as [Hs _]. unfold detail_here in *.
  pose proof (proj2 (Forall_and _ _) (conj Hs Hh)) as Hb. eapply Forall_impl; [exact Hb|]. intros y [Hy Hhy].
  eapply holds_ext; [|exact Hhy]. intros i Hiy. apply Hi. simpl in Hy. lia.
Qed.

(** An entry of a value, by the offsets of [an_user_detail_act_t]. *)
Definition read_detail (v : list Z) (j : nat) : outcome an_detail_act :=
  let o := (DHEAD + j * DACT)%nat in
  t ← load o 8 v;
  ty ← load (o + 8) 4 v;
  c ← load (o + 12) 4 v;
  pro ← text_at (o + 16) v;
  act ← text_at (o + 48) v;
  Done (DetailAct t ty c pro act).

Definition as_kept (x : an_detail_act) : an_detail_act :=
  DetailAct (u64 (time x)) (u32 (type x)) (u32 (category x)) (snprintf_s 32 (process x)) (snprintf_s 128 (actname x)).

Definition plain (x : an_detail_act) : Prop := Forall (fun c => c <> 0) (process x) /\ Forall (fun c => c <> 0) (actname x).

Lemma read_detail_here v j x :
  detail_here v (DHEAD + j * DACT) x -> (DHEAD + S j * DACT <= length v)%nat -> plain x -> read_detail v j = Done (as_kept x).
Proof.
  intros Hh Hl [Hn1 Hn2]. unfold detail_here, detail_chunks in Hh. rewrite !Forall_cons in Hh.
  destruct Hh as (H1 & H2 & H3 & H4 & H5 & _). unfold read_detail.
  assert (DHEAD + j * DACT + 176 <= length v)%nat as Hl' by (unfold DACT in *; lia).
  rewrite (load_holds _ _ _ _ H1) by lia. cbn [mbind outcome_bind]. rewrite (load_holds _ _ _ _ H2) by lia. cbn [mbind outcome_bind].
  rewrite (load_holds _ _ _ _ H5) by lia. cbn [mbind outcome_bind].
  rewrite (text_holds _ _ _ H3) by by apply snprintf_plain. cbn [mbind outcome_bind].
  rewrite (text_holds _ _ _ H4) by by apply snprintf_plain. done.
Qed.

(** ** The blocks of the categories *)

(** In the hour that begins with [t]; and of category [c]. *)
Definition in_hour (t : Z) (y : addr * an_detail_act) : Prop := t <= time y.2.
Definition of_category (t : Z) (c : nat) (y : addr * an_detail_act) : Prop := t <= time y.2 /\ category y.2 = Z.of_nat c.

#[global] Instance in_hour_dec t y : Decision (in_hour t y).
Proof. unfold in_hour. apply _. Defined.
#[global] Instance of_category_dec t c y : Decision (of_category t c y).
Proof. unfold of_category. apply _. Defined.

(** The block of a category holds the activities [ys]. *)
Definition dbuf_ok (b : dbuf) (ys : list (addr * an_detail_act)) : Prop :=
  dcount b = Z.of_nat (length ys) /\ dnum b = MAX_RULE_NUM /\ length (dblk b) = dblock_size MAX_RULE_NUM /\
  forall j y, ys !! j = Some y -> detail_here (dblk b) (DHEAD + j * DACT) y.2.

Definition dbufs_ok (bs : list dbuf) (t : Z) (seen : list (addr * an_detail_act)) : Prop :=
  length bs = AN_DETAIL_MAX /\ forall c b, bs !! c = Some b -> dbuf_ok b (filter (of_category t c) seen).

Lemma of_category_length t c (l : list (addr * an_detail_act)) : (length (filter (of_category t c) l) <= length (filter (in_hour t) l))%nat.
Proof.
  induction l as [|y l IH]; [done|]. rewrite !filter_cons. unfold of_category at 1, in_hour at 1.
  repeat case_decide; simpl in *; lia.
Qed.

(** One more entry. *)
Lemma dbuf_add b ys y :
  dbuf_ok b ys -> (length ys < 1024)%nat ->
  exists bytes, put_detail (dblock_size (dcount b)) y.2 (dblk b) = Done bytes /\
    dbuf_ok (Dbuf bytes (dnum b) (dcount b + 1)) (ys ++ [y]).
Proof.
  intros (Hc & Hn & Hl & Hall) Hlt. assert (dblock_size (dcount b) = (DHEAD + length ys * DACT)%nat) as Ep
    by (unfold dblock_size; rewrite Hc; lia). rewrite Ep.
  destruct (put_detail_spec (DHEAD + length ys * DACT) y.2 (dblk b)) as (bytes & E & L & Hh & Hsame).
  { rewrite Hl. unfold dblock_size, DACT, MAX_RULE_NUM. lia. }
  exists bytes. split; [done|]. unfold dbuf_ok. cbn [dblk dnum dcount]. split; [rewrite length_app; simpl; lia|]. split; [done|].
  split; [congruence|]. intros j z Hj. apply lookup_app_Some in Hj as [Hj|[Hj Hz]].
  - pose proof (lookup_lt_Some _ _ _ Hj). eapply detail_here_ext; [|by apply Hall]. intros i Hi. apply Hsame. unfold DACT in *. lia.
  - apply list_lookup_singleton_Some in Hz as [Hz <-]. by replace j with (length ys) by lia.
Qed.

(** ** The values *)

(** What a value says: the group, and the activities. *)
Definition hour_value (v : list Z) (gid : Z) (ys : list (addr * an_detail_act)) : Prop :=
  length v = (DHEAD + length ys * DACT)%nat /\ load 0 4 v = Done (u32 gid) /\ load 4 4 v = Done (Z.of_nat (length ys)) /\
  forall j y, ys !! j = Some y -> read_detail v j = Done (as_kept y.2).

Lemma hour_value_intro b ys gid :
  dbuf_ok b ys -> (length ys <= 1024)%nat -> Forall (fun y => plain y.2) ys ->
  exists bytes, stores [(4%nat, le 4 (dcount b)); (0%nat, le 4 gid)] (dblk b) = Done bytes /\ length bytes = length (dblk b) /\
    hour_value (take (dblock_size (dcount b)) bytes) gid ys.
Proof.
  intros (Hc & Hn & Hl & Hall) Hlen Hplain.
  assert (length (dblk b) = 8 + 1024 * 176)%nat as Hl' by (rewrite Hl; unfold dblock_size, DHEAD, DACT, MAX_RULE_NUM; lia).
  destruct (stores_spec [(4%nat, le 4 (dcount b)); (0%nat, le 4 gid)] (dblk b)) as (bytes & E & L & Hh & Hsame).
  { rewrite !Forall_cons. cbn [fst snd]. rewrite !length_le. split_and!; [lia|lia|constructor]. }
  { cbn [pairwise]. rewrite !Forall_cons. unfold beside. cbn [fst snd]. rewrite !length_le. split_and!; try apply Forall_nil_2; try done. lia. }
  exists bytes. split; [done|]. split; [done|].
  assert (dblock_size (dcount b) = (DHEAD + length ys * DACT)%nat) as -> by (unfold dblock_size; rewrite Hc; lia).
  set (v := take (DHEAD + length ys * DACT) bytes).
  assert (length v = DHEAD + length ys * DACT)%nat as Lv by (unfold v; rewrite length_take, L, Hl'; unfold DHEAD, DACT; lia).
  assert (forall y, (y.1 + length y.2 <= 8)%nat -> holds bytes y -> holds v y) as Hv.
  { intros y Hy H1. unfold holds, v. rewrite field_take; [done|unfold DHEAD; lia]. }
  rewrite !Forall_cons in Hh. destruct Hh as (H4 & H0 & _). apply Hv in H4; [|simpl; lia]. apply Hv in H0; [|simpl; lia].
  split; [done|]. rewrite (load_holds v 0 4 gid H0), (load_holds v 4 4 _ H4) by (unfold DHEAD in *; lia). split; [done|].
  split; [f_equal; rewrite Hc; apply Z.mod_small; simpl; lia|]. intros j y Hj. pose proof (lookup_lt_Some _ _ _ Hj) as Hlt.
  apply read_detail_here.
  - apply (detail_here_ext (dblk b)); [|by apply Hall]. intros i Hi. unfold v, DHEAD, DACT in *. rewrite lookup_take_lt by lia.
    apply Hsame. rewrite !Forall_cons. cbn [fst snd]. rewrite !length_le. split_and!; [lia|lia|constructor].
  - rewrite Lv. unfold DHEAD, DACT. lia.
  - rewrite Forall_forall in Hplain. apply Hplain. by eapply list_elem_of_lookup_2.
Qed.

Definition hour_key (uid day hh i : Z) : cstring :=
  PRE_USER_DETAIL_ACTION ++ d uid ++ dash ++ d i ++ dash ++ llu day ++ dash ++ dec hh.

Lemma hour_key_short uid day hh i : 0 <= day < 2 ^ 64 -> 0 <= hh < 2 ^ 32 -> short (hour_key uid day hh i).
Proof.
  intros Hd Hh. unfold short, hour_key, llu. rewrite !length_app. pose proof (length_d uid). pose proof (length_d i).
  pose proof (length_dec_max 20 day). pose proof (length_dec_max 10 hh). simpl. lia.
Qed.

(** The records of an hour: category [i] and the following. *)
Definition hour_records (uid day hh i : Z) (vs : list (list Z)) : list record :=
  imap (fun c v => (hour_key uid day hh (i + Z.of_nat c), v)) vs.

Lemma hour_kvs_spec uid gid day hh : 0 <= day < 2 ^ 64 -> 0 <= hh < 2 ^ 32 -> forall bs i (ys : nat -> list (addr * an_detail_act)),
  (forall c b, bs !! c = Some b -> dbuf_ok b (ys c) /\ (length (ys c) <= 1024)%nat /\ Forall (fun y => plain y.2) (ys c)) ->
  exists vs bs', hour_kvs uid gid day hh i bs = Done (honest_args (hour_records uid day hh i vs), bs') /\
    length vs = length bs /\ (forall c v, vs !! c = Some v -> hour_value v gid (ys c)) /\
    Forall2 (fun b b' => dnum b' = dnum b /\ length (dblk b') = length (dblk b)) bs bs'.
Proof.
  intros Hd Hh bs. induction bs as [|b bs IH]; intros i ys Hbs; [by exists [], []|].
  destruct (Hbs 0%nat b eq_refl) as (Hb & Hlen & Hplain).
  destruct (hour_value_intro b (ys 0%nat) gid Hb Hlen Hplain) as (bytes & E & L & Hv).
  destruct (IH (i + 1) (fun c => ys (S c))) as (vs & bs' & E' & Lvs & Hvs & Hbs'); [intros c b' Eb'; by apply (Hbs (S c))|].
  eexists (_ :: vs), (_ :: bs'). split; [|split; [|split]].
  - cbn [hour_kvs]. cbn [stores fst snd] in E. destruct (Bytes.store 4 _ (dblk b)) as [b1|]; [|done]. cbn [mbind outcome_bind] in *.
    destruct (Bytes.store 0 (le 4 gid) b1) as [b2|]; [|done]. cbn [mbind outcome_bind] in *. injection E as ->.
    rewrite E'. cbn [mbind outcome_bind fst snd]. rewrite kv_short by by apply hour_key_short.
    unfold hour_records. cbn [imap honest_args fmap list_fmap fst snd]. rewrite Z.add_0_r. do 2 f_equal.
    unfold honest_args. f_equal. f_equal. apply imap_ext. intros c v _. unfold compose. do 2 f_equal. lia.
  - simpl. by rewrite Lvs.
  - intros [|c] v Ev; [by injection Ev as <-|by apply Hvs].
  - by constructor.
Qed.

Section Hour.

Context {S : Type} `{RecordStore S} `{Env}.

Abbreviation state := (st S).

(** The activities at the addresses. *)
Definition details_are (s : state) (l : list (addr * an_detail_act)) : Prop :=
  Forall (fun y => objs (dacts (t_details s)) !! y.1 = Some y.2) l.

Definition times_and_kinds (e : Z) (l : list (addr * an_detail_act)) : Prop :=
  Forall (fun y => time y.2 <= e /\ 0 <= category y.2 < Z.of_nat AN_DETAIL_MAX) l.

(** The loop over a user's activities puts those of the hour into the blocks
    of their categories, in order, and remembers them. *)
Lemma hour_spec (s : state) e t : forall l seen bs,
  details_are s l -> times_and_kinds e l -> dbufs_ok bs t seen ->
  (length (filter (in_hour t) (seen ++ l)) <= 1024)%nat ->
  exists bs', hour l.*1 e t MAX_RULE_NUM bs (filter (in_hour t) seen).*1 s =
      Ret (Some (bs', (filter (in_hour t) (seen ++ l)).*1)) s /\ dbufs_ok bs' t (seen ++ l).
Proof.
  induction l as [|[a x] l IH]; intros seen bs Hat Htk Hbs Hlen.
  { rewrite app_nil_r in *. by exists bs. }
  inversion_clear Hat as [|? ? Ea Hat']. inversion_clear Htk as [|? ? [Ht Hcat] Htk']. cbn [fst snd] in *.
  rewrite (cons_middle (a, x)), app_assoc in Hlen |- *.
  assert (the_detail a s = Ret x s) as E by (unfold the_detail; rewrite bind_gets; simpl; by rewrite Ea).
  cbn [fmap list_fmap fst hour]. rewrite (bind_Ret _ _ _ _ _ E). clear E.
  destruct (Z.ltb_spec e (time x)); [lia|]. destruct (Z.ltb_spec (time x) t) as [Hlow|Hin].
  - assert (filter (in_hour t) (seen ++ [(a, x)]) = filter (in_hour t) seen) as <-.
    { rewrite filter_app, filter_cons_False, filter_nil, app_nil_r by (unfold in_hour; simpl; lia). done. }
    apply IH; [done|done| |done]. destruct Hbs as [Hl8 Hbs]. split; [done|]. intros c b Eb. specialize (Hbs c b Eb).
    by rewrite filter_app, filter_cons_False, filter_nil, app_nil_r by (unfold of_category; simpl; lia).
  - destruct Hbs as [Hl8 Hbs]. assert (Z.to_nat (category x) < length bs)%nat as Hi by lia.
    destruct (lookup_lt_is_Some_2 bs _ Hi) as [b Eb].
    assert (length (filter (in_hour t) (seen ++ [(a, x)])) = Datatypes.S (length (filter (in_hour t) seen))) as Hseen.
    { rewrite filter_app, filter_cons_True, filter_nil, length_app by (unfold in_hour; simpl; lia). simpl. lia. }
    assert (length (filter (in_hour t) (seen ++ [(a, x)])) <= 1024)%nat as Hmax.
    { rewrite filter_app, length_app in Hlen. lia. }
    unfold mbind at 1, M_bind at 1. rewrite length_fmap. unfold MAX_RULE_NUM at 1.
    destruct (Z.leb_spec 1024 (Z.of_nat (length (filter (in_hour t) seen)))); [lia|]. cbn [lift].
    rewrite Eb. cbn [get_or]. rewrite bind_lift.
    pose proof (Hbs _ _ Eb) as Hb. pose proof (of_category_length t (Z.to_nat (category x)) seen) as Hcl.
    assert (dgrow b s = Ret (Some b) s) as E.
    { unfold dgrow. destruct Hb as (Hc & Hn & _). rewrite Hc, Hn. unfold MAX_RULE_NUM. destruct (Z.ltb_spec 1024 (Z.of_nat (length (filter (of_category t (Z.to_nat (category x))) seen)) + 1)); [lia|done]. }
    rewrite (bind_Ret _ _ _ _ _ E). clear E.
    destruct (dbuf_add b _ (a, x) Hb) as (bytes & E & Hb'); [lia|]. cbn [snd] in E. rewrite E, bind_lift. clear E.
    assert ((filter (in_hour t) seen).*1 ++ [a] = (filter (in_hour t) (seen ++ [(a, x)])).*1) as ->.
    { rewrite filter_app, filter_cons_True, filter_nil, fmap_app by (unfold in_hour; simpl; lia). done. }
    apply IH; [done|done| |done]. split; [by rewrite length_insert|]. intros c b0 E0. rewrite filter_app.
    apply list_lookup_insert_Some in E0 as [(<- & <- & _)|[Hne E0]].
    + rewrite filter_cons_True, filter_nil by (unfold of_category; simpl; lia). done.
    + rewrite filter_cons_False, filter_nil, app_nil_r by (unfold of_category; simpl; lia). by apply Hbs.
Qed.

Definition remove_all (dels : list addr) : M state unit :=
  each (fun a => on_details (fun s => s ← an_detail_act_t_del a s; Done (tt, s))) dels.

(** Deleting activities takes them out of the table and off every list. *)
Lemma remove_all_spec : forall dels (s : state), NoDup dels ->
  Forall (fun a => a <> NULL /\ is_Some (objs (dacts (t_details s)) !! a)) dels ->
  exists D, remove_all dels s = Ret tt (set_details D s) /\ dusers D = dusers (t_details s) /\
    (forall a, a ∉ dels -> objs (dacts D) !! a = objs (dacts (t_details s)) !! a) /\
    (forall k, tget (tbl (dacts D)) (F_ALL, k) = filter (fun a => a ∉ dels) (tget (tbl (dacts (t_details s))) (F_ALL, k))).
Proof.
  induction dels as [|a dels IH]; intros s Hn Hd.
  { exists (t_details s). split; [by destruct s|]. split; [done|]. split; [done|]. intros k.
    rewrite filter_all; [done|]. apply Forall_forall. intros b _. apply not_elem_of_nil. }
  apply NoDup_cons in Hn as [Ha Hn]. inversion_clear Hd as [|? ? [Ha0 [x Ex]] Hd'].
  set (D1 := Details (dusers (t_details s)) (Reg (delete a (objs (dacts (t_details s)))) (unlink F_ALL a (tbl (dacts (t_details s)))))
               (dwk (t_details s))).
  assert (on_details (fun s => s ← an_detail_act_t_del a s; Done (tt, s)) s = Ret tt (set_details D1 s)) as E1.
  { unfold on_details, an_detail_act_t_del, detail_act_free. destruct (Z.eqb_spec a NULL); [done|]. by rewrite Ex. }
  destruct (IH (set_details D1 s) Hn) as (D & E & Hu & Ho & Hl).
  { apply Forall_forall. intros b Hb. rewrite Forall_forall in Hd'. destruct (Hd' b Hb) as [Hb0 Hb1]. split; [done|].
    cbn [t_details set_details D1 dacts objs]. rewrite lookup_delete_ne; [done|]. intros ->. done. }
  exists D. split; [unfold remove_all; cbn [each]; rewrite (bind_Ret _ _ _ _ _ E1); exact E|]. split; [done|]. split.
  - intros b Hb. apply not_elem_of_cons in Hb as [Hb1 Hb2]. rewrite Ho by done. cbn [t_details set_details D1 dacts objs]. by apply lookup_delete_ne.
  - intros k. rewrite Hl. cbn [t_details set_details D1 dacts tbl]. rewrite tget_unlink. cbn [fst]. rewrite decide_True by done.
    unfold remove_addr. rewrite list_filter_filter. apply list_filter_iff. intros b. rewrite not_elem_of_cons. tauto.
Qed.

(** ** A user's hours *)

(** The user's record and the activities on the list; none is later than the
    user's [end_time]. *)
Record waits (s : state) (user : addr) (u : an_detail_user) (l : list (addr * an_detail_act)) : Prop := Waits {
  w_user : user <> NULL /\ objs (dusers (t_details s)) !! user = Some u;
  w_list : tget (tbl (dacts (t_details s))) (F_ALL, (user, 0)) = l.*1;
  w_nodup : NoDup l.*1;
  w_are : details_are s l;
  w_null : Forall (fun y => y.1 <> NULL) l;
  w_times : times_and_kinds (end_time u) l;
  w_plain : Forall (fun y => plain y.2) l
}.

Definition hour_start (u : an_detail_user) : Z := end_time u - 3600 + 1.
Definition hour_back (u : an_detail_user) : an_detail_user := DetailUser (uid u) (gid u) (start_time u) (end_time u - 3600).

Definition earlier (t : Z) (l : list (addr * an_detail_act)) : list (addr * an_detail_act) := filter (fun y => ~ in_hour t y) l.

(** No hour has more activities than fit. *)
Definition within (t : Z) (y : addr * an_detail_act) : Prop := t <= time y.2 < t + 3600.
#[global] Instance within_dec t y : Decision (within t y).
Proof. unfold within. apply _. Defined.
Definition crowded (l : list (addr * an_detail_act)) : Prop := exists t, (1024 < length (filter (within t) l))%nat.

Definition blocks_ok (bs : list dbuf) : Prop :=
  length bs = AN_DETAIL_MAX /\ Forall (fun b => dnum b = MAX_RULE_NUM /\ length (dblk b) = dblock_size MAX_RULE_NUM) bs.

Lemma blocks_start bs t : blocks_ok bs -> dbufs_ok ((fun b => Dbuf (dblk b) (dnum b) 0) <$> bs) t [].
Proof.
  intros [Hl Hb]. split; [by rewrite length_fmap|]. intros c b Eb. rewrite list_lookup_fmap in Eb.
  destruct (bs !! c) as [b0|] eqn:E0; [|done]. injection Eb as <-. rewrite Forall_lookup in Hb. destruct (Hb _ _ E0) as [Hn Hlen].
  split; [done|]. split; [done|]. split; [done|]. done.
Qed.

Lemma earlier_waits (s s' : state) user u l :
  waits s user u l -> 3600 <= end_time u ->
  objs (dusers (t_details s')) !! user = Some (hour_back u) ->
  (forall a, a ∉ (filter (in_hour (hour_start u)) l).*1 -> objs (dacts (t_details s')) !! a = objs (dacts (t_details s)) !! a) ->
  tget (tbl (dacts (t_details s'))) (F_ALL, (user, 0)) = filter (fun a => a ∉ (filter (in_hour (hour_start u)) l).*1) l.*1 ->
  waits s' user (hour_back u) (earlier (hour_start u) l).
Proof.
  intros [[Hu Eu] Hl Hn Hat Hnull Hti Hpl] He Eu' Ho Hl'. set (t := hour_start u) in *.
  assert (forall y, y ∈ l -> y.1 ∉ (filter (in_hour t) l).*1 <-> ~ in_hour t y) as Hiff.
  { intros y Hy. split; [intros Hno Hin; apply Hno, list_elem_of_fmap_2, list_elem_of_filter; done|].
    intros Hno (z & Ez & Hz)%list_elem_of_fmap. apply list_elem_of_filter in Hz as [Hz Hzl]. apply Hno.
    assert (y = z) as ->; [|done]. apply list_elem_of_lookup in Hy as [i Hi], Hzl as [j Hj].
    assert (i = j) as ->; [|congruence]. apply (NoDup_lookup l.*1 i j y.1); [done| |]; rewrite list_lookup_fmap; [by rewrite Hi|by rewrite Hj, Ez]. }
  pose proof (sublist_filter (fun y => ~ in_hour t y) l) as Hsub. unfold earlier. split.
  - done.
  - rewrite Hl', filter_fst. f_equal. apply filter_ext_in. exact Hiff.
  - apply (sublist_NoDup _ l.*1); [done|]. by apply fmap_sublist.
  - unfold details_are in *. apply Forall_forall. intros y Hy. apply list_elem_of_filter in Hy as [Hy1 Hy2].
    rewrite Ho by by apply Hiff. rewrite Forall_forall in Hat. by apply Hat.
  - apply Forall_forall. intros y [_ Hy]%list_elem_of_filter. rewrite Forall_forall in Hnull. by apply Hnull.
  - unfold times_and_kinds in *. apply Forall_forall. intros y Hy. apply list_elem_of_filter in Hy as [Hy1 Hy2].
    rewrite Forall_forall in Hti. destruct (Hti y Hy2). unfold in_hour, t, hour_start in Hy1. cbn [hour_back end_time]. lia.
  - apply Forall_forall. intros y [_ Hy]%list_elem_of_filter. rewrite Forall_forall in Hpl. by apply Hpl.
Qed.


End Hour.

Section Saved.

Context {S : Type} `{StoreContract S} `{!Reliable S} `{Env}.

Abbreviation state := (st S).

(** The day and the hour under which an hour is filed. *)
Definition day_of_hour (u : an_detail_user) : Z := an_gmt_format_to_day_inver localtime (end_time u).
Definition hour_of_day (u : an_detail_user) : Z := hour_of (s64 (GMT_REVERS_MASK - end_time u)).

Definition acttime (uid : Z) : cstring := PRE_USER_DETAIL_ACTTIME ++ d uid.

(** The records of an hour: a value per category, and the time. *)
Definition turn_records (u : an_detail_user) (vs : list (list Z)) : list record :=
  hour_records (uid u) (day_of_hour u) (hour_of_day u) 0 vs ++ [(acttime (uid u), le 8 (end_time u))].

Lemma acttime_short i : short (acttime i).
Proof. unfold short, acttime. rewrite length_app. pose proof (length_d i). simpl. lia. Qed.

(** What saving the activities [l] of a user leaves alone. *)
Record apart (user : addr) (l : list (addr * an_detail_act)) (s s' : state) : Prop := Apart {
  a_users : forall b, b <> user -> objs (dusers (t_details s')) !! b = objs (dusers (t_details s)) !! b;
  a_acts : forall a, a ∉ l.*1 -> objs (dacts (t_details s')) !! a = objs (dacts (t_details s)) !! a;
  a_lists : forall k, Forall (fun a => a ∉ l.*1) (tget (tbl (dacts (t_details s))) (F_ALL, k)) ->
    tget (tbl (dacts (t_details s'))) (F_ALL, k) = tget (tbl (dacts (t_details s))) (F_ALL, k)
}.

Lemma apart_refl user l (s : state) : apart user l s s.
Proof. by split. Qed.

Lemma apart_trans user l l' (s s1 s2 : state) : l'.*1 ⊆ l.*1 -> apart user l s s1 -> apart user l' s1 s2 -> apart user l s s2.
Proof.
  intros Hsub [U1 A1 L1] [U2 A2 L2]. split.
  - intros b Hb. by rewrite U2, U1.
  - intros a Ha. rewrite A2, A1; [done|done|]. intros Ha'. by apply Ha, Hsub.
  - intros k Hk. rewrite L2, L1; [done|done|]. rewrite L1 by done. eapply Forall_impl; [exact Hk|]. intros a Ha Ha'. by apply Ha, Hsub.
Qed.

(** Another user waits as before. *)
Lemma apart_waits user user' l l' u' (s s' : state) :
  apart user l s s' -> user' <> user -> Forall (fun a => a ∉ l.*1) l'.*1 -> waits s user' u' l' -> waits s' user' u' l'.
Proof.
  intros [U A L] Hne Hdis [[Hu Eu] Hl Hn Hat Hnull Hti Hpl]. split; try done.
  - by rewrite U.
  - by rewrite L; rewrite Hl.
  - unfold details_are in *. apply Forall_forall. intros y Hy. rewrite Forall_forall in Hat. rewrite Forall_forall in Hdis.
    rewrite A; [by apply Hat|]. apply Hdis. by apply list_elem_of_fmap_2.
Qed.

(** One turn of the loop of a user. *)
Lemma turn_saved n (s : state) user u l bs :
  waits s user u l -> 3600 < end_time u - start_time u < 2 ^ 64 -> 0 <= start_time u -> end_time u < 2 ^ 64 ->
  ~ crowded l -> blocks_ok bs ->
  exists x D vs bs', detail_hours (Datatypes.S n) user bs s = detail_hours n user bs' (set_details D (set_db x s)) /\
    blocks_ok bs' /\ waits (set_details D (set_db x s)) user (hour_back u) (earlier (hour_start u) l) /\
    apart user l s (set_details D (set_db x s)) /\
    contents x = set_all (turn_records u vs) (contents (db s)) /\
    length vs = AN_DETAIL_MAX /\ (forall c v, vs !! c = Some v -> hour_value v (gid u) (filter (of_category (hour_start u) c) l)).
Proof.
  intros Hw Hspan Hst Hend Hcrowd Hbs. pose proof Hw as [[Hu Eu] Hl Hn Hat Hnull Hti Hpl].
  assert (hour_start u = u64 (end_time u - 3600 + 1)) as Ehs by (unfold hour_start; rewrite wrapu_small; lia).
  set (t := hour_start u) in *.
  assert (length (filter (in_hour t) l) <= 1024)%nat as Hmax.
  { destruct (decide (1024 < length (filter (within t) l))%nat) as [Hc|Hc]; [exfalso; apply Hcrowd; by exists t|].
    rewrite (filter_ext_in (in_hour t) (within t)); [lia|]. intros y Hy. unfold times_and_kinds in Hti. rewrite Forall_forall in Hti.
    destruct (Hti y Hy). unfold in_hour, within, t, hour_start. lia. }
  cbn [detail_hours]. assert (detail_user user s = Ret u s) as E.
  { unfold detail_user. rewrite bind_gets. unfold deref. destruct (Z.eqb_spec user NULL); [done|]. by rewrite Eu. }
  rewrite (bind_Ret _ _ _ _ _ E). clear E.
  assert (u64 (end_time u - start_time u) = end_time u - start_time u) as -> by (apply wrapu_small; lia).
  destruct (Z.ltb_spec 3600 (end_time u - start_time u)); [|lia]. rewrite bind_gets, Hl, <- Ehs.
  destruct (hour_spec s (end_time u) t l [] _ Hat Hti (blocks_start bs t Hbs) Hmax) as (bs1 & E & Hlen1 & Hbs1).
  cbn [app] in *. change (filter (in_hour t) []).*1 with (@nil addr) in E. rewrite (bind_Ret _ _ _ _ _ E). clear E. cbv zeta.
  fold (day_of_hour u) (hour_of_day u).
  assert (0 <= day_of_hour u < 2 ^ 64) as Hday.
  { unfold day_of_hour, an_gmt_format_to_day_inver. destruct (an_gmt_to_time _ _) as [[[[[? ?] ?] ?] ?] ?]. apply wrapu_range. lia. }
  assert (0 <= hour_of_day u < 2 ^ 32) as Hhour by (unfold hour_of_day, hour_of, an_gmt_to_time; apply wrapu_range; lia).
  destruct (hour_kvs_spec (uid u) (gid u) _ _ Hday Hhour bs1 0 (fun c => filter (of_category t c) l)) as (vs & bs2 & E & Lvs & Hvs & Hbs2).
  { intros c b Eb. split; [by apply Hbs1|]. split; [pose proof (of_category_length t c l); lia|].
    apply Forall_forall. intros y [_ Hy]%list_elem_of_filter. rewrite Forall_forall in Hpl. by apply Hpl. }
  rewrite E, bind_lift. clear E. cbn [fst snd]. destruct (Z.eqb_spec (end_time u) 0); [lia|].
  fold (acttime (uid u)). rewrite kv_short by apply acttime_short.
  destruct (multi_set_run (turn_records u vs) s) as (x & E & Cx); [by destruct vs|].
  unfold turn_records, honest_args in E. rewrite fmap_app in E. cbn [fmap list_fmap fst snd] in E.
  rewrite (bind_Ret _ _ _ _ _ E). clear E.
  assert (u64 (end_time u - 3600) = end_time u - 3600) as -> by (apply wrapu_small; lia).
  set (s1 := set_db x s).
  set (D1 := Details (Reg (<[user := hour_back u]> (objs (dusers (t_details s1)))) (tbl (dusers (t_details s1)))) (dacts (t_details s1)) (dwk (t_details s1))).
  rewrite (bind_Ret (set_end_time user u (end_time u - 3600)) _ s1 tt (set_details D1 s1)) by done.
  destruct (remove_all_spec (filter (in_hour t) l).*1 (set_details D1 s1)) as (D & E & HDu & HDo & HDl).
  { apply (sublist_NoDup _ l.*1); [done|]. apply fmap_sublist, sublist_filter. }
  { apply Forall_forall. intros a (y & -> & Hy)%list_elem_of_fmap. apply list_elem_of_filter in Hy as [_ Hy].
    unfold details_are in Hat. rewrite Forall_forall in Hat, Hnull. split; [by apply Hnull|]. exists y.2. by apply Hat. }
  unfold remove_all in E. rewrite (bind_Ret _ _ _ _ _ E). clear E.
  exists x, D, vs, bs2. split; [done|]. split.
  { split; [rewrite <- (Forall2_length _ _ _ Hbs2); done|]. apply Forall_forall. intros b' Hb'. apply list_elem_of_lookup in Hb' as [c Ec].
    destruct (Forall2_lookup_r _ _ _ _ _ Hbs2 Ec) as (b & Eb & -> & ->). destruct (Hbs1 c b Eb) as (_ & ? & ? & _). done. }
  split; [|split; [split|split; [done|split; [congruence|done]]]].
  2:{ intros b Hb. cbn [t_details set_details]. rewrite HDu. cbn [t_details set_details D1 dusers objs]. by rewrite lookup_insert_ne. }
  2:{ intros a Ha. cbn [t_details set_details]. rewrite HDo; [done|]. intros (y & -> & Hy)%list_elem_of_fmap.
      apply list_elem_of_filter in Hy as [_ Hy]. by apply Ha, list_elem_of_fmap_2. }
  2:{ intros k Hk. cbn [t_details set_details]. rewrite HDl. apply filter_all. eapply Forall_impl; [exact Hk|].
      intros a Ha (y & -> & Hy)%list_elem_of_fmap. apply list_elem_of_filter in Hy as [_ Hy]. by apply Ha, list_elem_of_fmap_2. }
  apply (earlier_waits s); [done|lia| | |].
  - cbn [t_details set_details]. rewrite HDu. cbn [t_details set_details D1 dusers objs]. apply lookup_insert_eq.
  - intros a Ha. cbn [t_details set_details]. by rewrite HDo.
  - cbn [t_details set_details]. rewrite HDl. cbn [t_details set_details D1 dacts]. unfold s1. cbn [t_details set_db]. by rewrite Hl.
Qed.

(** ** All hours, all users *)

(** The full hours of a user. *)
Definition hours (u : an_detail_user) : nat := Z.to_nat ((end_time u - start_time u - 1) / 3600).

(** From [m] to [m'] with [n] hours of [l], latest first. *)
Fixpoint hours_moved (n : nat) (u : an_detail_user) (l : list (addr * an_detail_act)) (m m' : Store.table) : Prop :=
  match n with
  | O => m' = m
  | Datatypes.S n => exists vs, length vs = AN_DETAIL_MAX /\
      (forall c v, vs !! c = Some v -> hour_value v (gid u) (filter (of_category (hour_start u) c) l)) /\
      hours_moved n (hour_back u) (earlier (hour_start u) l) (set_all (turn_records u vs) m) m'
  end.

Definition after (n : nat) (u : an_detail_user) : an_detail_user :=
  DetailUser (uid u) (gid u) (start_time u) (end_time u - 3600 * Z.of_nat n).

Definition left_over (n : nat) (u : an_detail_user) (l : list (addr * an_detail_act)) : list (addr * an_detail_act) :=
  filter (fun y => time y.2 <= end_time u - 3600 * Z.of_nat n) l.

Lemma left_over_back n u l : left_over n (hour_back u) (earlier (hour_start u) l) = left_over (Datatypes.S n) u l.
Proof.
  unfold left_over, earlier. rewrite list_filter_filter. apply filter_ext_in. intros y _. unfold in_hour, hour_start.
  cbn [hour_back end_time]. lia.
Qed.

Lemma not_crowded_earlier t l : ~ crowded l -> ~ crowded (earlier t l).
Proof.
  intros Hl [t' Ht']. apply Hl. exists t'. unfold earlier in Ht'. rewrite list_filter_filter in Ht'. eapply Nat.lt_le_trans; [exact Ht'|].
  rewrite <- (list_filter_filter (within t') (fun y => ~ in_hour t y)). clear. induction l as [|y l IH]; [done|]. rewrite !filter_cons.
  repeat case_decide; rewrite ?filter_cons; repeat case_decide; simpl; try done; lia.
Qed.

Lemma user_hours user : forall n k (s : state) u l bs,
  waits s user u l -> 0 <= start_time u <= end_time u -> end_time u < 2 ^ 64 -> ~ crowded l -> blocks_ok bs ->
  hours u = n -> (n < k)%nat ->
  exists x D bs', detail_hours k user bs s = Ret (inl bs') (set_details D (set_db x s)) /\ blocks_ok bs' /\
    hours_moved n u l (contents (db s)) (contents x) /\
    waits (set_details D (set_db x s)) user (after n u) (left_over n u l) /\ apart user l s (set_details D (set_db x s)).
Proof.
  induction n as [|n IH]; intros k s u l bs Hw Hst Hend Hcrowd Hbs Hn Hk; (destruct k as [|k]; [lia|]).
  - exists (db s), (t_details s), bs. pose proof Hw as [[Hu Eu] _ _ _ _ Hti _].
    assert (set_details (t_details s) (set_db (db s) s) = s) as -> by by destruct s.
    assert (end_time u - start_time u <= 3600) as Hle.
    { unfold hours in Hn. pose proof (Z.div_mod (end_time u - start_time u - 1) 3600). pose proof (Z.mod_pos_bound (end_time u - start_time u - 1) 3600). lia. }
    split.
    { cbn [detail_hours]. assert (detail_user user s = Ret u s) as E.
      { unfold detail_user. rewrite bind_gets. unfold deref. destruct (Z.eqb_spec user NULL); [done|]. by rewrite Eu. }
      rewrite (bind_Ret _ _ _ _ _ E).
      assert (u64 (end_time u - start_time u) = end_time u - start_time u) as -> by (apply wrapu_small; lia).
      by destruct (Z.ltb_spec 3600 (end_time u - start_time u)); [lia|]. }
    split; [done|]. split; [done|]. split; [|apply apart_refl]. unfold after, left_over. rewrite Z.mul_0_r, Z.sub_0_r.
    destruct u. rewrite filter_all; [done|]. eapply Forall_impl; [exact Hti|]. intros y [Hy _]. exact Hy.
  - assert (3600 < end_time u - start_time u < 2 ^ 64) as Hspan.
    { unfold hours in Hn. pose proof (Z.div_mod (end_time u - start_time u - 1) 3600). pose proof (Z.mod_pos_bound (end_time u - start_time u - 1) 3600). lia. }
    destruct (turn_saved k s user u l bs Hw Hspan) as (x & D & vs & bs1 & E & Hbs1 & Hw1 & Hap & Cx & Lvs & Hvs); [lia|lia|done|done|].
    destruct (IH k (set_details D (set_db x s)) (hour_back u) (earlier (hour_start u) l) bs1) as (x2 & D2 & bs2 & E2 & Hbs2 & Hm & Hw2 & Hap2).
    { done. } { cbn [hour_back start_time end_time]. lia. } { cbn [hour_back end_time]. lia. } { by apply not_crowded_earlier. } { done. }
    { unfold hours in *. cbn [hour_back start_time end_time].
      replace (end_time u - 3600 - start_time u - 1) with (end_time u - start_time u - 1 + (-1) * 3600) by lia. rewrite Z.div_add by lia. lia. }
    { lia. }
    exists x2, D2, bs2. rewrite E. split; [exact E2|]. split; [done|]. split.
    { cbn [hours_moved]. exists vs. split; [done|]. split; [done|]. rewrite <- Cx. exact Hm. }
    rewrite left_over_back in Hw2. split.
    { replace (after (Datatypes.S n) u) with (after n (hour_back u)); [exact Hw2|]. unfold after. cbn [hour_back end_time start_time uid gid]. f_equal. lia. }
    apply (apart_trans user l (earlier (hour_start u) l) s (set_details D (set_db x s))); [|done|exact Hap2]. unfold earlier.
    intros a (y & -> & Hy)%list_elem_of_fmap. apply list_elem_of_filter in Hy as [_ Hy]. by apply list_elem_of_fmap_2.
Qed.

(** A user with the activities on the list. *)
Abbreviation waiting := (addr * an_detail_user * list (addr * an_detail_act))%type.

Definition ready (s : state) (w : waiting) : Prop :=
  waits s w.1.1 w.1.2 w.2 /\ 0 <= start_time w.1.2 <= end_time w.1.2 /\ end_time w.1.2 < 2 ^ 64 /\ ~ crowded w.2 /\
  (hours w.1.2 < fuel)%nat.

Definition acts_of (w : waiting) : list addr := w.2.*1.

Fixpoint all_moved (ws : list waiting) (m m' : Store.table) : Prop :=
  match ws with
  | [] => m' = m
  | w :: ws => exists m1, hours_moved (hours w.1.2) w.1.2 w.2 m m1 /\ all_moved ws m1 m'
  end.

Definition finished (s : state) (w : waiting) : Prop :=
  waits s w.1.1 (after (hours w.1.2) w.1.2) (left_over (hours w.1.2) w.1.2 w.2).

Lemma left_over_sub n u l : (left_over n u l).*1 ⊆ l.*1.
Proof. intros a (y & -> & Hy)%list_elem_of_fmap. apply list_elem_of_filter in Hy as [_ Hy]. by apply list_elem_of_fmap_2. Qed.

Lemma users_hours : forall ws (s : state) bs, Forall (ready s) ws -> NoDup ws.*1.*1 -> NoDup (ws ≫= acts_of) -> blocks_ok bs ->
  exists x D bs', for_fold (detail_hours fuel) ws.*1.*1 bs s = Ret (inl bs') (set_details D (set_db x s)) /\
    all_moved ws (contents (db s)) (contents x) /\ Forall (finished (set_details D (set_db x s))) ws /\
    (forall user u l, waits s user u l -> user ∉ ws.*1.*1 -> Forall (fun a => a ∉ ws ≫= acts_of) l.*1 ->
       waits (set_details D (set_db x s)) user u l).
Proof.
  induction ws as [|[[user u] l] ws IH]; intros s bs Hr Hnu Hna Hbs.
  { exists (db s), (t_details s), bs. assert (set_details (t_details s) (set_db (db s) s) = s) as -> by by destruct s.
    split; [done|]. split; [done|]. split; [constructor|done]. }
  apply Forall_cons in Hr as [(Hw & Hst & Hend & Hcr & Hf) Hr']. cbn [fst snd] in *. rewrite !fmap_cons in Hnu. cbn [fst] in Hnu.
  apply NoDup_cons in Hnu as [Hu Hnu]. rewrite bind_cons in Hna. apply NoDup_app in Hna as (Hna1 & Hdis & Hna2). cbn [acts_of snd] in Hna1, Hdis.
  destruct (user_hours user (hours u) fuel s u l bs Hw Hst Hend Hcr Hbs eq_refl Hf) as (x & D & bs1 & E & Hbs1 & Hm & Hfin & Hap).
  set (s1 := set_details D (set_db x s)) in *.
  destruct (IH s1 bs1) as (x2 & D2 & bs2 & E2 & Hm2 & Hfin2 & Hkeep); [|done|done|done|].
  { apply Forall_forall. intros [[user' u'] l'] Hin. rewrite Forall_forall in Hr'. destruct (Hr' _ Hin) as (Hw' & H'). split; [|exact H'].
    cbn [fst snd] in *. apply (apart_waits user user' l l' u' s); [done| | |done].
    - intros ->. apply Hu. apply list_elem_of_fmap. exists (user, u'). split; [done|]. by apply (list_elem_of_fmap_2 fst) in Hin.
    - apply Forall_forall. intros a Ha Hal. apply (Hdis a Hal). apply list_elem_of_bind. by exists (user', u', l'). }
  exists x2, D2, bs2. split.
  { cbn [fmap list_fmap fst for_fold]. rewrite (bind_Ret _ _ _ _ _ E). exact E2. }
  split; [by exists (contents x)|]. split.
  { constructor; [|exact Hfin2]. unfold finished. cbn [fst snd]. apply Hkeep; [done|done|].
    apply Forall_forall. intros a Ha. by apply Hdis, (left_over_sub _ _ _ _ Ha). }
  intros user' u' l' Hw' Hnin Hdis'. rewrite !fmap_cons in Hnin. cbn [fst] in Hnin. apply not_elem_of_cons in Hnin as [Hne Hnin].
  rewrite Forall_forall in Hdis'. setoid_rewrite bind_cons in Hdis'. apply Hkeep; [|done|].
  - apply (apart_waits user user' l l' u' s); [done|done| |done]. apply Forall_forall. intros a Ha Hal. apply (Hdis' a Ha). apply elem_of_app. by left.
  - apply Forall_forall. intros a Ha Hal. apply (Hdis' a Ha). apply elem_of_app. by right.
Qed.

Lemma new_dbufs_run : forall n (s : state) ms rest, mallocs s = ms ++ rest -> length ms = n -> Forall (fun a => a <> NULL) ms ->
  new_dbufs n s = Ret (Some (replicate n (Dbuf (replicate (dblock_size MAX_RULE_NUM) 0) MAX_RULE_NUM 0))) (set_mallocs rest s).
Proof.
  induction n as [|n IH]; intros s [|a ms] rest Em Hl Hms; try done; [simpl in Em; subst rest; by destruct s|].
  apply Forall_cons in Hms as [Ha Hms]. cbn [new_dbufs]. assert (malloc s = Ret a (set_mallocs (ms ++ rest) s)) as E by (unfold malloc; by rewrite Em).
  rewrite (bind_Ret _ _ _ _ _ E). destruct (Z.eqb_spec a NULL); [done|].
  rewrite (bind_Ret _ _ _ _ _ (IH (set_mallocs (ms ++ rest) s) ms rest eq_refl ltac:(simpl in Hl; lia) Hms)). done.
Qed.

(** C39. Hour by hour everything is moved from the tables to the store: with a
    store whose calls work, memory, and no more than 1024 activities in any
    hour, [ww_save_all_user_detail_act_to_db] ends and returns 0; for every
    user and every full hour the store gets a record per category whose value
    decodes to exactly the activities of that hour and category, in order,
    and the time of the hour; what was written has left the table, and what
    belongs to the hour that is not over is still there. *)
Theorem hours_saved (s : state) ws ms rest :
  tget (tbl (dusers (t_details s))) (F_ALL, (0, 0)) = ws.*1.*1 -> NoDup ws.*1.*1 -> NoDup (ws ≫= acts_of) ->
  Forall (ready s) ws -> mallocs s = ms ++ rest -> length ms = 10%nat -> Forall (fun a => a <> NULL) ms ->
  exists x D, ww_save_all_user_detail_act_to_db s = Ret 0 (set_details D (set_db x (set_mallocs rest s))) /\
    all_moved ws (contents (db s)) (contents x) /\ Forall (finished (set_details D (set_db x (set_mallocs rest s)))) ws.
Proof.
  intros Hl Hnu Hna Hr Em Hms Hnull. rewrite <- (take_drop AN_DETAIL_MAX ms), <- app_assoc in Em. pose proof Hnull as Hnull8.
  rewrite <- (take_drop AN_DETAIL_MAX ms) in Hnull8. apply Forall_app in Hnull8 as [Hn8 Hn2].
  assert (length (drop AN_DETAIL_MAX ms) = 2%nat) as L2 by (rewrite length_drop, Hms; done).
  destruct (drop AN_DETAIL_MAX ms) as [|del [|kvs [|]]]; [done|done| |done].
  rewrite !Forall_cons in Hn2. destruct Hn2 as (Hdel & Hkvs & _). unfold ww_save_all_user_detail_act_to_db.
  rewrite (bind_Ret _ _ _ _ _ (new_dbufs_run AN_DETAIL_MAX s _ _ Em ltac:(rewrite length_take, Hms; done) Hn8)).
  set (s1 := set_mallocs ([del; kvs] ++ rest) s).
  rewrite (bind_Ret malloc _ s1 del (set_mallocs ([kvs] ++ rest) s)) by done. destruct (Z.eqb_spec del NULL); [done|].
  rewrite (bind_Ret malloc _ _ kvs (set_mallocs rest s)) by done. destruct (Z.eqb_spec kvs NULL); [done|]. rewrite bind_gets.
  change (t_details (set_mallocs rest s)) with (t_details s). rewrite Hl.
  destruct (users_hours ws (set_mallocs rest s) (replicate AN_DETAIL_MAX (Dbuf (replicate (dblock_size MAX_RULE_NUM) 0) MAX_RULE_NUM 0)))
    as (x & D & bs & E & Hm & Hfin & _).
  { eapply Forall_impl; [exact Hr|]. intros w (Hw & H'). split; [|exact H']. destruct Hw as [Hu Hli Hn Hat Hnl Hti Hpl]. by split. }
  { done. } { done. }
  { split; [by rewrite length_replicate|]. apply Forall_replicate. cbn [dnum dblk]. by rewrite length_replicate. }
  rewrite (bind_Ret _ _ _ _ _ E). by exists x, D.
Qed.

End Saved.

(** ** On a small table *)

(** Two hours and five minutes of user 10001: one activity in each hour and one
    that is too young. *)
Definition ex_duser : an_detail_user := DetailUser 10001 2 2900000000 2900007500.
Definition ex_detail (t c : Z) : an_detail_act := DetailAct t 1 c [65] [66].
Definition ex_details : list (addr * an_detail_act) :=
  [(201, ex_detail 2900007490 6); (202, ex_detail 2900003500 2); (203, ex_detail 2900000100 2)].

Definition ex_hours : st Store.table :=
  St (UserAction.Users blank blank) (Group.Groups blank 0)
     (Details (Reg {[100 := ex_duser]} {[(F_ALL, (0, 0)) := [100]]}) (Reg (list_to_map ex_details) {[(F_ALL, (100, 0)) := ex_details.*1]}) blank)
     (QQ.QQs blank blank blank blank) blank ∅ ∅ [1; 2; 3; 4; 5; 6; 7; 8; 9; 10] [] None.

Lemma hours_saved_witness :
  exists x D, ww_save_all_user_detail_act_to_db ex_hours = Ret 0 (set_details D (set_db x (set_mallocs [] ex_hours))) /\
    hours_moved 2 ex_duser ex_details ∅ (contents x) /\
    waits (set_details D (set_db x (set_mallocs [] ex_hours))) 100 (DetailUser 10001 2 2900000000 2900000300)
      [(203, ex_detail 2900000100 2)].
Proof.
  destruct (hours_saved ex_hours [(100, ex_duser, ex_details)] [1; 2; 3; 4; 5; 6; 7; 8; 9; 10] []) as (x & D & E & (m & Hm & Em) & Hf).
  - reflexivity.
  - apply NoDup_singleton.
  - apply (bool_decide_unpack _). vm_compute. exact I.
  - apply Forall_singleton. split; [|split; [cbn; lia|split; [cbn; lia|split; [|vm_compute; lia]]]].
    + split.
      * split; [discriminate|reflexivity].
      * reflexivity.
      * apply (bool_decide_unpack _). vm_compute. exact I.
      * repeat constructor.
      * repeat constructor; discriminate.
      * unfold times_and_kinds, ex_details. cbn [snd]. rewrite !Forall_cons. cbn. repeat split; try lia. constructor.
      * repeat constructor; discriminate.
    + intros [t Ht]. pose proof (length_filter (within t) ex_details). simpl in *. lia.
  - reflexivity.
  - reflexivity.
  - repeat constructor; discriminate.
  - exists x, D. split; [exact E|]. split; [rewrite Em; exact Hm|]. rewrite Forall_singleton in Hf. exact Hf.
Defined.
