(* ===== verification/XServer.v ===== *)
(** * XServer: the older server ([src/TCP_SERVER])

    A server of its own beside [TCP_C]: [x-poll.c] keeps the table of
    descriptors, [x-session.c] the sessions on two hash chains, and a request
    is answered by a Lua script ([x-lua.c]).  [x-timer.c] and [x-memory.c] are
    the code [Timer] and [Mem] model.  What the system calls, the allocator
    and the script answer are streams in the state ([input]); a stream that is
    used up answers as the call does when there is nothing left: no memory,
    no connection, [EAGAIN]. *)

From Stdlib Require Import Ascii String.
From S2P Require Import Prelude CString Bytes Registry.
Import Registry.
Local Open Scope list_scope.
Local Open Scope Z_scope.

Module XServer.

Definition POLLIN : Z := 1.
Definition POLLOUT : Z := 4.
Definition POLLERR : Z := 8.

Definition SESSION_STAT_RECV_INIT : Z := Z.shiftl 1 1.
Definition SESSION_STAT_RECV_AGAIN : Z := Z.shiftl 1 2.
Definition SESSION_STAT_KEEP_ALIVE : Z := Z.shiftl 1 8.
Definition SESSION_STAT_SEND_ERROR : Z := Z.shiftl 1 16.
Definition SESSION_STAT_SEND_AGAIN : Z := Z.shiftl 1 17.
Definition SESSION_STAT_SEND_FINISH : Z := Z.shiftl 1 18.
Definition SESSION_STAT_LUA_ERROR : Z := Z.shiftl 1 24.

Definition RCV : nat := 10240.

Record pollfd := Pollfd { fd : Z; events : Z; revents : Z }.

(** A null pointer is [None]. *)
Record session := Session {
  state : Z; fid : Z; sid : Z; pid : Z; error_info : cstring;
  rcv_buf : option (list Z); rcv_buflen : Z; rcv_len : Z; snd_buf : option (list Z); snd_len : Z
}.

(** What becomes of the script: it does not load, the call fails with a
    message, or it returns the data (none if it is no string), the length and
    whether to keep the connection. *)
Inductive lua_result :=
| LoadFailed
| CallFailed (msg : cstring)
| Returned (data : option (list Z)) (data_len keep_alive : Z).

Record input := Input {
  mallocs : list addr; reallocs : list bool; fcntls : list bool;
  recvs : list (option (list Z)); sends : list Z; luas : list lua_result
}.

(** [sent] are the bytes that went out, [closed] the descriptors closed;
    [behind] is what lies in memory behind a block, [date] what
    [ses_get_date_string] prints. *)
Record server := Server {
  poll_fds : list pollfd; poll_max_size : Z; poll_curfds : Z;
  sessions : reg session; next_sid : Z;
  sent : list (Z * list Z); closed : list Z; inp : input
}.

Definition X (A : Type) : Type := server -> outcome (A * server).

#[local] Instance X_ret : MRet X := fun A a s => Done (a, s).
#[local] Instance X_bind : MBind X := fun A B k m s => match m s with Done (a, s) => k a s | Fault f => Fault f end.

Definition lift {A} (o : outcome A) : X A := fun s => match o with Done a => Done (a, s) | Fault f => Fault f end.
Definition gets {A} (f : server -> A) : X A := fun s => Done (f s, s).
Definition modify (f : server -> server) : X unit := fun s => Done (tt, f s).

Definition set_fds (l : list pollfd) (s : server) : server :=
  Server l (poll_max_size s) (poll_curfds s) (sessions s) (next_sid s) (sent s) (closed s) (inp s).
Definition set_curfds (n : Z) (s : server) : server :=
  Server (poll_fds s) (poll_max_size s) n (sessions s) (next_sid s) (sent s) (closed s) (inp s).
Definition set_sessions (r : reg session) (s : server) : server :=
  Server (poll_fds s) (poll_max_size s) (poll_curfds s) r (next_sid s) (sent s) (closed s) (inp s).
Definition set_sid (n : Z) (s : server) : server :=
  Server (poll_fds s) (poll_max_size s) (poll_curfds s) (sessions s) n (sent s) (closed s) (inp s).
Definition add_sent (x : Z * list Z) (s : server) : server :=
  Server (poll_fds s) (poll_max_size s) (poll_curfds s) (sessions s) (next_sid s) (sent s ++ [x]) (closed s) (inp s).
Definition add_closed (x : Z) (s : server) : server :=
  Server (poll_fds s) (poll_max_size s) (poll_curfds s) (sessions s) (next_sid s) (sent s) (closed s ++ [x]) (inp s).
Definition set_inp (i : input) (s : server) : server :=
  Server (poll_fds s) (poll_max_size s) (poll_curfds s) (sessions s) (next_sid s) (sent s) (closed s) i.

Definition wys_malloc : X addr := fun s =>
  let i := inp s in
  match mallocs i with
  | [] => Done (NULL, s)
  | a :: l => Done (a, set_inp (Input l (reallocs i) (fcntls i) (recvs i) (sends i) (luas i)) s)
  end.

Definition realloc_ok : X bool := fun s =>
  let i := inp s in
  match reallocs i with
  | [] => Done (false, s)
  | b :: l => Done (b, set_inp (Input (mallocs i) l (fcntls i) (recvs i) (sends i) (luas i)) s)
  end.

Definition fcntl_ok : X bool := fun s =>
  let i := inp s in
  match fcntls i with
  | [] => Done (true, s)
  | b :: l => Done (b, set_inp (Input (mallocs i) (reallocs i) l (recvs i) (sends i) (luas i)) s)
  end.

(** At most as many bytes as there is room; [None] is an error, no bytes the
    end of the stream. *)
Definition recv : X (option (list Z)) := fun s =>
  let i := inp s in
  match recvs i with
  | [] => Done (None, s)
  | b :: l => Done (take RCV <$> b, set_inp (Input (mallocs i) (reallocs i) (fcntls i) l (sends i) (luas i)) s)
  end.

Definition send : X Z := fun s =>
  let i := inp s in
  match sends i with
  | [] => Done (-1, s)
  | n :: l => Done (n, set_inp (Input (mallocs i) (reallocs i) (fcntls i) (recvs i) l (luas i)) s)
  end.

Definition lua : X lua_result := fun s =>
  let i := inp s in
  match luas i with
  | [] => Done (LoadFailed, s)
  | r :: l => Done (r, set_inp (Input (mallocs i) (reallocs i) (fcntls i) (recvs i) (sends i) l) s)
  end.

(** ** The table of descriptors *)

(** [poll_fds[i]] *)
Definition slot (i : Z) : X pollfd := fun s =>
  if decide (0 <= i) then match poll_fds s !! Z.to_nat i with Some x => Done (x, s) | None => Fault OutOfBounds end
  else Fault OutOfBounds.

Definition set_slot (i : Z) (x : pollfd) : X unit := modify (fun s => set_fds (<[Z.to_nat i := x]> (poll_fds s)) s).

Definition poll_add_write (p : Z) : X unit :=
  x ← slot p; set_slot p (Pollfd (fd x) (Z.lor (events x) POLLOUT) (revents x)).
Definition poll_add_read (p : Z) : X unit :=
  x ← slot p; set_slot p (Pollfd (fd x) (Z.lor (events x) POLLIN) (revents x)).
Definition poll_del_write (p : Z) : X unit :=
  x ← slot p; set_slot p (Pollfd (fd x) (Z.ldiff (events x) POLLOUT) (revents x)).
Definition poll_del_read (p : Z) : X unit :=
  x ← slot p; set_slot p (Pollfd (fd x) (Z.ldiff (events x) POLLIN) (revents x)).

(** Where the loop of [poll_add] stops. *)
Fixpoint free_slot (l : list pollfd) (i : Z) : Z :=
  match l with [] => i | x :: l => if fd x <? 0 then i else free_slot l (i + 1) end.

Definition poll_add (f : Z) : X Z :=
  s ← gets id;
  let i := free_slot (drop 1 (take (Z.to_nat (poll_max_size s)) (poll_fds s))) 1 in
  ret ← (if i <? poll_max_size s then
           x ← slot i; _ ← set_slot i (Pollfd f POLLIN (revents x)); mret i
         else mret (-1));
  _ ← (if i =? poll_curfds s then modify (set_curfds (poll_curfds s + 1)) else mret tt);
  mret ret.

Definition poll_del (index : Z) : X unit :=
  x ← slot index;
  _ ← modify (add_closed (fd x));
  set_slot index (Pollfd (-1) POLLIN (revents x)).

Definition poll_setfd_noblocking : X Z := ok ← fcntl_ok; mret (if (ok : bool) then 0 else -1).

(** ** Sessions *)

Definition FID : Z := 0.
Definition SID : Z := 1.
Definition SES_FID_HASH_IDX (f : Z) : Z := Z.land (u32 f) 1023.
Definition SES_SID_HASH_IDX (i : Z) : Z := Z.land (u32 i) 1023.

Definition ses_find_session_by_fid (f : Z) : X (option addr) := fun s =>
  r ← find (objs (sessions s)) (fun x => fid x =? f) (tget (tbl (sessions s)) (FID, (0, SES_FID_HASH_IDX f)));
  Done (r, s).

Definition ses_find_session_by_sid (i : Z) : X (option addr) := fun s =>
  r ← find (objs (sessions s)) (fun x => sid x =? i) (tget (tbl (sessions s)) (SID, (0, SES_SID_HASH_IDX i)));
  Done (r, s).

Definition ses_create_new_sid : X Z :=
  n ← gets next_sid; _ ← modify (set_sid (s32 (n + 1))); mret n.

Definition get_session (a : addr) : X session := fun s =>
  x ← get_or UseAfterFree (objs (sessions s) !! a); Done (x, s).

Definition put_session (a : addr) (x : session) : X unit :=
  modify (fun s => set_sessions (Reg (<[a := x]> (objs (sessions s))) (tbl (sessions s))) s).

Definition new_session (f p i : Z) : session := Session SESSION_STAT_RECV_INIT f i p [] None 0 0 None 0.

(** A session that could not be set up is not released. *)
Definition ses_create_new_session (f : Z) : X Z :=
  a ← wys_malloc;
  if a =? NULL then mret (-1)
  else
    p ← poll_add f;
    i ← ses_create_new_sid;
    _ ← put_session a (new_session f p i);
    if p <? 1 then mret (-1)
    else
      r ← poll_setfd_noblocking;
      if negb (r =? 0) then mret (-1)
      else
        _ ← modify (fun s =>
          let t := add_head (FID, (0, SES_FID_HASH_IDX f)) a (tbl (sessions s)) in
          set_sessions (Reg (objs (sessions s)) (add_head (SID, (0, SES_SID_HASH_IDX i)) a t)) s);
        mret 0.

Definition ses_release_session (f index : Z) : X Z :=
  r ← ses_find_session_by_fid f;
  a ← lift (get_or AssertFailed r);
  _ ← modify (fun s =>
    set_sessions (Reg (delete a (objs (sessions s))) (hlist_del_init SID a (hlist_del_init FID a (tbl (sessions s))))) s);
  _ ← poll_del index;
  mret 0.

Definition ses_session_init (s : server) : server :=
  set_sessions (Reg (objs (sessions s)) (init_heads SID 0 1024 (init_heads FID 0 1024 (tbl (sessions s))))) s.

(** ** Answers *)

Local Open Scope string_scope.
Definition X_SERVER : cstring := str "X-server/1.0 by miaomiao".
Definition CRLF : cstring := [13; 10].

Definition ses_create_505_page (err_info : cstring) : cstring :=
  snprintf_s 1024
    (str "<html><body bgcolor=" ++ [34] ++ str "white" ++ [34] ++ str "><title>500 Internal Server Error</title><style>body{nargin:auto;font-family:Tahoma, Geneva, sans-serif;}</style><h1 align=" ++ [34] ++ str "center" ++ [34] ++
     str ">500 Internal Server Error</h1><hr><p align=" ++ [34] ++ str "center" ++ [34] ++ str ">Error Info:" ++ err_info ++
     str "</p></body></html>")%list.

(** The answer, with the date as it is printed. *)
Definition error_text (date : cstring) (x : session) : cstring :=
  let page := ses_create_505_page (error_info x) in
  (str "HTTP/1.1 500 ERROR" ++ CRLF ++ str "Server:" ++ X_SERVER ++ CRLF ++ str "Content-type:text/html" ++ CRLF ++
   str "Content-Length:" ++ dec (Z.of_nat (length page)) ++ CRLF ++ str "Accept-Ranges: bytes" ++ CRLF ++
   str "Date: " ++ date ++ CRLF ++ str "Connection: close" ++ CRLF ++ CRLF ++ page)%list.
Local Close Scope string_scope.

Definition set_snd (x : session) (b : option (list Z)) (n : Z) : session :=
  Session (state x) (fid x) (sid x) (pid x) (error_info x) (rcv_buf x) (rcv_buflen x) (rcv_len x) b n.
Definition set_rcv (x : session) (b : option (list Z)) (size n : Z) : session :=
  Session (state x) (fid x) (sid x) (pid x) (error_info x) b size n (snd_buf x) (snd_len x).
Definition set_state (x : session) (n : Z) : session :=
  Session n (fid x) (sid x) (pid x) (error_info x) (rcv_buf x) (rcv_buflen x) (rcv_len x) (snd_buf x) (snd_len x).
Definition set_error (x : session) (t : cstring) : session :=
  Session (state x) (fid x) (sid x) (pid x) t (rcv_buf x) (rcv_buflen x) (rcv_len x) (snd_buf x) (snd_len x).

Section Talk.

Context (behind : list Z) (date : cstring) (junk : Z).

(** [_realloc] of the debugging allocator: nothing to grow is [_malloc], which
    clears the block, size 0 frees it, and a block must not shrink; [junk] is
    what a block grew by. *)
Definition wys_realloc (b : option (list Z)) (n : Z) : X (option (list Z)) :=
  let size := u32 n in
  match b with
  | None => ok ← realloc_ok; mret (if (ok : bool) then Some (replicate (Z.to_nat size) 0) else None)
  | Some l =>
    let len := Z.of_nat (length l) in
    if size =? 0 then mret None
    else if size <? len then lift (Fault AssertFailed)
    else if size =? len then mret (Some l)
    else ok ← realloc_ok; mret (if (ok : bool) then Some (l ++ replicate (Z.to_nat (size - len)) junk) else None)
  end.

Definition ses_send_data (a : addr) : X unit := x ← get_session a; poll_add_write (pid x).

Definition ses_send_error_info (a : addr) : X Z :=
  x ← get_session a;
  r ← wys_realloc (snd_buf x) 1024;
  match r with
  | None => _ ← put_session a (set_snd x None (snd_len x)); mret (-1)
  | Some b =>
    let text := error_text date x in
    b ← lift (Bytes.store 0 (text ++ [0]) b);
    _ ← put_session a (set_snd x (Some b) (snd_len x + Z.of_nat (length text)));
    _ ← ses_send_data a;
    mret 0
  end.

Definition has_state (x : session) (flag : Z) : bool := negb (Z.land (state x) flag =? 0).

Definition ses_send_http_data (a : addr) : X Z :=
  x ← get_session a;
  if has_state x SESSION_STAT_LUA_ERROR then ses_send_error_info a
  else _ ← ses_send_data a; mret 0.

Local Open Scope string_scope.
Definition load_failed : cstring := (str "Load lua script " ++ [34] ++ str "access.lua" ++ [34] ++ str " failed!" ++ [10])%list.
Local Close Scope string_scope.

(** [memcpy] of [data_len] bytes of the string the script returned. *)
Definition returned (data : option (list Z)) (data_len : Z) : outcome (list Z) :=
  match data with
  | None => if data_len =? 0 then Done [] else Fault NullDeref
  | Some l => if (data_len <? 0) || (Z.of_nat (length l) + 1 <? data_len) then Fault OutOfBounds
              else Done (take (Z.to_nat data_len) (l ++ [0]))
  end.

Definition lua_access (a : addr) : X Z :=
  x ← get_session a;
  r ← lua;
  match r with
  | LoadFailed =>
    _ ← put_session a (set_state (set_error x (snprintf_s 127 load_failed)) (Z.lor (state x) SESSION_STAT_LUA_ERROR));
    mret 0
  | CallFailed msg =>
    let x := set_rcv x None 0 0 in
    _ ← put_session a (set_state (set_error x (snprintf_s 127 msg)) (Z.lor (state x) SESSION_STAT_LUA_ERROR));
    mret 0
  | Returned data data_len keep_alive =>
    let x := set_rcv x None 0 0 in
    let x := if keep_alive =? 0 then x else set_state x (Z.lor (state x) SESSION_STAT_KEEP_ALIVE) in
    r ← wys_realloc (snd_buf x) data_len;
    match r with
    | None => _ ← put_session a (set_snd x None (snd_len x)); mret (-1)
    | Some b =>
      bs ← lift (returned data data_len);
      b ← lift (Bytes.store (Z.to_nat (snd_len x)) bs b);
      _ ← put_session a (set_snd x (Some b) (snd_len x + data_len));
      mret 0
    end
  end.

Definition ses_http_procotol_handler (a : addr) : X Z :=
  r ← lua_access a;
  if negb (r =? 0) then mret (-1)
  else r ← ses_send_http_data a; mret (if r =? 0 then 0 else -1).

(** ** Receiving *)

(** [strstr (buf, HTTP_EOF)] in a C string. *)
Fixpoint has_eof (s : cstring) : bool :=
  match s with
  | [] => false
  | _ :: s' => bool_decide (take 4 s = CRLF ++ CRLF) || has_eof s'
  end.

(** The terminator is looked for behind the block too. *)
Definition ses_check_eof (b : list Z) : outcome bool :=
  if decide (0 ∈ b ++ behind) then Done (has_eof (c_string (b ++ behind))) else Fault OutOfBounds.

(** The loop at [REDO]; [n] bounds it by what is left to receive. *)
Fixpoint recv_loop (n : nat) (a : addr) : X Z :=
  match n with
  | O => mret (-1)
  | S n =>
    r ← recv;
    match r with
    | None | Some [] => mret (-1)
    | Some bs =>
      let len := Z.of_nat (length bs) in
      x ← get_session a;
      ok ← (if rcv_buflen x <? rcv_len x + len then
              r ← wys_realloc (rcv_buf x) (rcv_len x + len);
              match r with
              | Some b => _ ← put_session a (set_rcv x (Some b) (rcv_len x + len) (rcv_len x)); mret true
              | None => _ ← put_session a (set_rcv x None (rcv_buflen x) (rcv_len x)); mret false
              end
            else mret true);
      if negb ok then mret (-1)
      else
        x ← get_session a;
        b ← lift (get_or NullDeref (rcv_buf x));
        b ← lift (Bytes.store (Z.to_nat (rcv_len x)) bs b);
        let x := set_rcv x (Some b) (rcv_buflen x) (rcv_len x + len) in
        _ ← put_session a x;
        if decide (length bs = RCV) then recv_loop n a
        else
          e ← lift (ses_check_eof b);
          if negb e then
            _ ← put_session a (set_state x (Z.lor (Z.ldiff (state x) SESSION_STAT_RECV_INIT) SESSION_STAT_RECV_AGAIN));
            mret 0
          else r ← ses_http_procotol_handler a; mret (if r =? 0 then 0 else -1)
    end
  end.

Definition ses_recv (f : Z) : X Z :=
  r ← ses_find_session_by_fid f;
  match r with
  | None => mret (-1)
  | Some a => s ← gets inp; recv_loop (S (length (recvs s))) a
  end.

(** ** Sending *)

Definition ses_check_send_state (f : Z) : X Z :=
  r ← ses_find_session_by_fid f;
  a ← lift (get_or NullDeref r);
  x ← get_session a;
  mret (if has_state x SESSION_STAT_SEND_FINISH then -1 else 0).

Definition ses_send (f : Z) : X Z :=
  r ← ses_find_session_by_fid f;
  a ← lift (get_or NullDeref r);
  x ← get_session a;
  if snd_len x =? 0 then _ ← poll_del_write (pid x); mret 0
  else
    b ← lift (get_or NullDeref (snd_buf x));
    _ ← lift (if (snd_len x <? 0) || (Z.of_nat (length b) <? snd_len x) then Fault OutOfBounds else Done tt);
    len ← send;
    if len <=? 0 then _ ← put_session a (set_state x (Z.lor (state x) SESSION_STAT_SEND_ERROR)); mret (-1)
    else
      _ ← modify (add_sent (f, take (Z.to_nat (Z.min len (snd_len x))) b));
      if len <? snd_len x then
        b ← lift (Bytes.store 0 (field (Z.to_nat len) (Z.to_nat (snd_len x - len)) b) b);
        _ ← put_session a (set_state (set_snd x (Some b) (snd_len x - len)) (Z.lor (state x) SESSION_STAT_SEND_AGAIN));
        mret 0
      else
        _ ← put_session a (set_state (set_snd x None 0) (Z.lor (state x) SESSION_STAT_SEND_FINISH));
        _ ← poll_del_write (pid x);
        mret 0.

(** ** The poll loop *)

Definition is_set (n flags : Z) : bool := negb (Z.land n flags =? 0).

(** [goto OUT] on the first handler that fails. *)
Definition poll_events_handler (index : Z) : X Z :=
  x ← slot index;
  out ← (if is_set (revents x) POLLERR then mret true
         else
           out ← (if is_set (revents x) POLLOUT then
                    r ← ses_send (fd x);
                    if negb (r =? 0) then mret true
                    else r ← ses_check_send_state (fd x); mret (negb (r =? 0))
                  else mret false);
           if (out : bool) then mret true
           else
             x' ← slot index;
             if is_set (revents x') POLLIN then r ← ses_recv (fd x); mret (negb (r =? 0)) else mret false);
  _ ← (if (out : bool) then _ ← ses_release_session (fd x) index; mret tt else mret tt);
  mret 0.

(** [accept] until there is nobody left. *)
Fixpoint accept_all (l : list Z) : X unit :=
  match l with
  | [] => mret tt
  | f :: l =>
    r ← ses_create_new_session f;
    _ ← (if r =? 0 then mret tt else modify (add_closed f));
    accept_all l
  end.

(** The loop over the connections: every open one counts against [nready]. *)
Fixpoint events_loop (l : list nat) (nready : Z) : X unit :=
  match l with
  | [] => mret tt
  | i :: l =>
    x ← slot (Z.of_nat i);
    if fd x <? 0 then events_loop l nready
    else
      _ ← (if is_set (revents x) (POLLIN + POLLERR + POLLOUT) then _ ← poll_events_handler (Z.of_nat i); mret tt else mret tt);
      if nready - 1 <=? 0 then mret tt else events_loop l (nready - 1)
  end.

(** What [poll] writes, and how many descriptors are ready. *)
Definition polled (revs : list Z) (l : list pollfd) : list pollfd :=
  imap (fun i x => Pollfd (fd x) (events x) (if fd x <? 0 then 0 else nth i revs 0)) l.

Definition ready (l : list pollfd) : Z := Z.of_nat (length (filter (fun x => revents x <> 0) l)).

Definition poll (revs : list Z) : X Z :=
  s ← gets id;
  let n := Z.to_nat (poll_curfds s) in
  if decide (n <= length (poll_fds s))%nat then
    let l := polled revs (take n (poll_fds s)) in
    _ ← modify (set_fds (l ++ drop n (poll_fds s)));
    mret (ready l)
  else lift (Fault OutOfBounds).

(** [revs] is what happened, [accepts] who is waiting. *)
Definition poll_process_run (revs accepts : list Z) : X Z :=
  nready ← poll revs;
  if nready <? 1 then mret 0
  else
    x ← slot 0;
    r ← (if is_set (revents x) POLLIN then
           _ ← accept_all accepts; mret (nready - 1, nready - 1 <=? 0)
         else mret (nready, false));
    if (r.2 : bool) then mret 0
    else
      s ← gets id;
      _ ← events_loop (seq 1 (Z.to_nat (poll_curfds s) - 1)) r.1;
      mret 0.

End Talk.

Definition poll_init (poll_max svr_fd : Z) : X Z :=
  if poll_max <=? 1 then mret (-1)
  else
    _ ← modify (fun s => Server (poll_fds s) poll_max (poll_curfds s) (sessions s) (next_sid s) (sent s) (closed s) (inp s));
    a ← wys_malloc;
    if a =? NULL then mret (-1)
    else if svr_fd =? -1 then lift (Fault AssertFailed)
    else
      _ ← modify (fun s => set_fds (Pollfd svr_fd POLLIN 0 :: replicate (Z.to_nat poll_max - 1) (Pollfd (-1) POLLIN 0))
                             (set_curfds (poll_curfds s + 1) s));
      mret 0.

End XServer.
