(* ===== verification/XServerFacts.v ===== *)
(** * XServerFacts: what the older server sends, and whom it serves *)

From S2P Require Import Prelude CString Bytes Registry XServer.
Import Registry XServer.
Local Open Scope list_scope.
Local Open Scope Z_scope.

#[local] Existing Instance X_ret.
#[local] Existing Instance X_bind.

Lemma bind_done {A B} (m : X A) (k : A -> X B) s a s' : m s = Done (a, s') -> (m ≫= k) s = k a s'.
Proof. intros E. unfold mbind, X_bind. by rewrite E. Qed.

Lemma xbind_lift {A B} (a : A) (k : A -> X B) s : (lift (Done a) ≫= k) s = k a s.
Proof. done. Qed.

Lemma get_session_run a x s : objs (sessions s) !! a = Some x -> get_session a s = Done (x, s).
Proof. intros E. unfold get_session. by rewrite E. Qed.

Lemma slot_run i x s : 0 <= i -> poll_fds s !! Z.to_nat i = Some x -> slot i s = Done (x, s).
Proof. intros Hi E. unfold slot. rewrite decide_True by done. by rewrite E. Qed.

(** ** Sending *)

(** The session of [f] is [x], at [a]: the first of its chain with that
    descriptor, its slot in the table. *)
Definition serves (f : Z) (a : addr) (x : session) (s : server) : Prop :=
  ses_find_session_by_fid f s = Done (Some a, s) /\ objs (sessions s) !! a = Some x /\ fid x = f /\
  0 <= pid x /\ is_Some (poll_fds s !! Z.to_nat (pid x)).

(** What is still to be sent. *)
Definition pending (x : session) (p : list Z) : Prop :=
  exists b, snd_buf x = Some b /\ (length p <= length b)%nat /\ take (length p) b = p /\ snd_len x = Z.of_nat (length p).

(** Rewriting the session without its descriptor leaves the chains as they are. *)
Lemma find_put (l : list addr) f a x y (h : gmap addr session) r :
  h !! a = Some x -> fid x = fid y ->
  find h (fun x => fid x =? f) l = Done r -> find (<[a := y]> h) (fun x => fid x =? f) l = Done r.
Proof.
  intros Ea Ef. revert r. induction l as [|b l IH]; intros r; cbn [find]; [done|].
  destruct (decide (b = a)) as [->|Hne].
  - rewrite Ea, lookup_insert_eq. simpl. rewrite <- Ef. destruct (fid x =? f); [done|]. apply IH.
  - rewrite lookup_insert_ne by done. destruct (h !! b) as [z|]; simpl; [|done]. destruct (fid z =? f); [done|]. apply IH.
Qed.

Lemma serves_put f a x y s s' :
  serves f a x s -> fid y = f -> pid y = pid x -> sessions s' = Reg (<[a := y]> (objs (sessions s))) (tbl (sessions s)) ->
  length (poll_fds s') = length (poll_fds s) -> serves f a y s'.
Proof.
  intros (Hf & Ea & Efid & Hp & Hs) Ey Epid Es El. unfold serves. split; [|split; [|split; [|split]]].
  - unfold ses_find_session_by_fid in *. rewrite Es. cbn [objs tbl].
    unfold mbind, outcome_bind in *.
    destruct (find (objs (sessions s)) (fun x => fid x =? f) (tget (tbl (sessions s)) (FID, (0, SES_FID_HASH_IDX f)))) as [r|] eqn:E; [|done].
    injection Hf as ->. rewrite (find_put _ f a x y _ (Some a) Ea ltac:(congruence) E). done.
  - rewrite Es. cbn [objs]. apply lookup_insert_eq.
  - done.
  - lia.
  - rewrite Epid. apply lookup_lt_is_Some. rewrite El. by apply lookup_lt_is_Some.
Qed.

Lemma has_flag n : Z.land (Z.lor n SESSION_STAT_SEND_FINISH) SESSION_STAT_SEND_FINISH <> 0.
Proof. rewrite Z.land_lor_distr_l, Z.land_diag, Z.lor_eq_0_iff. by intros [_ ?]. Qed.

(** One call of [ses_send] when [send] takes [n] bytes. *)
Lemma ses_send_step f a x p n l s :
  serves f a x s -> pending x p -> p <> [] -> sends (inp s) = n :: l -> 0 < n ->
  exists y s', ses_send f s = Done (0, s') /\ serves f a y s' /\ sends (inp s') = l /\
    sent s' = sent s ++ [(f, take (Z.to_nat n) p)] /\
    if Z.of_nat (length p) <=? n then snd_len y = 0 /\ has_state y SESSION_STAT_SEND_FINISH = true
    else pending y (drop (Z.to_nat n) p).
Proof.
  intros Hs (b & Eb & Hle & Ep & Elen) Hne El Hn. destruct Hs as (Hf & Ea & Efid & Hp & [z Ez]).
  assert (length p <> 0)%nat as Hp0 by (by destruct p).
  unfold ses_send. rewrite (bind_done _ _ _ _ _ Hf). cbn [get_or]. rewrite xbind_lift, (bind_done _ _ _ _ _ (get_session_run a x s Ea)).
  rewrite Elen. destruct (Z.eqb_spec (Z.of_nat (length p)) 0); [lia|]. rewrite Eb. cbn [get_or]. rewrite xbind_lift.
  destruct (Z.ltb_spec (Z.of_nat (length p)) 0); [lia|]. destruct (Z.ltb_spec (Z.of_nat (length b)) (Z.of_nat (length p))); [lia|].
  cbn [orb]. rewrite xbind_lift.
  set (i1 := Input (mallocs (inp s)) (reallocs (inp s)) (fcntls (inp s)) (recvs (inp s)) l (luas (inp s))).
  assert (send s = Done (n, set_inp i1 s)) as E by (unfold send; by rewrite El). rewrite (bind_done _ _ _ _ _ E). clear E.
  destruct (Z.leb_spec n 0); [lia|].
  set (s1 := add_sent (f, take (Z.to_nat (Z.min n (Z.of_nat (length p)))) b) (set_inp i1 s)).
  rewrite (bind_done (modify _) _ _ tt s1) by done.
  assert (take (Z.to_nat (Z.min n (Z.of_nat (length p)))) b = take (Z.to_nat n) p) as Et.
  { rewrite <- Ep at 2. rewrite take_take. f_equal. lia. }
  destruct (Z.ltb_spec n (Z.of_nat (length p))) as [Hlt|Hge]; destruct (Z.leb_spec (Z.of_nat (length p)) n); try lia.
  - assert (field (Z.to_nat n) (Z.to_nat (Z.of_nat (length p) - n)) b = drop (Z.to_nat n) p) as Efield.
    { unfold field. rewrite <- Ep at 2. rewrite skipn_firstn_comm. f_equal. lia. }
    assert (length (drop (Z.to_nat n) p) = length p - Z.to_nat n)%nat as Ld by apply length_drop.
    destruct (store_fits 0 (drop (Z.to_nat n) p) b) as [b' Eb']; [lia|].
    rewrite Efield, Eb', xbind_lift.
    exists (set_state (set_snd x (Some b') (Z.of_nat (length p) - n)) (Z.lor (state x) SESSION_STAT_SEND_AGAIN)).
    eexists. split; [reflexivity|]. split; [|split; [done|split; [cbn [sent]; by rewrite <- Et|]]].
    + apply (serves_put f a x _ s); [repeat split; try done; by exists z|done..].
    + exists b'. split; [done|]. pose proof (store_length _ _ _ _ Eb') as L'. pose proof (store_field _ _ _ _ Eb') as F'.
      unfold field in F'. rewrite drop_0 in F'. split; [lia|]. split; [done|]. cbn [snd_len set_snd set_state]. lia.
  - set (y := set_state (set_snd x None 0) (Z.lor (state x) SESSION_STAT_SEND_FINISH)).
    set (s2 := set_sessions (Reg (<[a := y]> (objs (sessions s1))) (tbl (sessions s1))) s1).
    rewrite (bind_done (put_session a y) _ _ tt s2) by done.
    assert (slot (pid x) s2 = Done (z, s2)) as E by by apply slot_run. unfold poll_del_write.
    rewrite (bind_done (slot _ ≫= _) _ s2 tt
      (set_fds (<[Z.to_nat (pid x) := Pollfd (fd z) (Z.ldiff (events z) POLLOUT) (revents z)]> (poll_fds s2)) s2))
      by (by rewrite (bind_done _ _ _ _ _ E)).
    eexists y, _. split; [reflexivity|]. split; [|split; [done|split; [cbn [sent]; by rewrite <- Et|]]].
    + apply (serves_put f a x _ s); [repeat split; try done; by exists z|done..|]. cbn [poll_fds set_fds]. by rewrite length_insert.
    + split; [done|]. unfold has_state. cbn [state y set_state]. by apply negb_true_iff, Z.eqb_neq, has_flag.
Qed.

Fixpoint send_rounds (k : nat) (f : Z) : X unit :=
  match k with O => mret tt | S k => _ ← ses_send f; send_rounds k f end.

Definition total (ns : list Z) : Z := foldr Z.add 0 ns.

(** C17. However the kernel cuts an answer into pieces, the calls of
    [ses_send] on a writable connection send every byte of it exactly once and
    in order, and then mark the session as finished and stop waiting for the
    descriptor. *)
Theorem answer_delivered f a x p ns rest s :
  serves f a x s -> pending x p -> p <> [] -> sends (inp s) = ns ++ rest -> Forall (fun n => 0 < n) ns ->
  total (removelast ns) < Z.of_nat (length p) <= total ns ->
  exists y s' parts, send_rounds (length ns) f s = Done (tt, s') /\ serves f a y s' /\
    snd_len y = 0 /\ has_state y SESSION_STAT_SEND_FINISH = true /\
    sent s' = sent s ++ (pair f <$> parts) /\ concat parts = p /\ length parts = length ns.
Proof.
  revert x p s. induction ns as [|n ns IH]; intros x p s Hs Hp Hne El Hpos Hsum.
  { destruct p; [done|]. simpl in Hsum. lia. }
  inversion_clear Hpos as [|? ? Hn Hns]. simpl app in El.
  destruct (ses_send_step f a x p n (ns ++ rest) s Hs Hp Hne El Hn) as (y & s1 & E & Hs1 & El1 & Esent & Hcase).
  cbn [length send_rounds]. rewrite (bind_done _ _ _ _ _ E).
  assert (length p <> 0)%nat by (by destruct p).
  destruct ns as [|m ns].
  - simpl in Hsum. destruct (Z.leb_spec (Z.of_nat (length p)) n); [|lia]. destruct Hcase as [Hz0 Hfin].
    exists y, s1, [p]. split; [done|]. split; [done|]. split; [done|]. split; [done|].
    split; [|by rewrite concat_cons, app_nil_r]. rewrite Esent, take_ge by lia. done.
  - change (removelast (n :: m :: ns)) with (n :: removelast (m :: ns)) in Hsum.
    change (total (n :: ?l)) with (n + total l) in Hsum.
    destruct (Z.leb_spec (Z.of_nat (length p)) n) as [Hge|Hlt].
    + exfalso. assert (0 <= total (removelast (m :: ns))); [|simpl in *; lia].
      assert (Forall (fun n => 0 < n) (removelast (m :: ns))) as Hl.
      { apply Forall_forall. intros k Hk. rewrite Forall_forall in Hns. apply Hns.
        rewrite (@app_removelast_last _ (m :: ns) 0) by done. apply elem_of_app. by left. }
      clear -Hl. induction Hl; simpl in *; lia.
    + destruct (IH y (drop (Z.to_nat n) p) s1) as (y' & s2 & parts & E2 & Hs2 & Hz0 & Hfin & Esent2 & Hcat & Hlen).
      * done.
      * done.
      * intros E0. apply (f_equal length) in E0. rewrite length_drop in E0. simpl in E0. lia.
      * done.
      * done.
      * rewrite length_drop. simpl in Hsum |- *. lia.
      * exists y', s2, (take (Z.to_nat n) p :: parts). split; [done|]. split; [done|]. split; [done|]. split; [done|].
        split; [rewrite Esent2, Esent, <- app_assoc; done|].
        split; [by rewrite concat_cons, Hcat, take_drop|]. simpl in *. lia.
Qed.

(** ** Accepting *)

Lemma free_slot_spec l : forall i,
  i <= free_slot l i <= i + Z.of_nat (length l) /\
  (free_slot l i < i + Z.of_nat (length l) -> exists x, l !! Z.to_nat (free_slot l i - i) = Some x /\ fd x < 0).
Proof.
  induction l as [|x l IH]; intros i; cbn [free_slot length]; [lia|].
  destruct (Z.ltb_spec (fd x) 0) as [Hx|Hx].
  - split; [lia|]. intros _. exists x. by rewrite Z.sub_diag.
  - destruct (IH (i + 1)) as [H1 H2]. split; [lia|]. intros H. destruct H2 as (y & Hy & Hneg); [lia|]. exists y. split; [|done].
    replace (Z.to_nat (free_slot l (i + 1) - i)) with (S (Z.to_nat (free_slot l (i + 1) - (i + 1)))) by lia. done.
Qed.

Lemma free_slot_found l : forall i, Exists (fun x => fd x < 0) l -> free_slot l i < i + Z.of_nat (length l).
Proof.
  induction l as [|x l IH]; intros i Hl; [by apply Exists_nil in Hl|]. cbn [free_slot length].
  destruct (Z.ltb_spec (fd x) 0); [lia|]. apply Exists_cons in Hl as [?|Hl]; [lia|]. specialize (IH (i + 1) Hl). lia.
Qed.


(** ** The poll loop *)

Section Loop.

Context (behind : list Z) (date : cstring) (junk : Z).

Abbreviation run := (poll_process_run behind date junk).

Fixpoint rounds (k : nat) (revs accepts : list Z) : X unit :=
  match k with O => mret tt | S k => _ ← run revs accepts; rounds k revs accepts end.

Lemma polled_twice revs l : polled revs (polled revs l) = polled revs l.
Proof. 
  unfold polled. apply list_eq. intros i. rewrite !list_lookup_imap. destruct (l !! i) as [x|]; [|done].
  cbn [fmap option_fmap option_map fd events]. by destruct (fd x <? 0).
 Qed.

Lemma length_polled revs l : length (polled revs l) = length l.
Proof. apply length_imap. Qed.

Lemma poll_run revs s :
  0 <= poll_curfds s -> (Z.to_nat (poll_curfds s) <= length (poll_fds s))%nat ->
  let l := polled revs (take (Z.to_nat (poll_curfds s)) (poll_fds s)) in
  poll revs s = Done (ready l, set_fds (l ++ drop (Z.to_nat (poll_curfds s)) (poll_fds s)) s).
Proof. intros H0 Hl l. unfold poll. by rewrite (bind_done (gets id) _ s s s), decide_True by done. Qed.

(** One idle connection keeps the others waiting: the loop counts every
    open descriptor against the number of ready ones, so when the first
    connection has nothing to say and a single other one is ready, that one is
    not served, in this round or any later one. *)
Theorem ready_starves k revs accepts x0 x1 rest s :
  poll_fds s = x0 :: x1 :: rest -> 2 <= poll_curfds s <= Z.of_nat (length (poll_fds s)) ->
  0 <= fd x1 -> nth 0 revs 0 = 0 -> nth 1 revs 0 = 0 ->
  ready (polled revs (take (Z.to_nat (poll_curfds s)) (poll_fds s))) = 1 ->
  exists l, rounds k revs accepts s = Done (tt, set_fds l s).
Proof.
  intros Efds Hn Hfd H0 H1 Hr.
  set (n := Z.to_nat (poll_curfds s)) in *. set (l := polled revs (take n (poll_fds s)) ++ drop n (poll_fds s)).
  assert (forall s', poll_curfds s' = poll_curfds s -> length (poll_fds s') = length (poll_fds s) ->
    polled revs (take n (poll_fds s')) = polled revs (take n (poll_fds s)) -> drop n (poll_fds s') = drop n (poll_fds s) ->
    run revs accepts s' = Done (0, set_fds l s')) as Hstep.
  { intros s' Ec El Ep Ed. unfold poll_process_run.
    rewrite (bind_done _ _ _ _ _ (poll_run revs s' ltac:(lia) ltac:(lia))). rewrite Ec. fold n. rewrite Ep, Ed. fold l.
    rewrite Hr. change (1 <? 1) with false. cbv iota.
    destruct n as [|[|m]] eqn:En; [lia|lia|].
    assert (l = Pollfd (fd x0) (events x0) 0 :: Pollfd (fd x1) (events x1) 0 :: drop 2 l) as El'.
    { unfold l. rewrite Efds. cbn [take]. unfold polled. cbn [imap]. unfold compose. rewrite H0, H1.
      by destruct (fd x0 <? 0), (fd x1 <? 0). }
    rewrite (bind_done (slot 0) _ _ (Pollfd (fd x0) (events x0) 0) (set_fds l s'));
      [|apply slot_run; [lia|]; cbn [poll_fds set_fds]; by rewrite El'].
    cbn [revents]. change (is_set 0 POLLIN) with false. cbv iota. rewrite (bind_done (mret _) _ _ (1, false) (set_fds l s')) by done.
    cbn [fst snd]. rewrite (bind_done (gets id) _ _ (set_fds l s') (set_fds l s')) by done.
    cbn [poll_curfds set_fds]. rewrite Ec. fold n. rewrite En. change (S (S m) - 1)%nat with (S m). cbn [seq].
    rewrite (bind_done (events_loop _ _ _ _ _) _ _ tt (set_fds l s')); [done|].
    cbn [events_loop]. change (Z.of_nat 1) with 1.
    rewrite (bind_done (slot 1) _ _ (Pollfd (fd x1) (events x1) 0) (set_fds l s'));
      [|apply slot_run; [lia|]; cbn [poll_fds set_fds]; by rewrite El'].
    cbn [fd revents]. destruct (Z.ltb_spec (fd x1) 0); [lia|]. change (is_set 0 (POLLIN + POLLERR + POLLOUT)) with false. cbv iota.
    by rewrite (bind_done (mret tt) _ _ tt (set_fds l s')). }
  assert (length l = length (poll_fds s)) as Hll.
  { unfold l. rewrite length_app, length_polled, length_take, length_drop. lia. }
  assert (forall k s', poll_curfds s' = poll_curfds s -> length (poll_fds s') = length (poll_fds s) ->
    polled revs (take n (poll_fds s')) = polled revs (take n (poll_fds s)) -> drop n (poll_fds s') = drop n (poll_fds s) ->
    exists l', rounds k revs accepts s' = Done (tt, set_fds l' s')) as Hall.
  { clear k. induction k as [|k IH]; intros s' Ec El Ep Ed; [exists (poll_fds s'); by destruct s'|].
    cbn [rounds]. rewrite (bind_done _ _ _ _ _ (Hstep s' Ec El Ep Ed)).
    assert (length (polled revs (take n (poll_fds s))) = n) as Hlp by (rewrite length_polled, length_take; lia).
    destruct (IH (set_fds l s')) as [l' E]; cbn [poll_curfds poll_fds set_fds]; [done|done| | |].
    - unfold l. by rewrite take_app_length', polled_twice.
    - unfold l. by rewrite drop_app_length'.
    - exists l'. by rewrite E. }
  by apply Hall.
Qed.

Lemma free_slot_full l : forall i, Forall (fun x => 0 <= fd x) l -> free_slot l i = i + Z.of_nat (length l).
Proof.
  induction l as [|x l IH]; intros i Hl; simpl; [lia|]. inversion_clear Hl as [|? ? Hx Hl'].
  destruct (Z.ltb_spec (fd x) 0); [lia|]. rewrite IH by done. lia.
Qed.

(** The connection that does not fit into a full table is closed, but
    [poll_add] counts it: the next call of [poll] looks behind the table. *)
Theorem full_table_overruns f a al revs x0 fds s :
  poll_fds s = x0 :: fds -> poll_max_size s = Z.of_nat (length (poll_fds s)) -> poll_curfds s = poll_max_size s ->
  0 <= fd x0 -> Forall (fun x => 0 <= fd x) fds -> is_set (nth 0 revs 0) POLLIN = true ->
  ready (polled revs (poll_fds s)) = 1 -> mallocs (inp s) = a :: al -> a <> NULL ->
  exists s', run revs [f] s = Done (0, s') /\ closed s' = closed s ++ [f] /\
    forall revs' accepts', run revs' accepts' s' = Fault OutOfBounds.
Proof.
  intros Efds Emax Ecur H0 Hfull Hin Hr Em Ha.
  set (l := polled revs (poll_fds s)) in *.
  assert (poll revs s = Done (1, set_fds l s)) as Ep.
  { rewrite poll_run by lia. rewrite Ecur, Emax, Nat2Z.id, firstn_all, drop_all, app_nil_r. fold l. by rewrite Hr. }
  unfold poll_process_run at 1. rewrite (bind_done _ _ _ _ _ Ep). change (1 <? 1) with false. cbv iota.
  assert (length l = length (poll_fds s)) as Ll by apply length_polled.
  destruct l as [|y0 l'] eqn:El; [by rewrite Efds in Ll|].
  assert (Forall (fun x => 0 <= fd x) l' /\ revents y0 = nth 0 revs 0) as [Hfull' Ey].
  { unfold l, polled in El. rewrite Efds in El. cbn [imap] in El. injection El as <- <-. split.
    - apply Forall_forall. intros x Hx. apply list_elem_of_lookup in Hx as [i Hi]. rewrite list_lookup_imap in Hi.
      destruct (fds !! i) as [z|] eqn:Ez; [|done]. injection Hi as <-. cbn [fd]. by eapply Forall_lookup_1 in Hfull.
    - cbn [revents]. by destruct (Z.ltb_spec (fd x0) 0); [lia|]. }
  rewrite (bind_done (slot 0) _ _ y0 (set_fds (y0 :: l') s)) by (by apply slot_run). rewrite Ey, Hin.
  set (i1 := Input al (reallocs (inp s)) (fcntls (inp s)) (recvs (inp s)) (sends (inp s)) (luas (inp s))).
  set (s1 := set_inp i1 (set_fds (y0 :: l') s)). set (s2 := set_curfds (poll_curfds s + 1) s1).
  set (s3 := set_sid (s32 (next_sid s + 1)) s2).
  set (s4 := set_sessions (Reg (<[a := new_session f (-1) (next_sid s)]> (objs (sessions s))) (tbl (sessions s))) s3).
  assert (poll_add f s1 = Done (-1, s2)) as Eadd.
  { unfold poll_add. rewrite (bind_done (gets id) _ _ s1 s1) by done. cbn [poll_fds poll_max_size poll_curfds s1 set_inp set_fds].
    rewrite Emax, Nat2Z.id, <- Ll, firstn_all. change (drop 1 (y0 :: l')) with l'. rewrite free_slot_full by done.
    cbn [length] in Ll |- *. destruct (Z.ltb_spec (1 + Z.of_nat (length l')) (Z.of_nat (S (length l')))); [lia|].
    rewrite (bind_done (mret _) _ _ (-1) s1) by done.
    destruct (Z.eqb_spec (1 + Z.of_nat (length l')) (poll_curfds s)); [|lia]. done. }
  assert (ses_create_new_session f (set_fds (y0 :: l') s) = Done (-1, s4)) as Ec.
  { unfold ses_create_new_session.
    rewrite (bind_done wys_malloc _ _ a s1) by (unfold wys_malloc; cbn [inp set_fds]; by rewrite Em).
    destruct (Z.eqb_spec a NULL); [done|]. rewrite (bind_done _ _ _ _ _ Eadd).
    rewrite (bind_done ses_create_new_sid _ _ (next_sid s) s3) by done.
    by rewrite (bind_done (put_session _ _) _ _ tt s4). }
  exists (add_closed f s4). split; [|split; [done|]].
  - unfold accept_all. rewrite (bind_done (_ ≫= _) _ _ (0, true) (add_closed f s4)); [done|].
    rewrite (bind_done (_ ≫= _) _ _ tt (add_closed f s4)); [done|]. by rewrite (bind_done _ _ _ _ _ Ec).
  - intros revs' accepts'. unfold poll_process_run, poll.
    assert (~ (Z.to_nat (poll_curfds (add_closed f s4)) <= length (poll_fds (add_closed f s4)))%nat) as Hno.
    { cbn [poll_curfds poll_fds add_closed s4 set_sessions s3 set_sid s2 set_curfds s1 set_inp set_fds]. lia. }
    unfold mbind at 1, X_bind at 1. rewrite (bind_done (gets id) _ _ (add_closed f s4) (add_closed f s4)) by done.
    by rewrite decide_False.
Qed.

Definition set_recvs (l : list (option (list Z))) (rs : list bool) (s : server) : server :=
  set_inp (Input (mallocs (inp s)) rs (fcntls (inp s)) l (sends (inp s)) (luas (inp s))) s.

(** The read of exactly the size of the buffer is kept, but the next one
    decides. *)
Lemma recv_full f a y bs rs bl s :
  serves f a y s -> rcv_len y = 0 -> rcv_buflen y = 0 -> rcv_buf y = None -> length bs = RCV ->
  recvs (inp s) = Some bs :: None :: rs -> reallocs (inp s) = true :: bl ->
  exists z s', ses_recv behind date junk f s = Done (-1, s') /\ serves f a z s' /\ sent s' = sent s /\
    closed s' = closed s /\ poll_fds s' = poll_fds s.
Proof.
  intros Hs Elen Ebuf Eb Hbs Er Ea. pose proof Hs as (Hf & Eobj & Efid & Hp & Hslot).
  set (b0 := replicate RCV 0). set (y1 := set_rcv y (Some b0) (Z.of_nat RCV) 0).
  destruct (store_fits 0 bs b0) as [b1 Eb1]; [unfold b0; rewrite length_replicate; lia|].
  set (y2 := set_rcv y1 (Some b1) (Z.of_nat RCV) (Z.of_nat RCV)).
  set (put := fun z s => set_sessions (Reg (<[a := z]> (objs (sessions s))) (tbl (sessions s))) s).
  set (s1 := set_recvs (None :: rs) (reallocs (inp s)) s). set (s2 := put y1 (set_recvs (None :: rs) bl s)).
  set (s3 := put y2 s2). set (s4 := set_recvs rs bl s3).
  assert (serves f a y1 s2) as Hs2 by by apply (serves_put f a y y1 s).
  assert (serves f a y2 s4) as Hs4 by by apply (serves_put f a y1 y2 s2).
  exists y2, s4. split; [|by split]. unfold ses_recv. rewrite (bind_done _ _ _ _ _ Hf).
  rewrite (bind_done (gets inp) _ _ (inp s) s) by done. rewrite Er. cbn [length recv_loop].
  rewrite (bind_done recv _ _ (Some bs) s1)
    by (unfold recv; rewrite Er; cbn [fmap option_fmap option_map]; by rewrite take_ge by (by rewrite Hbs)).
  destruct bs as [|c bs'] eqn:Ebs; [by unfold RCV in Hbs|]. rewrite <- Ebs in *. clear c bs' Ebs.
  rewrite (bind_done (get_session a) _ _ y s1) by by apply get_session_run.
  rewrite Hbs, Elen, Ebuf. change (0 <? 0 + Z.of_nat RCV) with true. cbv iota.
  rewrite (bind_done (_ ≫= _) _ _ true s2).
  2:{ rewrite Eb. unfold wys_realloc, mbind at 1, X_bind at 1.
      rewrite (bind_done realloc_ok _ _ true (set_recvs (None :: rs) bl s)) by (unfold realloc_ok; cbn [inp s1 set_recvs set_inp reallocs]; by rewrite Ea).
      reflexivity. }
  cbn [negb]. rewrite (bind_done (get_session a) _ _ y1 s2) by (apply get_session_run; apply Hs2).
  change (rcv_buf y1) with (Some b0). change (rcv_len y1) with 0. change (rcv_buflen y1) with (Z.of_nat RCV).
  cbn [get_or]. rewrite xbind_lift. change (Z.to_nat 0) with 0%nat. rewrite Eb1, xbind_lift.
  rewrite (bind_done (put_session a _) _ _ tt s3) by done. rewrite decide_True by done.
  by rewrite (bind_done recv _ _ None s4).
Qed.

(** A request of exactly the size of the buffer is never answered: the code
    asks for more, [recv] has nothing yet, and the connection is closed. *)
Theorem full_read_drops i x a y bs rs bl s :
  0 <= i -> poll_fds s !! Z.to_nat i = Some x -> revents x = POLLIN -> serves (fd x) a y s ->
  rcv_len y = 0 -> rcv_buflen y = 0 -> rcv_buf y = None -> length bs = RCV ->
  recvs (inp s) = Some bs :: None :: rs -> reallocs (inp s) = true :: bl ->
  exists s', poll_events_handler behind date junk i s = Done (0, s') /\ closed s' = closed s ++ [fd x] /\
    sent s' = sent s /\ objs (sessions s') !! a = None.
Proof.
  intros Hi Ex Erev Hs Elen Ebuf Eb Hbs Er Ea.
  destruct (recv_full (fd x) a y bs rs bl s) as (z & s1 & E & Hs1 & Esent & Ecl & Efds); [done..|].
  pose proof (slot_run i x s Hi Ex) as E0. rewrite <- Efds in Ex. pose proof (slot_run i x) as Eslot.
  unfold poll_events_handler. rewrite (bind_done _ _ _ _ _ E0), Erev.
  change (is_set POLLIN POLLERR) with false. change (is_set POLLIN POLLOUT) with false. cbv iota.
  assert (exists s', ses_release_session (fd x) i s1 = Done (0, s') /\ closed s' = closed s1 ++ [fd x] /\
            sent s' = sent s1 /\ objs (sessions s') !! a = None) as (s2 & E2 & Ecl2 & Esent2 & Eobj2).
  { destruct Hs1 as (Hf & _). unfold ses_release_session. rewrite (bind_done _ _ _ _ _ Hf). cbn [get_or]. rewrite xbind_lift.
    set (t := hlist_del_init SID a (hlist_del_init FID a (tbl (sessions s1)))).
    set (s2 := set_sessions (Reg (delete a (objs (sessions s1))) t) s1).
    set (s3 := set_fds (<[Z.to_nat i := Pollfd (-1) POLLIN (revents x)]> (poll_fds s2)) (add_closed (fd x) s2)).
    exists s3. rewrite (bind_done (modify _) _ _ tt s2) by done. split.
    - rewrite (bind_done (poll_del i) _ _ tt s3); [done|]. unfold poll_del. by rewrite (bind_done _ _ _ _ _ (Eslot s2 Hi Ex)).
    - split; [done|]. split; [done|]. cbn [s3 s2 sessions set_fds add_closed set_sessions objs]. apply lookup_delete_eq. }
  exists s2. rewrite Ecl2, Esent2, Ecl, Esent. split; [|done].
  rewrite (bind_done (_ ≫= _) _ _ true s1); [rewrite (bind_done (_ ≫= _) _ _ tt s2); [done|by rewrite (bind_done _ _ _ _ _ E2)]|].
  rewrite (bind_done (mret false) _ _ false s) by done. rewrite (bind_done _ _ _ _ _ E0), Erev.
  change (is_set POLLIN POLLIN) with true. cbv iota. by rewrite (bind_done _ _ _ _ _ E).
Qed.

(** A client that sends its next request before the answer is out brings the
    server down: the buffer is made as large as the new answer alone, which
    the allocator refuses when it is smaller, and the new answer is then
    copied behind what is still to be sent. *)
Theorem second_answer_faults a x b data k ls bl s :
  objs (sessions s) !! a = Some x -> snd_buf x = Some b -> 0 < snd_len x <= Z.of_nat (length b) ->
  0 < Z.of_nat (length data) < 2 ^ 32 ->
  luas (inp s) = Returned (Some data) (Z.of_nat (length data)) k :: ls -> reallocs (inp s) = true :: bl ->
  lua_access junk a s = Fault (if Z.of_nat (length data) <? Z.of_nat (length b) then AssertFailed else OutOfBounds).
Proof.
  intros Ex Eb Hlen Hsmall El Ea. set (n := Z.of_nat (length data)) in *.
  unfold lua_access. rewrite (bind_done _ _ _ _ _ (get_session_run a x s Ex)).
  set (s1 := set_inp (Input (mallocs (inp s)) (reallocs (inp s)) (fcntls (inp s)) (recvs (inp s)) (sends (inp s)) ls) s).
  rewrite (bind_done lua _ _ (Returned (Some data) n k) s1) by (unfold lua; by rewrite El). cbv zeta.
  set (z := if k =? 0 then _ else _).
  assert (snd_buf z = Some b) as -> by (unfold z; by destruct (k =? 0)).
  assert (snd_len z = snd_len x) as -> by (unfold z; by destruct (k =? 0)).
  assert (forall b' s', length b' = length data ->
    (bs ← lift (returned (Some data) n); b ← lift (Bytes.store (Z.to_nat (snd_len x)) bs b');
     _ ← put_session a (set_snd z (Some b) (snd_len x + n)); mret 0) s' = Fault OutOfBounds) as Hcopy.
  { intros b' s' Hb'. unfold returned. destruct (Z.ltb_spec n 0); [lia|]. fold n. destruct (Z.ltb_spec (n + 1) n); [lia|]. cbn [orb].
    rewrite xbind_lift, take_app_le, take_ge by lia. unfold Bytes.store. by rewrite decide_False by lia. }
  unfold wys_realloc. unfold u32, wrapu. rewrite Z.mod_small by lia.
  destruct (Z.eqb_spec n 0); [lia|]. destruct (Z.ltb_spec n (Z.of_nat (length b))); [done|].
  destruct (Z.eqb_spec n (Z.of_nat (length b))).
  - rewrite (bind_done (mret _) _ _ (Some b) s1) by done. apply Hcopy. lia.
  - set (s2 := set_inp (Input (mallocs (inp s)) bl (fcntls (inp s)) (recvs (inp s)) (sends (inp s)) ls) s).
    rewrite (bind_done (_ ≫= _) _ _ (Some (b ++ replicate (Z.to_nat (n - Z.of_nat (length b))) junk)) s2).
    + apply Hcopy. rewrite length_app, length_replicate. lia.
    + by rewrite (bind_done realloc_ok _ _ true s2) by (unfold realloc_ok; cbn [inp s1 set_inp reallocs]; by rewrite Ea).
Qed.

End Loop.

(** ** Examples *)

(** Two descriptors, the listening one and connection 7, which has an answer of
    five bytes; the kernel takes two and then four of them. *)
Definition ex_session : session := set_snd (new_session 7 1 0) (Some [72; 73; 74; 75; 76]) 5.

Definition ex_talking : server :=
  Server [Pollfd 3 POLLIN 0; Pollfd 7 (POLLIN + POLLOUT) POLLOUT] 2 2
    (Reg {[100 := ex_session]} (add_head (SID, (0, 0)) 100 (add_head (FID, (0, 7)) 100 ∅))) 1 [] []
    (Input [] [] [] [] [2; 4] []).

Lemma answer_delivered_witness :
  exists y s' parts, send_rounds 2 7 ex_talking = Done (tt, s') /\ serves 7 100 y s' /\ snd_len y = 0 /\
    has_state y SESSION_STAT_SEND_FINISH = true /\ sent s' = pair 7 <$> parts /\
    concat parts = [72; 73; 74; 75; 76] /\ length parts = 2%nat.
Proof.
  refine (answer_delivered 7 100 ex_session [72; 73; 74; 75; 76] [2; 4] [] ex_talking _ _ _ _ _ _).
  - split; [vm_compute; reflexivity|]. split; [reflexivity|]. split; [reflexivity|]. split; [discriminate|].
    exists (Pollfd 7 (POLLIN + POLLOUT) POLLOUT). reflexivity.
  - exists [72; 73; 74; 75; 76]. repeat split; simpl; lia.
  - discriminate.
  - reflexivity.
  - repeat constructor; lia.
  - vm_compute. split; [reflexivity|discriminate].
Defined.

(** An empty table of three slots. *)
Definition ex_waiting : server :=
  Server [Pollfd 3 POLLIN POLLIN; Pollfd (-1) POLLIN 0; Pollfd (-1) POLLIN 0] 3 1
    (Reg ∅ ∅) 0 [] [] (Input [100] [] [] [] [] []).

