(* ===== verification/Startup.v ===== *)
(** * Startup: from [main] to the loop

    The start of the server ([src/TCP_C/main.c]) and of the older server
    ([src/TCP_SERVER/src/x-core.c], [x-http.c]).  [Module Sockets] opens the
    sockets, [Module Signals] sets what signals do, [Module Conf] reads the
    configuration, [Module Main] puts the parts together and runs the loop,
    [Module XCore] does so for the older server.

    What the kernel answers is an argument, and what it is asked is a list of
    [syscall]s.  Messages and [srand] are left out. *)

From Stdlib Require Import Ascii String.
From S2P Require Import Prelude CString Bytes Registry Mem Timer Rules Users Cache CJson Allocator Db Store Save SaveDay Server XServer.
Local Open Scope list_scope.
Local Open Scope Z_scope.

(** ** Sockets *)

Module Sockets.

Definition SOCK_STREAM : Z := 1.
Definition SOCK_DGRAM : Z := 2.
Definition SO_REUSEADDR : Z := 2.
Definition SO_LINGER : Z := 13.
Definition O_NONBLOCK : Z := 2048.
Definition AN_LISTEN_MAX : Z := 1024.
Definition AN_UDP_BUF_LEN : Z := 1024.
Definition an_udp_port : Z := 7777.
Definition an_tcp_port : Z := 7676.

Inductive syscall :=
| Socket (type : Z)
| SetFlags (fd flags : Z)
| SetOption (fd option : Z)
| Bind (fd ip port : Z)
| Listen (fd backlog : Z)
| SendTo (fd : Z) (bytes : list Z)
| Close (fd : Z)
| Shutdown (fd : Z).

(** [a_bind k] says whether the call of [bind] succeeds after [k] failures. *)
Record answers := Answers {
  a_socket : Z; a_getfl : Z; a_setfl : bool; a_setopt : bool; a_bind : nat -> bool; a_listen : bool
}.

Definition an_sock_noblock (e : answers) (fd : Z) : Z * list syscall :=
  (if a_setfl e then 0 else -1, [SetFlags fd (Z.lor (a_getfl e) O_NONBLOCK)]).

(** [n] more calls, [k] have failed. *)
Fixpoint bind_again (e : answers) (fd ip port : Z) (n k : nat) : bool * list syscall :=
  match n with
  | O => (false, [])
  | S n =>
    if a_bind e k then (true, [Bind fd ip port])
    else let '(ok, t) := bind_again e fd ip port n (S k) in (ok, Bind fd ip port :: t)
  end.

Definition bind_retry (e : answers) (fd ip port : Z) : bool * list syscall :=
  if a_bind e 0 then (true, [Bind fd ip port])
  else let '(ok, t) := bind_again e fd ip port 10 1 in (ok, Bind fd ip port :: t).

(** The result, [an_tcp_fd] and the calls; the descriptor stays open when a
    later step fails. *)
Definition an_tcp_sock_init (e : answers) : Z * Z * list syscall :=
  let fd := a_socket e in
  let t := [Socket SOCK_STREAM] in
  if fd =? -1 then (-1, fd, t)
  else
    let '(r, u) := an_sock_noblock e fd in
    let t := t ++ u in
    if negb (r =? 0) then (-1, fd, t)
    else
      let t := t ++ [SetOption fd SO_REUSEADDR] in
      let '(ok, u) := bind_retry e fd 0 an_tcp_port in
      let t := t ++ u in
      if negb ok then (-1, fd, t)
      else (if a_listen e then 0 else -1, fd, t ++ [Listen fd AN_LISTEN_MAX]).

Definition an_udp_sock_init (e : answers) : Z * Z * list syscall :=
  let fd := a_socket e in
  let t := [Socket SOCK_DGRAM] in
  if fd =? -1 then (-1, fd, t)
  else
    let '(r, u) := an_sock_noblock e fd in
    let t := t ++ u in
    if negb (r =? 0) then (-1, fd, t)
    else
      let t := t ++ [SetOption fd SO_REUSEADDR; SetOption fd SO_LINGER] in
      let '(ok, u) := bind_retry e fd 0 an_udp_port in
      (if ok then 0 else -1, fd, t ++ u).

(** [data] is what [recvfrom] stores, [None] for an error; what was received
    goes nowhere. *)
Definition an_udp_recv (sizeof_info : Z) (a i : addr) (data : option (list Z)) (m : Mem.mem) : outcome Mem.mem :=
  r ← Mem._malloc sizeof_info AN_UDP_BUF_LEN (str "an_udp_recv") 301 a i m;
  let '(udp_buf, m) := (r : addr * Mem.mem) in
  if udp_buf =? NULL then Done m
  else
    let recv_len := match data with
                    | Some d => Z.of_nat (length (take (Z.to_nat AN_UDP_BUF_LEN) d))
                    | None => -1 end in
    if recv_len <=? 0 then Mem._free udp_buf 323 m else Done m.

(** [fd] and [sent] are what [socket] and [sendto] return. *)
Definition an_udp_send (buf : option (list Z)) (buf_len fd sent : Z) : outcome (Z * list syscall) :=
  match buf with
  | None => Done (-1, [])
  | Some b =>
    if buf_len <? 1 then Done (-1, [])
    else if fd <? 0 then Done (-1, [Socket SOCK_DGRAM])
    else if Z.of_nat (length b) <? buf_len then Fault OutOfBounds
    else
      Done (if sent =? buf_len then sent else -1,
            [Socket SOCK_DGRAM; SetOption fd SO_REUSEADDR; SendTo fd (take (Z.to_nat buf_len) b)] ++
            (if 0 <? fd then [Close fd; Shutdown fd] else []))
  end.

End Sockets.

(** ** Signals *)

Module Signals.

Definition SIGINT : Z := 2.
Definition SIGBUS : Z := 7.
Definition SIGKILL : Z := 9.
Definition SIGSEGV : Z := 11.
Definition SIGPIPE : Z := 13.
Definition SIGTERM : Z := 15.
Definition SIGCHLD : Z := 17.

Inductive action := Default | Ignore | Handle.

(** A signal whose action was never set has the default one. *)
Abbreviation actions := (gmap Z action).

Definition action_of (s : Z) (t : actions) : action := default Default (t !! s).

(** The action of [SIGKILL] cannot be changed. *)
Definition signal (s : Z) (a : action) (t : actions) : actions :=
  if s =? SIGKILL then t else <[s := a]> t.

(** [sa] is what the variable of that name holds, which no statement sets. *)
Definition an_signals_init (sa : action) (t : actions) : actions :=
  let t := signal SIGPIPE sa t in
  let t := signal SIGCHLD Ignore t in
  let t := signal SIGTERM Handle t in
  let t := signal SIGINT Handle t in
  let t := signal SIGSEGV Handle t in
  signal SIGBUS Handle t.

(** What is printed, and the status the process ends with. *)
Definition an_sigfunc (signo : Z) : cstring * Z :=
  (if signo =? SIGTERM then str "SIGTERM"
   else if signo =? SIGINT then str "SIGINT"
   else if signo =? SIGSEGV then str "SIGSEGV"
   else if signo =? SIGBUS then str "SIGBUS"
   else str "UNKNOW", 0).

Definition core_signals_init (t : actions) : actions :=
  let t := signal SIGPIPE Ignore t in
  let t := signal SIGINT Handle t in
  let t := signal SIGKILL Handle t in
  let t := signal SIGTERM Handle t in
  let t := signal SIGSEGV Handle t in
  let t := signal SIGCHLD Handle t in
  signal SIGBUS Handle t.

(** The handler prints the table of blocks on [SIGINT] and ends the process. *)
Definition core_sig_handler (signal : Z) (m : Mem.mem) : outcome (option (Z * list Mem.mem_info) * Z) :=
  if signal =? 2 then r ← Mem.wys_show_mem_info m; Done (Some r, 0) else Done (None, 0).

End Signals.

(** ** The configuration *)

Module Conf.

(** [strstr] and [strchr] on the bytes from a pointer to the end of its block,
    as offsets from it.  They stop at the first match or at a NUL; running out
    of the block is a fault. *)
Fixpoint starts_with (sub : cstring) (l : list Z) : outcome bool :=
  match sub, l with
  | [], _ => Done true
  | _, [] => Fault OutOfBounds
  | c :: sub, d :: l => if c =? d then starts_with sub l else Done false
  end.

Fixpoint strstr (sub : cstring) (l : list Z) : outcome (option nat) :=
  match l with
  | [] => Fault OutOfBounds
  | c :: l' =>
    b ← starts_with sub l;
    if (b : bool) then Done (Some 0%nat)
    else if c =? 0 then Done None
    else r ← strstr sub l'; Done (option_map S r)
  end.

Fixpoint strchr (x : Z) (l : list Z) : outcome (option nat) :=
  match l with
  | [] => Fault OutOfBounds
  | c :: l' =>
    if c =? x then Done (Some 0%nat)
    else if c =? 0 then Done None
    else r ← strchr x l'; Done (option_map S r)
  end.

(** [strncpy (dst, src, n)] into a zeroed array of [size] bytes, for an [n]
    bytes that lie before the end of the block; the string it then holds is
    read up to its terminator. *)
Definition strncpy (size n : nat) (src : list Z) : outcome (list Z) :=
  if decide (n <= size)%nat then
    let s := c_string (take n src) in Done (s ++ replicate (size - length s) 0)
  else Fault OutOfBounds.

Definition read_string (b : list Z) : outcome cstring :=
  if bool_decide (0 ∈ b) then Done (c_string b) else Fault OutOfBounds.

(** A line [key...:value\n] from the block [b] on: the value and what begins
    at the line feed. *)
Definition find_value (key : cstring) (b : list Z) : outcome (option (nat * list Z * list Z)) :=
  r ← strstr key b;
  match r with
  | None => Done None
  | Some i =>
    let tmp := drop i b in
    r ← strchr 58 tmp;
    match r with
    | None => Done None
    | Some j =>
      let tmp := drop (S j) tmp in
      r ← strchr 10 tmp;
      match r with
      | None => Done None
      | Some n => Done (Some (n, tmp, drop n tmp))
      end
    end
  end.

Definition SECTION : cstring := str "[ssdb-conf]" ++ [10].

(** The address and the port the block names, [None] for an error. *)
Definition read_conf (b : list Z) : outcome (option (cstring * cstring)) :=
  r ← strstr SECTION b;
  match r with
  | None => Done None
  | Some _ =>
    r ← find_value (str "ssdb_ipaddr") (drop 12 b);
    match r with
    | None => Done None
    | Some (n, tmp, tmp_end) =>
      ip ← strncpy 32 n tmp;
      r ← find_value (str "ssdb_port") tmp_end;
      match r with
      | None => Done None
      | Some (n, tmp, _) =>
        port ← strncpy 8 n tmp;
        ip ← read_string ip;
        port ← read_string port;
        Done (Some (ip, port))
      end
    end
  end.

(** The file: whether it opens, its length and its bytes. *)
Record file := File { f_open : bool; f_len : Z; f_bytes : list Z }.

(** What [fread] leaves in the zeroed block. *)
Definition fread (f : file) (n : nat) : list Z := resize n 0 (take n (f_bytes f)).

End Conf.

(** ** The program *)

Module Main.
Import Sockets Signals Conf.

(** The connections live in [server]; the field [w_socks] of the tables is
    only used by [an_hash_and_list_init].  [dbaddr] is what [dbinit] was given
    to connect to. *)
Record program := Program {
  actions : Signals.actions; mem : Mem.mem; world : World.world; server : Server.server;
  clock : Timer.clock; wheel : Timer.tvec_base;
  pool : Db.pool; dbaddr : option (cstring * Z);
  calls : list syscall; an_stop : bool
}.

Definition set_actions (t : Signals.actions) (p : program) : program :=
  Program t (mem p) (world p) (server p) (clock p) (wheel p) (pool p) (dbaddr p) (calls p) (an_stop p).
Definition set_mem (m : Mem.mem) (p : program) : program :=
  Program (actions p) m (world p) (server p) (clock p) (wheel p) (pool p) (dbaddr p) (calls p) (an_stop p).
Definition set_world (w : World.world) (p : program) : program :=
  Program (actions p) (mem p) w (server p) (clock p) (wheel p) (pool p) (dbaddr p) (calls p) (an_stop p).
Definition set_server (s : Server.server) (p : program) : program :=
  Program (actions p) (mem p) (world p) s (clock p) (wheel p) (pool p) (dbaddr p) (calls p) (an_stop p).
Definition set_timers (c : Timer.clock) (b : Timer.tvec_base) (p : program) : program :=
  Program (actions p) (mem p) (world p) (server p) c b (pool p) (dbaddr p) (calls p) (an_stop p).
Definition set_db (d : Db.pool) (a : option (cstring * Z)) (p : program) : program :=
  Program (actions p) (mem p) (world p) (server p) (clock p) (wheel p) d a (calls p) (an_stop p).
Definition add_calls (t : list syscall) (p : program) : program :=
  Program (actions p) (mem p) (world p) (server p) (clock p) (wheel p) (pool p) (dbaddr p) (calls p ++ t) (an_stop p).
Definition set_stop (v : bool) (p : program) : program :=
  Program (actions p) (mem p) (world p) (server p) (clock p) (wheel p) (pool p) (dbaddr p) (calls p) v.

Definition set_tcp_fd (f : Z) (s : Server.server) : Server.server :=
  Server.MkServer (Server.an_conn_array s) (Server.an_curfds s) f (Server.table s)
    (Server.closed s) (Server.wire s) (Server.requests s).

Definition set_socks (t : Sock.socks) (w : World.world) : World.world :=
  World.MkWorld (World.w_forbid w) (World.w_groups w) (World.w_encrypt w) t (World.w_caches w)
    (World.w_users w) (World.w_details w) (World.w_qqs w) (World.w_work w).

Section Run.

(** The width of [unsigned long], the size of a record of the allocator and
    of [struct an_auto_data_save_st]. *)
Context (W sizeof_info sizeof_save : Z).

(** What the timer functions do to the wheel, and the start of the worker. *)
Context (callback : Z -> Z -> list Timer.call) (wk_init : program -> outcome (Z * program)).

(** Seconds and microseconds, as [gettimeofday] stores them. *)
Abbreviation time := (Z * Z)%type.

Record startup := StartupEnv {
  s_sigaction : action; s_sockets : answers; s_time : time; s_time_wheel : time; s_time_save : time;
  s_save : addr * addr; s_file : file; s_buf : addr * addr; s_time_db : Z
}.

Definition init_tables (p : program) : program :=
  let w := World.an_hash_and_list_init (set_socks (Server.table (server p)) (world p)) in
  set_server (Server.set_table (World.w_socks w) (server p)) (set_world w p).

Definition init_tcp (e : answers) (p : program) : Z * program :=
  let '(r, fd, t) := an_tcp_sock_init e in
  (r, add_calls t (set_server (set_tcp_fd fd (server p)) p)).

Definition an_timer_init (t t' : time) (p : program) : program :=
  let c := Timer.jiffies_init W t.1 (clock p) in
  let '(j, c) := Timer.jiffies_get W t'.1 t'.2 c in
  set_timers c (Timer.init_timers_cpu j (wheel p)) p.

(** [an_data_save_init] with its block and its reading of the clock. *)
Definition init_save (ai : addr * addr) (t : time) (p : program) : outcome (Z * program) :=
  r ← Mem._malloc sizeof_info sizeof_save (str "an_data_save_init") 2303 ai.1 ai.2 (mem p);
  let '(a, m) := (r : addr * Mem.mem) in
  let '(j, c) := Timer.jiffies_get W t.1 t.2 (clock p) in
  b ← SaveDay.an_data_save_init W a j (wheel p);
  Done (if a =? NULL then -1 else 0, set_timers c b (set_mem m p)).

(** From label [ERR] on; [wys_free] takes the null pointer as well. *)
Definition leave (ret : Z) (buf : addr) (p : program) : outcome (Z * program) :=
  m ← Mem._free buf 980 (mem p); Done (ret, set_mem m p).

Definition an_database_init (f : file) (ai : addr * addr) (now : Z) (p : program) : outcome (Z * program) :=
  if negb (f_open f) then leave (-1) NULL p
  else
    let tmp_len := s32 (f_len f) in
    if tmp_len <=? 0 then leave (-1) NULL p
    else
      r ← Mem._malloc sizeof_info tmp_len (str "an_database_init") 939 ai.1 ai.2 (mem p);
      let '(buf, m) := (r : addr * Mem.mem) in
      let p := set_mem m p in
      if buf =? NULL then leave (-1) NULL p
      else
        r ← read_conf (fread f (Z.to_nat tmp_len));
        match r with
        | None => leave (-1) buf p
        | Some (ip, port) =>
          n ← Allocator.atoi (Some port);
          leave 0 buf (set_db (Db.dbinit W now (pool p)) (Some (ip, u16 n)) p)
        end.

Definition an_mem_init (p : program) : program := set_mem (Mem.wys_mem_init (mem p)) p.

Definition an_init (e : startup) (p : program) : outcome (Z * program) :=
  let p := set_actions (an_signals_init (s_sigaction e) (actions p)) p in
  let p := init_tables (an_mem_init p) in
  let '(r, p) := init_tcp (s_sockets e) p in
  if negb (r =? 0) then Done (-1, p)
  else
    let p := set_server (Server.an_poll_init (server p)) p in
    let p := an_timer_init (s_time e) (s_time_wheel e) p in
    r ← init_save (s_save e) (s_time_save e) p;
    let '(r, p) := (r : Z * program) in
    if negb (r =? 0) then Done (-1, p)
    else
      r ← an_database_init (s_file e) (s_buf e) (s_time_db e) p;
      let '(r, p) := (r : Z * program) in
      if negb (r =? 0) then Done (-1, p)
      else
        r ← wk_init p;
        let '(r, p) := (r : Z * program) in
        Done (if r =? 0 then 0 else -1, p).

(** *** The loop *)

(** [run_timers] with the clock read before every round; [None] if the
    readings are used up before it ends. *)
Fixpoint run_timers (ts : list time) (c : Timer.clock) (b : Timer.tvec_base) :
    option (Timer.clock * Timer.tvec_base * list Timer.fired) :=
  match ts with
  | [] => None
  | t :: ts =>
    let '(j, c) := Timer.jiffies_get W t.1 t.2 c in
    if Timer.time_after_eq W j (Timer.timer_jiffies b) then
      let '(b, fs) := Timer.run_tick W callback b in
      match run_timers ts c b with
      | Some (c, b, gs) => Some (c, b, fs ++ gs)
      | None => None
      end
    else Some (c, b, [])
  end.

Inductive ending := Running (p : program) | Exited (p : program) | Hung.

(** The body of the loop. *)
Definition main_step (e : Server.env) (ts : list time) (p : program) : outcome ending :=
  r ← Server.an_poll e (server p);
  match r with
  | Server.Hangs => Done Hung
  | Server.Exits s => Done (Exited (set_server s p))
  | Server.Returns r s =>
    let p := set_server s p in
    let p := if negb (r =? 0) then set_stop true p else p in
    match run_timers ts (clock p) (wheel p) with
    | None => Done Hung
    | Some (c, b, _) => Done (Running (set_timers c b p))
    end
  end.

(** [while (!an_stop)], for as many rounds as there are answers. *)
Fixpoint main_loop (es : list (Server.env * list time)) (p : program) : outcome ending :=
  if an_stop p then Done (Exited p)
  else
    match es with
    | [] => Done (Running p)
    | (e, ts) :: es =>
      r ← main_step e ts p;
      match r with Running p => main_loop es p | r => Done r end
    end.

Definition main (s : startup) (es : list (Server.env * list time)) (p : program) : outcome ending :=
  r ← an_init s p;
  let '(r, p) := (r : Z * program) in
  if negb (r =? 0) then Done (Exited p) else main_loop es p.

End Run.

End Main.

(** ** The older server *)

Module XCore.
Import Sockets XServer.
#[local] Existing Instances X_ret X_bind.

(** [http_server_init]: the result, [http_svr_fd] and the calls. *)
Definition http_server_init (e : answers) (ip port listen_max : Z) : Z * Z * list syscall :=
  let fd := a_socket e in
  let t := [Socket SOCK_STREAM] in
  if fd =? -1 then (-1, fd, t)
  else
    let t := t ++ [SetFlags fd (Z.lor (a_getfl e) O_NONBLOCK)] in
    if negb (a_setfl e) then (-1, fd, t)
    else
      let t := t ++ [SetOption fd SO_REUSEADDR] in
      if negb (a_setopt e) then (-1, fd, t)
      else
        let '(ok, u) := bind_retry e fd ip port in
        let t := t ++ u in
        if negb ok then (-1, fd, t) else (-1, fd, t ++ [Listen fd listen_max]).

Definition core_http_init (e : answers) : Z * Z * list syscall := http_server_init e 0 80 1024.

Definition core_poll_init (svr_fd : Z) : X Z :=
  r ← XServer.poll_init 1024 svr_fd; mret (if r =? 0 then 0 else -1).

Definition core_session_init : X Z := _ ← modify ses_session_init; mret 0.

Section Run.

Context (behind : list Z) (date : cstring) (junk : Z).

(** [while (!core_stop)]: no statement sets [core_stop]. *)
Fixpoint core_process_run (rounds : list (list Z * list Z)) : X unit :=
  match rounds with
  | [] => mret tt
  | (revs, accepts) :: rounds =>
    _ ← XServer.poll_process_run behind date junk revs accepts; core_process_run rounds
  end.

(** What the parts return is not looked at. *)
Definition main (e : answers) (rounds : list (list Z * list Z)) : X (list syscall) :=
  let '(_, fd, t) := core_http_init e in
  _ ← core_poll_init fd;
  _ ← core_session_init;
  _ ← core_process_run rounds;
  mret t.

End Run.

End XCore.
