(* ===== verification/StartupFacts.v ===== *)
(** * Facts about the start and the loop of the servers

    Opening the sockets, the actions of signals, reading the configuration;
    then that start-up establishes the invariants of the connections and the
    timers and the loop of [main] keeps them. *)

From Stdlib Require Import Ascii String.
From S2P Require Import Prelude CString Bytes Registry Mem MemFacts Timer TimerFacts Rules Users UsersFacts Cache CJson Allocator Db Store Save SaveDay Server ServerFacts XServer Startup.
Local Open Scope list_scope.
Local Open Scope Z_scope.

(** ** Sockets *)

Module SocketFacts.
Import Sockets.

(** Binding succeeds at try [k], after [k] failures. *)
Definition binds_at (e : answers) (k : nat) : Prop :=
  a_bind e k = true /\ forall j, (j < k)%nat -> a_bind e j = false.

Lemma bind_again_ok e fd ip port n : forall k t,
  bind_again e fd ip port n k = (true, t) ->
  exists m, (m < n)%nat /\ a_bind e (k + m) = true /\ (forall j, (j < m)%nat -> a_bind e (k + j) = false) /\
    t = replicate (S m) (Bind fd ip port).
Proof.
  induction n as [|n IH]; intros k t; cbn [bind_again]; [done|]. destruct (a_bind e k) eqn:Ek.
  - intros [= <-]. exists 0%nat. rewrite Nat.add_0_r. split_all; [lia|done|lia|done].
  - destruct (bind_again e fd ip port n (S k)) as [ok u] eqn:E. intros [= -> <-].
    destruct (IH _ _ E) as (m & Hm & Hk & Hf & ->). exists (S m). replace (k + S m)%nat with (S k + m)%nat by lia.
    split_all; [lia|done| |done]. intros [|j] Hj; [by rewrite Nat.add_0_r|].
    replace (k + S j)%nat with (S k + j)%nat by lia. apply Hf. lia.
Qed.

Lemma bind_again_fails e fd ip port n : forall k t,
  bind_again e fd ip port n k = (false, t) -> forall m, (m < n)%nat -> a_bind e (k + m) = false.
Proof.
  induction n as [|n IH]; intros k t; cbn [bind_again]; [lia|]. destruct (a_bind e k) eqn:Ek; [done|].
  destruct (bind_again e fd ip port n (S k)) as [ok u] eqn:E. intros [= -> <-] [|m] Hm; [by rewrite Nat.add_0_r|].
  replace (k + S m)%nat with (S k + m)%nat by lia. apply (IH _ _ E). lia.
Qed.

(** [bind] is called until it succeeds, at most eleven times. *)
Lemma bind_retry_spec e fd ip port ok t :
  bind_retry e fd ip port = (ok, t) ->
  if ok then exists k, (k <= 10)%nat /\ binds_at e k /\ t = replicate (S k) (Bind fd ip port)
  else forall k, (k <= 10)%nat -> a_bind e k = false.
Proof.
  unfold bind_retry. destruct (a_bind e 0) eqn:E0.
  - intros [= <- <-]. exists 0%nat. split_all; [lia|split; [done|lia]|done].
  - destruct (bind_again e fd ip port 10 1) as [r u] eqn:E. intros [= <- <-]. destruct r.
    + destruct (bind_again_ok _ _ _ _ _ _ _ E) as (m & Hm & Hk & Hf & ->). exists (S m).
      split_all; [lia|split; [done|]|done]. intros [|j] Hj; [done|]. apply Hf. lia.
    + intros [|k] Hk; [done|]. apply (bind_again_fails _ _ _ _ _ _ _ E k). lia.
Qed.

(** [an_tcp_sock_init] succeeds exactly when every step does, a [bind] within
    eleven tries; then the descriptor is non-blocking, bound and listening. *)
Lemma tcp_listens e r fd t :
  an_tcp_sock_init e = (r, fd, t) ->
  fd = a_socket e /\
  (r = 0 <-> fd <> -1 /\ a_setfl e = true /\ a_listen e = true /\ exists k, (k <= 10)%nat /\ binds_at e k) /\
  (r = 0 -> exists k, (k <= 10)%nat /\
     t = [Socket SOCK_STREAM; SetFlags fd (Z.lor (a_getfl e) O_NONBLOCK); SetOption fd SO_REUSEADDR] ++
         replicate (S k) (Bind fd 0 an_tcp_port) ++ [Listen fd AN_LISTEN_MAX]).
Proof.
  unfold an_tcp_sock_init, an_sock_noblock. destruct (Z.eqb_spec (a_socket e) (-1)) as [Hs|Hs].
  { intros [= <- <- <-]. split_all; [done|split; [lia|tauto]|lia]. }
  destruct (a_setfl e); cbn [Z.eqb negb]; [|intros [= <- <- <-]; split_all; [done|split; [lia|naive_solver]|lia]].
  destruct (bind_retry _ _ _ _) as [ok u] eqn:E. apply bind_retry_spec in E. destruct ok; cbn [negb].
  - destruct E as (k & Hk & Hb & ->). intros [= <- <- <-]. split; [done|]. split.
    + destruct (a_listen e); naive_solver lia.
    + intros _. exists k. split; [done|]. reflexivity.
  - intros [= <- <- <-]. split_all; [done|split; [lia|]|lia].
    intros (_ & _ & _ & k & Hk & [Hb _]). rewrite E in Hb by done. done.
Qed.

(** The buffer of a datagram that arrived is never released. *)
Lemma udp_recv_leaks sizeof_info a i d m B :
  MemFacts.inv m B -> fresh_pair a i m -> a <> NULL -> i <> NULL -> d <> [] ->
  exists m', an_udp_recv sizeof_info a i (Some d) m = Done m' /\ MemFacts.inv m' (<[a := AN_UDP_BUF_LEN]> B).
Proof.
  intros Hm Hf Ha Hi Hd.
  destruct (malloc_step sizeof_info m B AN_UDP_BUF_LEN (str "an_udp_recv") 301 a i Hm Hf) as (m' & E & Hm').
  exists m'. unfold an_udp_recv. rewrite E. unfold spec_malloc in *.
  rewrite (proj2 (Z.eqb_neq a NULL) Ha), (proj2 (Z.eqb_neq i NULL) Hi) in *. cbn [orb fst snd mbind outcome_bind] in *.
  rewrite (proj2 (Z.eqb_neq a NULL) Ha). split; [|done].
  destruct (Z.leb_spec (Z.of_nat (length (take (Z.to_nat AN_UDP_BUF_LEN) d))) 0) as [H|]; [exfalso|done].
  destruct d; [done|]. rewrite length_take in H. simpl in H. unfold AN_UDP_BUF_LEN in H. lia.
Qed.

(** The descriptor is closed before it is shut down, and descriptor 0 is never
    closed. *)
Lemma udp_send_leaves b n fd :
  1 <= n <= Z.of_nat (length b) -> 0 <= fd ->
  an_udp_send (Some b) n fd n =
    Done (n, [Socket SOCK_DGRAM; SetOption fd SO_REUSEADDR; SendTo fd (take (Z.to_nat n) b)] ++
             if decide (fd = 0) then [] else [Close fd; Shutdown fd]).
Proof.
  intros Hn Hf. unfold an_udp_send.
  rewrite (proj2 (Z.ltb_ge n 1)), (proj2 (Z.ltb_ge fd 0)), (proj2 (Z.ltb_ge _ n)), Z.eqb_refl by lia.
  case_decide; destruct (Z.ltb_spec 0 fd); (lia || done).
Qed.

(** Even a server that listens is reported as a failure. *)
Lemma http_init_fails e ip port listen_max r fd t :
  XCore.http_server_init e ip port listen_max = (r, fd, t) -> r = -1 /\ fd = a_socket e.
Proof.
  unfold XCore.http_server_init. repeat case_match; naive_solver.
Qed.

End SocketFacts.

(** ** Signals *)

Module SignalFacts.
Import Signals.

(** Four signals end the process; what [SIGPIPE] does is what happens to be in
    a variable that no statement sets. *)
Lemma sigpipe_unset sa t :
  action_of SIGPIPE (an_signals_init sa t) = sa /\ action_of SIGCHLD (an_signals_init sa t) = Ignore /\
  forall s, s ∈ [SIGTERM; SIGINT; SIGSEGV; SIGBUS] -> action_of s (an_signals_init sa t) = Handle.
Proof.
  unfold action_of, an_signals_init. cbn.
  split_all; [by simplify_map_eq..|]. intros s. rewrite !elem_of_cons, elem_of_nil. intros [->|[->|[->|[->|Hs]]]]; first [by simplify_map_eq | set_solver].
Qed.

(** The older server asks for an action of [SIGKILL] in vain. *)
Lemma core_signals t :
  action_of SIGKILL (core_signals_init t) = action_of SIGKILL t /\
  action_of SIGPIPE (core_signals_init t) = Ignore /\
  forall s, s ∈ [SIGINT; SIGTERM; SIGSEGV; SIGCHLD; SIGBUS] -> action_of s (core_signals_init t) = Handle.
Proof.
  unfold action_of, core_signals_init. cbn.
  split_all; [by simplify_map_eq..|]. intros s. rewrite !elem_of_cons, elem_of_nil. intros [->|[->|[->|[->|[->|Hs]]]]]; first [by simplify_map_eq | set_solver].
Qed.

End SignalFacts.

(** ** The configuration *)

Module ConfFacts.
Import Conf.

(** The text of a value: no line feed, no NUL. *)
Definition value (s : cstring) : Prop := 10 ∉ s /\ 0 ∉ s.

(** A file of the documented shape. *)
Definition conf_text (ip port rest : cstring) : list Z :=
  SECTION ++ str "ssdb_ipaddr:" ++ ip ++ [10] ++ str "ssdb_port:" ++ port ++ [10] ++ rest.

Lemma starts_with_app sub r : starts_with sub (sub ++ r) = Done true.
Proof. induction sub as [|c sub IH]; [by destruct r|]. cbn [starts_with app]. by rewrite Z.eqb_refl. Qed.

Lemma strstr_here sub r : sub <> [] -> strstr sub (sub ++ r) = Done (Some 0%nat).
Proof. intros H. pose proof (starts_with_app sub r) as E. destruct sub; [done|]. cbn [app strstr] in *. by rewrite E. Qed.

Lemma strchr_past x s r : x ∉ s -> 0 ∉ s -> strchr x (s ++ x :: r) = Done (Some (length s)).
Proof.
  induction s as [|c s IH]; cbn [app strchr length]; [by rewrite Z.eqb_refl|].
  intros [Hx Hs]%not_elem_of_cons [H0 H0s]%not_elem_of_cons.
  rewrite (proj2 (Z.eqb_neq c x)), (proj2 (Z.eqb_neq c 0)), IH by congruence. done.
Qed.

(** In a block without a NUL the search never reports that there is nothing:
    it finds something or runs out of the block. *)
Lemma starts_with_fault sub l f : starts_with sub l = Fault f -> f = OutOfBounds.
Proof.
  revert l. induction sub as [|c sub IH]; intros [|d l]; cbn [starts_with]; [done..|congruence|].
  destruct (c =? d); [apply IH|done].
Qed.

Lemma strstr_total sub l : 0 ∉ l -> strstr sub l = Fault OutOfBounds \/ exists i, strstr sub l = Done (Some i).
Proof.
  induction l as [|c l IH]; [by left|]. intros [H0 Hl]%not_elem_of_cons. cbn [strstr].
  destruct (starts_with sub (c :: l)) as [b|f] eqn:E; [|apply starts_with_fault in E as ->; by left].
  cbn [mbind outcome_bind]. destruct b; [by right; eexists|]. rewrite (proj2 (Z.eqb_neq c 0)) by congruence.
  destruct (IH Hl) as [-> |[i ->]]; [by left|by right; eexists].
Qed.

Lemma strchr_total x l : 0 ∉ l -> strchr x l = Fault OutOfBounds \/ exists i, strchr x l = Done (Some i).
Proof.
  induction l as [|c l IH]; [by left|]. intros [H0 Hl]%not_elem_of_cons. cbn [strchr].
  destruct (c =? x); [by right; eexists|]. rewrite (proj2 (Z.eqb_neq c 0)) by congruence.
  destruct (IH Hl) as [-> |[i ->]]; [by left|by right; eexists].
Qed.

Lemma find_value_total key b :
  0 ∉ b -> find_value key b = Fault OutOfBounds \/
           exists n tmp tmp_end, find_value key b = Done (Some (n, tmp, tmp_end)) /\ 0 ∉ tmp_end.
Proof.
  assert (forall n (l : list Z), 0 ∉ l -> 0 ∉ drop n l) as Hd.
  { intros n l H Hin. apply H. rewrite <- (take_drop n l). set_solver. }
  intros Hb. unfold find_value. destruct (strstr_total key b Hb) as [-> |[i ->]]; [by left|]. cbn [mbind outcome_bind].
  destruct (strchr_total 58 (drop i b)) as [-> |[j ->]]; [by apply Hd|by left|]. cbn [mbind outcome_bind].
  destruct (strchr_total 10 (drop (S j) (drop i b))) as [-> |[n ->]]; [by apply Hd, Hd|by left|].
  right. eexists _, _, _. split; [done|]. by apply Hd, Hd, Hd.
Qed.

(** No text file is ever refused: where the section, a key or the end of a
    line is missing the searches leave the block, which has no terminator. *)
Lemma text_never_refused b : 0 ∉ b -> read_conf b <> Done None.
Proof.
  intros Hb. unfold read_conf. destruct (strstr_total SECTION b Hb) as [-> |[i ->]]; [done|]. cbn [mbind outcome_bind].
  destruct (find_value_total (str "ssdb_ipaddr") (drop 12 b)) as [-> |(n & tmp & e & -> & He)]; [|done|].
  { intros Hin. apply Hb. rewrite <- (take_drop 12 b). set_solver. }
  cbn [mbind outcome_bind]. destruct (strncpy 32 n tmp) as [ip|]; [|done]. cbn [mbind outcome_bind].
  destruct (find_value_total (str "ssdb_port") e He) as [-> |(m & tmp' & e' & -> & _)]; [done|]. cbn [mbind outcome_bind].
  destruct (strncpy 8 m tmp') as [port|]; [|done]. cbn [mbind outcome_bind].
  destruct (read_string ip); [|done]. cbn [mbind outcome_bind]. by destruct (read_string port).
Qed.

(** A file without the section is read past its end. *)
Lemma section_missing b : 0 ∉ b -> (forall l r, b <> l ++ SECTION ++ r) -> read_conf b = Fault OutOfBounds.
Proof.
  intros Hb Hn. unfold read_conf. destruct (strstr_total SECTION b Hb) as [-> |[i E]]; [done|exfalso].
  assert (forall sub l, starts_with sub l = Done true -> exists r, l = sub ++ r) as Hs.
  { induction sub as [|c sub IH]; intros [|d l]; cbn [starts_with]; [by eexists..|done|].
    destruct (Z.eqb_spec c d) as [->|]; [|done]. intros [r ->]%IH. by exists r. }
  assert (forall l i, strstr SECTION l = Done (Some i) -> exists p r, l = p ++ SECTION ++ r) as Hl.
  { clear - Hs. induction l as [|c l IH]; intros i; cbn [strstr]; [done|].
    destruct (starts_with SECTION (c :: l)) as [[]|] eqn:E; [|..|done]; cbn [mbind outcome_bind].
    - intros _. apply Hs in E as [r ->]. by exists [], r.
    - destruct (c =? 0); [done|]. destruct (strstr SECTION l) as [[j|]|] eqn:E'; [|done..]. intros _.
      destruct (IH j eq_refl) as (p & r & ->). by exists (c :: p), r. }
  apply Hl in E as (p & r & E). by apply (Hn p r).
Qed.

(** The settings are searched from a fixed offset, not from the section. *)
Lemma other_section_read :
  read_conf (str "[ntwc-conf]" ++ [10] ++ str "ssdb_ipaddr:10.0.0.9" ++ [10] ++ str "ssdb_port:1" ++ [10] ++
             conf_text (str "127.0.0.1") (str "8888") []) = Done (Some (str "10.0.0.9", str "1")).
Proof. vm_compute. reflexivity. Qed.

(** The line is found after the bytes [g] that come before it. *)
Lemma find_value_here g key v r :
  strstr key (g ++ key ++ 58 :: v ++ 10 :: r) = Done (Some (length g)) -> 58 ∉ key -> 0 ∉ key -> value v ->
  find_value key (g ++ key ++ 58 :: v ++ 10 :: r) = Done (Some (length v, v ++ 10 :: r, 10 :: r)).
Proof.
  intros E Hc H0 [Hl Hv]. unfold find_value. rewrite E. cbn [mbind outcome_bind].
  rewrite drop_app_length, strchr_past by done. cbn [mbind outcome_bind].
  replace (drop (S (length key)) (key ++ 58 :: v ++ 10 :: r)) with (v ++ 10 :: r)
    by (rewrite (cons_middle 58 key), app_assoc, drop_app_length'; [done|rewrite length_app; simpl; lia]).
  rewrite strchr_past by done. cbn [mbind outcome_bind]. by rewrite drop_app_length.
Qed.

Lemma strncpy_value size s r :
  0 ∉ s -> strncpy size (length s) (s ++ r) =
    if decide (length s <= size)%nat then Done (s ++ replicate (size - length s) 0) else Fault OutOfBounds.
Proof.
  intros H. unfold strncpy. rewrite take_app_length.
  assert (c_string s = s) as ->; [|done]. clear r. induction s as [|c s IH]; [done|].
  apply not_elem_of_cons in H as [Hc Hs]. cbn [c_string]. rewrite (proj2 (Z.eqb_neq c 0)), IH by congruence. done.
Qed.

Lemma read_terminated size s :
  0 ∉ s -> (length s <= size)%nat ->
  read_string (s ++ replicate (size - length s) 0) = if decide (length s < size)%nat then Done s else Fault OutOfBounds.
Proof.
  intros H Hl. unfold read_string. case_decide as Hd.
  - destruct (size - length s)%nat as [|n] eqn:E; [lia|]. cbn [replicate]. rewrite bool_decide_eq_true_2 by set_solver.
    rewrite c_string_app; [done|]. apply Forall_forall. by intros c Hc ->.
  - replace (size - length s)%nat with 0%nat by lia. cbn [replicate]. rewrite app_nil_r.
    by rewrite bool_decide_eq_false_2.
Qed.

(** Reading a file of the documented shape gives its address and its port if
    they fit their arrays with a terminator; otherwise the copies or what
    reads them leave the arrays. *)
Lemma conf_exact ip port rest :
  value ip -> value port ->
  read_conf (conf_text ip port rest) =
    if decide (length ip <= 31 /\ length port <= 7)%nat then Done (Some (ip, port)) else Fault OutOfBounds.
Proof.
  intros Hi Hp. unfold read_conf, conf_text. rewrite strstr_here by done. cbn [mbind outcome_bind].
  change 12%nat with (length SECTION). rewrite drop_app_length.
  set (r := str "ssdb_port" ++ 58 :: port ++ 10 :: rest).
  change (str "ssdb_ipaddr:" ++ ip ++ _) with ([] ++ str "ssdb_ipaddr" ++ 58 :: ip ++ 10 :: r).
  rewrite find_value_here; [|by apply (strstr_here (str "ssdb_ipaddr"))|by apply (bool_decide_eq_false_1 (_ ∈ _))..|done]. cbn [mbind outcome_bind].
  rewrite strncpy_value by apply Hi. case_decide as H1; [|rewrite decide_False by lia; done]. cbn [mbind outcome_bind].
  change (10 :: r) with ([10] ++ str "ssdb_port" ++ 58 :: port ++ 10 :: rest).
  rewrite find_value_here; [|done|by apply (bool_decide_eq_false_1 (_ ∈ _))..|done]. cbn [mbind outcome_bind].
  rewrite strncpy_value by apply Hp. case_decide as H2; [|rewrite decide_False by lia; done]. cbn [mbind outcome_bind].
  rewrite !read_terminated by (apply Hi || apply Hp || lia).
  repeat case_decide; cbn [mbind outcome_bind]; (done || lia).
Qed.

End ConfFacts.

(** ** The listening descriptor *)

(** No operation on connections changes [an_tcp_fd]. *)
Module ListenFacts.
Import Server.

Ltac walk := repeat match goal with
  | H : mbind _ _ = Done _ |- _ => apply outcome_bind_done in H as (? & ? & ?)
  | H : Done _ = Done _ |- _ => injection H; clear H; intros; subst
  | H : Fault _ = Done _ |- _ => discriminate H
  | H : (if ?b then _ else _) = Done _ |- _ => destruct b
  | H : match ?x with _ => _ end = Done _ |- _ => destruct x eqn:?
  end.

Lemma upd_tcp i g s s' : upd i g s = Done s' -> an_tcp_fd s' = an_tcp_fd s.
Proof. unfold upd. intros H. by walk. Qed.

Lemma del_tcp f s : an_tcp_fd (an_sock_poll_del f s).2 = an_tcp_fd s.
Proof. unfold an_sock_poll_del. by destruct (find_fd _ _ _). Qed.

Lemma destory_tcp i s s' : an_sock_destory i s = Done s' -> an_tcp_fd s' = an_tcp_fd s.
Proof. unfold an_sock_destory. intros H. walk. by rewrite del_tcp. Qed.

Lemma add_tcp e f s : an_tcp_fd (an_sock_poll_add e f s).2 = an_tcp_fd s.
Proof.
  unfold an_sock_poll_add. destruct (find_free _ _) as [i|]; [|done]. cbv zeta.
  set (s1 := if Z.of_nat i =? _ then _ else _). assert (an_tcp_fd s1 = an_tcp_fd s) as E by (unfold s1; by destruct (_ =? _)).
  clearbody s1. destruct (Sock.an_socket_t_create _ _) as [a t]. by destruct (a =? NULL).
Qed.

Lemma recv_tcp e i s r s' : an_tcp_recv e i s = Done (Some (r, s')) -> an_tcp_fd s' = an_tcp_fd s.
Proof.
  assert (forall a q, split_sock e a i q = Done (Some (r, s')) -> an_tcp_fd s' = an_tcp_fd q) as Hs
    by (intros a q; unfold split_sock; intros H; by walk).
  unfold an_tcp_recv. intros H. walk; try done.
  all: match goal with H : split_sock _ _ _ _ = _ |- _ => by apply Hs in H end.
Qed.

Ltac step_tcp := match goal with
  | H : m_sock_add_write _ _ = Done _ |- _ => apply upd_tcp in H
  | H : m_sock_del_write _ _ = Done _ |- _ => apply upd_tcp in H
  | H : an_sock_destory _ _ = Done _ |- _ => apply destory_tcp in H
  end.

Lemma send_tcp e i s r s' : an_tcp_send e i s = Done (r, s') -> an_tcp_fd s' = an_tcp_fd s.
Proof.
  unfold an_tcp_send. intros H. walk; repeat step_tcp; repeat case_match; cbn in *; congruence.
Qed.

Lemma events_tcp e i s r s' : an_tcp_events_do e i s = Done (Some (r, s')) -> an_tcp_fd s' = an_tcp_fd s.
Proof.
  unfold an_tcp_events_do. intros H. walk; repeat step_tcp; try congruence.
  all: match goal with
    | H : an_tcp_send _ _ _ = _ |- _ => apply send_tcp in H
    | H : an_tcp_recv _ _ _ = _ |- _ => apply recv_tcp in H
    end; congruence.
Qed.

(** The server [an_poll] leaves. *)
Definition left_by (r : poll_end) (s : server) : Prop :=
  match r with Returns _ s' | Exits s' => an_tcp_fd s' = an_tcp_fd s | Hangs => True end.

Lemma loop_tcp fuel e : forall i s r, events_loop fuel e i s = Done r -> left_by r s.
Proof.
  induction fuel as [|fuel IH]; intros i s r; cbn [events_loop]; [by intros [= <-]|].
  destruct (i <? an_curfds s); [|by intros [= <-]]. intros (c & _ & E)%outcome_bind_done.
  destruct (fd c =? -1); [by eapply IH|]. destruct (has _ _); [|by eapply IH].
  apply outcome_bind_done in E as ([[q s1]|] & E1 & E); [|by injection E as <-].
  apply events_tcp in E1. destruct (negb _); [by injection E as <-|]. apply IH in E.
  destruct r; simpl in *; congruence.
Qed.

Lemma poll_tcp e s r : an_poll e s = Done r -> left_by r s.
Proof.
  unfold an_poll. destruct (_ <? 1); [by intros [= <-]|]. intros (c & _ & E)%outcome_bind_done.
  destruct (has _ _); [|by apply loop_tcp in E]. destruct (_ <? 0); [by apply loop_tcp in E|].
  pose proof (add_tcp e (e_accept e) (poll e s)) as H. destruct (an_sock_poll_add _ _ _) as [q s1]. simpl in H.
  destruct (negb _); [by injection E as <-|]. apply loop_tcp in E. destruct r; simpl in *; congruence.
Qed.

End ListenFacts.

(** ** The program *)

Module MainFacts.
Import Registry Sock SockFacts Sockets Signals Conf ConfFacts Main CJson.

(** A numeral of a few characters is an [int]. *)
Lemma read_digits_bound s : forall n k,
  0 <= n -> 0 <= (read_digits s n k).1.1 < (n + 1) * 10 ^ Z.of_nat (length s).
Proof.
  induction s as [|c s IH]; intros n k Hn; cbn [read_digits length]; [simpl; lia|].
  rewrite Nat2Z.inj_succ, Z.pow_succ_r by lia. pose proof (Z.pow_pos_nonneg 10 (Z.of_nat (length s))).
  unfold is_digit. destruct (Z.leb_spec 48 c), (Z.leb_spec c 57); cbn [andb fst]; try nia.
  specialize (IH (n * 10 + (c - 48)) (k + 1)). nia.
Qed.

Lemma skip_space_length s : (length (skip_space s) <= length s)%nat.
Proof. induction s as [|c s IH]; cbn [skip_space length]; [lia|]. case_match; simpl; lia. Qed.

Lemma number_of_bound s :
  (length s <= 7)%nat -> - 2 ^ 31 <= Allocator.number_of s < 2 ^ 31.
Proof.
  intros Hs. assert (forall t, (length t <= 7)%nat -> 0 <= (read_digits t 0 0).1.1 < 10 ^ 7) as Hb.
  { intros t Ht. pose proof (read_digits_bound t 0 0 ltac:(lia)) as H.
    assert (10 ^ Z.of_nat (length t) <= 10 ^ 7) by (apply Z.pow_le_mono_r; lia). lia. }
  pose proof (skip_space_length s) as Hl. unfold Allocator.number_of. destruct (skip_space s) as [|c t]; [simpl; lia|]. simpl in Hl.
  pose proof (Hb (c :: t) ltac:(simpl; lia)) as H1. pose proof (Hb t ltac:(lia)) as H2.
  destruct (c =? 45); [|destruct (c =? 43)].
  - destruct (read_digits t 0 0) as [[n k] u]. simpl in H2. lia.
  - destruct (read_digits t 0 0) as [[n k] u]. simpl in H2. lia.
  - destruct (read_digits (c :: t) 0 0) as [[n k] u]. simpl in H1. lia.
Qed.

Section Run.
Context (W sizeof_info sizeof_save : Z).

(** A block is allocated and released again: nothing is left of it. *)
Lemma leave_ok r buf n p B :
  MemFacts.inv (mem p) (<[buf := n]> B) -> B !! buf = None ->
  exists m, leave r buf p = Done (r, set_mem m p) /\ MemFacts.inv m B.
Proof.
  intros Hm Hb. destruct (free_step _ _ buf 980 Hm) as (m & E & Hm'). exists m. unfold leave. rewrite E.
  split; [done|]. by rewrite delete_insert_id in Hm'.
Qed.

(** C23. The address of the record store is what the configuration says: for
    a file of the documented shape [an_database_init] succeeds, connects to the
    address and the port named there and releases the block the file was read
    into, unless there is no memory (then it fails and changes nothing); an
    address of more than 31 or a port of more than 7 characters is written or
    read past its array. *)
Theorem database_configured ip port rest a i now p B :
  let text := conf_text ip port rest in
  value ip -> value port -> Z.of_nat (length text) < 2 ^ 31 ->
  MemFacts.inv (mem p) B -> fresh_pair a i (mem p) ->
  let r := an_database_init W sizeof_info (File true (Z.of_nat (length text)) text) (a, i) now p in
  if decide (a = NULL \/ i = NULL) then
    exists m, r = Done (-1, set_mem m p) /\ MemFacts.inv m B
  else if decide (length ip <= 31 /\ length port <= 7)%nat then
    exists m, r = Done (0, set_mem m (set_db (Db.dbinit W now (pool p)) (Some (ip, u16 (Allocator.number_of port))) p)) /\
              MemFacts.inv m B
  else r = Fault OutOfBounds.
Proof.
  intros text Hi Hp Hlen Hm Hf r.
  assert (0 < Z.of_nat (length text)) as Hpos by (unfold text, conf_text; rewrite length_app; simpl; lia).
  assert (s32 (Z.of_nat (length text)) = Z.of_nat (length text)) as Es by (apply wraps_small; lia).
  destruct (malloc_step sizeof_info (mem p) B (Z.of_nat (length text)) (str "an_database_init") 939 a i Hm Hf) as (m & Em & Hm').
  subst r. unfold an_database_init. cbn [f_open f_len negb]. rewrite Es, (proj2 (Z.leb_gt _ _) Hpos).
  cbn [fst snd]. rewrite Em. unfold spec_malloc in *. cbn [mbind outcome_bind].
  destruct (Z.eqb_spec a NULL) as [Ha|Ha]; [|destruct (Z.eqb_spec i NULL) as [Hin|Hin]]; cbn [orb fst snd] in *.
  1, 2: rewrite decide_True by tauto; exists m; done.
  rewrite decide_False by tauto. rewrite (proj2 (Z.eqb_neq a NULL) Ha).
  assert (fread (File true (Z.of_nat (length text)) text) (Z.to_nat (Z.of_nat (length text))) = text) as ->
    by (unfold fread; cbn [f_bytes]; by rewrite Nat2Z.id, take_ge, resize_all by lia).
  assert (B !! a = None) as HB.
  { destruct (B !! a) as [n|] eqn:E; [exfalso|done]. apply (MemFacts.inv_blocks _ _ Hm) in E as (j & x & Ej & Ea & _).
    destruct (MemFacts.inv_live _ _ Hm j x Ej) as (_ & Hl & _). rewrite Ea in Hl. destruct Hf as [Hfa _].
    rewrite Hfa in Hl by done. by destruct Hl. }
  unfold text. rewrite conf_exact by done. case_decide as Hfit; cbn [mbind outcome_bind]; [|done].
  unfold Allocator.atoi, Allocator.ato. cbn [get_or mbind outcome_bind].
  pose proof (number_of_bound port ltac:(lia)) as Hb. change (32 - 1) with 31.
  rewrite (proj2 (Z.leb_le _ _)), (proj2 (Z.ltb_lt _ _)) by lia. cbn [andb mbind outcome_bind].
  by apply (leave_ok 0 a _ (set_db _ _ (set_mem m p)) B Hm' HB).
Qed.

End Run.

(** ** The loop *)

Section Loop.

Context (W sizeof_info sizeof_save : Z) (HW : 32 <= W) (callback : Z -> Z -> list Timer.call).

(** What other code does with timers. *)
Inductive uses : Timer.tvec_base -> Timer.tvec_base -> Prop :=
| uses_nothing b : uses b b
| uses_call b c b' : uses (Timer.do_call W b c) b' -> uses b b'
| uses_alloc b t tm b' :
    Timer.timer_pending t b = false -> Timer.linked tm = false -> uses (Timer.set_timer t tm b) b' -> uses b b'.

(** The worker's side, which is not in the repository: it opens and closes no
    connection and keeps the records of the connections well-formed, uses
    timers through their functions, and does not stop the loop. *)
Record lawful (p p' : program) : Prop := {
  l_keeps : ServerFacts.keeps (server p) (server p');
  l_table : sinv (Server.table (server p)) -> sinv (Server.table (server p'));
  l_wheel : uses (wheel p) (wheel p');
  l_stop : an_stop p' = an_stop p;
  l_calls : exists t, calls p' = calls p ++ t
}.

Context (wk_init : program -> outcome (Z * program)) (worker : program -> program -> Prop).
Hypothesis wk_init_lawful : forall p r p', wk_init p = Done (r, p') -> lawful p p'.
Hypothesis worker_lawful : forall p p', worker p p' -> lawful p p'.

(** The static state of the program. *)
Record pristine (p : program) : Prop := {
  st_socks : exists b, Server.table (server p) = Socks (Reg ∅ ∅) b;
  st_array : length (Server.an_conn_array (server p)) = 1024%nat;
  st_timers : forall t tm, Timer.timers (wheel p) !! t = Some tm -> Timer.linked tm = false;
  st_stop : an_stop p = false
}.

(** The states of the loop: after start-up, after a round, after something
    the worker did.  [socket] returns -1 or a descriptor. *)
Inductive reach : program -> Prop :=
| reach_start e p0 p :
    pristine p0 -> -1 <= a_socket (s_sockets e) ->
    an_init W sizeof_info sizeof_save wk_init e p0 = Done (0, p) -> reach p
| reach_round e ts p p' :
    reach p -> ServerFacts.env_ok e (server p) ->
    main_step W callback e ts p = Done (Running p') -> reach p'
| reach_worker p p' : reach p -> worker p p' -> reach p'.

Record consistent (p : program) : Prop := {
  c_server : ServerFacts.pinv (server p);
  c_wheel : exists T, reachable W callback T (wheel p);
  c_running : an_stop p = false;
  c_listen : Listen (Server.an_tcp_fd (server p)) AN_LISTEN_MAX ∈ calls p
}.

Lemma uses_reachable T b b' : uses b b' -> reachable W callback T b -> reachable W callback T b'.
Proof. induction 1; [done|..]; intros Hr; apply IHuses; [by apply reach_call|by apply reach_alloc]. Qed.

Lemma lawful_consistent p p' : lawful p p' -> consistent p -> consistent p'.
Proof.
  intros [Hk Ht Hw Hs [t Hc]] [C1 [T C2] C3 C4]. pose proof Hk as (_ & _ & E & _). split.
  - eapply ServerFacts.pinv_keeps; [done..|]. apply Ht, C1.
  - exists T. by eapply uses_reachable.
  - by rewrite Hs.
  - rewrite E, Hc. set_solver.
Qed.

(** Start-up *)

Lemma init_hash_sinv b : sinv (Socks (World.init_hash (Reg ∅ ∅)) b).
Proof. by destruct (WorldFacts.init_establishes b 0) as (_ & _ & _ & _ & H & _). Qed.

Lemma poll_init_pinv s :
  length (Server.an_conn_array s) = 1024%nat -> 0 <= Server.an_tcp_fd s ->
  sinv (Server.table s) -> objs (sreg (Server.table s)) = ∅ -> ServerFacts.pinv (Server.an_poll_init s).
Proof.
  intros Hl Hf Hs He.
  assert (ServerFacts.fds (Server.an_poll_init s) = Server.an_tcp_fd s :: replicate 1023 (-1)) as E.
  { unfold ServerFacts.fds, Server.an_poll_init. cbn [Server.set_curfds Server.set_array Server.an_conn_array fmap list_fmap Server.fd].
    f_equal. rewrite <- list_fmap_compose. apply list_eq. intros i. rewrite list_lookup_fmap.
    destruct (decide (i < 1023)%nat).
    - rewrite lookup_replicate_2 by done. destruct (tail _ !! i) as [x|] eqn:Ei; [done|].
      apply lookup_ge_None in Ei. destruct (Server.an_conn_array s); simpl in *; lia.
    - rewrite (proj1 (lookup_replicate_None _ _ _)) by lia. rewrite lookup_ge_None_2; [done|]. destruct (Server.an_conn_array s); simpl in *; lia. }
  assert (forall i f, (Server.an_tcp_fd s :: replicate 1023 (-1)) !! i = Some f ->
    (i = 0%nat /\ f = Server.an_tcp_fd s) \/ ((1 <= i)%nat /\ f = -1)) as Hi.
  { intros [|i] f; cbn [lookup list_lookup]; [intros [= <-]; by left|]. intros [-> _]%lookup_replicate. right. split; [lia|done]. }
  split; [rewrite E; split|done|].
  - done.
  - simpl. lia.
  - intros i f [[-> _]|[_ ->]]%Hi; simpl; [lia|done].
  - intros i f [[_ ->]|[_ ->]]%Hi; auto.
  - intros i j f [[-> ->]|[? ->]]%Hi [[-> ?]|[? ?]]%Hi ?; lia.
  - done.
  - simpl. rewrite He. intros a x. by rewrite lookup_empty.
Qed.

Lemma jiffies_wrapped s u c : wrapu W (Timer.jiffies_get W s u c).1 = (Timer.jiffies_get W s u c).1.
Proof.
  unfold Timer.jiffies_get. cbn [fst].
  assert (forall x, wrapu W (wrapu W x) = wrapu W x) as H by (intros x; apply wrapu_small, wrapu_range; lia).
  destruct (negb (u =? 0)); apply H.
Qed.

Lemma save_reachable T a now b b' :
  SaveDay.an_data_save_init W a now b = Done b' -> Timer.timer_pending a b = false ->
  reachable W callback T b -> reachable W callback T b'.
Proof.
  unfold SaveDay.an_data_save_init. destruct (a =? NULL); [done|]. intros [= <-] Hp Hr.
  apply (reach_call W callback T _ (Timer.CallAdd a)). by apply reach_alloc.
Qed.

Lemma database_frame f ai now p r p' :
  an_database_init W sizeof_info f ai now p = Done (r, p') ->
  server p' = server p /\ wheel p' = wheel p /\ an_stop p' = an_stop p /\ calls p' = calls p.
Proof.
  assert (forall r0 buf q, leave r0 buf q = Done (r, p') ->
    server p' = server q /\ wheel p' = wheel q /\ an_stop p' = an_stop q /\ calls p' = calls q) as Hl.
  { intros r0 buf q (m & _ & [= _ <-])%outcome_bind_done. done. }
  unfold an_database_init. destruct (negb _); [apply Hl|]. destruct (_ <=? 0); [apply Hl|].
  intros ([a m] & _ & E)%outcome_bind_done. destruct (a =? NULL); [by apply Hl in E|].
  apply outcome_bind_done in E as ([[ip port]|] & _ & E); [|by apply Hl in E].
  apply outcome_bind_done in E as (n & _ & E). by apply Hl in E.
Qed.

Lemma timer_init_ok t t' p :
  (forall a tm, Timer.timers (wheel p) !! a = Some tm -> Timer.linked tm = false) ->
  let q := an_timer_init W t t' p in
  server q = server p /\ an_stop q = an_stop p /\ calls q = calls p /\
  (exists T, reachable W callback T (wheel q)) /\ forall a, Timer.timer_pending a (wheel q) = false.
Proof.
  intros Ht. unfold an_timer_init. pose proof (jiffies_wrapped t'.1 t'.2 (Timer.jiffies_init W t.1 (clock p))) as Hj.
  destruct (Timer.jiffies_get _ _ _ _) as [j c]. cbn [fst] in Hj. cbn. split_all; [done..| |].
  - exists j. pose proof (reach_init W callback j (wheel p) Ht) as H. by rewrite Hj in H.
  - intros a. unfold Timer.timer_pending. cbn [Timer.init_timers_cpu Timer.timers].
    destruct (Timer.timers (wheel p) !! a) eqn:E; [by eapply Ht|done].
Qed.

(** Start-up establishes everything. *)
Lemma init_consistent e p0 p :
  pristine p0 -> -1 <= a_socket (s_sockets e) ->
  an_init W sizeof_info sizeof_save wk_init e p0 = Done (0, p) -> consistent p.
Proof.
  intros [[b Hb] Hl Ht Hs] Hfd. unfold an_init, init_tcp.
  destruct (an_tcp_sock_init (s_sockets e)) as [[r fd] t] eqn:Etcp.
  apply SocketFacts.tcp_listens in Etcp as (-> & Hr0 & Hcalls).
  destruct (Z.eqb_spec r 0) as [->|]; cbn [negb]; [|done].
  destruct (Hcalls eq_refl) as (k & _ & ->). destruct (proj1 Hr0 eq_refl) as (Hne & _). clear Hcalls Hr0.
  unfold init_tables. cbn [World.w_socks World.an_hash_and_list_init set_socks server set_world set_server an_mem_init set_mem set_actions].
  rewrite Hb. cbn [sreg bufs].
  match goal with |- context [an_timer_init W ?t ?t' ?q0] =>
    set (q := q0) in *; destruct (timer_init_ok t t' q Ht) as (S1 & R1 & C1 & [T HT] & Hp) end.
  intros ([r1 p1] & E1 & E)%outcome_bind_done. destruct (Z.eqb_spec r1 0) as [->|]; cbn [negb] in E; [|done].
  apply outcome_bind_done in E as ([r2 p2] & E2 & E). destruct (Z.eqb_spec r2 0) as [->|]; cbn [negb] in E; [|done].
  apply outcome_bind_done in E as ([r3 p3] & E3 & E). injection E as Er <-.
  eapply lawful_consistent; [by eapply wk_init_lawful|]. clear E3 Er.
  apply database_frame in E2 as (S2 & W2 & R2 & C2).
  unfold init_save in E1. apply outcome_bind_done in E1 as ([a m] & _ & E1).
  destruct (Timer.jiffies_get _ _ _ _) as [j c] in E1. apply outcome_bind_done in E1 as (w & Ew & E1).
  injection E1 as _ <-. cbn [server set_timers set_mem wheel an_stop calls set_server add_calls] in *.
  split; [rewrite S2, S1|rewrite W2|by rewrite R2, R1|rewrite S2, S1, C2, C1].
  - apply poll_init_pinv; [done|simpl; lia|apply init_hash_sinv|done].
  - exists T. by eapply save_reachable.
  - match goal with q := set_server _ (add_calls ?t ?u) |- _ =>
      change (Listen (a_socket (s_sockets e)) AN_LISTEN_MAX ∈ calls u ++ t) end.
    rewrite !elem_of_app, list_elem_of_singleton. tauto.
Qed.


(** A round *)

Lemma events_return fuel e : forall i s r s',
  Server.events_loop fuel e i s = Done (Server.Returns r s') -> r = 0.
Proof.
  induction fuel as [|fuel IH]; intros i s r s'; cbn [Server.events_loop]; [congruence|].
  destruct (i <? Server.an_curfds s); [|congruence]. intros (c & _ & E)%outcome_bind_done.
  destruct (Server.fd c =? -1); [by eapply IH|]. destruct (Server.has _ _); [|by eapply IH].
  apply outcome_bind_done in E as ([[q s1]|] & _ & E); [|done]. destruct (negb _); [done|by eapply IH].
Qed.

(** When [an_poll] returns, it returns 0. *)
Lemma poll_returns e s r s' : Server.an_poll e s = Done (Server.Returns r s') -> r = 0.
Proof.
  unfold Server.an_poll. destruct (_ <? 1); [congruence|]. intros (c & _ & E)%outcome_bind_done.
  destruct (Server.has _ _); [|by eapply events_return]. destruct (_ <? 0); [by eapply events_return|].
  destruct (Server.an_sock_poll_add _ _ _) as [q s1]. destruct (negb _); [congruence|by eapply events_return].
Qed.

Lemma run_timers_reachable ts : forall c b c' b' fs T,
  run_timers W callback ts c b = Some (c', b', fs) -> reachable W callback T b ->
  exists T', reachable W callback T' b'.
Proof.
  induction ts as [|t ts IH]; intros c b c' b' fs T; cbn [run_timers]; [done|].
  destruct (Timer.jiffies_get _ _ _ _) as [j c1]. destruct (Timer.time_after_eq _ _ _).
  - pose proof (reach_tick W callback T b) as Ht. destruct (Timer.run_tick W callback b) as [b1 gs]. simpl in Ht.
    destruct (run_timers W callback ts c1 b1) as [[[c2 b2] hs]|] eqn:E; [|done]. intros [= <- <- <-] Hr.
    by eapply IH, Ht.
  - intros [= <- <- <-] Hr. by exists T.
Qed.


(** The flag never ends the loop: the process ends in a round or not at all. *)
Lemma loop_exits_in_poll es : forall p q,
  an_stop p = false -> main_loop W callback es p = Done (Exited q) ->
  exists e ts p', (e, ts) ∈ es /\ main_step W callback e ts p' = Done (Exited q).
Proof.
  induction es as [|[e ts] es IH]; intros p q Hs; cbn [main_loop]; rewrite Hs; [done|].
  intros (r & E1 & E)%outcome_bind_done. destruct r as [p1|p1|]; [|injection E as <-|done].
  - destruct (IH p1 q) as (e' & ts' & p' & Hin & Ep); [|done|exists e', ts', p'; split; [by right|done]].
    unfold main_step in E1. apply outcome_bind_done in E1 as ([r s|s|] & E0 & E1); [|done..].
    apply poll_returns in E0. subst r. destruct (run_timers _ _ _ _ _) as [[[c b] fs]|]; [|done].
    by injection E1 as <-.
  - exists e, ts, p. split; [left|done].
Qed.

End Loop.

(** ** A concrete start *)

(** [src/TCP_C/waterwall.conf] *)
Definition ex_text : list Z :=
  conf_text (str "127.0.0.1") (str "8888")
    (str "[ntwc-conf]" ++ [10] ++ str "ntwc_ipaddr:192.168.109.13" ++ [10] ++ str "ntwc_port:9527").

Definition ex_world : World.world :=
  World.MkWorld (Reg ∅ ∅) (Group.Groups (Reg ∅ ∅) 0) (Reg ∅ ∅) (Socks (Reg ∅ ∅) ∅) (Reg ∅ ∅)
    (UserAction.Users (Reg ∅ ∅) (Reg ∅ ∅)) (Detail.Details (Reg ∅ ∅) (Reg ∅ ∅) (Reg ∅ ∅))
    (QQ.QQs (Reg ∅ ∅) (Reg ∅ ∅) (Reg ∅ ∅) (Reg ∅ ∅)) (Reg ∅ ∅).

Definition ex_program : program :=
  Program ∅ (Mem.MkMem ∅ ∅ 0 ∅ []) ex_world
    (Server.MkServer (replicate 1024 (Server.Pollfd 0 0 0)) 0 (-1) (Socks (Reg ∅ ∅) ∅) [] [] [])
    (Timer.Clock 0 0) (Timer.TvecBase 0 ∅ ∅ 0)
    (Db.MkPool (Reg ∅ ∅) 0 0 (Timer.Clock 0 0) [] []) None [] false.

(** [bind] fails twice. *)
Definition ex_startup : startup :=
  StartupEnv Default (Answers 3 2 true true (fun k => (2 <=? k)%nat) true) (1000, 0) (1000, 0) (1000, 0)
    (4096, 8192) (File true (Z.of_nat (length ex_text)) ex_text) (12288, 16384) 1000.

Definition ex_wk_init (p : program) : outcome (Z * program) := Done (0, p).
Definition ex_callback (_ _ : Z) : list Timer.call := [].

Definition ex_start : program :=
  match an_init 64 48 136 ex_wk_init ex_startup ex_program with Done (_, p) => p | Fault _ => ex_program end.

Definition starts (o : outcome (Z * program)) : bool := match o with Done (r, _) => r =? 0 | Fault _ => false end.
Definition running (o : outcome ending) : bool := match o with Done (Running _) => true | _ => false end.

(** A client connects. *)
Definition ex_round : Server.env :=
  Server.Env 1 [Server.POLLIN] 9 (fun _ => []) (fun _ => 0) 0
    (fun h => if h !! 20480 then NULL else 20480) (fun _ _ => NULL) (fun _ => true) (fun _ => 0).

Lemma database_configured_witness :
  exists m, an_database_init 64 48 (File true (Z.of_nat (length ex_text)) ex_text) (12288, 16384) 1000 (an_mem_init ex_program) =
    Done (0, set_mem m (set_db (Db.dbinit 64 1000 (pool ex_program)) (Some (str "127.0.0.1", 8888)) (an_mem_init ex_program))) /\
    MemFacts.inv m ∅.
Proof.
  assert (forall s, bool_decide (10 ∉ s /\ 0 ∉ s) = true -> value s) as Hv by (intros s; by rewrite bool_decide_eq_true).
  pose proof (database_configured 64 48 (str "127.0.0.1") (str "8888")
    (str "[ntwc-conf]" ++ [10] ++ str "ntwc_ipaddr:192.168.109.13" ++ [10] ++ str "ntwc_port:9527")
    12288 16384 1000 (an_mem_init ex_program) ∅ ltac:(by apply Hv) ltac:(by apply Hv) ltac:(vm_compute; reflexivity)
    (MemFacts.init_inv ∅) ltac:(split; [done|intros _; split; [done|discriminate]])) as H.
  cbv zeta in H. rewrite decide_False in H by (intros [|]; discriminate).
  rewrite decide_True in H by (split; vm_compute; lia). exact H.
Defined.

Lemma ex_lawful p p' : p = p' -> lawful 64 p p'.
Proof.
  intros <-. split; [repeat split|done|constructor|done|]. exists []. by rewrite app_nil_r.
Qed.


End MainFacts.

(** ** The older server *)

Module XCoreFacts.
Import XServer XCore.

(** Its start looks at no result.  Without a socket an assertion stops it;
    with a socket that could not be bound it polls that socket all the same. *)
Lemma core_starts behind date junk e s a l :
  mallocs (inp s) = a :: l -> a <> NULL ->
  match main behind date junk e [] s with
  | Fault f => f = AssertFailed /\ Sockets.a_socket e = -1
  | Done (_, s') => poll_fds s' !! 0%nat = Some (Pollfd (Sockets.a_socket e) POLLIN 0) /\
      length (poll_fds s') = 1024%nat /\ poll_curfds s' = poll_curfds s + 1 /\ Sockets.a_socket e <> -1
  end.
Proof.
  intros Hm Ha. unfold main, core_http_init. destruct (http_server_init e 0 80 1024) as [[r fd] t] eqn:E.
  apply SocketFacts.http_init_fails in E as [-> ->].
  unfold core_poll_init, poll_init, core_session_init, core_process_run, modify, wys_malloc, lift, mbind, X_bind, mret, X_ret.
  cbn [Z.leb]. cbn. rewrite Hm. rewrite (proj2 (Z.eqb_neq a NULL) Ha).
  destruct (Z.eqb_spec (Sockets.a_socket e) (-1)) as [Es|Es]; [done|]. by cbn.
Qed.

End XCoreFacts.
