(* ===== verification/Exercises.v ===== *)
(** * Exercises: the data structures at the top of the repository

    [Lnode.c] (a singly linked list with a head node), [LinkQueue.c] (a linked
    queue), [DLnode.c] (a doubly linked list) and [stack.c] (a stack in an
    array), on a memory of nodes; [hello.c] (an ordered array).  What [malloc]
    returns is an argument.  A loop that follows pointers may visit each node
    of the memory once and one more; a ring, on which the code would not end,
    is a fault here. *)

From S2P Require Import Prelude.
Local Open Scope list_scope.
Local Open Scope Z_scope.

(** ** [Lnode.c] *)

Module Lnode.

Record node := Node { data : Z; next : addr }.
Abbreviation heap := (gmap addr node).

Definition deref (a : addr) (h : heap) : outcome node :=
  if a =? NULL then Fault NullDeref else get_or UseAfterFree (h !! a).

Definition set_next (a n : addr) (h : heap) : outcome heap :=
  x ← deref a h; Done (<[a := Node (data x) n]> h).

(** [free]; null is allowed. *)
Definition free (a : addr) (h : heap) : outcome heap :=
  if a =? NULL then Done h else _ ← deref a h; Done (delete a h).

(** A block from [malloc], with both members assigned. *)
Definition create (a : addr) (d : Z) (n : addr) (h : heap) : outcome heap :=
  if a =? NULL then Fault NullDeref else Done (<[a := Node d n]> h).

(** [for (i = 0; i < n; i++)] of [creat_list], with the blocks [malloc] gives. *)
Fixpoint creat_loop (l : addr) (i : Z) (blocks : list addr) (h : heap) : outcome heap :=
  match blocks with
  | [] => Done h
  | p :: blocks =>
    x ← deref l h;
    h ← create p i (next x) h;
    h ← set_next l p h;
    creat_loop l (i + 1) blocks h
  end.

(** [n] is the number of blocks. *)
Definition creat_list (l : addr) (blocks : list addr) (h : heap) : outcome heap :=
  h ← set_next l NULL h; creat_loop l 0 blocks h.

(** [while (p && j < i) { p = p->next; j++; }] *)
Fixpoint walk (fuel : nat) (p : addr) (j i : Z) (h : heap) : outcome (addr * Z) :=
  if (p =? NULL) || negb (j <? i) then Done (p, j)
  else match fuel with
  | O => Fault OutOfBounds
  | S fuel => x ← deref p h; walk fuel (next x) (s32 (j + 1)) i h
  end.

Definition rounds (h : heap) : nat := S (size h).

(** [*e], or nothing. *)
Definition getelem (l : addr) (i : Z) (h : heap) : outcome (option Z) :=
  x ← deref l h;
  r ← walk (rounds h) (next x) 1 i h;
  if (r.1 =? NULL) || (i <? r.2) then Done None else x ← deref r.1 h; Done (Some (data x)).

(** [k] stays 1 here. *)
Definition listinsert (l : addr) (i e : Z) (s : addr) (h : heap) : outcome (Z * heap) :=
  r ← walk (rounds h) l 1 i h;
  let p := r.1 in
  if (p =? NULL) || (i <? 1) then Done (0, h)
  else
    x ← deref p h;
    h ← create s e (next x) h;
    h ← set_next p s h;
    Done (1, h).

(** The element that was deleted, or nothing. *)
Definition listdelete (l : addr) (i : Z) (h : heap) : outcome (option Z * heap) :=
  r ← walk (rounds h) l 1 i h;
  let '(p, j) := r in
  x ← deref p h;
  if (next x =? NULL) || (i <? j) then Done (None, h)
  else
    let q := next x in
    y ← deref q h;
    h ← set_next p (next y) h;
    h ← free q h;
    Done (Some (data y), h).

(** What is printed; the code returns whether there is anything. *)
Fixpoint see_loop (fuel : nat) (p : addr) (h : heap) : outcome (list Z) :=
  if p =? NULL then Done []
  else match fuel with
  | O => Fault OutOfBounds
  | S fuel => x ← deref p h; l ← see_loop fuel (next x) h; Done (data x :: l)
  end.

Definition see_list (l : addr) (h : heap) : outcome (list Z) :=
  x ← deref l h; see_loop (rounds h) (next x) h.

Fixpoint clear_loop (fuel : nat) (p : addr) (h : heap) : outcome heap :=
  if p =? NULL then Done h
  else match fuel with
  | O => Fault OutOfBounds
  | S fuel => x ← deref p h; h ← free p h; clear_loop fuel (next x) h
  end.

Definition clearlist (l : addr) (h : heap) : outcome heap :=
  x ← deref l h; h ← clear_loop (rounds h) (next x) h; set_next l NULL h.

Fixpoint revers_loop (fuel : nat) (l p : addr) (h : heap) : outcome heap :=
  if p =? NULL then Done h
  else match fuel with
  | O => Fault OutOfBounds
  | S fuel =>
    x ← deref p h;
    y ← deref l h;
    h ← set_next p (next y) h;
    h ← set_next l p h;
    revers_loop fuel l (next x) h
  end.

Definition revers (l : addr) (h : heap) : outcome heap :=
  x ← deref l h; h ← set_next l NULL h; revers_loop (rounds h) l (next x) h.

End Lnode.

(** ** [LinkQueue.c] *)

Module LinkQueue.
Import Lnode.

Record queue := Queue { front : addr; rear : addr }.

(** The head node has no data; without memory the program exits. *)
Definition InitQueue (a : addr) (junk : Z) (h : heap) : option (queue * heap) :=
  if a =? NULL then None else Some (Queue a a, <[a := Node junk NULL]> h).

Definition InQueue (q : queue) (elem : Z) (p : addr) (h : heap) : outcome (queue * heap) :=
  h ← create p elem NULL h;
  h ← set_next (rear q) p h;
  Done (Queue (front q) p, h).

Definition PrintQueue (q : queue) (h : heap) : outcome (list Z) := see_list (front q) h.

(** [i] rounds, the number that was read from the keyboard. *)
Fixpoint OutQueue (i : nat) (q : queue) (h : heap) : outcome (queue * heap) :=
  match i with
  | O => Done (q, h)
  | S i =>
    x ← deref (front q) h;
    h ← free (front q) h;
    OutQueue i (Queue (next x) (rear q)) h
  end.

(** Whether the queue is reported to be empty. *)
Definition EmptyQueue (q : queue) (h : heap) : outcome bool :=
  x ← deref (front q) h; Done (next x =? NULL).

End LinkQueue.

(** ** [DLnode.c] *)

Module DLnode.

Record node := Node { data : Z; next : addr; prior : addr }.
Abbreviation heap := (gmap addr node).

Definition deref (a : addr) (h : heap) : outcome node :=
  if a =? NULL then Fault NullDeref else get_or UseAfterFree (h !! a).

Definition set_next (a n : addr) (h : heap) : outcome heap :=
  x ← deref a h; Done (<[a := Node (data x) n (prior x)]> h).
Definition set_prior (a n : addr) (h : heap) : outcome heap :=
  x ← deref a h; Done (<[a := Node (data x) (next x) n]> h).

(** The node, null without memory; [a] is what [malloc] gives. *)
Definition Dlist_creat_node (d : Z) (a : addr) (h : heap) : addr * heap :=
  if a =? NULL then (NULL, h) else (a, <[a := Node d NULL NULL]> h).

(** Hanging [p] behind [temp], the four assignments of two functions. *)
Definition link (temp p : addr) (h : heap) : outcome heap :=
  x ← deref temp h;
  h ← set_next p (next x) h;
  h ← set_prior p temp h;
  x ← deref temp h;
  h ← set_prior (next x) p h;
  set_next temp p h.

Definition Dlist_insert_head (l : addr) (d : Z) (a : addr) (h : heap) : outcome (Z * heap) :=
  let '(p, h) := Dlist_creat_node d a h in
  if p =? NULL then Done (-1, h) else h ← link l p h; Done (0, h).

(** [while (temp->next) temp = temp->next;] *)
Fixpoint last_node (fuel : nat) (temp : addr) (h : heap) : outcome addr :=
  x ← deref temp h;
  if next x =? NULL then Done temp
  else match fuel with O => Fault OutOfBounds | S fuel => last_node fuel (next x) h end.

Definition DlistInsertTail (l : addr) (d : Z) (a : addr) (h : heap) : outcome (Z * heap) :=
  temp ← last_node (size h) l h;
  let '(p, h) := Dlist_creat_node d a h in
  if p =? NULL then Done (-1, h)
  else h ← set_next temp p h; h ← set_prior p temp h; Done (0, h).

Fixpoint index_loop (fuel : nat) (temp : addr) (n i : Z) (h : heap) : outcome (addr * Z) :=
  x ← deref temp h;
  if (next x =? NULL) || negb (n <? i - 1) then Done (temp, n)
  else match fuel with O => Fault OutOfBounds | S fuel => index_loop fuel (next x) (n + 1) i h end.

Definition DlistInsertIndex (l : addr) (i d : Z) (a : addr) (h : heap) : outcome (Z * heap) :=
  r ← index_loop (size h) l 0 i h;
  if (r.2 <? i - 1) || (r.1 =? NULL) then Done (-2, h)
  else
    let '(p, h) := Dlist_creat_node d a h in
    if p =? NULL then Done (-1, h) else h ← link r.1 p h; Done (0, h).

(** Nothing is freed: the loop goes on from the node it took out. *)
Fixpoint delete_loop (fuel : nat) (temp : addr) (d n : Z) (h : heap) : outcome (Z * heap) :=
  x ← deref temp h;
  if next x =? NULL then Done (n, h)
  else match fuel with
  | O => Fault OutOfBounds
  | S fuel =>
    let temp := next x in
    x ← deref temp h;
    if data x =? d then
      h ← set_prior (next x) (prior x) h;
      x ← deref temp h;
      h ← set_next (prior x) (next x) h;
      delete_loop fuel temp d (n + 1) h
    else delete_loop fuel temp d n h
  end.

Definition DlistDeleteValue (l : addr) (d : Z) (h : heap) : outcome (Z * heap) := delete_loop (size h) l d 0 h.

Fixpoint print_loop (fuel : nat) (temp : addr) (h : heap) : outcome (list Z) :=
  x ← deref temp h;
  if next x =? NULL then Done []
  else match fuel with
  | O => Fault OutOfBounds
  | S fuel => y ← deref (next x) h; l ← print_loop fuel (next x) h; Done (data y :: l)
  end.

Definition printDLinkList (l : addr) (h : heap) : outcome (list Z) := print_loop (size h) l h.

End DLnode.

(** ** [stack.c] *)

Module SeqStack.

Definition MAXSIZE : Z := 100.

Record stack := Stack { data : list Z; top : Z }.

Definition initStack (junk : list Z) : stack := Stack junk (-1).

Definition push (s : stack) (x : Z) : stack :=
  if MAXSIZE - 1 <=? top s then s
  else Stack (<[Z.to_nat (top s + 1) := x]> (data s)) (top s + 1).

Definition isEmpty (s : stack) : Z := if top s =? -1 then 0 else -1.

Definition entry (s : stack) : outcome Z :=
  if top s <? 0 then Fault OutOfBounds else get_or OutOfBounds (data s !! Z.to_nat (top s)).

Definition topStack (s : stack) : outcome Z :=
  if negb (isEmpty s =? 0) then Done 0 else entry s.

(** [*x] if it is assigned. *)
Definition pop (s : stack) : outcome (option Z * stack) :=
  if negb (isEmpty s =? 0) then Done (None, s)
  else x ← entry s; Done (Some x, Stack (data s) (top s - 1)).

End SeqStack.

(** ** [hello.c] *)

Module Sqlist.

Definition maxSize : nat := 100.

(** [arr] is the field [data], [len] the field [length]. *)
Record sqlist := SqList { arr : list Z; len : Z }.

Definition at_ (s : sqlist) (i : Z) : outcome Z :=
  if i <? 0 then Fault OutOfBounds else get_or OutOfBounds (arr s !! Z.to_nat i).

Definition put (i x : Z) (s : sqlist) : outcome sqlist :=
  _ ← at_ s i; Done (SqList (<[Z.to_nat i := x]> (arr s)) (len s)).

Fixpoint find_loop (n : nat) (i x : Z) (s : sqlist) : outcome Z :=
  match n with
  | O => Done i
  | S n => d ← at_ s i; if x <? d then Done i else find_loop n (i + 1) x s
  end.

Definition findElem (s : sqlist) (x : Z) : outcome Z := find_loop (Z.to_nat (len s)) 0 x s.

(** [n] elements are moved up, from the one at [i] down. *)
Fixpoint up_loop (n : nat) (i : Z) (s : sqlist) : outcome sqlist :=
  match n with
  | O => Done s
  | S n => x ← at_ s i; s ← put (i + 1) x s; up_loop n (i - 1) s
  end.

(** The list is passed by value: the results of this function and the next
    are what becomes of the copy. *)
Definition insetElem (s : sqlist) (x : Z) : outcome sqlist :=
  p ← findElem s x;
  s ← up_loop (Z.to_nat (len s - p)) (len s - 1) s;
  s ← put p x s;
  Done (SqList (arr s) (len s + 1)).

Fixpoint down_loop (n : nat) (i : Z) (s : sqlist) : outcome sqlist :=
  match n with
  | O => Done s
  | S n => x ← at_ s (i + 1); s ← put i x s; down_loop n (i + 1) s
  end.

(** [e] is assigned in the copy as well. *)
Definition deleteElem (s : sqlist) (p : Z) : outcome (Z * sqlist) :=
  if (p <? 0) || (len s <? p) then Done (-1, s)
  else
    _ ← at_ s p;
    s ← down_loop (Z.to_nat (len s - p)) p s;
    Done (0, SqList (arr s) (len s - 1)).

(** The initialiser of [list] names five elements. *)
Definition list0 : sqlist := SqList ([1; 2; 3; 4; 5] ++ replicate 95 0) 10.

(** The numbers printed; the last one is a variable that was never set. *)
Definition main (a : Z) : outcome (list Z) :=
  _ ← findElem list0 0;
  _ ← insetElem list0 0;
  _ ← deleteElem list0 0;
  xs ← (fix print (n : nat) (i : Z) : outcome (list Z) :=
          match n with
          | O => Done []
          | S n => x ← at_ list0 i; xs ← print n (i + 1); Done (x :: xs)
          end) (Z.to_nat (len list0)) 0;
  Done (xs ++ [a]).

End Sqlist.
