(* ===== verification/ExercisesFacts.v ===== *)
(** * ExercisesFacts: the linked list implements lists; what is wrong with the rest *)

From S2P Require Import Prelude Exercises.
Local Open Scope list_scope.
Local Open Scope Z_scope.

Module LnodeFacts.
Import Lnode.

(** The nodes from [p] on, with their data. *)
Fixpoint chain (h : heap) (p : addr) (l : list (addr * Z)) : Prop :=
  match l with
  | [] => p = NULL
  | (a, v) :: l => p = a /\ a <> NULL /\ exists n, h !! a = Some (Node v n) /\ chain h n l
  end.

(** The list with head node [l] holds [xs], beside [others] nodes that are not
    part of it; the data of the head node are never read. *)
Definition rep (others : nat) (h : heap) (l : addr) (xs : list Z) : Prop :=
  exists d cells, chain h l ((l, d) :: cells) /\ NoDup (l :: cells.*1) /\ cells.*2 = xs /\
    size h = (S (length cells) + others)%nat.

Lemma node_deref a x h : a <> NULL -> h !! a = Some x -> deref a h = Done x.
Proof. intros Ha E. unfold deref. destruct (Z.eqb_spec a NULL); [done|]. by rewrite E. Qed.

Lemma node_set_next a n x h : a <> NULL -> h !! a = Some x -> set_next a n h = Done (<[a := Node (data x) n]> h).
Proof. intros Ha E. unfold set_next. by rewrite (node_deref a x). Qed.

Lemma nodes_insert h p l a x : a ∉ l.*1 -> chain (<[a := x]> h) p l <-> chain h p l.
Proof.
  revert p. induction l as [|[b v] l IH]; intros p Ha; cbn [chain fmap list_fmap fst] in *; [done|].
  apply not_elem_of_cons in Ha as [Hab Ha].
  split; intros (-> & Hb & n & E & Hc); split_and!; try done; exists n; (split; [|by apply (IH n Ha)]).
  - by rewrite lookup_insert_ne in E.
  - by rewrite lookup_insert_ne.
Qed.

Lemma nodes_delete h p l a : a ∉ l.*1 -> chain h p l -> chain (delete a h) p l.
Proof.
  revert p. induction l as [|[b v] l IH]; intros p Ha Hc; cbn [chain fmap list_fmap fst] in *; [done|].
  apply not_elem_of_cons in Ha as [Hab Ha]. destruct Hc as (-> & Hb & n & E & Hc). split_and!; try done.
  exists n. rewrite lookup_delete_ne by done. split; [done|]. by apply IH.
Qed.

(** There are at most as many nodes as the memory has. *)
Lemma nodes_size h p l : NoDup l.*1 -> chain h p l -> (length l <= size h)%nat.
Proof.
  revert p h. induction l as [|[a v] l IH]; intros p h Hn Hc; cbn [chain fmap list_fmap fst length] in *; [lia|].
  apply NoDup_cons in Hn as [Ha Hn]. destruct Hc as (-> & Hp & n & E & Hc).
  apply (nodes_delete _ _ _ a Ha) in Hc. apply IH in Hc; [|done].
  rewrite map_size_delete_Some in Hc by done. assert (size h <> 0%nat); [|lia].
  intros E0. apply map_size_empty_inv in E0. subst. done.
Qed.

Lemma walk_run h i : forall l p j fuel, chain h p l -> (length l <= fuel)%nat -> 1 <= j -> i < 2 ^ 31 ->
  walk fuel p j i h = Done (if decide (Z.to_nat (i - j) < length l)%nat then (nth (Z.to_nat (i - j)) l.*1 NULL, Z.max i j)
                            else (NULL, j + Z.of_nat (length l))).
Proof.
  induction l as [|[a v] l IH]; intros p j fuel Hc Hf Hj Hi; cbn [chain fmap list_fmap fst length] in *.
  - subst p. rewrite decide_False by lia. replace (j + Z.of_nat 0) with j by lia. by destruct fuel.
  - destruct Hc as (-> & Ha & n & E & Hc). destruct fuel as [|fuel]; [lia|]. cbn [walk].
    destruct (Z.eqb_spec a NULL); [done|]. cbn [orb]. destruct (Z.ltb_spec j i); cbn [negb].
    + rewrite (node_deref a _ _ Ha E). cbn [mbind outcome_bind next]. rewrite wraps_small by lia.
      rewrite (IH n (j + 1) fuel) by (try done; lia).
      replace (Z.to_nat (i - j)) with (S (Z.to_nat (i - (j + 1)))) by lia. f_equal.
      repeat case_decide; try lia; cbn [nth]; f_equal; lia.
    + replace (Z.to_nat (i - j)) with 0%nat by lia. rewrite decide_True by lia. cbn [nth]. f_equal. f_equal. lia.
Qed.

Lemma nodes_app h p l1 a v l2 :
  chain h p (l1 ++ (a, v) :: l2) -> a <> NULL /\ exists n, h !! a = Some (Node v n) /\ chain h n l2.
Proof.
  revert p. induction l1 as [|[b w] l1 IH]; intros p; cbn [app chain].
  - intros (_ & Ha & n & E & Hc). split; [done|]. by exists n.
  - intros (_ & _ & n & _ & Hc). by apply (IH n).
Qed.

(** Hanging another rest onto a node. *)
Lemma nodes_relink h p l1 a v l2 l3 n :
  NoDup (l1 ++ (a, v) :: l2).*1 -> chain h p (l1 ++ (a, v) :: l2) -> chain (<[a := Node v n]> h) n l3 ->
  chain (<[a := Node v n]> h) p (l1 ++ (a, v) :: l3).
Proof.
  revert p. induction l1 as [|[b w] l1 IH]; intros p; cbn [app chain fmap list_fmap fst].
  - intros _ (-> & Ha & _) H3. split_and!; try done. exists n. by rewrite lookup_insert_eq.
  - intros [Hb Hn]%NoDup_cons (-> & Hb0 & m & E & Hc) H3. split_and!; try done. exists m.
    split; [|by apply IH]. rewrite lookup_insert_ne; [done|]. intros ->. apply Hb. rewrite fmap_app. apply elem_of_app. right. by left.
Qed.

(** The node in front of position [i], the [i-1]st from the head node on. *)
Lemma walk_cells h l d cells i :
  chain h l ((l, d) :: cells) -> NoDup (l :: cells.*1) -> 1 <= i < 2 ^ 31 ->
  if decide (Z.to_nat (i - 1) <= length cells)%nat then
    exists l1 a v l2, (l, d) :: cells = l1 ++ (a, v) :: l2 /\ length l1 = Z.to_nat (i - 1) /\
      walk (rounds h) l 1 i h = Done (a, i)
  else exists j, walk (rounds h) l 1 i h = Done (NULL, j).
Proof.
  intros Hc Hn Hi. pose proof (nodes_size _ _ ((l, d) :: cells) Hn Hc) as Hs.
  rewrite (walk_run h i ((l, d) :: cells) l 1 (rounds h)) by (unfold rounds; try done; lia).
  cbn [length] in *. case_decide as H1.
  - rewrite decide_True by lia. destruct (lookup_lt_is_Some_2 ((l, d) :: cells) (Z.to_nat (i - 1))) as [[a v] E]; [simpl; lia|].
    exists (take (Z.to_nat (i - 1)) ((l, d) :: cells)), a, v, (drop (S (Z.to_nat (i - 1))) ((l, d) :: cells)).
    split; [by rewrite take_drop_middle|]. split; [rewrite length_take; simpl; lia|]. f_equal. f_equal; [|lia].
    apply nth_lookup_Some. by rewrite list_lookup_fmap, E.
  - rewrite decide_False by lia. by eexists.
Qed.

Lemma rep_intro others h l l1 a v l2 l3 d cells :
  (l, d) :: cells = l1 ++ (a, v) :: l2 -> chain h l (l1 ++ (a, v) :: l3) -> NoDup (l1 ++ (a, v) :: l3).*1 ->
  size h = (S (length l1 + length l3) + others)%nat -> rep others h l (take (length l1) cells.*2 ++ l3.*2) /\ l2.*2 = drop (length l1) cells.*2.
Proof.
  intros E Hc Hn Hs. destruct l1 as [|[b w] l1]; cbn [app] in *; injection E as -> -> ->.
  - split; [|done]. exists v, l3. by rewrite take_0.
  - assert ((l1 ++ (a, v) :: l2).*2 = (l1.*2 ++ [v]) ++ l2.*2) as -> by (by rewrite fmap_app, <- app_assoc).
    assert (length ((b, w) :: l1) = length (l1.*2 ++ [v])) as -> by (rewrite length_app, length_fmap; simpl; lia).
    rewrite take_app_length, drop_app_length. split; [|done].
    exists w, (l1 ++ (a, v) :: l3). split; [done|]. split; [done|]. split; [by rewrite fmap_app, fmap_cons, <- app_assoc|].
    rewrite length_app. simpl in *. lia.
Qed.

(** ** What the operations do *)

Definition insert_spec (i e : Z) (xs : list Z) : Z * list Z :=
  if decide (1 <= i <= Z.of_nat (length xs) + 1) then (1, take (Z.to_nat (i - 1)) xs ++ e :: drop (Z.to_nat (i - 1)) xs)
  else (0, xs).

Lemma listinsert_spec others l i e a h xs :
  rep others h l xs -> i < 2 ^ 31 -> a <> NULL -> h !! a = None ->
  exists h', listinsert l i e a h = Done ((insert_spec i e xs).1, h') /\ rep others h' l (insert_spec i e xs).2.
Proof.
  intros (d & cells & Hc & Hn & <- & Hs) Hi Ha Hfresh. unfold insert_spec.
  destruct (Z.ltb_spec i 1) as [Hlow|Hlow].
  { rewrite decide_False by lia. exists h. split; [|by exists d, cells].
    unfold listinsert. assert (walk (rounds h) l 1 i h = Done (l, 1)) as ->.
    { unfold rounds. cbn [walk]. destruct (Z.ltb_spec 1 i); [lia|]. by rewrite orb_true_r. }
    cbn [mbind outcome_bind fst]. destruct (Z.ltb_spec i 1); [|lia]. by rewrite orb_true_r. }
  pose proof (walk_cells h l d cells i Hc Hn ltac:(lia)) as Hw. rewrite length_fmap. case_decide as Hlen.
  - rewrite decide_True by lia. destruct Hw as (l1 & p & v & l2 & E & Hl1 & Ew). cbn [fst snd]. rewrite <- Hl1.
    rewrite E in Hc. destruct (nodes_app _ _ _ _ _ _ Hc) as (Hp & n & Ep & H2).
    assert (NoDup (l1 ++ (p, v) :: l2).*1) as Hn1 by (by rewrite <- E).
    assert (a ∉ (l1 ++ (p, v) :: l2).*1) as Ha1.
    { intros ([b w] & -> & Hb)%list_elem_of_fmap. apply list_elem_of_split in Hb as (k1 & k2 & Ek). rewrite Ek in Hc.
      destruct (nodes_app _ _ _ _ _ _ Hc) as (_ & m & Em & _). cbn in Hfresh. congruence. }
    assert (p <> a) by (intros ->; congruence).
    set (h1 := <[a := Node e n]> h). exists (<[p := Node v a]> h1).
    assert (chain h1 l (l1 ++ (p, v) :: l2)) as Hc1 by by apply nodes_insert.
    destruct (rep_intro others (<[p := Node v a]> h1) l l1 p v l2 ((a, e) :: l2) d cells E) as [Hrep E2].
    + apply (nodes_relink _ _ _ _ _ l2); [done|done|]. apply nodes_insert.
      * rewrite fmap_app, fmap_cons in Hn1. apply NoDup_app in Hn1 as (_ & _ & Hn1). apply NoDup_cons in Hn1 as [Hn1 _].
        rewrite fmap_cons. by apply not_elem_of_cons.
      * cbn [chain]. split_and!; try done. exists n. split; [apply lookup_insert_eq|]. apply nodes_insert; [|done].
        intros Hin. apply Ha1. rewrite fmap_app. apply elem_of_app. right. by right.
    + rewrite fmap_app, !fmap_cons. cbn [fst]. rewrite fmap_app, fmap_cons in Hn1, Ha1. cbn [fst] in *.
      rewrite (Permutation_swap a p), <- Permutation_middle. by apply NoDup_cons.
    + rewrite map_size_insert_Some by (exists (Node v n); unfold h1; by rewrite lookup_insert_ne). unfold h1.
      rewrite map_size_insert_None by done. apply (f_equal length) in E. rewrite length_app in E. simpl in *. lia.
    + rewrite fmap_cons, E2 in Hrep. split; [|done].
      unfold listinsert. rewrite Ew. cbn [mbind outcome_bind fst]. destruct (Z.eqb_spec p NULL); [done|].
      destruct (Z.ltb_spec i 1); [lia|]. cbn [orb]. rewrite (node_deref p _ h Hp Ep). cbn [mbind outcome_bind next].
      unfold create. destruct (Z.eqb_spec a NULL); [done|]. cbn [mbind outcome_bind].
      rewrite (node_set_next p a (Node v n)); [done|done|]. by rewrite lookup_insert_ne by done.
  - rewrite decide_False by lia. destruct Hw as [j Ew]. exists h. split; [|by exists d, cells].
    unfold listinsert. by rewrite Ew.
Qed.

Definition delete_spec (i : Z) (xs : list Z) : outcome (option Z * list Z) :=
  if i <? 1 then Done (None, xs)
  else match xs !! Z.to_nat (i - 1) with
  | Some v => Done (Some v, take (Z.to_nat (i - 1)) xs ++ drop (Z.to_nat i) xs)
  | None => if i =? Z.of_nat (length xs) + 1 then Done (None, xs) else Fault NullDeref
  end.

(** An outcome of the specification with a state that is represented. *)
Definition implements {A} (others : nat) (l : addr) (m : outcome (A * heap)) (spec : outcome (A * list Z)) : Prop :=
  match spec with
  | Done (r, xs) => exists h, m = Done (r, h) /\ rep others h l xs
  | Fault f => m = Fault f
  end.

Lemma listdelete_spec others l i h xs :
  rep others h l xs -> i < 2 ^ 31 -> implements others l (listdelete l i h) (delete_spec i xs).
Proof.
  intros (d & cells & Hc & Hn & <- & Hs) Hi. unfold delete_spec.
  destruct (Z.ltb_spec i 1) as [Hlow|Hlow].
  { exists h. split; [|by exists d, cells]. cbn [chain] in Hc. destruct Hc as (_ & Hl & n & En & _).
    unfold listdelete. assert (walk (rounds h) l 1 i h = Done (l, 1)) as ->.
    { unfold rounds. cbn [walk]. destruct (Z.ltb_spec 1 i); [lia|]. by rewrite orb_true_r. }
    cbn [mbind outcome_bind]. rewrite (node_deref l _ h Hl En). cbn [mbind outcome_bind].
    destruct (Z.ltb_spec i 1); [|lia]. by rewrite orb_true_r. }
  pose proof (walk_cells h l d cells i Hc Hn ltac:(lia)) as Hw. rewrite list_lookup_fmap, length_fmap.
  case_decide as Hlen.
  - destruct Hw as (l1 & p & v & l2 & E & Hl1 & Ew). rewrite E in Hc.
    destruct (nodes_app _ _ _ _ _ _ Hc) as (Hp & n & Ep & H2). rewrite <- Hl1.
    assert (NoDup (l1 ++ (p, v) :: l2).*1) as Hn1 by (by rewrite <- E).
    unfold listdelete. rewrite Ew. cbn [mbind outcome_bind]. rewrite (node_deref p _ h Hp Ep). cbn [mbind outcome_bind next].
    destruct l2 as [|[q w] l2].
    + cbn [chain] in H2. subst n. assert (length cells = length l1) as El.
      { apply (f_equal length) in E. rewrite length_app in E. simpl in E. lia. }
      rewrite lookup_ge_None_2 by lia. destruct (Z.eqb_spec i (Z.of_nat (length cells) + 1)); [|lia].
      exists h. split; [done|]. exists d, cells. by rewrite E.
    + cbn [chain] in H2. destruct H2 as (-> & Hq & m & Em & H2).
      assert (cells !! length l1 = Some (q, w)) as Eq.
      { change (cells !! length l1) with (((l, d) :: cells) !! S (length l1)). rewrite E, lookup_app_r by lia.
        by replace (S (length l1) - length l1)%nat with 1%nat by lia. }
      rewrite Eq. cbn [fmap option_fmap option_map snd].
      destruct (Z.eqb_spec q NULL); [done|]. destruct (Z.ltb_spec i i); [lia|]. cbn [orb].
      rewrite (node_deref q _ h Hq Em). cbn [mbind outcome_bind next data].
      rewrite (node_set_next p m _ h Hp Ep). cbn [mbind outcome_bind data]. set (h1 := <[p := Node v m]> h).
      rewrite fmap_app, !fmap_cons in Hn1. cbn [fst] in Hn1.
      apply NoDup_app in Hn1 as (N1 & N2 & N3). apply NoDup_cons in N3 as [N3 N4]. apply NoDup_cons in N4 as [N4 N5].
      assert (p <> q) by (intros ->; apply N3; by left). assert (p ∉ l2.*1) by (intros Hin; apply N3; by right).
      assert (h1 !! q = Some (Node w m)) as Eq1 by (unfold h1; by rewrite lookup_insert_ne).
      unfold free. destruct (Z.eqb_spec q NULL); [done|]. rewrite (node_deref q _ h1 Hq Eq1). cbn [mbind outcome_bind].
      exists (delete q h1). split; [done|].
      destruct (rep_intro others (delete q h1) l l1 p v ((q, w) :: l2) l2 d cells E) as [Hrep E2].
      * apply nodes_delete.
        { rewrite fmap_app, fmap_cons. cbn [fst]. intros [Hin|[Hin|Hin]%elem_of_cons]%elem_of_app; [|done..].
          apply (N2 q Hin). right. by left. }
        apply (nodes_relink _ _ _ _ _ ((q, w) :: l2)); [by rewrite <- E|done|]. by apply nodes_insert.
      * rewrite fmap_app, fmap_cons. cbn [fst]. apply NoDup_app. split; [done|]. split.
        { intros x Hx Hin. apply (N2 x Hx). apply elem_of_cons in Hin as [->|Hin]; [by left|by do 2 right]. }
        by apply NoDup_cons.
      * rewrite map_size_delete_Some by by eexists. unfold h1. rewrite map_size_insert_Some by by eexists.
        apply (f_equal length) in E. rewrite length_app in E. simpl in *. lia.
      * rewrite fmap_cons in E2. assert (drop (Z.to_nat i) cells.*2 = l2.*2) as ->; [|done].
        replace (Z.to_nat i) with (S (length l1)) by lia. rewrite <- Nat.add_1_r, <- drop_drop, <- E2. done.
  - destruct Hw as [j Ew]. rewrite lookup_ge_None_2 by lia. cbn [fmap option_fmap option_map].
    destruct (Z.eqb_spec i (Z.of_nat (length cells) + 1)); [lia|]. simpl. unfold listdelete. by rewrite Ew.
Qed.

Lemma getelem_spec others l i h xs :
  rep others h l xs -> i < 2 ^ 31 ->
  getelem l i h = Done (if i <? 1 then None else xs !! Z.to_nat (i - 1)).
Proof.
  intros (d & cells & Hc & Hn & <- & Hs) Hi. cbn [chain] in Hc. destruct Hc as (_ & Hl & n & En & Hc).
  assert (length cells <= rounds h)%nat as Hr by (unfold rounds; lia).
  unfold getelem. rewrite (node_deref l _ h Hl En). cbn [mbind outcome_bind next].
  rewrite (walk_run h i cells n 1 _ Hc Hr) by lia. cbn [mbind outcome_bind]. case_decide as H1; cbn [fst snd].
  - destruct (lookup_lt_is_Some_2 cells (Z.to_nat (i - 1)) H1) as [[a v] E].
    assert (nth (Z.to_nat (i - 1)) cells.*1 NULL = a) as -> by (apply nth_lookup_Some; by rewrite list_lookup_fmap, E).
    apply list_elem_of_lookup_2 in E as Hin. apply list_elem_of_split in Hin as (l1 & l2 & El). rewrite El in Hc.
    destruct (nodes_app _ _ _ _ _ _ Hc) as (Ha & m & Em & _). destruct (Z.eqb_spec a NULL); [done|]. cbn [orb].
    destruct (Z.ltb_spec i 1) as [Hlow|Hlow].
    + by destruct (Z.ltb_spec i (Z.max i 1)); [|lia].
    + destruct (Z.ltb_spec i (Z.max i 1)); [lia|]. rewrite (node_deref a _ h Ha Em), list_lookup_fmap, E. done.
  - cbn [orb]. destruct (Z.ltb_spec i 1); [done|]. rewrite list_lookup_fmap, lookup_ge_None_2 by lia. done.
Qed.

Lemma see_list_spec others l h xs : rep others h l xs -> see_list l h = Done xs.
Proof.
  intros (d & cells & Hc & Hn & <- & Hs). cbn [chain] in Hc. destruct Hc as (_ & Hl & n & En & Hc).
  unfold see_list. rewrite (node_deref l _ h Hl En). cbn [mbind outcome_bind next].
  assert (length cells <= rounds h)%nat as Hr by (unfold rounds; lia). clear -Hc Hr. revert n Hc Hr.
  generalize (rounds h) as fuel. intros fuel. revert cells.
  induction fuel as [|fuel IH]; intros [|[a v] cells] n Hc Hr; cbn [chain] in Hc; cbn [see_loop]; try (subst; done); [simpl in Hr; lia|].
  destruct Hc as (-> & Ha & m & E & Hc). destruct (Z.eqb_spec a NULL); [done|].
  rewrite (node_deref a _ h Ha E). cbn [mbind outcome_bind next data]. by rewrite (IH cells m Hc) by (simpl in Hr; lia).
Qed.

(** The loop frees the nodes and nothing else. *)
Lemma clear_loop_spec : forall fuel cells p h, chain h p cells -> NoDup cells.*1 -> (length cells <= fuel)%nat ->
  exists h', clear_loop fuel p h = Done h' /\ (size h' + length cells = size h)%nat /\
    forall a, a ∉ cells.*1 -> h' !! a = h !! a.
Proof.
  induction fuel as [|fuel IH]; intros [|[a v] cells] p h Hc Hn Hf; cbn [chain] in Hc; cbn [clear_loop];
    try (subst p; exists h; simpl; split_and!; try done; lia); [simpl in Hf; lia|].
  destruct Hc as (-> & Ha & n & E & Hc). apply NoDup_cons in Hn as [Hna Hn]. destruct (Z.eqb_spec a NULL); [done|].
  rewrite (node_deref a _ h Ha E). cbn [mbind outcome_bind next]. unfold free. destruct (Z.eqb_spec a NULL); [done|].
  rewrite (node_deref a _ h Ha E). cbn [mbind outcome_bind].
  destruct (IH cells n (delete a h)) as (h' & E' & Hs & Hsame); [by apply nodes_delete|done|simpl in Hf; lia|].
  exists h'. split; [done|]. split.
  - rewrite map_size_delete_Some in Hs by by eexists. assert (size h <> 0%nat); [|simpl; lia].
    intros E0. apply map_size_empty_inv in E0. by subst.
  - intros b Hb. rewrite fmap_cons in Hb. apply not_elem_of_cons in Hb as [Hb1 Hb2]. cbn in Hb1. rewrite Hsame by done. by apply lookup_delete_ne.
Qed.

Lemma clearlist_spec others l h xs : rep others h l xs -> exists h', clearlist l h = Done h' /\ rep others h' l [].
Proof.
  intros (d & cells & Hc & Hn & <- & Hs). cbn [chain] in Hc. destruct Hc as (_ & Hl & n & En & Hc).
  apply NoDup_cons in Hn as [Hln Hn].
  destruct (clear_loop_spec (rounds h) cells n h Hc Hn) as (h1 & E & Hs1 & Hsame); [unfold rounds; lia|].
  unfold clearlist. rewrite (node_deref l _ h Hl En). cbn [mbind outcome_bind next]. rewrite E. cbn [mbind outcome_bind].
  assert (h1 !! l = Some (Node d n)) as El by by rewrite Hsame.
  rewrite (node_set_next l NULL _ h1 Hl El). eexists. split; [done|]. exists d, []. cbn [chain]. split_and!; try done.
  - exists NULL. by rewrite lookup_insert_eq.
  - repeat constructor. apply not_elem_of_nil.
  - rewrite map_size_insert_Some by by eexists. simpl. lia.
Qed.

(** [done] is what was turned round, [todo] what is left. *)
Lemma revers_loop_spec others l d : forall fuel done todo p h, chain h p todo -> chain h l ((l, d) :: done) ->
  NoDup (l :: (done ++ todo).*1) -> (length todo <= fuel)%nat -> size h = (S (length (done ++ todo)) + others)%nat ->
  exists h', revers_loop fuel l p h = Done h' /\ rep others h' l (rev todo.*2 ++ done.*2).
Proof.
  induction fuel as [|fuel IH]; intros dn [|[a v] todo] p h Hc Hd Hn Hf Hs; cbn [chain] in Hc; cbn [revers_loop];
    try (subst p; exists h; rewrite app_nil_r in *; split; [done|]; by exists d, dn); [simpl in Hf; lia|].
  destruct Hc as (-> & Ha & n & E & Hc). destruct (Z.eqb_spec a NULL); [done|].
  rewrite (node_deref a _ h Ha E). cbn [mbind outcome_bind next data].
  cbn [chain] in Hd. destruct Hd as (_ & Hl & m & El & Hd). rewrite (node_deref l _ h Hl El). cbn [mbind outcome_bind next].
  rewrite (node_set_next a m _ h Ha E). cbn [mbind outcome_bind data]. set (h1 := <[a := Node v m]> h).
  rewrite fmap_app, fmap_cons in Hn. cbn [fst] in Hn. rewrite <- Permutation_middle in Hn.
  assert (l <> a /\ l ∉ dn.*1 /\ l ∉ todo.*1 /\ a ∉ dn.*1 /\ a ∉ todo.*1) as (Hla & L1 & L2 & A1 & A2).
  { apply NoDup_cons in Hn as [H1 H2]. apply NoDup_cons in H2 as [H2 _].
    rewrite elem_of_cons, elem_of_app in H1. rewrite elem_of_app in H2. naive_solver. }
  assert (h1 !! l = Some (Node d m)) as El1 by (unfold h1; by rewrite lookup_insert_ne).
  rewrite (node_set_next l a _ h1 Hl El1). cbn [mbind outcome_bind data]. set (h2 := <[l := Node d a]> h1).
  destruct (IH ((a, v) :: dn) todo n h2) as (h' & E' & Hrep).
  - apply nodes_insert; [done|]. by apply nodes_insert.
  - cbn [chain]. split_and!; try done. exists a. split; [apply lookup_insert_eq|]. split_and!; try done. exists m.
    split; [unfold h2; rewrite lookup_insert_ne by done; apply lookup_insert_eq|]. apply nodes_insert; [done|]. by apply nodes_insert.
  - by rewrite <- app_comm_cons, fmap_cons, fmap_app.
  - simpl in Hf. lia.
  - unfold h2. rewrite map_size_insert_Some by by eexists. unfold h1. rewrite map_size_insert_Some by by eexists.
    rewrite length_app in *. simpl in *. lia.
  - exists h'. split; [done|]. rewrite !fmap_cons in *. cbn [rev snd] in *. by rewrite <- app_assoc.
Qed.

Lemma revers_spec others l h xs : rep others h l xs -> exists h', revers l h = Done h' /\ rep others h' l (rev xs).
Proof.
  intros (d & cells & Hc & Hn & <- & Hs). cbn [chain] in Hc. destruct Hc as (_ & Hl & n & En & Hc).
  unfold revers. rewrite (node_deref l _ h Hl En). cbn [mbind outcome_bind next].
  rewrite (node_set_next l NULL _ h Hl En). cbn [mbind outcome_bind data]. pose proof Hn as [Hln _]%NoDup_cons.
  destruct (revers_loop_spec others l d (rounds (<[l := Node d NULL]> h)) [] cells n (<[l := Node d NULL]> h)) as (h' & E & Hrep).
  - by apply nodes_insert.
  - cbn [chain]. split_and!; try done. exists NULL. by rewrite lookup_insert_eq.
  - done.
  - unfold rounds. rewrite map_size_insert_Some by by eexists. lia.
  - rewrite map_size_insert_Some by by eexists. done.
  - exists h'. rewrite app_nil_r in Hrep. done.
Qed.

(** ** Programs on one list *)

Inductive op := Get (i : Z) | Insert (i e : Z) | Delete (i : Z) | See | Clear | Reverse.

Definition index_fits (o : op) : Prop :=
  match o with Get i | Insert i _ | Delete i => i < 2 ^ 31 | _ => True end.

Section Programs.

(** [malloc]. *)
Context (new : heap -> addr).

Definition run_op (l : addr) (o : op) (h : heap) : outcome (list Z * heap) :=
  match o with
  | Get i => r ← getelem l i h; Done (option_list r, h)
  | Insert i e => r ← listinsert l i e (new h) h; Done ([r.1], r.2)
  | Delete i => r ← listdelete l i h; Done (option_list r.1, r.2)
  | See => r ← see_list l h; Done (r, h)
  | Clear => h ← clearlist l h; Done ([], h)
  | Reverse => h ← revers l h; Done ([], h)
  end.

(** On the list itself; deleting two or more behind the last element follows a
    null pointer. *)
Definition spec_op (o : op) (xs : list Z) : outcome (list Z * list Z) :=
  match o with
  | Get i => Done (option_list (if i <? 1 then None else xs !! Z.to_nat (i - 1)), xs)
  | Insert i e => Done ([(insert_spec i e xs).1], (insert_spec i e xs).2)
  | Delete i => r ← delete_spec i xs; Done (option_list r.1, r.2)
  | See => Done (xs, xs)
  | Clear => Done ([], [])
  | Reverse => Done ([], rev xs)
  end.

Fixpoint run {S} (step : op -> S -> outcome (list Z * S)) (os : list op) (s : S) : outcome (list (list Z) * S) :=
  match os with
  | [] => Done ([], s)
  | o :: os => r ← step o s; r' ← run step os r.2; Done (r.1 :: r'.1, r'.2)
  end.

Definition fresh_new : Prop := forall h, new h <> NULL /\ h !! new h = None.

Lemma op_implements others l o h xs :
  fresh_new -> index_fits o -> rep others h l xs -> implements others l (run_op l o h) (spec_op o xs).
Proof.
  intros Hnew Hi Hrep. destruct o as [i|i e|i| | |]; cbn [run_op spec_op index_fits] in *.
  - rewrite (getelem_spec others l i h xs) by done. by exists h.
  - destruct (Hnew h) as [Hn0 Hn1]. destruct (listinsert_spec others l i e (new h) h xs) as (h' & E & H'); [done..|].
    rewrite E. by exists h'.
  - pose proof (listdelete_spec others l i h xs Hrep Hi) as Hd. destruct (delete_spec i xs) as [[r ys]|f].
    + unfold implements in Hd. destruct Hd as (h' & E & H'). rewrite E. by exists h'.
    + unfold implements in Hd. by rewrite Hd.
  - rewrite (see_list_spec others l h xs) by done. by exists h.
  - destruct (clearlist_spec others l h xs Hrep) as (h' & E & H'). rewrite E. by exists h'.
  - destruct (revers_spec others l h xs Hrep) as (h' & E & H'). rewrite E. by exists h'.
Qed.


End Programs.

(** A memory with the list 5, 6, 7 behind the head node 1. *)
Definition ex_heap : heap := {[1 := Node 0 2; 2 := Node 5 3; 3 := Node 6 4; 4 := Node 7 NULL]}.
Definition ex_new (h : heap) : addr := fresh ({[NULL]} ∪ dom h).
Definition ex_program : list op := [Insert 2 9; Reverse; Delete 1; See; Get 3; Insert 9 1; Delete 9].


End LnodeFacts.

(** ** [LinkQueue.c] *)

Module QueueFacts.
Import Lnode LinkQueue LnodeFacts.

(** The queue holds [xs]: its front is the head node of a list whose last node
    is the rear. *)
Definition queue_rep (others : nat) (h : heap) (q : queue) (xs : list Z) : Prop :=
  exists d cells, chain h (front q) ((front q, d) :: cells) /\ NoDup (front q :: cells.*1) /\ cells.*2 = xs /\
    size h = (S (length cells) + others)%nat /\ last (front q :: cells.*1) = Some (rear q).

(** Elements are appended at the end. *)
Lemma in_queue_spec others q e p h xs :
  queue_rep others h q xs -> p <> NULL -> h !! p = None ->
  exists h', InQueue q e p h = Done (Queue (front q) p, h') /\ queue_rep others h' (Queue (front q) p) (xs ++ [e]).
Proof.
  intros (d & cells & Hc & Hn & <- & Hs & Hr) Hp Hfresh.
  assert (exists l1 v, (front q, d) :: cells = l1 ++ [(rear q, v)]) as (l1 & v & E).
  { change (front q :: cells.*1) with ((front q, d) :: cells).*1 in Hr. rewrite fmap_last in Hr.
    destruct (last ((front q, d) :: cells)) as [[a v]|] eqn:E; [|done]. injection Hr as <-.
    apply last_Some in E as [l1 E]. by exists l1, v. }
  rewrite E in Hc. destruct (nodes_app _ _ _ _ _ _ Hc) as (Hr0 & n & Er & ->). 
  assert (p ∉ (l1 ++ [(rear q, v)]).*1) as Hp1.
  { intros ([b w] & -> & Hb)%list_elem_of_fmap. apply list_elem_of_split in Hb as (k1 & k2 & Ek). rewrite Ek in Hc.
    destruct (nodes_app _ _ _ _ _ _ Hc) as (_ & m & Em & _). cbn in Hfresh. congruence. }
  assert (rear q <> p) by (intros E'; rewrite E' in Er; congruence).
  assert (NoDup (l1 ++ [(rear q, v)]).*1) as Hn1 by by rewrite <- E.
  set (h1 := <[p := Node e NULL]> h). unfold InQueue, create. destruct (Z.eqb_spec p NULL); [done|]. cbn [mbind outcome_bind]. fold h1.
  assert (h1 !! rear q = Some (Node v NULL)) as E1 by (unfold h1; by rewrite lookup_insert_ne).
  rewrite (node_set_next (rear q) p _ h1 Hr0 E1). cbn [mbind outcome_bind data]. eexists. split; [done|].
  exists d, (cells ++ [(p, e)]). cbn [front rear]. split_and!.
  - rewrite app_comm_cons, E, <- app_assoc. apply (nodes_relink _ _ _ _ _ []); [done|by apply nodes_insert|].
    apply nodes_insert; [simpl; intros [?|?%elem_of_nil]%elem_of_cons; done|]. cbn [chain]. split_and!; try done.
    exists NULL. split; [apply lookup_insert_eq|done].
  - change (front q :: (cells ++ [(p, e)]).*1) with (((front q, d) :: cells) ++ [(p, e)]).*1. rewrite E, fmap_app.
    cbn [fmap list_fmap fst]. apply NoDup_app. split; [done|]. split; [|apply NoDup_singleton].
    intros a Ha ->%list_elem_of_singleton. by apply Hp1.
  - by rewrite fmap_app.
  - rewrite map_size_insert_Some by by eexists. unfold h1. rewrite map_size_insert_None by done. rewrite length_app. simpl. lia.
  - rewrite fmap_app, app_comm_cons. cbn [fmap list_fmap fst]. apply last_snoc.
Qed.

(** Printing shows the queue in order of arrival. *)
Lemma print_queue_spec others q h xs : queue_rep others h q xs -> PrintQueue q h = Done xs.
Proof. intros (d & cells & Hc & Hn & E & Hs & _). apply (see_list_spec others). by exists d, cells. Qed.

(** Taking elements out: the oldest go first.  Nothing tests whether there are
    any left: taking one more than there are frees the rear and leaves
    [front] null, and one more follows it. *)
Lemma out_queue_spec others : forall i q h xs, queue_rep others h q xs -> (i <= length xs)%nat ->
  exists q' h', OutQueue i q h = Done (q', h') /\ rear q' = rear q /\ queue_rep others h' q' (drop i xs).
Proof.
  induction i as [|i IH]; intros q h xs Hq Hi; [by exists q, h|].
  destruct Hq as (d & cells & Hc & Hn & <- & Hs & Hr). rewrite length_fmap in Hi. destruct cells as [|[a v] cells]; [simpl in Hi; lia|].
  pose proof Hc as Hc0. cbn [chain] in Hc. destruct Hc as (_ & Hf & n & En & -> & Ha & Hrest).
  cbn [OutQueue]. rewrite (node_deref _ _ h Hf En). cbn [mbind outcome_bind next]. unfold free.
  destruct (Z.eqb_spec (front q) NULL); [done|]. rewrite (node_deref _ _ h Hf En). cbn [mbind outcome_bind].
  apply NoDup_cons in Hn as [Hna Hn].
  destruct (IH (Queue a (rear q)) (delete (front q) h) cells.*2) as (q' & h' & E & Er & Hq').
  - exists v, cells. cbn [front rear]. split_and!; try done.
    + apply (nodes_delete h a ((a, v) :: cells)); [done|]. by split.
    + rewrite map_size_delete_Some by by eexists. simpl in *. lia.
  - rewrite length_fmap. simpl in Hi. lia.
  - exists q', h'. by rewrite E.
Qed.

Theorem out_queue_empty others q h :
  queue_rep others h q [] -> OutQueue 2 q h = Fault NullDeref.
Proof.
  intros (d & cells & Hc & Hn & E & Hs & Hr). destruct cells; [|done]. cbn [chain] in Hc. destruct Hc as (_ & Hf & n & En & ->).
  cbn [OutQueue]. rewrite (node_deref _ _ h Hf En). cbn [mbind outcome_bind next]. unfold free.
  destruct (Z.eqb_spec (front q) NULL); [done|]. by rewrite (node_deref _ _ h Hf En).
Qed.

End QueueFacts.

(** ** [DLnode.c] *)

Module DLnodeFacts.
Import DLnode.

(** The nodes from [p] on; the first one's predecessor is [b]. *)
Fixpoint chain (h : heap) (b p : addr) (l : list (addr * Z)) : Prop :=
  match l with
  | [] => p = NULL
  | (a, v) :: l => p = a /\ a <> NULL /\ exists n, h !! a = Some (Node v n b) /\ chain h a n l
  end.

Definition rep (h : heap) (l : addr) (xs : list Z) : Prop :=
  exists d cells, chain h NULL l ((l, d) :: cells) /\ NoDup (l :: cells.*1) /\ cells.*2 = xs /\ (length cells < size h)%nat.

Lemma dnode_deref a x h : a <> NULL -> h !! a = Some x -> deref a h = Done x.
Proof. intros Ha E. unfold deref. destruct (Z.eqb_spec a NULL); [done|]. by rewrite E. Qed.

Lemma dnode_set_next a n x h :
  a <> NULL -> h !! a = Some x -> set_next a n h = Done (<[a := Node (data x) n (prior x)]> h).
Proof. intros Ha E. unfold set_next. by rewrite (dnode_deref a x). Qed.

Lemma dnode_set_prior a n x h :
  a <> NULL -> h !! a = Some x -> set_prior a n h = Done (<[a := Node (data x) (next x) n]> h).
Proof. intros Ha E. unfold set_prior. by rewrite (dnode_deref a x). Qed.

Lemma dnodes_insert h b p l a x : a ∉ l.*1 -> chain (<[a := x]> h) b p l <-> chain h b p l.
Proof.
  revert b p. induction l as [|[c v] l IH]; intros b p Ha; cbn [chain fmap list_fmap fst] in *; [done|].
  apply not_elem_of_cons in Ha as [Hab Ha].
  split; intros (-> & Hb & n & E & Hc); split_and!; try done; exists n; (split; [|by apply (IH c n Ha)]).
  - by rewrite lookup_insert_ne in E.
  - by rewrite lookup_insert_ne.
Qed.

(** Where the last node is, and the chain with another one behind it. *)
Lemma last_node_run : forall cells fuel b a v h, chain h b a ((a, v) :: cells) -> NoDup (a :: cells.*1) -> (length cells <= fuel)%nat ->
  exists z w c, last_node fuel a h = Done z /\ h !! z = Some (Node w NULL c) /\ z <> NULL /\ z ∈ a :: cells.*1 /\
    forall p d, p <> NULL -> p ∉ a :: cells.*1 ->
      chain (<[p := Node d NULL z]> (<[z := Node w p c]> h)) b a ((a, v) :: cells ++ [(p, d)]).
Proof.
  induction cells as [|[a2 v2] cells IH]; intros fuel b a v h Hc Hn Hf; cbn [chain] in Hc; destruct Hc as (_ & Ha & n & E & Hc).
  - subst n. exists a, v, b. assert (last_node fuel a h = Done a) as Er.
    { destruct fuel; cbn [last_node]; rewrite (dnode_deref a _ h Ha E); done. }
    split_and!; try done; [by left|]. intros p d Hp Hin. cbn [app chain]. split_and!; try done. exists p.
    split; [|split; [done|]; split; [done|]; exists NULL; split; [apply lookup_insert_eq|done]]. rewrite lookup_insert_ne; [apply lookup_insert_eq|]. intros ->. apply Hin. by left.
  - cbn [chain] in Hc. pose proof Hc as (-> & Ha2 & m & E2 & Hc2). apply NoDup_cons in Hn as [Hna Hn].
    destruct fuel as [|fuel]; [simpl in Hf; lia|].
    destruct (IH fuel a a2 v2 h) as (z & w & c & El & Ez & Hz & Hin & Hext); [done|done|simpl in Hf; lia|].
    exists z, w, c. cbn [last_node]. rewrite (dnode_deref a _ h Ha E). cbn [mbind outcome_bind next].
    destruct (Z.eqb_spec a2 NULL); [done|]. split_and!; try done; [by right|]. intros p d Hp Hpin.
    cbn [app chain]. split_and!; try done. exists a2. split.
    + rewrite lookup_insert_ne by (intros ->; apply Hpin; by left). rewrite lookup_insert_ne; [done|]. by intros ->.
    + apply (Hext p d Hp). intros Hp2. apply Hpin. by right.
Qed.

(** An element that is added at the end comes last. *)
Theorem insert_tail_spec l d a h xs :
  rep h l xs -> a <> NULL -> h !! a = None -> exists h', DlistInsertTail l d a h = Done (0, h') /\ rep h' l (xs ++ [d]).
Proof.
  intros (d0 & cells & Hc & Hn & <- & Hs) Ha Hfresh.
  destruct (last_node_run cells (size h) NULL l d0 h Hc Hn) as (z & w & c & El & Ez & Hz & Hin & Hext); [lia|].
  assert (a ∉ l :: cells.*1) as Hal.
  { change (l :: cells.*1) with ((l, d0) :: cells).*1. clear -Hc Hfresh. revert Hc.
    generalize NULL as b. generalize l at 1 as p. generalize ((l, d0) :: cells) as cs.
    induction cs as [|[x v] cs IH]; intros p b; cbn [chain fmap list_fmap fst]; [intros _; apply not_elem_of_nil|].
    intros (-> & _ & n & E & Hc). apply not_elem_of_cons. split; [intros ->; congruence|by apply (IH n x)]. }
  assert (z <> a) by (intros ->; by apply Hal).
  unfold DlistInsertTail. rewrite El. cbn [mbind outcome_bind]. unfold Dlist_creat_node. destruct (Z.eqb_spec a NULL); [done|].
  destruct (Z.eqb_spec a NULL); [done|].
  rewrite (dnode_set_next z a (Node w NULL c)) by (try done; by rewrite lookup_insert_ne). cbn [mbind outcome_bind data prior].
  rewrite (dnode_set_prior a z (Node d NULL NULL)) by (try done; rewrite lookup_insert_ne by done; apply lookup_insert_eq).
  cbn [mbind outcome_bind data next]. eexists. split; [done|].
  rewrite (insert_insert_ne _ z a) by done. rewrite insert_insert_eq.
  exists d0, (cells ++ [(a, d)]). split_and!.
  - by apply (Hext a d).
  - rewrite fmap_app, app_comm_cons. cbn [fmap list_fmap fst]. apply NoDup_app. split; [done|]. split; [|apply NoDup_singleton].
    intros x Hx ->%list_elem_of_singleton. by apply Hal.
  - by rewrite fmap_app.
  - rewrite map_size_insert_None by (rewrite lookup_insert_ne by done; done). rewrite map_size_insert_Some by by eexists.
    rewrite length_app. simpl. lia.
Qed.

(** The first element cannot be added in front: the code writes through the
    null pointer behind the head node. *)
Theorem insert_head_empty l d a h :
  rep h l [] -> a <> NULL -> h !! a = None -> Dlist_insert_head l d a h = Fault NullDeref.
Proof.
  intros (d0 & [|] & Hc & Hn & E & Hs) Ha Hfresh; [|done]. cbn [chain] in Hc. destruct Hc as (_ & Hl & n & El & ->).
  assert (l <> a) by (intros ->; congruence).
  unfold Dlist_insert_head, Dlist_creat_node. destruct (Z.eqb_spec a NULL); [done|]. destruct (Z.eqb_spec a NULL); [done|].
  unfold link. rewrite (dnode_deref l (Node d0 NULL NULL)) by (try done; by rewrite lookup_insert_ne). cbn [mbind outcome_bind next].
  rewrite (dnode_set_next a NULL (Node d NULL NULL)) by (try done; apply lookup_insert_eq). cbn [mbind outcome_bind data prior].
  rewrite insert_insert_eq.
  rewrite (dnode_set_prior a l (Node d NULL NULL)) by (try done; apply lookup_insert_eq). cbn [mbind outcome_bind data next].
  rewrite insert_insert_eq. rewrite (dnode_deref l (Node d0 NULL NULL)) by (try done; by rewrite lookup_insert_ne). done.
Qed.

(** The last element cannot be deleted: it has no successor to point back. *)
Theorem delete_last l d h : rep h l [d] -> DlistDeleteValue l d h = Fault NullDeref.
Proof.
  intros (d0 & [|[a v] [|]] & Hc & Hn & E & Hs); [done| |done]. injection E as ->.
  cbn [chain] in Hc. destruct Hc as (_ & Hl & n & El & -> & Ha & m & Ea & ->).
  unfold DlistDeleteValue. destruct (size h) as [|k]; [simpl in Hs; lia|]. cbn [delete_loop].
  rewrite (dnode_deref l _ h Hl El). cbn [mbind outcome_bind next]. destruct (Z.eqb_spec a NULL); [done|].
  rewrite (dnode_deref a _ h Ha Ea). cbn [mbind outcome_bind data]. by rewrite Z.eqb_refl.
Qed.

End DLnodeFacts.

(** ** [stack.c] *)

Module StackFacts.
Import SeqStack.

(** [isEmpty] is 0 for the empty stack and -1 otherwise, but its callers take
    a non-zero value for empty: nothing can be taken off a stack that has
    something, and an empty one is read below its first element. *)
Theorem pop_inverted s :
  (top s <> -1 -> pop s = Done (None, s) /\ topStack s = Done 0) /\
  (top s = -1 -> pop s = Fault OutOfBounds /\ topStack s = Fault OutOfBounds).
Proof.
  unfold pop, topStack, isEmpty, entry. split; intros E.
  - by destruct (Z.eqb_spec (top s) (-1)).
  - rewrite E. done.
Qed.

(** Pushing stays inside the array: a full stack is left alone. *)
Theorem push_bounds s x :
  -1 <= top s < MAXSIZE -> length (data s) = 100%nat ->
  -1 <= top (push s x) < MAXSIZE /\ length (data (push s x)) = 100%nat /\
  (top s < MAXSIZE - 1 -> entry (push s x) = Done x) /\ (top s = MAXSIZE - 1 -> push s x = s).
Proof.
  unfold push, MAXSIZE. intros Ht Hl. destruct (Z.leb_spec (100 - 1) (top s)).
  - split_and!; try done; lia.
  - cbn [top data]. rewrite length_insert. split_and!; try done; try lia. intros _. unfold entry. cbn [top data].
    destruct (Z.ltb_spec (top s + 1) 0); [lia|]. rewrite list_lookup_insert_eq by lia. done.
Qed.

End StackFacts.

(** ** [hello.c] *)

Module SqlistFacts.
Import Sqlist.

(** A list in its array. *)
Definition holds (s : sqlist) (l : list Z) : Prop :=
  length (arr s) = maxSize /\ len s = Z.of_nat (length l) /\ exists r, arr s = l ++ r.

Lemma entry_app l x r n : at_ (SqList (l ++ x :: r) n) (Z.of_nat (length l)) = Done x.
Proof.
  unfold at_. rewrite (proj2 (Z.ltb_ge _ 0)) by lia. cbn [arr]. by rewrite Nat2Z.id, list_lookup_middle.
Qed.

Lemma put_app l x y r n : put (Z.of_nat (length l)) y (SqList (l ++ x :: r) n) = Done (SqList (l ++ y :: r) n).
Proof.
  unfold put. rewrite entry_app. cbn [mbind outcome_bind arr len]. rewrite Nat2Z.id.
  by rewrite (list_insert_middle l r x y) || (f_equal; f_equal; rewrite insert_app_r_alt, Nat.sub_diag by lia).
Qed.

(** What [findElem] returns: the first greater element, or the length. *)
Lemma find_elem_spec x r n l : forall pre,
  exists l1 l2, l = l1 ++ l2 /\ Forall (fun d => d <= x) l1 /\ Forall (fun d => x < d) (take 1 l2) /\
    find_loop (length l) (Z.of_nat (length pre)) x (SqList (pre ++ l ++ r) n) = Done (Z.of_nat (length pre + length l1)).
Proof.
  induction l as [|d l IH]; intros pre.
  { exists [], []. cbn [length find_loop]. rewrite Nat.add_0_r. by repeat split; try constructor. }
  cbn [length find_loop app]. rewrite entry_app. cbn [mbind outcome_bind]. destruct (Z.ltb_spec x d).
  - exists [], (d :: l). cbn [length]. rewrite Nat.add_0_r. split_all; [done|constructor|by repeat constructor|done].
  - destruct (IH (pre ++ [d])) as (l1 & l2 & -> & H1 & H2 & E). exists (d :: l1), l2.
    rewrite !(length_app pre) in E. cbn [length] in E.
    replace (Z.of_nat (length pre) + 1) with (Z.of_nat (length pre + 1)) by lia.
    rewrite <- app_assoc in E. cbn [app] in E. rewrite E.
    split_all; [done|by constructor|done|]. cbn [length]. do 2 f_equal. lia.
Qed.

Lemma up_loop_spec n l2 : forall l1 y r,
  exists z, up_loop (length l2) (Z.of_nat (length l1 + length l2) - 1) (SqList (l1 ++ l2 ++ y :: r) n) =
    Done (SqList (l1 ++ z :: l2 ++ r) n).
Proof.
  induction l2 as [|x l2 IH] using rev_ind; intros l1 y r; [by exists y|].
  rewrite length_app, Nat.add_comm. cbn [length Nat.add up_loop].
  replace (Z.of_nat (length l1 + S (length l2)) - 1) with (Z.of_nat (length (l1 ++ l2))) by (rewrite length_app; lia).
  replace (l1 ++ (l2 ++ [x]) ++ y :: r) with ((l1 ++ l2) ++ x :: y :: r) by by rewrite <- !app_assoc.
  rewrite entry_app. cbn [mbind outcome_bind].
  replace (Z.of_nat (length (l1 ++ l2)) + 1) with (Z.of_nat (length ((l1 ++ l2) ++ [x]))) by (rewrite (length_app (l1 ++ l2)); simpl; lia).
  replace ((l1 ++ l2) ++ x :: y :: r) with (((l1 ++ l2) ++ [x]) ++ y :: r) by by rewrite <- app_assoc.
  rewrite put_app. cbn [mbind outcome_bind].
  destruct (IH l1 x (x :: r)) as [z E]. exists z.
  replace (Z.of_nat (length (l1 ++ l2)) - 1) with (Z.of_nat (length l1 + length l2) - 1) by (rewrite length_app; lia).
  rewrite <- !app_assoc. cbn [app]. exact E.
Qed.

(** In the copy [insetElem] puts the element before the first greater one. *)
Lemma insert_copy s l x :
  holds s l -> (length l < maxSize)%nat ->
  exists l1 l2 s', l = l1 ++ l2 /\ Forall (fun d => d <= x) l1 /\ Forall (fun d => x < d) (take 1 l2) /\
    insetElem s x = Done s' /\ holds s' (l1 ++ x :: l2).
Proof.
  destruct s as [ar n]. intros (Hl & Hn & [r Er]) Hm. cbn [arr len] in *. subst ar n.
  destruct r as [|y r]; [rewrite app_nil_r in Hl; lia|].
  destruct (find_elem_spec x (y :: r) (Z.of_nat (length l)) l []) as (l1 & l2 & -> & H1 & H2 & E).
  destruct (up_loop_spec (Z.of_nat (length (l1 ++ l2))) l2 l1 y r) as [z Ez].
  exists l1, l2, (SqList (l1 ++ x :: l2 ++ r) (Z.of_nat (length (l1 ++ l2)) + 1)).
  split_all; [done..| |].
  - unfold insetElem, findElem. cbn [len]. rewrite Nat2Z.id. cbn [length app] in E. change (Z.of_nat 0) with 0 in E.
    rewrite E. cbn [mbind outcome_bind]. rewrite !length_app in *. rewrite <- app_assoc.
    replace (Z.to_nat _) with (length l2) by lia. rewrite Ez. cbn [mbind outcome_bind Nat.add]. rewrite put_app. done.
  - unfold holds. cbn [arr len]. split_all.
    + rewrite <- Hl. rewrite !length_app. simpl. rewrite length_app. lia.
    + rewrite !length_app. simpl. lia.
    + exists r. by rewrite <- app_assoc.
Qed.

(** With a full list it writes behind the array. *)
Lemma insert_full_overflows l x : length l = maxSize -> insetElem (SqList l 100) x = Fault OutOfBounds.
Proof.
  intros Hl. unfold insetElem, findElem. cbn [len].
  destruct (find_elem_spec x [] 100 l []) as (l1 & l2 & -> & _ & _ & E). rewrite app_nil_r in E. cbn [length app] in E.
  change (Z.of_nat 0) with 0 in E. change (Z.to_nat 100) with maxSize. rewrite <- Hl at 1. rewrite E. cbn [mbind outcome_bind].
  assert (forall i (s : sqlist), Z.of_nat (length (arr s)) <= i -> at_ s i = Fault OutOfBounds) as Hout.
  { intros i s Hi. unfold at_. rewrite (proj2 (Z.ltb_ge i 0)) by lia. by rewrite lookup_ge_None_2 by lia. }
  unfold maxSize in Hl. rewrite length_app in Hl. destruct l2 as [|y l2].
  - replace (Z.to_nat _) with 0%nat by (simpl in *; lia). cbn [up_loop mbind outcome_bind]. unfold put.
    rewrite Hout; [done|]. cbn [arr]. rewrite app_nil_r. lia.
  - destruct (Z.to_nat (100 - _)) as [|k] eqn:Ek; [simpl in *; lia|]. cbn [up_loop].
    destruct (at_ _ (100 - 1)) as [v|f] eqn:Ev; [|unfold at_ in Ev; simpl in Ev; destruct ((l1 ++ y :: l2) !! _) eqn:Eq; [done|]].
    + cbn [mbind outcome_bind]. unfold put. rewrite Hout; [done|]. cbn [arr]. rewrite length_app. lia.
    + apply lookup_ge_None in Eq. rewrite length_app in Eq. lia.
Qed.

Lemma down_loop_spec n m : forall l1 x r,
  exists z, down_loop (length m) (Z.of_nat (length l1)) (SqList (l1 ++ x :: m ++ r) n) = Done (SqList (l1 ++ m ++ z :: r) n).
Proof.
  induction m as [|y m IH]; intros l1 x r; [by exists x|]. cbn [length down_loop app].
  replace (Z.of_nat (length l1) + 1) with (Z.of_nat (length (l1 ++ [x]))) by (rewrite length_app; simpl; lia).
  replace (l1 ++ x :: y :: m ++ r) with ((l1 ++ [x]) ++ y :: m ++ r) by by rewrite <- app_assoc.
  rewrite entry_app. cbn [mbind outcome_bind]. rewrite <- app_assoc. cbn [app]. rewrite put_app. cbn [mbind outcome_bind].
  destruct (IH (l1 ++ [y]) y r) as [z E]. exists z. rewrite <- !app_assoc in E. cbn [app] in E.
  by rewrite length_app in *.
Qed.

(** In the copy [deleteElem] takes out the element asked for. *)
Lemma delete_copy s l1 x l2 :
  holds s (l1 ++ x :: l2) -> (length (l1 ++ x :: l2) < maxSize)%nat ->
  exists s', deleteElem s (Z.of_nat (length l1)) = Done (0, s') /\ holds s' (l1 ++ l2).
Proof.
  destruct s as [ar n]. intros (Hl & Hn & [r Er]) Hm. cbn [arr len] in *. subst ar n.
  destruct r as [|y r]; [rewrite app_nil_r in Hl; lia|].
  destruct (down_loop_spec (Z.of_nat (length (l1 ++ x :: l2))) (l2 ++ [y]) l1 x r) as [z E].
  exists (SqList (l1 ++ l2 ++ y :: z :: r) (Z.of_nat (length (l1 ++ x :: l2)) - 1)). split.
  - unfold deleteElem. cbn [len]. rewrite (proj2 (Z.ltb_ge _ 0)), (proj2 (Z.ltb_ge _ _)) by (rewrite ?length_app; lia).
    cbn [orb]. rewrite <- app_assoc in *. cbn [app] in *. rewrite entry_app. cbn [mbind outcome_bind].
    replace (Z.to_nat _) with (length (l2 ++ [y])) by (rewrite !length_app; simpl; lia).
    rewrite <- app_assoc in E. cbn [app] in E. by rewrite E.
  - unfold holds. cbn [arr len]. repeat (rewrite !length_app in * || cbn [length] in *).
    split_all; [lia|lia|]. exists (y :: z :: r). by rewrite <- app_assoc.
Qed.

(** With a full list it reads behind the array. *)
Lemma delete_full_overreads l p : length l = maxSize -> 0 <= p < 100 -> deleteElem (SqList l 100) p = Fault OutOfBounds.
Proof.
  intros Hl Hp. unfold deleteElem. cbn [len].
  rewrite (proj2 (Z.ltb_ge p 0)), (proj2 (Z.ltb_ge 100 p)) by lia. cbn [orb].
  assert (forall s i, 0 <= i < Z.of_nat (length (arr s)) -> exists v, at_ s i = Done v) as Hin.
  { intros s i Hi. unfold at_. rewrite (proj2 (Z.ltb_ge i 0)) by lia.
    destruct (lookup_lt_is_Some_2 (arr s) (Z.to_nat i)) as [v ->]; [lia|by exists v]. }
  assert (forall k i s, length (arr s) = maxSize -> 0 <= i -> (0 < k)%nat -> i + Z.of_nat k = 100 ->
    down_loop k i s = Fault OutOfBounds) as Hd.
  { unfold maxSize. induction k as [|k IH]; intros i s Hs Hi Hk E; [lia|]. cbn [down_loop].
    destruct (decide (i = 99)) as [->|].
    - unfold at_. simpl. by rewrite lookup_ge_None_2 by lia.
    - destruct (Hin s (i + 1)) as [v ->]; [lia|]. cbn [mbind outcome_bind]. unfold put.
      destruct (Hin s i) as [w ->]; [lia|]. cbn [mbind outcome_bind]. apply IH; [by cbn [arr]; rewrite length_insert|lia..]. }
  unfold maxSize in *. destruct (Hin (SqList l 100) p) as [v ->]; [cbn [arr]; lia|]. cbn [mbind outcome_bind].
  rewrite Hd; [done|done|lia..].
Qed.

(** The calls of [main] change nothing: the list is passed by value. *)
Lemma calls_change_nothing a : main a = Done ([1; 2; 3; 4; 5; 0; 0; 0; 0; 0] ++ [a]).
Proof. reflexivity. Qed.

End SqlistFacts.
