(* ===== verification/JsonTree.v ===== *)
(** * JsonTree: the trees of [cJSON.c] in memory

    [CJson] takes the trees as values.  Here they are what the code makes of
    them: blocks that point to each other, children on a doubly linked list,
    strings in blocks of their own.  The functions that build, change, search
    and release trees are translated on a memory of such blocks; what
    [cJSON_malloc] returns is part of it.  A loop may follow as many pointers
    as there are blocks; a ring, on which the code would not end, is a fault. *)

From S2P Require Import Prelude CString.
Local Open Scope list_scope.
Local Open Scope Z_scope.

Module JsonTree.

Definition cJSON_False : Z := 0.
Definition cJSON_True : Z := 1.
Definition cJSON_NULL : Z := 2.
Definition cJSON_Number : Z := 3.
Definition cJSON_String : Z := 4.
Definition cJSON_Array : Z := 5.
Definition cJSON_Object : Z := 6.
Definition cJSON_IsReference : Z := 256.

(** What [malloc] returns, out of the answers it may still give: it never
    returns a block that is in use. *)
Fixpoint pick (used : addr -> bool) (M : list addr) : addr * list addr :=
  match M with
  | [] => (NULL, [])
  | a :: M => if a =? NULL then (NULL, M) else if used a then pick used M else (a, M)
  end.

Section Tree.

(** Doubles are a parameter, as in [CJson]. *)
Context {dbl : Type} (zero : dbl) (of_int : Z -> dbl) (to_int : dbl -> Z).

Record item := Item {
  next : addr; prev : addr; child : addr; type : Z;
  valuestring : addr; valueint : Z; valuedouble : dbl; string : addr
}.

(** A block holds an item, a text or an array of pointers. *)
Inductive block := BItem (x : item) | BText (s : cstring) | BPtrs (l : list addr).

Record heap := Heap { cells : gmap addr block; mallocs : list addr }.

Definition J (A : Type) : Type := heap -> outcome (A * heap).

#[local] Instance J_ret : MRet J := fun A a s => Done (a, s).
#[local] Instance J_bind : MBind J := fun A B k m s => match m s with Done (a, s) => k a s | Fault f => Fault f end.

Definition fault_ {A} (f : fault) : J A := fun _ => Fault f.

(** A block from [cJSON_malloc] with what is then written to it; null when
    there is no more memory. *)
Definition alloc (b : block) : J addr := fun s =>
  let '(a, M) := pick (fun a => bool_decide (is_Some (cells s !! a))) (mallocs s) in
  Done (a, Heap (if a =? NULL then cells s else <[a := b]> (cells s)) M).

Definition cJSON_free (a : addr) : J unit := fun s =>
  if a =? NULL then Done (tt, s)
  else match cells s !! a with
  | Some _ => Done (tt, Heap (delete a (cells s)) (mallocs s))
  | None => Fault UseAfterFree
  end.

Definition get (a : addr) : J item := fun s =>
  if a =? NULL then Fault NullDeref
  else match cells s !! a with Some (BItem x) => Done (x, s) | _ => Fault UseAfterFree end.

Definition put (a : addr) (x : item) : J unit :=
  _ ← get a; (fun s => Done (tt, Heap (<[a := BItem x]> (cells s)) (mallocs s))) : J unit.

Definition set_next (a n : addr) : J unit :=
  x ← get a; put a (Item n (prev x) (child x) (type x) (valuestring x) (valueint x) (valuedouble x) (string x)).
Definition set_prev (a p : addr) : J unit :=
  x ← get a; put a (Item (next x) p (child x) (type x) (valuestring x) (valueint x) (valuedouble x) (string x)).
Definition set_child (a c : addr) : J unit :=
  x ← get a; put a (Item (next x) (prev x) c (type x) (valuestring x) (valueint x) (valuedouble x) (string x)).
Definition set_string (a s : addr) : J unit :=
  x ← get a; put a (Item (next x) (prev x) (child x) (type x) (valuestring x) (valueint x) (valuedouble x) s).

Definition get_text (a : addr) : J cstring := fun s =>
  match cells s !! a with Some (BText t) => Done (t, s) | _ => Fault UseAfterFree end.

Definition set_text (a : addr) (t : cstring) : J unit :=
  _ ← get_text a; (fun s => Done (tt, Heap (<[a := BText t]> (cells s)) (mallocs s))) : J unit.

Definition get_ptrs (a : addr) : J (list addr) := fun s =>
  match cells s !! a with Some (BPtrs l) => Done (l, s) | _ => Fault UseAfterFree end.

Definition set_ptr (a : addr) (i : nat) (x : addr) : J unit :=
  l ← get_ptrs a;
  if decide (i < length l)%nat then (fun s => Done (tt, Heap (<[a := BPtrs (<[i := x]> l)]> (cells s)) (mallocs s))) : J unit
  else fault_ OutOfBounds.

Definition blocks_left : J nat := fun s => Done (size (cells s), s).

(** The two functions the library allocates with: those of the caller, if
    given, or the C library's. *)
Definition cJSON_InitHooks {M F} (malloc : M) (free : F) (hooks : option (option M * option F)) : M * F :=
  match hooks with None => (malloc, free) | Some (m, f) => (default malloc m, default free f) end.

(** ** Making and releasing *)

Definition cJSON_New_Item : J addr := alloc (BItem (Item NULL NULL NULL 0 NULL 0 zero NULL)).

Definition cJSON_strdup (str : cstring) : J addr := alloc (BText str).

Definition is_reference (x : item) : bool := negb (Z.land (type x) cJSON_IsReference =? 0).

(** The loop over an item and those behind it. *)
Fixpoint delete_loop (n : nat) (c : addr) : J unit :=
  if c =? NULL then mret tt
  else match n with
  | O => fault_ OutOfBounds
  | S n =>
    x ← get c;
    _ ← (if negb (is_reference x) && negb (child x =? NULL) then delete_loop n (child x) else mret tt);
    _ ← (if negb (is_reference x) && negb (valuestring x =? NULL) then cJSON_free (valuestring x) else mret tt);
    _ ← (if negb (string x =? NULL) then cJSON_free (string x) else mret tt);
    _ ← cJSON_free c;
    delete_loop n (next x)
  end.

Definition cJSON_Delete (c : addr) : J unit := n ← blocks_left; delete_loop n c.

(** ** Searching *)

Fixpoint count_loop (n : nat) (c : addr) (i : Z) : J Z :=
  if c =? NULL then mret i
  else match n with
  | O => fault_ OutOfBounds
  | S n => x ← get c; count_loop n (next x) (s32 (i + 1))
  end.

Definition cJSON_GetArraySize (array : addr) : J Z :=
  x ← get array; n ← blocks_left; count_loop n (child x) 0.

(** [while (c && which > 0) c = c->next, which--;] *)
Fixpoint walk (n : nat) (c : addr) (which : Z) : J addr :=
  if (c =? NULL) || negb (0 <? which) then mret c
  else match n with
  | O => fault_ OutOfBounds
  | S n => x ← get c; walk n (next x) (which - 1)
  end.

Definition cJSON_GetArrayItem (array : addr) (item : Z) : J addr :=
  x ← get array; n ← blocks_left; walk n (child x) item.

(** [!cJSON_strcasecmp (c->string, string)] *)
Definition same_name (x : item) (str : cstring) : J bool :=
  if string x =? NULL then mret false else t ← get_text (string x); mret (strcasecmp_eq t str).

(** [while (c && cJSON_strcasecmp (c->string, string)) i++, c = c->next;] *)
Fixpoint find_loop (n : nat) (c : addr) (str : cstring) (i : Z) : J (addr * Z) :=
  if c =? NULL then mret (c, i)
  else match n with
  | O => fault_ OutOfBounds
  | S n =>
    x ← get c;
    same ← same_name x str;
    if (same : bool) then mret (c, i) else find_loop n (next x) str (s32 (i + 1))
  end.

Definition cJSON_GetObjectItem (object : addr) (str : cstring) : J addr :=
  x ← get object; n ← blocks_left; r ← find_loop n (child x) str 0; mret r.1.

(** ** Adding *)

Definition suffix_object (prev item : addr) : J unit := _ ← set_next prev item; set_prev item prev.

Definition create_reference (item : addr) : J addr :=
  ref ← cJSON_New_Item;
  if ref =? NULL then mret NULL
  else
    x ← get item;
    _ ← put ref (Item NULL NULL (child x) (Z.lor (type x) cJSON_IsReference) (valuestring x) (valueint x) (valuedouble x) NULL);
    mret ref.

(** [while (c && c->next) c = c->next;] *)
Fixpoint last_loop (n : nat) (c : addr) : J addr :=
  x ← get c;
  if next x =? NULL then mret c
  else match n with O => fault_ OutOfBounds | S n => last_loop n (next x) end.

Definition cJSON_AddItemToArray (array item : addr) : J unit :=
  x ← get array;
  if item =? NULL then mret tt
  else if child x =? NULL then set_child array item
  else n ← blocks_left; c ← last_loop n (child x); suffix_object c item.

Definition cJSON_AddItemToObject (object : addr) (str : cstring) (item : addr) : J unit :=
  if item =? NULL then mret tt
  else
    x ← get item;
    _ ← (if negb (string x =? NULL) then cJSON_free (string x) else mret tt);
    a ← cJSON_strdup str;
    _ ← set_string item a;
    cJSON_AddItemToArray object item.

Definition cJSON_AddItemReferenceToArray (array item : addr) : J unit :=
  r ← create_reference item; cJSON_AddItemToArray array r.
Definition cJSON_AddItemReferenceToObject (object : addr) (str : cstring) (item : addr) : J unit :=
  r ← create_reference item; cJSON_AddItemToObject object str r.

(** ** Taking out *)

Definition cJSON_DetachItemFromArray (array : addr) (which : Z) : J addr :=
  x ← get array;
  n ← blocks_left;
  c ← walk n (child x) which;
  if c =? NULL then mret NULL
  else
    y ← get c;
    _ ← (if prev y =? NULL then mret tt else set_next (prev y) (next y));
    y ← get c;
    _ ← (if next y =? NULL then mret tt else set_prev (next y) (prev y));
    x ← get array;
    y ← get c;
    _ ← (if c =? child x then set_child array (next y) else mret tt);
    _ ← set_next c NULL;
    _ ← set_prev c NULL;
    mret c.

Definition cJSON_DeleteItemFromArray (array : addr) (which : Z) : J unit :=
  c ← cJSON_DetachItemFromArray array which; cJSON_Delete c.

Definition cJSON_DetachItemFromObject (object : addr) (str : cstring) : J addr :=
  x ← get object;
  n ← blocks_left;
  r ← find_loop n (child x) str 0;
  if r.1 =? NULL then mret NULL else cJSON_DetachItemFromArray object r.2.

Definition cJSON_DeleteItemFromObject (object : addr) (str : cstring) : J unit :=
  c ← cJSON_DetachItemFromObject object str; cJSON_Delete c.

(** ** Replacing *)

Definition cJSON_ReplaceItemInArray (array : addr) (which : Z) (newitem : addr) : J unit :=
  x ← get array;
  n ← blocks_left;
  c ← walk n (child x) which;
  if c =? NULL then mret tt
  else
    y ← get c;
    _ ← set_next newitem (next y);
    y ← get c;
    _ ← set_prev newitem (prev y);
    z ← get newitem;
    _ ← (if next z =? NULL then mret tt else set_prev (next z) newitem);
    x ← get array;
    _ ← (if c =? child x then set_child array newitem else z ← get newitem; set_next (prev z) newitem);
    _ ← set_prev c NULL;
    _ ← set_next c NULL;
    cJSON_Delete c.

(** The name the new item had is not released. *)
Definition cJSON_ReplaceItemInObject (object : addr) (str : cstring) (newitem : addr) : J unit :=
  x ← get object;
  n ← blocks_left;
  r ← find_loop n (child x) str 0;
  if r.1 =? NULL then mret tt
  else
    a ← cJSON_strdup str;
    _ ← set_string newitem a;
    cJSON_ReplaceItemInArray object r.2 newitem.

(** ** Creating *)

Definition create (ty : Z) (vi : Z) (vd : dbl) : J addr :=
  a ← cJSON_New_Item;
  if a =? NULL then mret NULL else _ ← put a (Item NULL NULL NULL ty NULL vi vd NULL); mret a.

Definition cJSON_CreateNull : J addr := create cJSON_NULL 0 zero.
Definition cJSON_CreateTrue : J addr := create cJSON_True 0 zero.
Definition cJSON_CreateFalse : J addr := create cJSON_False 0 zero.
Definition cJSON_CreateBool (b : Z) : J addr := create (if b =? 0 then cJSON_False else cJSON_True) 0 zero.
Definition cJSON_CreateNumber (num : dbl) : J addr := create cJSON_Number (to_int num) num.
Definition cJSON_CreateArray : J addr := create cJSON_Array 0 zero.
Definition cJSON_CreateObject : J addr := create cJSON_Object 0 zero.

Definition cJSON_CreateString (str : cstring) : J addr :=
  a ← create cJSON_String 0 zero;
  if a =? NULL then mret NULL
  else
    t ← cJSON_strdup str;
    _ ← put a (Item NULL NULL NULL cJSON_String t 0 zero NULL);
    mret a.

(** The loop of the four functions below: [p] is the item before. *)
Fixpoint array_loop {X} (mk : X -> J addr) (l : list X) (first : bool) (a p : addr) : J unit :=
  match l with
  | [] => mret tt
  | v :: l =>
    n ← mk v;
    _ ← (if first then set_child a n else suffix_object p n);
    array_loop mk l false a n
  end.

Definition create_array {X} (mk : X -> J addr) (l : list X) : J addr :=
  a ← cJSON_CreateArray;
  if a =? NULL then mret NULL else _ ← array_loop mk l true a NULL; mret a.

Definition cJSON_CreateIntArray (numbers : list Z) : J addr := create_array (fun n => cJSON_CreateNumber (of_int n)) numbers.
(** A [float] becomes a double on the way. *)
Definition cJSON_CreateFloatArray (numbers : list dbl) : J addr := create_array cJSON_CreateNumber numbers.
Definition cJSON_CreateDoubleArray (numbers : list dbl) : J addr := create_array cJSON_CreateNumber numbers.
Definition cJSON_CreateStringArray (strings : list cstring) : J addr := create_array cJSON_CreateString strings.

End Tree.

Arguments Item {dbl}.
Arguments BItem {dbl} x.
Arguments BText {dbl} s.
Arguments BPtrs {dbl} l.
Arguments Heap {dbl}.
Arguments cells {dbl}.
Arguments mallocs {dbl}.

End JsonTree.
