(* ===== verification/JsonTreeFacts.v ===== *)
(** * JsonTreeFacts: the trees in memory are trees

    [owns s M l]: the memory [s] is exactly the blocks [l], and [M] is what
    [cJSON_malloc] has still to give.  A tree is the list of its blocks, so
    what an operation leaves behind, nothing lost and nothing twice, is part of
    every statement. *)

From S2P Require Import Prelude CString CJson JsonTree.
Import JsonTree.
Local Open Scope list_scope.
Local Open Scope Z_scope.

#[local] Existing Instance J_ret.
#[local] Existing Instance J_bind.

Section Facts.

Context {dbl : Type}.

Abbreviation heap := (@heap dbl).
Abbreviation block := (@block dbl).
Abbreviation item := (@item dbl).
Abbreviation J := (@J dbl).
Abbreviation cell := (addr * block)%type.

(** ** Running *)

(** [m] ends without a fault, and [Q] holds of what it returns and leaves. *)
Definition runs {A} (m : J A) (s : heap) (Q : A -> heap -> Prop) : Prop := exists a s', m s = Done (a, s') /\ Q a s'.

Lemma runs_ret {A} (a : A) s (Q : A -> heap -> Prop) : Q a s -> runs (mret a) s Q.
Proof. intros H. by exists a, s. Qed.

Lemma runs_bind {A B} (m : J A) (k : A -> J B) s (R : A -> heap -> Prop) (Q : B -> heap -> Prop) :
  runs m s R -> (forall a s', R a s' -> runs (k a) s' Q) -> runs (m ≫= k) s Q.
Proof.
  intros (a & s1 & E & HR) Hk. destruct (Hk a s1 HR) as (b & s2 & E2 & HQ). exists b, s2. split; [|done].
  unfold mbind, J_bind. by rewrite E.
Qed.

Lemma runs_mono {A} (m : J A) s (R Q : A -> heap -> Prop) : runs m s R -> (forall a s', R a s' -> Q a s') -> runs m s Q.
Proof. intros (a & s1 & E & HR) H. exists a, s1. auto. Qed.

(** ** What is in memory *)

Definition owns (s : heap) (M : list addr) (l : list cell) : Prop :=
  s = Heap (list_to_map l) M /\ NoDup l.*1 /\ Forall (fun a => a <> NULL) l.*1.

Lemma owns_perm s M l l' : l ≡ₚ l' -> owns s M l -> owns s M l'.
Proof.
  intros Hp (-> & Hn & Hnull). assert (l.*1 ≡ₚ l'.*1) as Hp1 by by rewrite Hp. split; [|by rewrite <- Hp1].
  f_equal. by apply list_to_map_proper.
Qed.

Lemma owns_intro M l : NoDup l.*1 -> Forall (fun a => a <> NULL) l.*1 -> owns (Heap (list_to_map l) M) M l.
Proof. done. Qed.

Lemma owns_cons s M a b l : owns s M ((a, b) :: l) -> a <> NULL /\ a ∉ l.*1 /\ cells s !! a = Some b.
Proof.
  intros (-> & Hn & Hnull). rewrite fmap_cons in Hn, Hnull. apply NoDup_cons in Hn as [Hn _]. apply Forall_cons in Hnull as [Ha _].
  split; [done|]. split; [done|]. cbn. apply lookup_insert_eq.
Qed.

Lemma owns_length s M l : owns s M l -> length l = size (cells s).
Proof. intros (-> & Hn & _). cbn [cells]. rewrite map_size_list_to_map by done. done. Qed.

(** Running on exactly known memory. *)
Definition does {A} (m : J A) (M : list addr) (l : list cell) (Q : A -> list addr -> list cell -> Prop) : Prop :=
  forall s, owns s M l -> runs m s (fun a s' => exists M' l', owns s' M' l' /\ Q a M' l').

Lemma does_ret {A} (a : A) M l (Q : A -> list addr -> list cell -> Prop) : Q a M l -> does (mret a) M l Q.
Proof. intros H s Hs. apply runs_ret. by exists M, l. Qed.

Lemma does_bind {A B} (m : J A) (k : A -> J B) M l R (Q : B -> list addr -> list cell -> Prop) :
  does m M l R -> (forall a M' l', R a M' l' -> does (k a) M' l' Q) -> does (m ≫= k) M l Q.
Proof.
  intros Hm Hk s Hs. eapply runs_bind; [by apply Hm|]. intros a s' (M' & l' & Ho & HR). by apply (Hk a M' l').
Qed.

Lemma does_perm {A} (m : J A) M l l' Q : l ≡ₚ l' -> does m M l' Q -> does m M l Q.
Proof. intros Hp Hm s Hs. apply Hm. by apply (owns_perm s M l l'). Qed.

Lemma does_mono {A} (m : J A) M l (R Q : A -> list addr -> list cell -> Prop) :
  does m M l R -> (forall a M' l', R a M' l' -> Q a M' l') -> does m M l Q.
Proof. intros Hm H s Hs. eapply runs_mono; [by apply Hm|]. intros a s' (M' & l' & Ho & HR). exists M', l'. auto. Qed.

(** [m] returns [a], has used nothing of [M], and leaves the blocks [l']. *)
Definition leaves {A} (m : J A) (M : list addr) (l : list cell) (a : A) (l' : list cell) : Prop :=
  does m M l (fun a' M' l1 => a' = a /\ M' = M /\ l1 ≡ₚ l').

Lemma leaves_bind {A B} (m : J A) (k : A -> J B) M l a l1 Q :
  leaves m M l a l1 -> does (k a) M l1 Q -> does (m ≫= k) M l Q.
Proof.
  intros Hm Hk. eapply does_bind; [exact Hm|]. intros a' M' l' (-> & -> & Hp). by apply (does_perm _ _ _ l1).
Qed.

Lemma leaves_ret {A} (a : A) M l l' : l ≡ₚ l' -> leaves (mret a) M l a l'.
Proof. intros Hp. by apply does_ret. Qed.

Lemma leaves_ret_eq {A} (a b : A) M l l' : a = b -> l ≡ₚ l' -> leaves (mret a) M l b l'.
Proof. intros ->. apply leaves_ret. Qed.

Lemma leaves_perm {A} (m : J A) M l1 l2 a l3 l4 : l1 ≡ₚ l2 -> l3 ≡ₚ l4 -> leaves m M l2 a l3 -> leaves m M l1 a l4.
Proof.
  intros H12 H34 Hm. apply (does_perm _ _ _ _ _ H12). eapply does_mono; [exact Hm|]. intros b M' l' (-> & -> & Hp).
  by rewrite Hp, H34.
Qed.

Lemma leaves_get a x M l : leaves (get a) M ((a, BItem x) :: l) x ((a, BItem x) :: l).
Proof.
  intros s Hs. destruct (owns_cons _ _ _ _ _ Hs) as (Ha & _ & E). exists x, s. split; [|by exists M, ((a, BItem x) :: l)].
  unfold get. destruct (Z.eqb_spec a NULL); [done|]. by rewrite E.
Qed.

Lemma leaves_get_text a t M l : leaves (get_text a) M ((a, BText t) :: l) t ((a, BText t) :: l).
Proof.
  intros s Hs. destruct (owns_cons _ _ _ _ _ Hs) as (Ha & _ & E). exists t, s. split; [|by exists M, ((a, BText t) :: l)].
  unfold get_text. by rewrite E.
Qed.

Lemma leaves_put a x y M l : leaves (put a y) M ((a, BItem x) :: l) tt ((a, BItem y) :: l).
Proof.
  unfold put. eapply leaves_bind; [apply leaves_get|]. intros s (-> & Hn & Hnull). eexists tt, _. split; [reflexivity|].
  exists M, ((a, BItem y) :: l). split; [|done]. split; [|done]. f_equal. cbn. by rewrite insert_insert_eq.
Qed.

(** A block is overwritten. *)
Lemma owns_write s M a b b' l : owns s M ((a, b) :: l) -> owns (Heap (<[a := b']> (cells s)) (mallocs s)) M ((a, b') :: l).
Proof. intros (-> & Hn & Hnull). split; [|done]. f_equal. cbn. by rewrite insert_insert_eq. Qed.

Lemma set_text_spec x t t' M l : leaves (set_text x t') M ((x, BText t) :: l) tt ((x, BText t') :: l).
Proof.
  unfold set_text. eapply leaves_bind; [apply leaves_get_text|]. intros h Hh. eexists tt, _. split; [reflexivity|].
  exists M, ((x, BText t') :: l). split; [|done]. by eapply owns_write.
Qed.

Lemma leaves_get_ptrs a p M l : leaves (get_ptrs a) M ((a, BPtrs p) :: l) p ((a, BPtrs p) :: l).
Proof.
  intros s Hs. destruct (owns_cons _ _ _ _ _ Hs) as (Ha & _ & E). exists p, s. split; [|by exists M, ((a, BPtrs p) :: l)].
  unfold get_ptrs. by rewrite E.
Qed.

Lemma leaves_set_ptr a i x p M l : (i < length p)%nat -> leaves (set_ptr a i x) M ((a, BPtrs p) :: l) tt ((a, BPtrs (<[i := x]> p)) :: l).
Proof.
  intros Hi. unfold set_ptr. eapply leaves_bind; [apply leaves_get_ptrs|]. destruct (decide _); [|done]. intros h Hh. eexists tt, _. split; [reflexivity|].
  eexists M, _. split; [by eapply owns_write|done].
Qed.

Lemma leaves_free a b M l : leaves (cJSON_free a) M ((a, b) :: l) tt l.
Proof.
  intros s Hs. destruct (owns_cons _ _ _ _ _ Hs) as (Ha & Hal & E). unfold cJSON_free, runs.
  destruct (Z.eqb_spec a NULL); [done|]. rewrite E. eexists tt, _. split; [reflexivity|]. exists M, l. split; [|done].
  destruct Hs as (-> & Hn & Hnull). rewrite fmap_cons in Hn, Hnull. apply NoDup_cons in Hn as [Hn1 Hn]. apply Forall_cons in Hnull as [_ Hnull].
  split; [|done]. f_equal. cbn. apply delete_insert_id. by apply not_elem_of_list_to_map_1.
Qed.

(** ** Allocation *)

Definition malloc_ (l : list cell) (M : list addr) : addr * list addr := pick (fun a => bool_decide (a ∈ l.*1)) M.

Lemma pick_ext f g M : (forall a, f a = g a) -> pick f M = pick g M.
Proof. intros H. induction M as [|a M IH]; [done|]. cbn [pick]. by rewrite H, IH. Qed.

Lemma pick_spec f M a M' : pick f M = (a, M') -> M' ⊆ M /\ (a = NULL -> NULL ∈ M \/ M' = []) /\ (a <> NULL -> f a = false).
Proof.
  induction M as [|x M IH]; cbn [pick]; [intros [= <- <-]; by split_and!; [|right|]|]. assert (M ⊆ x :: M) as Hs by (intros y Hy; by right).
  destruct (Z.eqb_spec x NULL) as [->|]; [intros [= <- <-]; split; [done|]; split; [left; by left|done]|].
  destruct (f x) eqn:E; [|by intros [= <- <-]]. intros H. destruct (IH H) as (H1 & H2 & H3). split; [by etransitivity|]. split; [|done].
  intros Ha. destruct (H2 Ha); [left; by right|by right].
Qed.

(** Only the addresses matter. *)
Lemma malloc_addrs (l l' : list cell) M : l.*1 ≡ₚ l'.*1 -> malloc_ l M = malloc_ l' M.
Proof. intros Hp. apply pick_ext. intros a. apply bool_decide_ext. by rewrite Hp. Qed.

Lemma malloc_perm (l l' : list cell) M : l ≡ₚ l' -> malloc_ l M = malloc_ l' M.
Proof. intros Hp. apply malloc_addrs. by rewrite Hp. Qed.

Lemma does_alloc b M l a M' : malloc_ l M = (a, M') ->
  does (alloc b) M l (fun r M1 l' => r = a /\ M1 = M' /\ l' = if a =? NULL then l else (a, b) :: l).
Proof.
  intros E s (-> & Hn & Hnull). unfold alloc, runs. cbn [mallocs cells].
  rewrite (pick_ext _ (fun a => bool_decide (a ∈ l.*1))).
  2: { intros x. apply bool_decide_ext. rewrite <- not_eq_None_Some, <- not_elem_of_list_to_map. destruct (decide (x ∈ l.*1)); tauto. }
  unfold malloc_ in E. rewrite E. eexists a, _. split; [reflexivity|]. exists M'. eexists. split; [|done].
  apply pick_spec in E as (_ & _ & Ha). destruct (Z.eqb_spec a NULL) as [|Hz]; [done|]. pose proof (Ha Hz) as Hal%bool_decide_eq_false. split; [done|]. rewrite fmap_cons.
  split; [by apply NoDup_cons|by apply Forall_cons].
Qed.

(** There has been no memory: [M] is what was left before, [M'] after. *)
Definition short (M M' : list addr) : Prop := NULL ∈ M \/ M' = [].

Lemma short_mono M M1 M2 : M1 ⊆ M -> short M1 M2 -> short M M2.
Proof. intros Hs [H|H]; [left; by apply Hs|by right]. Qed.

Lemma short_shrink M M1 M2 : M2 ⊆ M1 -> short M M1 -> short M M2.
Proof. intros Hs [H| ->]; [by left|]. right. by apply list_nil_subseteq. Qed.

Lemma alloc_any b M l :
  does (alloc b) M l (fun r M' l' => M' ⊆ M /\ ((r = NULL /\ l' = l /\ short M M') \/ (r <> NULL /\ l' = (r, b) :: l))).
Proof.
  destruct (malloc_ l M) as [a M'] eqn:E. eapply does_mono; [by apply does_alloc|]. intros r M1 l' (-> & -> & ->).
  apply pick_spec in E as (H1 & H2 & _). split; [done|]. destruct (Z.eqb_spec a NULL) as [->|]; [left|by right]. split_and!; [done..|]. by apply H2.
Qed.

(** ** Trees *)

(** A text in a block of its own, if there is one. *)
Abbreviation text := (option (addr * cstring)).

(** [Node]: an item with its texts and the items on its list.  [Ref]: an item
    made by [create_reference], whose value and child belong to another. *)
Inductive jtree :=
| Node (a : addr) (ty vi : Z) (vd : dbl) (value name : text) (kids : list jtree)
| Ref (a : addr) (ty vi : Z) (vd : dbl) (value ch : addr) (name : text).

Definition root (t : jtree) : addr := match t with Node a _ _ _ _ _ _ | Ref a _ _ _ _ _ _ => a end.
Definition kids_of (t : jtree) : list jtree := match t with Node _ _ _ _ _ _ k => k | Ref _ _ _ _ _ _ _ => [] end.
Definition name_of (t : jtree) : text := match t with Node _ _ _ _ _ n _ | Ref _ _ _ _ _ _ n => n end.

(** The first of a list, and what is before what follows it. *)
Definition head_or (l : list jtree) (e : addr) : addr := match l with [] => e | t :: _ => root t end.
Definition last_or (l : list jtree) (p : addr) : addr := match last l with Some t => root t | None => p end.

Definition ptr (o : text) : addr := match o with Some (a, _) => a | None => NULL end.
Definition text_blocks (o : text) : list cell := match o with Some (a, s) => [(a, BText s)] | None => [] end.

Definition item_of (p n : addr) (t : jtree) : item :=
  match t with
  | Node _ ty vi vd v nm k => Item n p (head_or k NULL) ty (ptr v) vi vd (ptr nm)
  | Ref _ ty vi vd v c nm => Item n p c (Z.lor ty cJSON_IsReference) v vi vd (ptr nm)
  end.

(** The blocks of a tree beside its root. *)
Fixpoint rest (t : jtree) : list cell :=
  match t with
  | Node _ _ _ _ v nm k =>
    text_blocks v ++ text_blocks nm ++
    (fix go p l := match l with [] => [] | t :: l => (root t, BItem (item_of p (head_or l NULL) t)) :: rest t ++ go (root t) l end) NULL k
  | Ref _ _ _ _ _ _ nm => text_blocks nm
  end.

(** The blocks of items on a list, from the one behind [p] to the one before
    [e]. *)
Fixpoint seg (p : addr) (l : list jtree) (e : addr) : list cell :=
  match l with
  | [] => []
  | t :: l => (root t, BItem (item_of p (head_or l e) t)) :: rest t ++ seg (root t) l e
  end.

Lemma rest_node a ty vi vd v nm k : rest (Node a ty vi vd v nm k) = text_blocks v ++ text_blocks nm ++ seg NULL k NULL.
Proof.
  cbn [rest]. do 2 f_equal. enough (forall p, (fix go p l := match l with
    [] => [] | t :: l => (root t, BItem (item_of p (head_or l NULL) t)) :: rest t ++ go (root t) l end) p k = seg p k NULL) as H by apply H.
  induction k as [|t k IH]; intros p; [done|]. cbn [seg]. f_equal. f_equal. apply IH.
Qed.

(** The types are what the header defines. *)
Definition is_type (ty : Z) : Prop := Z.land ty cJSON_IsReference = 0.

Fixpoint typed (t : jtree) : Prop :=
  match t with
  | Node _ ty _ _ _ _ k => is_type ty /\ (fix go l := match l with [] => True | t :: l => typed t /\ go l end) k
  | Ref _ _ _ _ _ _ _ => True
  end.

Lemma typed_kids a ty vi vd v nm k : typed (Node a ty vi vd v nm k) <-> is_type ty /\ Forall typed k.
Proof.
  cbn [typed]. split; intros [Ht Hk]; (split; [done|]); revert Hk; induction k as [|t k IH].
  - by constructor.
  - intros [H1 H2]. constructor; [done|exact (IH H2)].
  - done.
  - intros [H1 H2]%Forall_cons. split; [done|exact (IH H2)].
Qed.

Lemma root_in_seg p t l e : t ∈ l -> root t ∈ (seg p l e).*1.
Proof.
  revert p. induction l as [|u l IH]; intros p Ht; [by apply elem_of_nil in Ht|]. cbn [seg]. rewrite fmap_cons, fmap_app.
  apply elem_of_cons in Ht as [->|Ht]; [by left|]. right. apply elem_of_app. right. by apply IH.
Qed.

Lemma head_or_app l1 l2 e : head_or (l1 ++ l2) e = head_or l1 (head_or l2 e).
Proof. by destruct l1. Qed.

Lemma last_or_cons t l p : last_or (t :: l) p = last_or l (root t).
Proof. unfold last_or. rewrite last_cons. by destruct (last l). Qed.

Lemma last_or_app l t p : last_or (l ++ [t]) p = root t.
Proof. unfold last_or. by rewrite last_snoc. Qed.

Lemma seg_app p l1 l2 e : seg p (l1 ++ l2) e = seg p l1 (head_or l2 e) ++ seg (last_or l1 p) l2 e.
Proof.
  revert p. induction l1 as [|t l1 IH]; intros p; [done|]. cbn [app seg]. rewrite IH, head_or_app, last_or_cons, <- app_assoc. done.
Qed.

(** The addresses of a list do not depend on what is around it. *)
Lemma seg_addrs (p e : addr) (l : list jtree) : (seg p l e).*1 = concat (map (fun t => root t :: (rest t).*1) l).
Proof. revert p. induction l as [|t l IH]; intros p; [done|]. cbn [seg map concat]. by rewrite fmap_cons, fmap_app, IH. Qed.

Lemma is_reference_node p n a ty vi vd v nm k : is_type ty -> is_reference (item_of p n (Node a ty vi vd v nm k)) = false.
Proof. intros Ht. unfold is_reference. cbn. by rewrite Ht. Qed.

Lemma is_reference_ref p n a ty vi vd v c nm : is_reference (item_of p n (Ref a ty vi vd v c nm)) = true.
Proof.
  unfold is_reference. cbn. rewrite Z.land_lor_distr_l, Z.land_diag. apply negb_true_iff, Z.eqb_neq. rewrite Z.lor_eq_0_iff. by intros [_ ?].
Qed.

(** ** Releasing *)

Lemma free_text (o : text) M l : Forall (fun a => a <> NULL) (text_blocks o).*1 ->
  leaves (if negb (ptr o =? NULL) then cJSON_free (ptr o) else mret tt) M (text_blocks o ++ l) tt l.
Proof.
  destruct o as [[a s]|]; cbn [ptr text_blocks]; intros Hn; [|by apply leaves_ret].
  apply Forall_cons in Hn as [Ha _]. cbn in Ha. destruct (Z.eqb_spec a NULL); [done|]. cbn [negb app]. apply leaves_free.
Qed.

Lemma owns_nonnull s M l1 l2 : owns s M (l1 ++ l2) -> Forall (fun a => a <> NULL) l1.*1.
Proof. intros (_ & _ & Hn). rewrite fmap_app in Hn. by apply Forall_app in Hn as [? _]. Qed.

(** What holds of exactly known memory can be used of it. *)
Lemma does_nonnull {A} (m : J A) M l1 l2 Q :
  (Forall (fun a => a <> NULL) l1.*1 -> does m M (l1 ++ l2) Q) -> does m M (l1 ++ l2) Q.
Proof. intros H s Hs. apply H; [|done]. by eapply owns_nonnull. Qed.

Lemma head_null l M F {A} (m : J A) p e Q : (forall t l', l = t :: l' -> root t <> NULL -> does m M (seg p l e ++ F) Q) ->
  (l = [] -> does m M F Q) -> does m M (seg p l e ++ F) Q.
Proof.
  intros H1 H2. destruct l as [|t l']; [by apply H2|]. intros s Hs. eapply (H1 t l'); [done| |done].
  apply owns_nonnull in Hs. cbn [seg] in Hs. rewrite fmap_cons in Hs. by apply Forall_cons in Hs as [? _].
Qed.

Lemma delete_loop_spec : forall n l p M F, Forall typed l -> (length (seg p l NULL) <= n)%nat ->
  leaves (delete_loop n (head_or l NULL)) M (seg p l NULL ++ F) tt F.
Proof.
  induction n as [|n IH]; intros [|t l] p M F Ht Hn; try (cbn [head_or seg app delete_loop]; by apply leaves_ret); [simpl in Hn; lia|].
  apply Forall_cons in Ht as [Htt Htl]. cbn [seg length] in Hn. rewrite length_app in Hn. cbn [head_or].
  apply head_null; [|done]. intros t' l' [= <- <-] Hroot. cbn [delete_loop]. destruct (Z.eqb_spec (root t) NULL); [done|].
  cbn [seg app]. eapply leaves_bind; [apply leaves_get|]. rewrite <- app_assoc.
  set (x := item_of p (head_or l NULL) t). set (L := seg (root t) l NULL) in *.
  assert (forall Q, does (_ ← cJSON_free (root t); delete_loop n (next x)) M ((root t, BItem x) :: L ++ F) Q <->
                    does (_ ← cJSON_free (root t); delete_loop n (head_or l NULL)) M ((root t, BItem x) :: L ++ F) Q) as Hnext
    by (intros Q; unfold x; destruct t; done).
  assert (leaves (_ ← cJSON_free (root t); delete_loop n (next x)) M ((root t, BItem x) :: L ++ F) tt F) as Hlast.
  { apply Hnext. eapply leaves_bind; [apply leaves_free|]. apply IH; [done|]. unfold L in *. lia. }
  destruct t as [a ty vi vd v nm k|a ty vi vd v c nm].
  - apply typed_kids in Htt as [Hty Hk]. pose proof (is_reference_node p (head_or l NULL) a ty vi vd v nm k Hty) as Er. fold x in Er.
    rewrite rest_node in Hn |- *. rewrite !length_app in Hn. rewrite Er. cbn [negb andb]. cbn [root] in *.
    apply (does_perm _ _ _ (seg NULL k NULL ++ text_blocks v ++ text_blocks nm ++ ((a, BItem x) :: L ++ F))); [solve_Permutation|].
    eapply leaves_bind.
    { change (child x) with (head_or k NULL). instantiate (1 := text_blocks v ++ text_blocks nm ++ ((a, BItem x) :: L ++ F)). instantiate (1 := tt).
      apply head_null.
      - intros t' l' -> Ht'. cbn [head_or]. destruct (Z.eqb_spec (root t') NULL); [done|]. apply (IH (t' :: l')); [done|]. lia.
      - intros ->. cbn [head_or]. by apply leaves_ret. }
    apply does_nonnull. intros Hv. eapply leaves_bind; [by apply free_text|]. apply does_nonnull. intros Hnm.
    eapply leaves_bind; [by apply free_text|]. exact Hlast.
  - pose proof (is_reference_ref p (head_or l NULL) a ty vi vd v c nm) as Er. fold x in Er. rewrite Er. cbn [negb andb rest root] in *.
    eapply leaves_bind; [by apply leaves_ret|]. eapply leaves_bind; [by apply leaves_ret|].
    apply (does_perm _ _ _ (text_blocks nm ++ ((a, BItem x) :: L ++ F))); [solve_Permutation|].
    apply does_nonnull. intros Hnm. eapply leaves_bind; [by apply free_text|]. exact Hlast.
Qed.

Lemma delete_spec l M F : Forall typed l -> leaves (cJSON_Delete (head_or l NULL)) M (seg NULL l NULL ++ F) tt F.
Proof.
  intros Ht. unfold cJSON_Delete. intros s Hs. pose proof (owns_length _ _ _ Hs) as Hl. rewrite length_app in Hl.
  exact (delete_loop_spec (size (cells s)) l NULL M F Ht ltac:(lia) s Hs).
Qed.

(** [cJSON_Delete] gives back every block of a tree exactly once and
    touches no other: what belongs to the items that references in the tree
    point to stays, nothing is leaked or released twice, and the recursion
    ends. *)
Theorem delete_exact s M l F :
  Forall typed l -> owns s M (seg NULL l NULL ++ F) -> exists s', cJSON_Delete (head_or l NULL) s = Done (tt, s') /\ owns s' M F.
Proof.
  intros Ht Hs. destruct (delete_spec l M F Ht s Hs) as (r & s' & E & M' & l' & Ho & -> & -> & Hp).
  exists s'. split; [done|]. by apply (owns_perm _ _ l').
Qed.

(** ** Single pointers *)

Definition with_next (n : addr) (x : item) : item :=
  Item n (prev x) (child x) (type x) (valuestring x) (valueint x) (valuedouble x) (string x).
Definition with_prev (p : addr) (x : item) : item :=
  Item (next x) p (child x) (type x) (valuestring x) (valueint x) (valuedouble x) (string x).
Definition with_child (c : addr) (x : item) : item :=
  Item (next x) (prev x) c (type x) (valuestring x) (valueint x) (valuedouble x) (string x).

Lemma leaves_set_next a n x M l : leaves (set_next a n) M ((a, BItem x) :: l) tt ((a, BItem (with_next n x)) :: l).
Proof. eapply leaves_bind; [apply leaves_get|]. apply leaves_put. Qed.
Lemma leaves_set_prev a p x M l : leaves (set_prev a p) M ((a, BItem x) :: l) tt ((a, BItem (with_prev p x)) :: l).
Proof. eapply leaves_bind; [apply leaves_get|]. apply leaves_put. Qed.
Lemma leaves_set_child a c x M l : leaves (set_child a c) M ((a, BItem x) :: l) tt ((a, BItem (with_child c x)) :: l).
Proof. eapply leaves_bind; [apply leaves_get|]. apply leaves_put. Qed.

Lemma with_next_item p n n' t : with_next n' (item_of p n t) = item_of p n' t.
Proof. by destruct t. Qed.
Lemma with_prev_item p p' n t : with_prev p' (item_of p n t) = item_of p' n t.
Proof. by destruct t. Qed.

(** The end of a list is moved. *)
Lemma relink_end p l e n M F :
  l <> [] -> leaves (set_next (last_or l p) n) M (seg p l e ++ F) tt (seg p l n ++ F).
Proof.
  intros Hl. destruct l as [|t l] using rev_ind; [done|]. clear IHl Hl. rewrite last_or_app, !seg_app. cbn [seg head_or].
  apply (leaves_perm _ _ _ ((root t, BItem (item_of (last_or l p) e t)) :: seg p l (root t) ++ rest t ++ [] ++ F) _
    ((root t, BItem (item_of (last_or l p) n t)) :: seg p l (root t) ++ rest t ++ [] ++ F)); [solve_Permutation|solve_Permutation|].
  rewrite <- (with_next_item _ e n). apply leaves_set_next.
Qed.

Lemma relink_start p q l e M F :
  l <> [] -> leaves (set_prev (head_or l e) q) M (seg p l e ++ F) tt (seg q l e ++ F).
Proof.
  intros Hl. destruct l as [|t l]; [done|]. cbn [head_or seg app]. rewrite <- (with_prev_item p q). apply leaves_set_prev.
Qed.

(** An item in the middle. *)
Lemma get_mid p l1 t l2 e M F :
  leaves (get (root t)) M (seg p (l1 ++ t :: l2) e ++ F) (item_of (last_or l1 p) (head_or l2 e) t) (seg p (l1 ++ t :: l2) e ++ F).
Proof.
  rewrite seg_app. cbn [seg head_or]. set (x := BItem _).
  apply (leaves_perm _ _ _ ((root t, x) :: seg p l1 (root t) ++ rest t ++ seg (root t) l2 e ++ F) _
    ((root t, x) :: seg p l1 (root t) ++ rest t ++ seg (root t) l2 e ++ F)); [solve_Permutation|solve_Permutation|]. apply leaves_get.
Qed.

Lemma next_item p n t : next (item_of p n t) = n.
Proof. by destruct t. Qed.
Lemma prev_item p n t : prev (item_of p n t) = p.
Proof. by destruct t. Qed.

(** A root is not null while it is in memory. *)
Lemma seg_root {A} (m : J A) M p l1 t l2 e F Q :
  (root t <> NULL -> does m M (seg p (l1 ++ t :: l2) e ++ F) Q) -> does m M (seg p (l1 ++ t :: l2) e ++ F) Q.
Proof.
  intros H. apply does_nonnull. intros Hn. apply H. rewrite Forall_forall in Hn. apply Hn, root_in_seg. apply elem_of_app. right. by left.
Qed.

(** ** Walking *)

Lemma walk_spec : forall l n p w M F, (length l <= n)%nat ->
  leaves (walk n (head_or l NULL) w) M (seg p l NULL ++ F) (head_or (drop (Z.to_nat w) l) NULL) (seg p l NULL ++ F).
Proof.
  induction l as [|t l IH]; intros n p w M F Hn.
  { rewrite drop_nil. by destruct n; apply leaves_ret. }
  simpl in Hn. apply (seg_root _ _ _ []). intros Hr. cbn [app head_or]. destruct (Z.ltb_spec 0 w) as [Hw|Hw].
  - destruct n as [|n]; [lia|]. cbn [walk]. destruct (Z.eqb_spec (root t) NULL); [done|]. destruct (Z.ltb_spec 0 w); [|lia]. cbn [orb negb].
    eapply leaves_bind; [apply (get_mid p [] t l)|]. rewrite next_item. cbn [app seg].
    replace (Z.to_nat w) with (S (Z.to_nat (w - 1))) by lia. cbn [drop].
    apply (leaves_perm _ _ _ (seg (root t) l NULL ++ ((root t, BItem (item_of p (head_or l NULL) t)) :: rest t) ++ F) _
      (seg (root t) l NULL ++ ((root t, BItem (item_of p (head_or l NULL) t)) :: rest t) ++ F)); [solve_Permutation|solve_Permutation|].
    apply IH. lia.
  - replace (Z.to_nat w) with 0%nat by lia. cbn [drop head_or].
    assert (walk n (root t) w = mret (root t)) as ->; [|by apply leaves_ret].
    destruct n; cbn [walk]; (destruct (Z.ltb_spec 0 w); [lia|]); by rewrite orb_true_r.
Qed.

(** What comes first of an array's blocks: its item. *)
Lemma blocks_left_bound {A} (k : nat -> J A) M l Q : does (k (length l)) M l Q -> does (n ← blocks_left; k n) M l Q.
Proof. intros H s Hs. destruct (H s Hs) as (a & s' & E & HQ). exists a, s'. split; [|done]. by rewrite (owns_length _ _ _ Hs) in E. Qed.

Lemma seg_length p l e : (length l <= length (seg p l e))%nat.
Proof. revert p. induction l as [|t l IH]; intros p; [done|]. cbn [seg length]. rewrite length_app. specialize (IH (root t)). lia. Qed.

Lemma last_loop_spec : forall l n p t M F, (length l <= n)%nat ->
  leaves (last_loop n (root t)) M (seg p (t :: l) NULL ++ F) (last_or (t :: l) p) (seg p (t :: l) NULL ++ F).
Proof.
  induction l as [|u l IH]; intros n p t M F Hn.
  - destruct n; cbn [last_loop]; (eapply leaves_bind; [apply (get_mid p [] t [])|]); rewrite next_item; by apply leaves_ret.
  - simpl in Hn. destruct n as [|n]; [lia|]. cbn [last_loop]. eapply leaves_bind; [apply (get_mid p [] t (u :: l))|]. rewrite next_item.
    cbn [app head_or]. apply (seg_root _ _ _ [t]). intros Hu. destruct (Z.eqb_spec (root u) NULL); [done|]. cbn [app].
    rewrite last_or_cons. change (seg p (t :: u :: l) NULL) with ((root t, BItem (item_of p (root u) t)) :: rest t ++ seg (root t) (u :: l) NULL).
    set (L := seg (root t) (u :: l) NULL). set (b := (root t, _)).
    apply (leaves_perm _ _ _ (L ++ (b :: rest t) ++ F) _ (L ++ (b :: rest t) ++ F)); [solve_Permutation|solve_Permutation|]. apply IH. lia.
Qed.

(** Beyond the first item. *)
Lemma leaves_tail {A} (m : J A) M p t l e r F :
  (forall F', leaves m M (seg (root t) l e ++ F') r (seg (root t) l e ++ F')) -> leaves m M (seg p (t :: l) e ++ F) r (seg p (t :: l) e ++ F).
Proof.
  intros H. apply (leaves_perm _ _ _ (seg (root t) l e ++ ((root t, BItem (item_of p (head_or l e) t)) :: rest t ++ F)) _
    (seg (root t) l e ++ ((root t, BItem (item_of p (head_or l e) t)) :: rest t ++ F))); [cbn [seg]; solve_Permutation|cbn [seg]; solve_Permutation|].
  apply H.
Qed.

(** ** Names *)

Definition named (str : cstring) (t : jtree) : bool := match name_of t with Some (_, s) => strcasecmp_eq s str | None => false end.

Fixpoint place (str : cstring) (l : list jtree) : nat :=
  match l with [] => 0%nat | t :: l => if named str t then 0%nat else S (place str l) end.

(** What a tree holds beside its root and its name. *)
Definition nameless (t : jtree) : list cell :=
  match t with Node _ _ _ _ v _ k => text_blocks v ++ seg NULL k NULL | Ref _ _ _ _ _ _ _ => [] end.

Lemma rest_name t : rest t ≡ₚ text_blocks (name_of t) ++ nameless t.
Proof. destruct t; [rewrite rest_node; simpl; solve_Permutation|]. simpl. by rewrite app_nil_r. Qed.

Lemma string_item p n t : string (item_of p n t) = ptr (name_of t).
Proof. by destruct t. Qed.

Lemma same_name_spec str p t l n e M F :
  leaves (same_name (item_of p n t) str) M (seg p (t :: l) e ++ F) (named str t) (seg p (t :: l) e ++ F).
Proof.
  unfold same_name, named. rewrite string_item. cbn [seg]. set (b := (root t, _)). set (L := seg (root t) l e).
  apply (leaves_perm _ _ _ (text_blocks (name_of t) ++ (b :: nameless t ++ L ++ F)) _ (text_blocks (name_of t) ++ (b :: nameless t ++ L ++ F)));
    [rewrite rest_name; solve_Permutation|rewrite rest_name; solve_Permutation|].
  destruct (name_of t) as [[x s]|]; [|by apply leaves_ret]. cbn [ptr text_blocks]. apply does_nonnull. intros Hx.
  apply Forall_cons in Hx as [Hx _]. cbn in Hx. destruct (Z.eqb_spec x NULL); [done|]. cbn [app].
  eapply leaves_bind; [apply leaves_get_text|]. by apply leaves_ret.
Qed.

(** ** One array *)

Lemma does_distinct {A} (m : J A) M x y l Q : (x.1 <> y.1 -> does m M (x :: y :: l) Q) -> does m M (x :: y :: l) Q.
Proof.
  intros H s Hs. apply H; [|done]. destruct Hs as (_ & Hn & _). rewrite !fmap_cons in Hn. apply NoDup_cons in Hn as [Hn _].
  intros E. apply Hn. rewrite E. by left.
Qed.

(** A null test and the pointer behind it, together. *)
Lemma relink_end_if l e n M F :
  leaves (if last_or l NULL =? NULL then mret tt else set_next (last_or l NULL) n) M (seg NULL l e ++ F) tt (seg NULL l n ++ F).
Proof.
  destruct l as [|t l] using rev_ind; [by apply leaves_ret|]. clear IHl.
  apply (seg_root _ _ _ l t []). intros Ht. rewrite last_or_app. destruct (Z.eqb_spec (root t) NULL); [done|].
  rewrite <- (last_or_app l t NULL). apply relink_end. by destruct l.
Qed.

Lemma relink_start_if l p q M F :
  leaves (if head_or l NULL =? NULL then mret tt else set_prev (head_or l NULL) q) M (seg p l NULL ++ F) tt (seg q l NULL ++ F).
Proof.
  destruct l as [|t l]; [by apply leaves_ret|]. apply (seg_root _ _ _ [] t l). intros Ht. cbn [head_or app].
  destruct (Z.eqb_spec (root t) NULL); [done|]. by apply (relink_start p q (t :: l)).
Qed.

(** [u] is linked behind the last item. *)
Lemma link_end kids u M F : kids <> [] ->
  leaves (suffix_object (last_or kids NULL) (root u)) M (seg NULL kids NULL ++ seg NULL [u] NULL ++ F) tt (seg NULL (kids ++ [u]) NULL ++ F).
Proof.
  intros Hk. unfold suffix_object. eapply leaves_bind; [by apply relink_end|].
  apply (leaves_perm _ _ _ (seg NULL [u] NULL ++ (seg NULL kids (root u) ++ F)) _
    (seg (last_or kids NULL) [u] NULL ++ (seg NULL kids (root u) ++ F))); [solve_Permutation| |].
  - rewrite (seg_app NULL kids [u]). cbn [head_or]. solve_Permutation.
  - by apply (relink_start NULL _ [u]).
Qed.

Section Array.

Context (pa na a ty vi : Z) (vd : dbl) (v nm : text).

(** The array's own item. *)
Definition arr (kids : list jtree) : cell := (a, BItem (item_of pa na (Node a ty vi vd v nm kids))).

Lemma suffix_spec kids u M F : kids <> [] ->
  leaves (suffix_object (last_or kids NULL) (root u)) M (arr kids :: seg NULL kids NULL ++ seg NULL [u] NULL ++ F) tt
    (arr (kids ++ [u]) :: seg NULL (kids ++ [u]) NULL ++ F).
Proof.
  intros Hk. apply (leaves_perm _ _ _ (seg NULL kids NULL ++ seg NULL [u] NULL ++ arr kids :: F) _ (seg NULL (kids ++ [u]) NULL ++ arr kids :: F));
    [solve_Permutation| |by apply link_end].
  assert (arr (kids ++ [u]) = arr kids) as -> by by destruct kids. solve_Permutation.
Qed.

Lemma add_spec kids u M F :
  leaves (cJSON_AddItemToArray a (root u)) M (arr kids :: seg NULL kids NULL ++ seg NULL [u] NULL ++ F) tt
    (arr (kids ++ [u]) :: seg NULL (kids ++ [u]) NULL ++ F).
Proof.
  unfold cJSON_AddItemToArray. eapply leaves_bind; [apply leaves_get|]. cbn [item_of child].
  apply (does_perm _ _ _ (seg NULL [u] NULL ++ (arr kids :: seg NULL kids NULL ++ F))); [solve_Permutation|].
  apply (seg_root _ _ _ [] u []). intros Hu. destruct (Z.eqb_spec (root u) NULL); [done|]. cbn [app].
  destruct kids as [|t l].
  - cbn [head_or]. change (NULL =? NULL) with true. cbv iota.
    apply (leaves_perm _ _ _ (arr [] :: seg NULL [u] NULL ++ F) _ (arr [u] :: seg NULL [u] NULL ++ F)); [solve_Permutation|solve_Permutation|].
    apply leaves_set_child.
  - cbn [head_or]. apply (does_perm _ _ _ (seg NULL (t :: l) NULL ++ (arr (t :: l) :: seg NULL [u] NULL ++ F))); [solve_Permutation|].
    apply (seg_root _ _ _ [] t l). intros Ht. cbn [app]. destruct (Z.eqb_spec (root t) NULL); [done|].
    apply blocks_left_bound. eapply leaves_bind.
    { apply last_loop_spec. rewrite length_app. pose proof (seg_length NULL (t :: l) NULL). simpl in *. lia. }
    apply (leaves_perm _ _ _ (arr (t :: l) :: seg NULL (t :: l) NULL ++ seg NULL [u] NULL ++ F) _ (arr ((t :: l) ++ [u]) :: seg NULL ((t :: l) ++ [u]) NULL ++ F));
      [solve_Permutation|done|]. by apply (suffix_spec (t :: l)).
Qed.

(** The item at [which], negative counting as 0, and the others. *)
Lemma drop_split (kids : list jtree) k t l2 : drop k kids = t :: l2 -> kids = take k kids ++ t :: l2 /\ length (take k kids) = k.
Proof.
  intros E. split; [by rewrite <- E, take_drop|]. rewrite length_take. apply (f_equal length) in E. rewrite length_drop in E. simpl in E. lia.
Qed.

Lemma find_which kids w M F {A} (k : addr -> J A) Q :
  does (k (head_or (drop (Z.to_nat w) kids) NULL)) M (arr kids :: seg NULL kids NULL ++ F) Q ->
  does (x ← get a; n ← blocks_left; c ← walk n (child x) w; k c) M (arr kids :: seg NULL kids NULL ++ F) Q.
Proof.
  intros H. eapply leaves_bind; [apply leaves_get|]. cbn [item_of child]. apply blocks_left_bound. eapply leaves_bind; [|exact H].
  apply (leaves_perm _ _ _ (seg NULL kids NULL ++ arr kids :: F) _ (seg NULL kids NULL ++ arr kids :: F)); [solve_Permutation|solve_Permutation|].
  apply walk_spec. pose proof (seg_length NULL kids NULL). cbn [length]. rewrite length_app. lia.
Qed.

(** Unlinking the item between [l1] and [l2]. *)
Lemma detach_spec l1 t l2 w M F : Z.to_nat w = length l1 ->
  leaves (cJSON_DetachItemFromArray a w) M (arr (l1 ++ t :: l2) :: seg NULL (l1 ++ t :: l2) NULL ++ F) (root t)
    (arr (l1 ++ l2) :: seg NULL (l1 ++ l2) NULL ++ seg NULL [t] NULL ++ F).
Proof.
  intros Hw. unfold cJSON_DetachItemFromArray. apply find_which. rewrite Hw, drop_app_length. cbn [head_or].
  apply (does_perm _ _ _ (seg NULL (l1 ++ t :: l2) NULL ++ arr (l1 ++ t :: l2) :: F)); [solve_Permutation|].
  apply seg_root. intros Ht. destruct (Z.eqb_spec (root t) NULL); [done|].
  eapply leaves_bind; [apply get_mid|]. rewrite prev_item, next_item, seg_app. cbn [head_or].
  set (p := last_or l1 NULL). set (nx := head_or l2 NULL). set (K := arr (l1 ++ t :: l2)). set (L2 := seg (root t) l2 NULL).
  set (mid := (root t, BItem (item_of p nx t))). change (seg p (t :: l2) NULL) with (mid :: rest t ++ L2).
  apply (does_perm _ _ _ (seg NULL l1 (root t) ++ (mid :: rest t ++ L2 ++ K :: F))); [solve_Permutation|].
  eapply leaves_bind; [apply relink_end_if|].
  apply (does_perm _ _ _ (mid :: seg NULL l1 nx ++ rest t ++ L2 ++ K :: F)); [solve_Permutation|].
  eapply leaves_bind; [apply leaves_get|]. rewrite prev_item, next_item.
  apply (does_perm _ _ _ (L2 ++ (mid :: seg NULL l1 nx ++ rest t ++ K :: F))); [solve_Permutation|].
  eapply leaves_bind; [apply relink_start_if|].
  apply (does_perm _ _ _ (K :: mid :: seg NULL l1 nx ++ seg p l2 NULL ++ rest t ++ F)); [solve_Permutation|].
  eapply leaves_bind; [apply leaves_get|].
  apply (does_perm _ _ _ (mid :: K :: seg NULL l1 nx ++ seg p l2 NULL ++ rest t ++ F)); [solve_Permutation|].
  eapply leaves_bind; [apply leaves_get|]. rewrite next_item. cbn [item_of child].
  apply (does_perm _ _ _ (K :: mid :: seg NULL l1 nx ++ seg p l2 NULL ++ rest t ++ F)); [solve_Permutation|].
  apply (leaves_bind _ _ _ _ tt (arr (l1 ++ l2) :: mid :: seg NULL l1 nx ++ seg p l2 NULL ++ rest t ++ F)).
  - destruct l1 as [|u l1].
    + cbn [app head_or]. rewrite Z.eqb_refl. apply leaves_set_child.
    + cbn [app head_or]. change (arr (u :: l1 ++ l2)) with K.
      apply (does_perm _ _ _ ((root u, BItem (item_of NULL (head_or l1 nx) u)) :: mid :: K :: rest u ++ seg (root u) l1 nx ++ seg p l2 NULL ++ rest t ++ F));
        [cbn [seg]; solve_Permutation|].
      apply does_distinct. cbn [fst mid]. intros Hne. destruct (Z.eqb_spec (root t) (root u)); [congruence|].
      apply leaves_ret. cbn [seg]. solve_Permutation.
  - apply (does_perm _ _ _ (mid :: arr (l1 ++ l2) :: seg NULL l1 nx ++ seg p l2 NULL ++ rest t ++ F)); [solve_Permutation|].
    eapply leaves_bind; [apply leaves_set_next|]. rewrite with_next_item. eapply leaves_bind; [apply leaves_set_prev|]. rewrite with_prev_item.
    apply leaves_ret. rewrite seg_app. cbn [seg head_or]. rewrite app_nil_r. fold nx p. solve_Permutation.
Qed.

Lemma detach_none kids w M F : (length kids <= Z.to_nat w)%nat ->
  leaves (cJSON_DetachItemFromArray a w) M (arr kids :: seg NULL kids NULL ++ F) NULL (arr kids :: seg NULL kids NULL ++ F).
Proof. intros Hw. unfold cJSON_DetachItemFromArray. apply find_which. rewrite drop_ge by done. by apply leaves_ret. Qed.

(** The item between [l1] and [l2] makes room for [u] and is released. *)
Lemma replace_spec l1 t l2 u w M F : Z.to_nat w = length l1 -> typed t ->
  leaves (cJSON_ReplaceItemInArray a w (root u)) M (arr (l1 ++ t :: l2) :: seg NULL (l1 ++ t :: l2) NULL ++ seg NULL [u] NULL ++ F) tt
    (arr (l1 ++ u :: l2) :: seg NULL (l1 ++ u :: l2) NULL ++ F).
Proof.
  intros Hw Hty. unfold cJSON_ReplaceItemInArray. apply find_which. rewrite Hw, drop_app_length. cbn [head_or].
  apply (does_perm _ _ _ (seg NULL (l1 ++ t :: l2) NULL ++ (arr (l1 ++ t :: l2) :: seg NULL [u] NULL ++ F))); [solve_Permutation|].
  apply seg_root. intros Ht. destruct (Z.eqb_spec (root t) NULL); [done|].
  eapply leaves_bind; [apply get_mid|]. rewrite next_item, seg_app. cbn [head_or].
  set (p := last_or l1 NULL). set (nx := head_or l2 NULL). set (K := arr (l1 ++ t :: l2)). set (L2 := seg (root t) l2 NULL).
  set (mid := (root t, BItem (item_of p nx t))). change (seg p (t :: l2) NULL) with (mid :: rest t ++ L2).
  cbn [seg head_or]. rewrite app_nil_r. set (U := fun p n => (root u, BItem (item_of p n u)) : cell). set (L1 := fun e => seg NULL l1 e).
  set (R := rest t ++ rest u ++ F).
  apply (does_perm _ _ _ (U NULL NULL :: mid :: K :: L1 (root t) ++ L2 ++ R)); [unfold U, L1, R; solve_Permutation|].
  eapply leaves_bind; [apply leaves_set_next|]. rewrite with_next_item. fold (U NULL nx).
  apply (does_perm _ _ _ (mid :: U NULL nx :: K :: L1 (root t) ++ L2 ++ R)); [solve_Permutation|].
  eapply leaves_bind; [apply leaves_get|]. rewrite prev_item.
  apply (does_perm _ _ _ (U NULL nx :: mid :: K :: L1 (root t) ++ L2 ++ R)); [solve_Permutation|].
  eapply leaves_bind; [apply leaves_set_prev|]. rewrite with_prev_item. fold (U p nx).
  eapply leaves_bind; [apply leaves_get|]. rewrite next_item.
  apply (does_perm _ _ _ (L2 ++ (U p nx :: mid :: K :: L1 (root t) ++ R))); [solve_Permutation|].
  eapply leaves_bind; [apply relink_start_if|]. set (L2' := seg (root u) l2 NULL).
  apply (does_perm _ _ _ (K :: mid :: U p nx :: L1 (root t) ++ L2' ++ R)); [solve_Permutation|].
  eapply leaves_bind; [apply leaves_get|]. cbn [item_of child].
  apply (leaves_bind _ _ _ _ tt (arr (l1 ++ u :: l2) :: mid :: U p nx :: L1 (root u) ++ L2' ++ R)).
  - destruct l1 as [|h l1].
    + cbn [app head_or]. rewrite Z.eqb_refl. apply leaves_set_child.
    + cbn [app head_or]. change (arr (h :: l1 ++ u :: l2)) with K.
      apply (does_perm _ _ _ ((root h, BItem (item_of NULL (head_or l1 (root t)) h)) :: mid :: U p nx :: K :: rest h ++ seg (root h) l1 (root t) ++ L2' ++ R));
        [unfold L1; cbn [seg]; solve_Permutation|].
      apply does_distinct. cbn [fst mid]. intros Hne. destruct (Z.eqb_spec (root t) (root h)); [congruence|].
      apply (does_perm _ _ _ (U p nx :: mid :: K :: L1 (root t) ++ L2' ++ R)); [unfold L1; cbn [seg]; solve_Permutation|].
      eapply leaves_bind; [apply leaves_get|]. rewrite prev_item.
      apply (leaves_perm _ _ _ (L1 (root t) ++ (U p nx :: mid :: K :: L2' ++ R)) _ (L1 (root u) ++ (U p nx :: mid :: K :: L2' ++ R)));
        [solve_Permutation|solve_Permutation|]. by apply relink_end.
  - apply (does_perm _ _ _ (mid :: arr (l1 ++ u :: l2) :: U p nx :: L1 (root u) ++ L2' ++ R)); [solve_Permutation|].
    eapply leaves_bind; [apply leaves_set_prev|]. rewrite with_prev_item. eapply leaves_bind; [apply leaves_set_next|]. rewrite with_next_item.
    apply (leaves_perm _ _ _ (seg NULL [t] NULL ++ (arr (l1 ++ u :: l2) :: U p nx :: L1 (root u) ++ L2' ++ rest u ++ F)) _
      (arr (l1 ++ u :: l2) :: U p nx :: L1 (root u) ++ L2' ++ rest u ++ F)).
    + cbn [seg head_or]. rewrite app_nil_r. unfold R. solve_Permutation.
    + rewrite seg_app. cbn [seg head_or]. unfold U, L1, L2', p, nx. solve_Permutation.
    + by apply (delete_spec [t]); constructor.
Qed.

Lemma replace_none kids w u M F : (length kids <= Z.to_nat w)%nat ->
  leaves (cJSON_ReplaceItemInArray a w u) M (arr kids :: seg NULL kids NULL ++ F) tt (arr kids :: seg NULL kids NULL ++ F).
Proof. intros Hw. unfold cJSON_ReplaceItemInArray. apply find_which. rewrite drop_ge by done. by apply leaves_ret. Qed.

(** ** Looking *)

Lemma item_spec kids w M F :
  leaves (cJSON_GetArrayItem a w) M (arr kids :: seg NULL kids NULL ++ F) (head_or (drop (Z.to_nat w) kids) NULL) (arr kids :: seg NULL kids NULL ++ F).
Proof.
  unfold cJSON_GetArrayItem. eapply leaves_bind; [apply leaves_get|]. cbn [item_of child]. apply blocks_left_bound.
  apply (leaves_perm _ _ _ (seg NULL kids NULL ++ arr kids :: F) _ (seg NULL kids NULL ++ arr kids :: F)); [solve_Permutation|solve_Permutation|].
  apply walk_spec. pose proof (seg_length NULL kids NULL). cbn [length]. rewrite length_app. lia.
Qed.

Lemma count_loop_spec : forall l n p i M F, (length l <= n)%nat -> 0 <= i -> i + Z.of_nat (length l) < 2 ^ 31 ->
  leaves (count_loop n (head_or l NULL) i) M (seg p l NULL ++ F) (i + Z.of_nat (length l)) (seg p l NULL ++ F).
Proof.
  induction l as [|t l IH]; intros n p i M F Hn Hi Hb.
  { replace (i + _) with i by (simpl; lia). by destruct n; apply leaves_ret. }
  cbn [length] in *. apply (seg_root _ _ _ []). intros Hr. cbn [app head_or]. destruct n as [|n]; [lia|]. cbn [count_loop].
  destruct (Z.eqb_spec (root t) NULL); [done|]. eapply leaves_bind; [apply (get_mid p [] t l)|]. rewrite next_item, (wraps_small 32) by lia.
  replace (i + Z.of_nat (S (length l))) with (i + 1 + Z.of_nat (length l)) by lia. cbn [app]. apply leaves_tail. intros F'. apply IH; lia.
Qed.

Lemma size_spec kids M F : Z.of_nat (length kids) < 2 ^ 31 ->
  leaves (cJSON_GetArraySize a) M (arr kids :: seg NULL kids NULL ++ F) (Z.of_nat (length kids)) (arr kids :: seg NULL kids NULL ++ F).
Proof.
  intros Hb. unfold cJSON_GetArraySize. eapply leaves_bind; [apply leaves_get|]. cbn [item_of child]. apply blocks_left_bound.
  apply (leaves_perm _ _ _ (seg NULL kids NULL ++ arr kids :: F) _ (seg NULL kids NULL ++ arr kids :: F)); [solve_Permutation|solve_Permutation|].
  apply count_loop_spec; [|lia|done]. pose proof (seg_length NULL kids NULL). cbn [length]. rewrite length_app. lia.
Qed.

(** The first item with a name, and its place. *)
Lemma find_loop_spec str : forall l n p i M F, (length l <= n)%nat -> 0 <= i -> i + Z.of_nat (length l) < 2 ^ 31 ->
  leaves (find_loop n (head_or l NULL) str i) M (seg p l NULL ++ F)
    (head_or (drop (place str l) l) NULL, i + Z.of_nat (place str l)) (seg p l NULL ++ F).
Proof.
  induction l as [|t l IH]; intros n p i M F Hn Hi Hb.
  { replace (i + _) with i by (simpl; lia). by destruct n; apply leaves_ret. }
  cbn [length] in *. apply (seg_root _ _ _ []). intros Hr. cbn [app head_or]. destruct n as [|n]; [lia|]. cbn [find_loop].
  destruct (Z.eqb_spec (root t) NULL); [done|]. eapply leaves_bind; [apply (get_mid p [] t l)|]. cbn [app last_or last].
  eapply leaves_bind; [apply same_name_spec|]. cbn [place]. destruct (named str t) eqn:E.
  - replace (i + _) with i by lia. by apply leaves_ret.
  - rewrite next_item, (wraps_small 32) by lia. replace (i + Z.of_nat (S (place str l))) with (i + 1 + Z.of_nat (place str l)) by lia. cbn [drop].
    apply leaves_tail. intros F'. apply IH; lia.
Qed.

Lemma find_place str kids M F {A} (k : addr * Z -> J A) Q : Z.of_nat (length kids) < 2 ^ 31 ->
  does (k (head_or (drop (place str kids) kids) NULL, Z.of_nat (place str kids))) M (arr kids :: seg NULL kids NULL ++ F) Q ->
  does (x ← get a; n ← blocks_left; r ← find_loop n (child x) str 0; k r) M (arr kids :: seg NULL kids NULL ++ F) Q.
Proof.
  intros Hb H. eapply leaves_bind; [apply leaves_get|]. cbn [item_of child]. apply blocks_left_bound. eapply leaves_bind; [|exact H].
  apply (leaves_perm _ _ _ (seg NULL kids NULL ++ arr kids :: F) _ (seg NULL kids NULL ++ arr kids :: F)); [solve_Permutation|solve_Permutation|].
  apply find_loop_spec; [|lia|lia]. pose proof (seg_length NULL kids NULL). cbn [length]. rewrite length_app. lia.
Qed.

Lemma named_item_spec str kids M F : Z.of_nat (length kids) < 2 ^ 31 ->
  leaves (cJSON_GetObjectItem a str) M (arr kids :: seg NULL kids NULL ++ F) (head_or (drop (place str kids) kids) NULL)
    (arr kids :: seg NULL kids NULL ++ F).
Proof. intros Hb. unfold cJSON_GetObjectItem. apply find_place; [done|]. by apply leaves_ret. Qed.

End Array.

End Facts.

(** An object with a text of its own and a reference to that text, and a block
    that is none of its. *)
Definition sample : list (jtree (dbl := Z)) :=
  [Node 10 6 0 0 None None
    [Node 20 4 0 0 (Some (21, [97])) (Some (22, [107])) []; Ref 30 4 0 0 21 NULL (Some (31, [114]))]].

Lemma delete_exact_witness : exists s' : heap (dbl := Z),
  cJSON_Delete 10 (Heap (list_to_map (seg NULL sample NULL ++ [(40, BText [])])) []) = Done (tt, s') /\ owns s' [] [(40, BText [])].
Proof.
  apply (delete_exact _ [] sample [(40, BText [])]); [by repeat constructor|].
  apply owns_intro; [apply (bool_decide_unpack _); by vm_compute|by repeat constructor].
Defined.
