(* ===== verification/JsonList.v ===== *)
(** * JsonList: arrays and objects in memory are lists of trees

    The abstract view of [cJSON.c]: one array or object with the list of its
    items, the trees the caller holds beside it, and what else is in memory.
    [step] says what each function promises on that view; [json_refines] shows
    that the functions of [JsonTree], on memory, do exactly that. *)

From S2P Require Import Prelude CString CJson JsonTree JsonTreeFacts.
Import JsonTree.
Local Open Scope list_scope.
Local Open Scope Z_scope.

#[local] Existing Instance J_ret.
#[local] Existing Instance J_bind.

Section List.

Context {dbl : Type} (zero : dbl) (of_int : Z -> dbl) (to_int : dbl -> Z).

Abbreviation heap := (@heap dbl).
Abbreviation J := (@J dbl).
Abbreviation jtree := (@jtree dbl).
Abbreviation cell := (addr * @block dbl)%type.
Abbreviation text := (option (addr * cstring)).

(** The item of the array or object itself. *)
Context (pa na a ty vi : Z) (vd : dbl) (v nm : text).

(** [pool]: what the caller holds; [other]: every other block; [avail]: what
    [cJSON_malloc] will return. *)
Record state := State { kids : list jtree; pool : list jtree; other : list cell; avail : list addr }.

Definition loose (l : list jtree) : list cell := mbind (fun t => seg NULL [t] NULL) l.

Definition blocks (st : state) : list cell := arr pa na a ty vi vd v nm (kids st) :: seg NULL (kids st) NULL ++ loose (pool st) ++ other st.

Definition represents (st : state) (s : heap) : Prop := owns s (avail st) (blocks st).

Definition well_typed (st : state) : Prop := Forall typed (kids st) /\ Forall typed (pool st).

(** ** What is asked of the library *)

Inductive kind := KNull | KTrue | KFalse | KBool (b : Z) | KNumber (num : dbl) | KArray | KObject.

Inductive op :=
| Size | ItemAt (w : Z) | Named (str : cstring)
| New (k : kind) | NewString (str : cstring)
| NewInts (l : list Z) | NewFloats (l : list dbl) | NewDoubles (l : list dbl) | NewStrings (l : list cstring)
| Append (u : addr) | AppendNamed (str : cstring) (u : addr)
| AppendRef (u : addr) | AppendRefNamed (str : cstring) (u : addr)
| Detach (w : Z) | DetachNamed (str : cstring)
| Delete (w : Z) | DeleteNamed (str : cstring)
| Replace (w : Z) (u : addr) | ReplaceNamed (str : cstring) (u : addr)
| Drop (u : addr).

Definition create_kind (k : kind) : J addr :=
  match k with
  | KNull => cJSON_CreateNull zero
  | KTrue => cJSON_CreateTrue zero
  | KFalse => cJSON_CreateFalse zero
  | KBool b => cJSON_CreateBool zero b
  | KNumber num => cJSON_CreateNumber zero to_int num
  | KArray => cJSON_CreateArray zero
  | KObject => cJSON_CreateObject zero
  end.

Definition quiet (m : J unit) : J Z := _ ← m; mret 0.

Definition exec (o : op) : J Z :=
  match o with
  | Size => cJSON_GetArraySize a
  | ItemAt w => cJSON_GetArrayItem a w
  | Named str => cJSON_GetObjectItem a str
  | New k => create_kind k
  | NewString str => cJSON_CreateString zero str
  | NewInts l => cJSON_CreateIntArray zero of_int to_int l
  | NewFloats l => cJSON_CreateFloatArray zero to_int l
  | NewDoubles l => cJSON_CreateDoubleArray zero to_int l
  | NewStrings l => cJSON_CreateStringArray zero l
  | Append u => quiet (cJSON_AddItemToArray a u)
  | AppendNamed str u => quiet (cJSON_AddItemToObject a str u)
  | AppendRef u => quiet (cJSON_AddItemReferenceToArray zero a u)
  | AppendRefNamed str u => quiet (cJSON_AddItemReferenceToObject zero a str u)
  | Detach w => cJSON_DetachItemFromArray a w
  | DetachNamed str => cJSON_DetachItemFromObject a str
  | Delete w => quiet (cJSON_DeleteItemFromArray a w)
  | DeleteNamed str => quiet (cJSON_DeleteItemFromObject a str)
  | Replace w u => quiet (cJSON_ReplaceItemInArray a w u)
  | ReplaceNamed str u => quiet (cJSON_ReplaceItemInObject a str u)
  | Drop u => quiet (cJSON_Delete u)
  end.

Fixpoint exec_all (os : list op) : J (list Z) :=
  match os with [] => mret [] | o :: os => r ← exec o; rs ← exec_all os; mret (r :: rs) end.

(** ** What it promises *)

Fixpoint take_out (u : addr) (l : list jtree) : option (jtree * list jtree) :=
  match l with
  | [] => None
  | t :: l => if u =? root t then Some (t, l) else match take_out u l with Some (x, l) => Some (x, t :: l) | None => None end
  end.

Definition rename (nm : text) (t : jtree) : jtree :=
  match t with Node a ty vi vd v _ k => Node a ty vi vd v nm k | Ref a ty vi vd v c _ => Ref a ty vi vd v c nm end.

Definition text_at (x : addr) (str : cstring) : text := if x =? NULL then None else Some (x, str).

(** The tree [create_reference] makes for [t]. *)
Definition ref_of (x : addr) (t : jtree) : jtree :=
  match t with
  | Node _ ty vi vd v _ k => Ref x ty vi vd (ptr v) (head_or k NULL) None
  | Ref _ ty vi vd v c _ => Ref x ty vi vd v c None
  end.

Definition made (k : kind) : Z * Z * dbl :=
  match k with
  | KNull => (cJSON_NULL, 0, zero)
  | KTrue => (cJSON_True, 0, zero)
  | KFalse => (cJSON_False, 0, zero)
  | KBool b => (if b =? 0 then cJSON_False else cJSON_True, 0, zero)
  | KNumber num => (cJSON_Number, to_int num, num)
  | KArray => (cJSON_Array, 0, zero)
  | KObject => (cJSON_Object, 0, zero)
  end.

Definition fits (l : list jtree) : bool := Z.of_nat (length l) <? 2 ^ 31.

Definition add (t : jtree) (st : state) : state := State (kids st ++ [t]) (pool st) (other st) (avail st).
Definition hold (t : jtree) (st : state) : state := State (kids st) (t :: pool st) (other st) (avail st).
Definition with_avail (M : list addr) (st : state) : state := State (kids st) (pool st) (other st) M.

(** The item at a place, and the array without it. *)
Definition pull (k : nat) (st : state) : option (jtree * state) :=
  match drop k (kids st) with
  | [] => None
  | t :: l2 => Some (t, State (take k (kids st) ++ l2) (pool st) (other st) (avail st))
  end.

Definition put_at (k : nat) (u : jtree) (st : state) : state :=
  State (take k (kids st) ++ u :: drop (S k) (kids st)) (pool st) (other st) (avail st).

Definition grab (u : addr) (st : state) : option (jtree * state) :=
  match take_out u (pool st) with Some (t, p) => Some (t, State (kids st) p (other st) (avail st)) | None => None end.

(** A loose tree gets a name and is appended. *)
Definition append_named (str : cstring) (t : jtree) (st : state) : state :=
  let '(x, M) := malloc_ (blocks (hold (rename None t) st)) (avail st) in add (rename (text_at x str) t) (with_avail M st).

Definition new_ref (u : addr) (st : state) : option (option jtree * state) :=
  '(t, _) ← take_out u (pool st);
  let '(x, M) := malloc_ (blocks st) (avail st) in
  Some (if x =? NULL then None else Some (ref_of x t), with_avail M st).

(** An item made while the blocks [l] are in use; enough memory is asked for. *)
Definition number_of (d : dbl) (l : list cell) (M : list addr) : option (jtree * list addr) :=
  let '(x, M) := malloc_ l M in if x =? NULL then None else Some (Node x cJSON_Number (to_int d) d None None [], M).

Definition string_of (str : cstring) (l : list cell) (M : list addr) : option (jtree * list addr) :=
  let '(x, M) := malloc_ l M in
  if x =? NULL then None
  else
    let '(y, M) := malloc_ (seg NULL [Node x cJSON_String 0 zero None None []] NULL ++ l) M in
    Some (Node x cJSON_String 0 zero (text_at y str) None [], M).

Fixpoint make_all {X} (mk : X -> list cell -> list addr -> option (jtree * list addr)) (vs : list X) (l : list cell) (M : list addr) :
  option (list jtree * list addr) :=
  match vs with
  | [] => Some ([], M)
  | x :: vs => '(t, M) ← mk x l M; '(ts, M) ← make_all mk vs (seg NULL [t] NULL ++ l) M; Some (t :: ts, M)
  end.

Definition array_at (x : addr) (ts : list jtree) : jtree := Node x cJSON_Array 0 zero None None ts.

Definition new_array {X} (mk : X -> list cell -> list addr -> option (jtree * list addr)) (vs : list X) (st : state) : option (state * Z) :=
  let '(x, M) := malloc_ (blocks st) (avail st) in
  if x =? NULL then Some (with_avail M st, NULL)
  else '(ts, M) ← make_all mk vs (seg NULL [array_at x []] NULL ++ blocks st) M; Some (hold (array_at x ts) (with_avail M st), x).

Definition step (o : op) (st : state) : option (state * Z) :=
  match o with
  | Size => if fits (kids st) then Some (st, Z.of_nat (length (kids st))) else None
  | ItemAt w => Some (st, head_or (drop (Z.to_nat w) (kids st)) NULL)
  | Named str => if fits (kids st) then Some (st, head_or (drop (place str (kids st)) (kids st)) NULL) else None
  | New k =>
    let '(x, M) := malloc_ (blocks st) (avail st) in
    let '(t, i, d) := made k in
    Some (if x =? NULL then with_avail M st else hold (Node x t i d None None []) (with_avail M st), x)
  | NewString str =>
    let '(x, M) := malloc_ (blocks st) (avail st) in
    if x =? NULL then Some (with_avail M st, NULL)
    else
      let st1 := hold (Node x cJSON_String 0 zero None None []) (with_avail M st) in
      let '(y, M) := malloc_ (blocks st1) M in
      Some (hold (Node x cJSON_String 0 zero (text_at y str) None []) (with_avail M st), x)
  | NewInts l => new_array (fun n => number_of (of_int n)) l st
  | NewFloats l | NewDoubles l => new_array number_of l st
  | NewStrings l => new_array string_of l st
  | Append u => if u =? NULL then Some (st, 0) else '(t, st) ← grab u st; Some (add t st, 0)
  | AppendNamed str u => if u =? NULL then Some (st, 0) else '(t, st) ← grab u st; Some (append_named str t st, 0)
  | AppendRef u => '(t, st) ← new_ref u st; Some (match t with Some t => add t st | None => st end, 0)
  | AppendRefNamed str u =>
    '(t, st) ← new_ref u st;
    Some (match t with Some t => append_named str t st | None => st end, 0)
  | Detach w => Some (match pull (Z.to_nat w) st with Some (t, st) => (hold t st, root t) | None => (st, NULL) end)
  | DetachNamed str =>
    if fits (kids st) then Some (match pull (place str (kids st)) st with Some (t, st) => (hold t st, root t) | None => (st, NULL) end) else None
  | Delete w => Some (match pull (Z.to_nat w) st with Some (_, st) => (st, 0) | None => (st, 0) end)
  | DeleteNamed str => if fits (kids st) then Some (match pull (place str (kids st)) st with Some (_, st) => (st, 0) | None => (st, 0) end) else None
  | Replace w u =>
    if decide (length (kids st) <= Z.to_nat w)%nat then Some (st, 0)
    else '(t, st) ← grab u st; Some (put_at (Z.to_nat w) t st, 0)
  | ReplaceNamed str u =>
    let k := place str (kids st) in
    if negb (fits (kids st)) then None
    else if decide (length (kids st) <= k)%nat then Some (st, 0)
    else
      let '(x, M) := malloc_ (blocks st) (avail st) in
      '(t, st) ← grab u st;
      (** The name [t] had is in nobody's hands from here on. *)
      Some (put_at k (rename (text_at x str) t) (State (kids st) (pool st) (text_blocks (name_of t) ++ other st) M), 0)
  | Drop u => if u =? NULL then Some (st, 0) else '(_, st) ← grab u st; Some (st, 0)
  end.

Fixpoint run (os : list op) (st : state) : option (state * list Z) :=
  match os with
  | [] => Some (st, [])
  | o :: os => '(st, r) ← step o st; '(st, rs) ← run os st; Some (st, r :: rs)
  end.

(** ** Running, with what is left to allocate *)

(** [m] returns [r], leaves [M'] to [cJSON_malloc] and the blocks [l']. *)
Definition goes {A} (m : J A) (M : list addr) (l : list cell) (r : A) (M' : list addr) (l' : list cell) : Prop :=
  does m M l (fun r' M1 l1 => r' = r /\ M1 = M' /\ l1 ≡ₚ l').

Lemma goes_bind {A B} (m : J A) (k : A -> J B) M l r M1 l1 Q : goes m M l r M1 l1 -> does (k r) M1 l1 Q -> does (m ≫= k) M l Q.
Proof. intros Hm Hk. eapply does_bind; [exact Hm|]. intros r' M' l' (-> & -> & Hp). by apply (does_perm _ _ _ l1). Qed.

Lemma goes_ret {A} (r : A) M l l' : l ≡ₚ l' -> goes (mret r) M l r M l'.
Proof. apply leaves_ret. Qed.

Lemma goes_perm {A} (m : J A) M l1 l2 r M' l3 l4 : l1 ≡ₚ l2 -> l3 ≡ₚ l4 -> goes m M l2 r M' l3 -> goes m M l1 r M' l4.
Proof.
  intros H12 H34 Hm. apply (does_perm _ _ _ _ _ H12). eapply does_mono; [exact Hm|]. intros b M1 l' (-> & -> & Hp). by rewrite Hp, H34.
Qed.

Lemma goes_quiet (m : J unit) M l M' l' : goes m M l tt M' l' -> goes (quiet m) M l 0 M' l'.
Proof. intros H. eapply goes_bind; [exact H|]. by apply goes_ret. Qed.

(** ** Allocation *)

Lemma alloc_goes b l M x M' : malloc_ l M = (x, M') -> goes (alloc b) M l x M' (if x =? NULL then l else (x, b) :: l).
Proof. intros E. eapply does_mono; [by apply does_alloc|]. by intros r M1 l' (-> & -> & ->). Qed.

Lemma text_at_ptr x str : ptr (text_at x str) = x.
Proof. unfold text_at. by destruct (Z.eqb_spec x NULL) as [->|]. Qed.

Lemma strdup_goes str l M x M' : malloc_ l M = (x, M') -> goes (cJSON_strdup str) M l x M' (text_blocks (text_at x str) ++ l).
Proof. intros H. eapply goes_perm; [reflexivity| |by apply alloc_goes]. unfold text_at. by destruct (x =? NULL). Qed.

Lemma create_goes t i d l M x M' : malloc_ l M = (x, M') ->
  goes (create zero t i d) M l x M' (if x =? NULL then l else seg NULL [Node x t i d None None []] NULL ++ l).
Proof.
  intros H. unfold create, cJSON_New_Item. eapply goes_bind; [by apply alloc_goes|]. destruct (Z.eqb_spec x NULL) as [->|Hx].
  - by apply goes_ret.
  - eapply leaves_bind; [apply leaves_put|]. by apply goes_ret.
Qed.

Lemma create_kind_goes k l M x M' : malloc_ l M = (x, M') ->
  goes (create_kind k) M l x M' (let '(t, i, d) := made k in if x =? NULL then l else seg NULL [Node x t i d None None []] NULL ++ l).
Proof. intros H. destruct k; by apply create_goes. Qed.

Lemma string_goes str l M x M1 : malloc_ l M = (x, M1) ->
  (x = NULL -> goes (cJSON_CreateString zero str) M l NULL M1 l) /\
  (x <> NULL -> forall y M2, malloc_ (seg NULL [Node x cJSON_String 0 zero None None []] NULL ++ l) M1 = (y, M2) ->
    goes (cJSON_CreateString zero str) M l x M2 (seg NULL [Node x cJSON_String 0 zero (text_at y str) None []] NULL ++ l)).
Proof.
  intros H. pose proof (create_goes cJSON_String 0 zero _ _ _ _ H) as Hc. unfold cJSON_CreateString. split.
  - intros ->. eapply goes_bind; [exact Hc|]. by apply goes_ret.
  - intros Hx y M2 H2. apply Z.eqb_neq in Hx as Ex. rewrite Ex in Hc. eapply goes_bind; [exact Hc|]. rewrite Ex.
    eapply goes_bind; [by apply strdup_goes|].
    apply (does_perm _ _ _ (seg NULL [Node x cJSON_String 0 zero None None []] NULL ++ text_blocks (text_at y str) ++ l)); [solve_Permutation|].
    eapply leaves_bind; [apply leaves_put|]. apply goes_ret. cbn [seg head_or item_of]. rewrite text_at_ptr, rest_node. cbn [text_blocks seg].
    rewrite !app_nil_r. solve_Permutation.
Qed.

Lemma ref_item x t : item_of NULL NULL (ref_of x t) = Item NULL NULL (child (item_of NULL NULL t)) (Z.lor (type (item_of NULL NULL t)) cJSON_IsReference)
  (valuestring (item_of NULL NULL t)) (valueint (item_of NULL NULL t)) (valuedouble (item_of NULL NULL t)) NULL.
Proof. destruct t; cbn; [done|]. by rewrite <- Z.lor_assoc, Z.lor_diag. Qed.

Lemma reference_goes t l M x M' : malloc_ (seg NULL [t] NULL ++ l) M = (x, M') ->
  goes (create_reference zero (root t)) M (seg NULL [t] NULL ++ l) x M'
    (if x =? NULL then seg NULL [t] NULL ++ l else seg NULL [ref_of x t] NULL ++ seg NULL [t] NULL ++ l).
Proof.
  intros H. unfold create_reference, cJSON_New_Item. eapply goes_bind; [by apply alloc_goes|]. destruct (Z.eqb_spec x NULL) as [->|Hx].
  { by apply goes_ret. }
  set (e := (x, BItem _)). apply (does_perm _ _ _ (seg NULL ([] ++ t :: []) NULL ++ (e :: l))); [cbn [app]; solve_Permutation|].
  eapply leaves_bind; [apply get_mid|]. cbn [app last_or last head_or].
  apply (does_perm _ _ _ (e :: seg NULL [t] NULL ++ l)); [solve_Permutation|].
  eapply leaves_bind; [apply leaves_put|]. apply goes_ret. rewrite <- (ref_item x t). cbn [seg head_or].
  assert (root (ref_of x t) = x /\ rest (ref_of x t) = []) as [-> ->] by (by destruct t). cbn [app]. solve_Permutation.
Qed.

(** ** The view *)

Lemma take_out_spec u l t l' : take_out u l = Some (t, l') -> u = root t /\ l ≡ₚ t :: l'.
Proof.
  revert l'. induction l as [|x l IH]; intros l'; [done|]. cbn [take_out]. destruct (Z.eqb_spec u (root x)).
  - by intros [= <- <-].
  - destruct (take_out u l) as [[y l1]|]; [|done]. intros [= <- <-]. destruct (IH l1 eq_refl) as [-> Hp]. split; [done|]. rewrite Hp. solve_Permutation.
Qed.

Lemma loose_perm l l' : l ≡ₚ l' -> loose l ≡ₚ loose l'.
Proof. intros Hp. unfold loose. by rewrite Hp. Qed.

Lemma blocks_hold t st : blocks (hold t st) ≡ₚ seg NULL [t] NULL ++ blocks st.
Proof. unfold blocks, hold. cbn [kids pool other]. change (loose (t :: pool st)) with (seg NULL [t] NULL ++ loose (pool st)). solve_Permutation. Qed.

Lemma loose_one (t : jtree) : seg NULL [t] NULL ≡ₚ (root t, BItem (item_of NULL NULL t)) :: text_blocks (name_of t) ++ nameless t.
Proof. cbn [seg head_or]. by rewrite app_nil_r, rest_name. Qed.

Lemma grab_spec u st t st' : grab u st = Some (t, st') ->
  u = root t /\ blocks st ≡ₚ blocks (hold t st') /\ kids st' = kids st /\ avail st' = avail st /\ (well_typed st -> typed t /\ well_typed st').
Proof.
  unfold grab. destruct (take_out u (pool st)) as [[x p]|] eqn:E; [|done]. intros [= <- <-]. apply take_out_spec in E as [-> Hp].
  split; [done|]. split. { unfold blocks, hold. cbn [kids pool other]. by rewrite (loose_perm _ _ Hp). }
  split; [done|]. split; [done|]. unfold well_typed. cbn [kids pool]. intros [Hk Ht]. rewrite Hp in Ht. apply Forall_cons in Ht as [? ?]. done.
Qed.

Lemma append_goes t st : goes (cJSON_AddItemToArray a (root t)) (avail st) (blocks (hold t st)) tt (avail st) (blocks (add t st)).
Proof.
  eapply goes_perm; [|reflexivity|apply add_spec]. rewrite blocks_hold. unfold blocks, add. cbn [kids pool other]. solve_Permutation.
Qed.

(** The name an item had is forgotten, not released. *)
Lemma set_name x str t M l :
  leaves (set_string (root t) x) M ((root t, BItem (item_of NULL NULL t)) :: text_blocks (text_at x str) ++ nameless t ++ l) tt
    (seg NULL [rename (text_at x str) t] NULL ++ l).
Proof.
  eapply leaves_bind; [apply leaves_get|]. eapply leaves_perm; [reflexivity| |apply leaves_put]. rewrite loose_one.
  destruct t; cbn; by rewrite text_at_ptr, <- ?app_assoc.
Qed.

Lemma append_named_goes str t st :
  goes (cJSON_AddItemToObject a str (root t)) (avail st) (blocks (hold t st)) tt (avail (append_named str t st)) (blocks (append_named str t st)).
Proof.
  unfold append_named. destruct (malloc_ _ _) as [x M] eqn:E.
  assert (root t = root (rename (text_at x str) t)) as Hr by by destruct t. unfold cJSON_AddItemToObject.
  apply (does_perm _ _ _ (seg NULL ([] ++ t :: []) NULL ++ blocks st)); [by rewrite blocks_hold|].
  apply seg_root. intros Ht. destruct (Z.eqb_spec (root t) NULL); [done|].
  eapply leaves_bind; [apply get_mid|]. cbn [app last_or last head_or]. rewrite string_item. set (it := BItem (item_of NULL NULL t)).
  apply (does_perm _ _ _ (text_blocks (name_of t) ++ ((root t, it) :: nameless t ++ blocks st))).
  { cbn [seg head_or]. rewrite rest_name. fold it. solve_Permutation. }
  apply does_nonnull. intros Hn. eapply leaves_bind; [by apply free_text|].
  eapply goes_bind.
  { apply strdup_goes. rewrite <- E. apply malloc_addrs. rewrite blocks_hold, loose_one. by destruct t. }
  apply (does_perm _ _ _ ((root t, it) :: text_blocks (text_at x str) ++ nameless t ++ blocks st)); [solve_Permutation|].
  eapply leaves_bind; [apply set_name|]. eapply goes_perm; [|reflexivity|rewrite Hr; apply (append_goes _ (with_avail M st))].
  by rewrite blocks_hold.
Qed.

Lemma pull_some k st t st' : pull k st = Some (t, st') ->
  (forall w, Z.to_nat w = k -> leaves (cJSON_DetachItemFromArray a w) (avail st) (blocks st) (root t) (blocks (hold t st'))) /\
  avail st' = avail st /\ (well_typed st -> typed t /\ well_typed st').
Proof.
  unfold pull. destruct (drop k (kids st)) as [|x l2] eqn:E; [done|]. intros [= <- <-]. apply drop_split in E as [Ek El]. split; [|split; [done|]].
  - intros w Hw. eapply leaves_perm; [| |apply (detach_spec pa na a ty vi vd v nm (take k (kids st)) x l2 w _ (loose (pool st) ++ other st)); by rewrite El].
    + unfold blocks. by rewrite Ek at 1 2.
    + rewrite blocks_hold. unfold blocks. cbn [kids pool other]. solve_Permutation.
  - unfold well_typed. cbn [kids pool]. rewrite Ek at 1. rewrite !Forall_app, Forall_cons. tauto.
Qed.

Lemma pull_none k w st : pull k st = None -> Z.to_nat w = k ->
  leaves (cJSON_DetachItemFromArray a w) (avail st) (blocks st) NULL (blocks st).
Proof.
  unfold pull. destruct (drop k (kids st)) as [|x l2] eqn:E; [|done]. intros _ <-. apply detach_none.
  apply (f_equal length) in E. rewrite length_drop in E. simpl in E. lia.
Qed.

Lemma drop_goes t st : typed t -> goes (cJSON_Delete (root t)) (avail st) (blocks (hold t st)) tt (avail st) (blocks st).
Proof. intros Ht. eapply goes_perm; [by rewrite blocks_hold|reflexivity|]. apply (delete_spec [t]). by constructor. Qed.

(** [m] detaches the item at [k]. *)
Definition pulls (m : J addr) (k : nat) (st : state) : Prop :=
  match pull k st with
  | Some (t, st') => leaves m (avail st) (blocks st) (root t) (blocks (hold t st'))
  | None => leaves m (avail st) (blocks st) NULL (blocks st)
  end.

Lemma detach_goes w st : pulls (cJSON_DetachItemFromArray a w) (Z.to_nat w) st.
Proof. unfold pulls. destruct (pull _ st) as [[t st']|] eqn:E; [by apply (pull_some _ _ _ _ E)|by apply (pull_none _ w _ E)]. Qed.

(** An item of the array is not null. *)
Lemma kid_nonnull {A} (m : J A) k t l2 st Q : drop k (kids st) = t :: l2 ->
  (root t <> NULL -> does m (avail st) (blocks st) Q) -> does m (avail st) (blocks st) Q.
Proof.
  intros E H s Hs. apply H; [|done]. destruct Hs as (_ & _ & Hn). rewrite Forall_forall in Hn. apply Hn. unfold blocks.
  rewrite fmap_cons, fmap_app. right. apply elem_of_app. left. apply root_in_seg. apply drop_split in E as [-> _]. apply elem_of_app. right. by left.
Qed.

Lemma detach_named_goes str st : fits (kids st) = true -> pulls (cJSON_DetachItemFromObject a str) (place str (kids st)) st.
Proof.
  intros Hf%Z.ltb_lt. set (k := place str (kids st)). unfold pulls. destruct (pull k st) as [[t st']|] eqn:E; pose proof E as E'; unfold pull in E';
    destruct (drop k (kids st)) as [|x l2] eqn:Ed; try done.
  - injection E' as -> _. eapply kid_nonnull; [exact Ed|]. intros Hr. unfold cJSON_DetachItemFromObject. apply find_place; [done|].
    fold k. rewrite Ed. cbn [fst snd head_or]. destruct (Z.eqb_spec (root t) NULL); [done|]. apply (pull_some _ _ _ _ E). lia.
  - unfold cJSON_DetachItemFromObject. apply find_place; [done|]. fold k. rewrite Ed. by apply leaves_ret.
Qed.

(** ** Every function keeps its promise *)

Definition promises (o : op) : Prop :=
  forall st st' r, step o st = Some (st', r) -> well_typed st ->
    goes (exec o) (avail st) (blocks st) r (avail st') (blocks st') /\ well_typed st'.

Lemma size_promises : promises Size.
Proof.
  intros st st' r. cbn [step exec]. destruct (fits (kids st)) eqn:Hf; [|done]. apply Z.ltb_lt in Hf. intros [= <- <-] Ht. split; [|done].
  by apply size_spec.
Qed.

Lemma item_promises w : promises (ItemAt w).
Proof. intros st st' r. cbn [step exec]. intros [= <- <-] Ht. split; [|done]. apply item_spec. Qed.

Lemma named_promises str : promises (Named str).
Proof.
  intros st st' r. cbn [step exec]. destruct (fits (kids st)) eqn:Hf; [|done]. apply Z.ltb_lt in Hf. intros [= <- <-] Ht. split; [|done].
  by apply named_item_spec.
Qed.

Lemma typed_new x t i (d : dbl) (nm1 nm2 : text) : is_type t -> typed (Node x t i d nm1 nm2 []).
Proof. intros H. by split. Qed.

Lemma made_typed k : is_type (made k).1.1.
Proof. destruct k; try done. cbn. by destruct (b =? 0). Qed.

Lemma hold_typed t st : typed t -> well_typed st -> well_typed (hold t st).
Proof. intros Ht [H1 H2]. split; [done|]. by constructor. Qed.

Lemma add_typed t st : typed t -> well_typed st -> well_typed (add t st).
Proof. intros Ht [H1 H2]. split; [|done]. apply Forall_app. split; [done|]. by constructor. Qed.

Lemma rename_typed o (t : jtree) : typed t -> typed (rename o t).
Proof. by destruct t. Qed.

Lemma new_promises k : promises (New k).
Proof.
  intros st st' r. cbn [step exec]. destruct (malloc_ _ _) as [x M] eqn:E. intros H Ht.
  pose proof (create_kind_goes k _ _ _ _ E) as Hg. pose proof (made_typed k) as Hk. destruct (made k) as [[t i] d]. injection H as <- <-.
  destruct (x =? NULL); (split; [eapply goes_perm; [reflexivity| |exact Hg]|]); [done|done|by rewrite blocks_hold|].
  apply hold_typed; [|done]. by apply typed_new.
Qed.

Lemma new_string_promises str : promises (NewString str).
Proof.
  intros st st' r. cbn [step exec]. destruct (malloc_ _ _) as [x M] eqn:E. intros H Ht.
  destruct (string_goes str _ _ _ _ E) as [H1 H2]. destruct (Z.eqb_spec x NULL) as [->|Hx].
  - injection H as <- <-. split; [by apply H1|done].
  - destruct (malloc_ _ M) as [y M2] eqn:E2. injection H as <- <-. split.
    + eapply goes_perm; [reflexivity| |apply (H2 Hx y M2); rewrite <- E2; apply malloc_perm; by rewrite blocks_hold]. by rewrite blocks_hold.
    + apply hold_typed; [|done]. by apply typed_new.
Qed.

Lemma append_promises u : promises (Append u).
Proof.
  intros st st' r. cbn [step exec]. destruct (Z.eqb_spec u NULL) as [->|Hu].
  - intros [= <- <-] Ht. split; [|done]. apply goes_quiet. unfold cJSON_AddItemToArray. eapply leaves_bind; [apply leaves_get|]. by apply goes_ret.
  - destruct (grab u st) as [[t st1]|] eqn:E; [|done]. intros [= <- <-] Ht. apply grab_spec in E as (-> & Hb & _ & <- & Hw).
    destruct (Hw Ht) as [H1 H2]. split; [|by apply add_typed]. apply goes_quiet. eapply goes_perm; [exact Hb|reflexivity|]. exact (append_goes t st1).
Qed.

Lemma append_named_typed str t st : typed t -> well_typed st -> well_typed (append_named str t st).
Proof.
  unfold append_named. destruct (malloc_ _ _) as [x M]. intros Ht Hw. apply add_typed; [by apply rename_typed|done].
Qed.

Lemma append_named_promises str u : promises (AppendNamed str u).
Proof.
  intros st st' r. cbn [step exec]. destruct (Z.eqb_spec u NULL) as [->|Hu].
  - intros [= <- <-] Ht. split; [|done]. apply goes_quiet. by apply goes_ret.
  - destruct (grab u st) as [[t st1]|] eqn:E; [|done]. cbn [mbind option_bind].
    intros [= <- <-] Ht. apply grab_spec in E as (-> & Hb & _ & <- & Hw).
    destruct (Hw Ht) as [H1 H2]. split; [|by apply append_named_typed]. apply goes_quiet.
    eapply goes_perm; [exact Hb|reflexivity|]. apply append_named_goes.
Qed.

(** A reference to a tree the caller holds. *)
Lemma new_ref_goes u st o st' : new_ref u st = Some (o, st') ->
  exists r, goes (create_reference zero u) (avail st) (blocks st) r (avail st') (match o with Some t => blocks (hold t st') | None => blocks st' end) /\
    r = match o with Some t => root t | None => NULL end /\ (well_typed st -> well_typed st' /\ forall t, o = Some t -> typed t).
Proof.
  unfold new_ref. destruct (take_out u (pool st)) as [[t p]|] eqn:Et; [|done]. cbn [mbind option_bind].
  destruct (malloc_ _ _) as [x M] eqn:E. intros [= <- <-]. apply take_out_spec in Et as [-> Hp]. exists x.
  set (st0 := State (kids st) p (other st) (avail st)). assert (blocks st ≡ₚ seg NULL [t] NULL ++ blocks st0) as Hb.
  { rewrite <- blocks_hold. unfold blocks, hold, st0. cbn [kids pool other]. by rewrite (loose_perm _ _ Hp). }
  rewrite (malloc_perm _ _ _ Hb) in E. pose proof (reference_goes t _ _ _ _ E) as Hg. split; [|split].
  - eapply goes_perm; [exact Hb| |exact Hg]. destruct (x =? NULL); [exact (symmetry Hb)|]. rewrite blocks_hold. by rewrite <- Hb.
  - destruct (Z.eqb_spec x NULL) as [->|]; [done|]. by destruct t.
  - intros Hw. split; [done|]. intros t' Ht'. destruct (x =? NULL); [done|]. injection Ht' as <-. by destruct t.
Qed.

Lemma append_ref_promises u : promises (AppendRef u).
Proof.
  intros st st' r. cbn [step exec]. destruct (new_ref u st) as [[o st1]|] eqn:E; [|done]. cbn [mbind option_bind].
  destruct (new_ref_goes _ _ _ _ E) as (x & Hg & -> & Hw). intros [= <- <-] Ht. destruct (Hw Ht) as [H1 H2].
  destruct o as [t|]; (split; [apply goes_quiet; eapply goes_bind; [exact Hg|]|]); [exact (append_goes t st1)|by apply add_typed; [apply H2|]| |done].
  unfold cJSON_AddItemToArray. eapply leaves_bind; [apply leaves_get|]. by apply goes_ret.
Qed.

Lemma append_ref_named_promises str u : promises (AppendRefNamed str u).
Proof.
  intros st st' r. cbn [step exec]. destruct (new_ref u st) as [[o st1]|] eqn:E; [|done]. cbn [mbind option_bind].
  destruct (new_ref_goes _ _ _ _ E) as (x & Hg & -> & Hw). intros [= <- <-] Ht. destruct (Hw Ht) as [H1 H2]. destruct o as [t|].
  - split; [|apply append_named_typed; [by apply H2|done]]. apply goes_quiet. eapply goes_bind; [exact Hg|]. apply append_named_goes.
  - split; [|done]. apply goes_quiet. eapply goes_bind; [exact Hg|]. by apply goes_ret.
Qed.

Lemma null_deleted st : goes (cJSON_Delete NULL) (avail st) (blocks st) tt (avail st) (blocks st).
Proof. apply (delete_spec []). by constructor. Qed.

Lemma pulls_kept m k st st' r : pulls m k st -> match pull k st with Some (t, st) => (hold t st, root t) | None => (st, NULL) end = (st', r) ->
  well_typed st -> goes m (avail st) (blocks st) r (avail st') (blocks st') /\ well_typed st'.
Proof.
  unfold pulls. destruct (pull k st) as [[t st1]|] eqn:E; intros Hg [= <- <-] Ht; [|done].
  destruct (pull_some _ _ _ _ E) as (_ & Ha & Hw). destruct (Hw Ht) as [H1 H2]. split; [|by apply hold_typed]. cbn [hold avail]. by rewrite Ha.
Qed.

Lemma pulls_deleted m k st st' r : pulls m k st -> match pull k st with Some (_, st) => (st, 0) | None => (st, 0) end = (st', r) ->
  well_typed st -> goes (quiet (c ← m; cJSON_Delete c)) (avail st) (blocks st) r (avail st') (blocks st') /\ well_typed st'.
Proof.
  unfold pulls. destruct (pull k st) as [[t st1]|] eqn:E; intros Hg [= <- <-] Ht.
  - destruct (pull_some _ _ _ _ E) as (_ & Ha & Hw). destruct (Hw Ht) as [H1 H2]. split; [|done]. apply goes_quiet. eapply leaves_bind; [exact Hg|].
    rewrite <- Ha. by apply drop_goes.
  - split; [|done]. apply goes_quiet. eapply leaves_bind; [exact Hg|]. apply null_deleted.
Qed.

Lemma detach_promises w : promises (Detach w).
Proof. intros st st' r [= H]. apply (pulls_kept _ _ _ _ _ (detach_goes w st)). by rewrite H. Qed.

Lemma delete_promises w : promises (Delete w).
Proof. intros st st' r [= H]. apply (pulls_deleted _ _ _ _ _ (detach_goes w st)). by rewrite H. Qed.

Lemma detach_named_promises str : promises (DetachNamed str).
Proof.
  intros st st' r. cbn [step exec]. destruct (fits (kids st)) eqn:Hf; [|done]. intros [= H].
  apply (pulls_kept _ _ _ _ _ (detach_named_goes str st Hf)). by rewrite H.
Qed.

Lemma delete_named_promises str : promises (DeleteNamed str).
Proof.
  intros st st' r. cbn [step exec]. destruct (fits (kids st)) eqn:Hf; [|done]. intros [= H].
  apply (pulls_deleted _ _ _ _ _ (detach_named_goes str st Hf)). by rewrite H.
Qed.

Lemma drop_promises u : promises (Drop u).
Proof.
  intros st st' r. cbn [step exec]. destruct (Z.eqb_spec u NULL) as [->|Hu].
  - intros [= <- <-] Ht. split; [|done]. apply goes_quiet, null_deleted.
  - destruct (grab u st) as [[t st1]|] eqn:E; [|done]. intros [= <- <-] Ht. apply grab_spec in E as (-> & Hb & _ & <- & Hw).
    destruct (Hw Ht) as [H1 H2]. split; [|done]. apply goes_quiet. eapply goes_perm; [exact Hb|reflexivity|]. by apply drop_goes.
Qed.

(** [u] takes the place of the item at [k]. *)
Lemma replace_goes w u st : (Z.to_nat w < length (kids st))%nat -> well_typed st -> typed u ->
  leaves (cJSON_ReplaceItemInArray a w (root u)) (avail st) (blocks (hold u st)) tt (blocks (put_at (Z.to_nat w) u st)) /\
  well_typed (put_at (Z.to_nat w) u st).
Proof.
  intros Hl [Hk Hp] Hu. set (k := Z.to_nat w) in *. destruct (lookup_lt_is_Some_2 _ _ Hl) as [t Et].
  pose proof (take_drop_middle _ _ _ Et) as Es. unfold put_at. split.
  - eapply leaves_perm; [| |apply (replace_spec pa na a ty vi vd v nm (take k (kids st)) t (drop (S k) (kids st)) u w _ (loose (pool st) ++ other st))].
    + rewrite blocks_hold. unfold blocks. rewrite <- Es at 1 2. solve_Permutation.
    + done.
    + rewrite length_take. unfold k in *. lia.
    + rewrite <- Es in Hk. apply Forall_app in Hk as [_ Hk]. by apply Forall_cons in Hk as [? _].
  - split; [|done]. cbn [kids]. apply Forall_app. split; [by apply Forall_take|]. apply Forall_cons. split; [done|]. by apply Forall_drop.
Qed.

Lemma replace_promises w u : promises (Replace w u).
Proof.
  intros st st' r. cbn [step exec]. destruct (decide _) as [Hl|Hl].
  - intros [= <- <-] Ht. split; [|done]. apply goes_quiet. by apply replace_none.
  - destruct (grab u st) as [[t st1]|] eqn:E; [|done]. intros [= <- <-] Ht. apply grab_spec in E as (-> & Hb & Hkids & <- & Hw).
    destruct (Hw Ht) as [H1 H2]. destruct (replace_goes w t st1) as [H3 H4]; [rewrite Hkids; lia|done|done|]. split; [|done].
    apply goes_quiet. eapply goes_perm; [exact Hb|reflexivity|exact H3].
Qed.

Lemma replace_named_promises str u : promises (ReplaceNamed str u).
Proof.
  intros st st' r. cbn [step exec]. destruct (fits (kids st)) eqn:Hf; [|done]. pose proof Hf as Hf'%Z.ltb_lt. cbn [negb].
  set (k := place str (kids st)). unfold cJSON_ReplaceItemInObject. destruct (decide _) as [Hl|Hl].
  - intros [= <- <-] Ht. split; [|done]. apply goes_quiet. apply find_place; [done|]. fold k. rewrite drop_ge by done. by apply goes_ret.
  - destruct (malloc_ _ _) as [x M] eqn:E. destruct (grab u st) as [[t st1]|] eqn:Eg; [|done].
    intros [= <- <-] Ht. apply grab_spec in Eg as (-> & Hb & Hkids & Ha & Hw). destruct (Hw Ht) as [H1 H2].
    destruct (drop k (kids st)) as [|y l2] eqn:Ed; [apply (f_equal length) in Ed; rewrite length_drop in Ed; simpl in Ed; lia|].
    set (st2 := State (kids st1) (pool st1) (text_blocks (name_of t) ++ other st1) M).
    destruct (replace_goes (Z.of_nat k) (rename (text_at x str) t) st2) as [H3 H4];
      [rewrite Nat2Z.id; cbn [kids st2]; rewrite Hkids; lia|exact H2|by apply rename_typed|]. rewrite Nat2Z.id in H3, H4. split; [|done].
    apply goes_quiet. eapply kid_nonnull; [exact Ed|]. intros Hy. apply find_place; [done|]. fold k. rewrite Ed. cbn [fst snd head_or].
    destruct (Z.eqb_spec (root y) NULL); [done|]. eapply goes_bind; [by apply strdup_goes|]. fold (blocks st).
    apply (does_perm _ _ _ ((root t, BItem (item_of NULL NULL t)) :: text_blocks (text_at x str) ++ nameless t ++ blocks st2)).
    { rewrite Hb, blocks_hold, loose_one. unfold blocks, st2. cbn [kids pool other]. solve_Permutation. }
    eapply leaves_bind; [apply set_name|]. assert (root t = root (rename (text_at x str) t)) as -> by by destruct t.
    eapply goes_perm; [by rewrite <- blocks_hold|reflexivity|exact H3].
Qed.

(** *** Arrays of numbers and of strings *)

(** [mk] makes what [mkA] says, whatever order the blocks in use come in. *)
Definition makes {X} (mk : X -> J addr) (mkA : X -> list cell -> list addr -> option (jtree * list addr)) : Prop :=
  forall v l M t M', mkA v l M = Some (t, M') ->
    goes (mk v) M l (root t) M' (seg NULL [t] NULL ++ l) /\ typed t /\ forall l', l.*1 ≡ₚ l'.*1 -> mkA v l' M = Some (t, M').

Lemma number_makes : makes (cJSON_CreateNumber zero to_int) number_of.
Proof.
  intros d l M t M'. unfold number_of. destruct (malloc_ l M) as [x M1] eqn:E.
  pose proof (create_goes cJSON_Number (to_int d) d _ _ _ _ E) as Hg. destruct (x =? NULL) eqn:Ex; [done|]. intros [= <- <-].
  split; [done|]. split; [done|]. intros l' Hl. rewrite <- (malloc_addrs l l' M Hl), E. cbn. by rewrite Ex.
Qed.

Lemma string_makes : makes (cJSON_CreateString zero) string_of.
Proof.
  intros str l M t M'. unfold string_of. destruct (malloc_ l M) as [x M1] eqn:E.
  destruct (string_goes str _ _ _ _ E) as [_ Hg]. destruct (x =? NULL) eqn:Ex; [done|]. apply Z.eqb_neq in Ex as Hx.
  destruct (malloc_ _ M1) as [y M2] eqn:E2. intros [= <- <-]. split; [by apply Hg|]. split; [done|].
  intros l' Hl. rewrite <- (malloc_addrs l l' M Hl), E. cbn [mbind option_bind]. rewrite Ex. rewrite <- (malloc_addrs (seg NULL [Node x cJSON_String 0 zero None None []] NULL ++ l)), E2; [done|].
  by rewrite !fmap_app, Hl.
Qed.

Section Loop.

Context {X : Type} (mk : X -> J addr) (mkA : X -> list cell -> list addr -> option (jtree * list addr)) (Hmk : makes mk mkA).

Lemma make_all_addrs vs : forall l l' M ts M', make_all mkA vs l M = Some (ts, M') -> l.*1 ≡ₚ l'.*1 -> make_all mkA vs l' M = Some (ts, M').
Proof.
  induction vs as [|w vs IH]; intros l l' M ts M'; cbn [make_all]; [done|]. destruct (mkA w l M) as [[t M1]|] eqn:E; [|done]. cbn [mbind option_bind].
  destruct (make_all mkA vs _ M1) as [[ts' M2]|] eqn:E2; [|done]. intros [= <- <-] Hl. destruct (Hmk _ _ _ _ _ E) as (_ & _ & H).
  rewrite (H l' Hl). cbn [mbind option_bind]. by rewrite (IH _ (seg NULL [t] NULL ++ l') _ _ _ E2) by (by rewrite !fmap_app, Hl).
Qed.

Abbreviation loop_blocks x kids F := (arr NULL NULL x cJSON_Array 0 zero None None kids :: seg NULL kids NULL ++ F).

Lemma append_made x ks t M F :
  leaves (if match ks with [] => true | _ => false end then set_child x (root t) else suffix_object (last_or ks NULL) (root t)) M
    (seg NULL [t] NULL ++ loop_blocks x ks F) tt (loop_blocks x (ks ++ [t]) F).
Proof.
  destruct ks as [|k ks].
  - apply (leaves_perm _ _ _ (loop_blocks x [] (seg NULL [t] NULL ++ F)) _ (arr NULL NULL x cJSON_Array 0 zero None None [t] :: seg NULL [t] NULL ++ F));
      [cbn [seg app]; solve_Permutation|done|]. apply leaves_set_child.
  - eapply leaves_perm; [|reflexivity|by apply suffix_spec]. solve_Permutation.
Qed.

Lemma array_loop_goes x F vs : forall ks M ts M', make_all mkA vs (loop_blocks x ks F) M = Some (ts, M') ->
  goes (array_loop mk vs (match ks with [] => true | _ => false end) x (last_or ks NULL)) M (loop_blocks x ks F) tt M' (loop_blocks x (ks ++ ts) F) /\
  Forall typed ts.
Proof.
  induction vs as [|w vs IH]; intros ks M ts M'; cbn [make_all array_loop].
  { intros [= <- <-]. rewrite app_nil_r. split; [by apply goes_ret|done]. }
  destruct (mkA w _ M) as [[t M1]|] eqn:E; [|done]. cbn [mbind option_bind]. destruct (make_all mkA vs _ M1) as [[ts' M2]|] eqn:E2; [|done].
  intros [= <- <-]. destruct (Hmk _ _ _ _ _ E) as (Hg & Ht & _).
  destruct (IH (ks ++ [t]) M1 ts' M2) as [H1 H2].
  { apply (make_all_addrs _ _ _ _ _ _ E2). rewrite !fmap_app, !fmap_cons, !fmap_app, !seg_addrs, map_app, concat_app. cbn [fst]. solve_Permutation. }
  rewrite <- (app_assoc ks [t] ts') in H1. split; [|by apply Forall_cons]. eapply goes_bind; [exact Hg|]. eapply leaves_bind; [apply append_made|].
  rewrite last_or_app in H1. by destruct ks.
Qed.

Lemma array_goes vs st st' r : new_array mkA vs st = Some (st', r) -> well_typed st ->
  goes (create_array zero mk vs) (avail st) (blocks st) r (avail st') (blocks st') /\ well_typed st'.
Proof.
  unfold new_array, create_array, cJSON_CreateArray. destruct (malloc_ _ _) as [x M] eqn:E.
  pose proof (create_goes cJSON_Array 0 zero _ _ _ _ E) as Hg. destruct (x =? NULL) eqn:Ex; intros H Ht.
  - injection H as <- <-. apply Z.eqb_eq in Ex as ->. split; [|done]. eapply goes_bind; [exact Hg|]. by apply goes_ret.
  - destruct (make_all mkA vs _ M) as [[ts M2]|] eqn:E2; [|done]. injection H as <- <-.
    destruct (array_loop_goes x (blocks st) vs [] M ts M2) as [H1 H2]; [exact E2|]. split; [|by apply hold_typed, Ht; apply typed_kids].
    eapply goes_bind; [exact Hg|]. rewrite Ex. eapply goes_bind; [exact H1|]. apply goes_ret. rewrite blocks_hold. cbn [seg app head_or array_at root].
    unfold array_at. rewrite rest_node. cbn [text_blocks app]. by rewrite app_nil_r.
Qed.

End Loop.

Lemma new_array_promises l d str : promises (NewInts l) /\ promises (NewFloats d) /\ promises (NewDoubles d) /\ promises (NewStrings str).
Proof.
  split; [|split; [|split]]; intros st st' r H; revert H; apply array_goes;
    [intros n; apply number_makes|apply number_makes|apply number_makes|apply string_makes].
Qed.

Lemma step_promises o : promises o.
Proof.
  destruct o; try apply (new_array_promises l [] []); try apply (new_array_promises [] l []); try apply (new_array_promises [] [] l);
    auto using size_promises, item_promises, named_promises, new_promises, new_string_promises, append_promises, append_named_promises,
    append_ref_promises, append_ref_named_promises, detach_promises, detach_named_promises, delete_promises, delete_named_promises,
    replace_promises, replace_named_promises, drop_promises.
Qed.

(** C26. Whatever a program does with an array or object and the trees it holds
    beside it - create, append, refer, look up, detach, delete, replace, by
    place or by name -, the library on memory does what the lists say: the
    answers are the same, and memory afterwards is exactly the blocks of the
    lists' trees and what was there beside them; nothing is lost, released
    twice or left dangling but the name an item has when it replaces another
    by name. *)
Theorem json_refines os : forall st st' rs s, run os st = Some (st', rs) -> well_typed st -> represents st s ->
  exists s', exec_all os s = Done (rs, s') /\ represents st' s' /\ well_typed st'.
Proof.
  induction os as [|o os IH]; intros st st' rs s H Ht Hs; cbn [run] in H.
  { injection H as <- <-. by exists s. }
  destruct (step o st) as [[st1 r]|] eqn:E; [|done]. cbn [mbind option_bind] in H. destruct (run os st1) as [[st2 rs1]|] eqn:E2; [|done].
  injection H as <- <-. destruct (step_promises o _ _ _ E Ht) as [Hg Ht1]. destruct (Hg s Hs) as (r' & s1 & Er & M1 & l1 & Ho & -> & -> & Hp).
  destruct (IH st1 st2 rs1 s1 E2 Ht1 (owns_perm _ _ _ _ Hp Ho)) as (s2 & E3 & Hr & Ht2). exists s2. split; [|done].
  cbn [exec_all]. unfold mbind, J_bind. by rewrite Er, E3.
Qed.

End List.

(** An object and a program that works on it; doubles are integers. *)
Definition start : state (dbl := Z) := State [] [] [(90, BText [])] [10; 11; 12; 13; 14; 15; 16; 17; 18; 19; 20; 21; NULL; 10].

Definition program : list (op (dbl := Z)) :=
  [NewString [97]; AppendNamed [107] 10; New (KNumber 7); AppendNamed [110] 13; Size; Named [78];
   NewInts [1; 2]; AppendRef 15; AppendNamed [120] 15; New (KBool 0); ReplaceNamed [110] 20; Detach 0; Delete 5; ItemAt 1; Drop 10; New KNull; New KNull].

Definition finish : state (dbl := Z) :=
  State [Node 20 0 0 0 None (Some (21, [110])) []; Ref 18 5 0 0 0 16 None;
         Node 15 5 0 0 None (Some (19, [120])) [Node 16 3 1 1 None None []; Node 17 3 2 2 None None []]]
    [Node 10 2 0 0 None None []] [(90, BText [])] [].

Lemma json_refines_witness : exists s',
  exec_all 0 id id 1 program (Heap (list_to_map (blocks NULL NULL 1 6 0 0 None None start)) (avail start)) =
    Done ([10; 0; 13; 0; 2; 13; 15; 0; 0; 20; 0; 10; 0; 18; 0; 0; 10], s') /\
  represents NULL NULL 1 6 0 0 None None finish s' /\ well_typed finish.
Proof.
  apply (json_refines 0 id id NULL NULL 1 6 0 0 None None program start finish); [by vm_compute|by split|].
  apply owns_intro; [apply (bool_decide_unpack _); by vm_compute|by repeat constructor].
Defined.

(** ** What the code leaves open *)

(** An item that has a name replaces another: its name is never released. *)
Lemma replace_leaks : exists s',
  exec_all 0 id id 1 [New KNull; AppendNamed [107] 10; New KNull; AppendNamed [110] 12; Detach 1; ReplaceNamed [107] 12; Delete 0]
    (Heap (list_to_map (blocks NULL NULL 1 6 0 0 None None (State [] [] [] []))) [10; 11; 12; 13; 14]) = Done ([10; 0; 12; 0; 12; 0; 0], s') /\
  cells s' !! 13 = Some (BText [110]) /\ cells s' !! 12 = None /\ cells s' !! 10 = None.
Proof. eexists. split; [by vm_compute|]. by vm_compute. Qed.

(** No memory for an element: the functions that create arrays write through
    null. *)
Lemma array_without_memory x y : cJSON_CreateIntArray 0 id id [x; y] (Heap ∅ [10; 11]) = Fault NullDeref.
Proof. by vm_compute. Qed.

(** A reference to nothing reads null. *)
Lemma reference_to_null : cJSON_AddItemReferenceToArray 0 1 NULL (Heap {[ 1 := BItem (JsonTree.Item NULL NULL NULL 5 NULL 0 0 NULL) ]} [10]) = Fault NullDeref.
Proof. by vm_compute. Qed.

(** A place below zero is the first. *)
Lemma negative_place (dbl : Type) a w s : w <= 0 -> @cJSON_GetArrayItem dbl a w s = cJSON_GetArrayItem a 0 s.
Proof.
  intros Hw. unfold cJSON_GetArrayItem, mbind, J_bind. destruct (get a s) as [[x s1]|]; [|done]. cbn [blocks_left].
  destruct (size (cells s1)); cbn [walk]; (destruct (Z.ltb_spec 0 w); [lia|]); by rewrite !orb_true_r.
Qed.
