(* ===== verification/JsonValues.v ===== *)
(** * JsonValues: what the trees in memory mean

    [CJson] searches values, [JsonTree] follows pointers.  [value_of] reads the
    value off a tree of memory; the searching functions of the two agree, so
    what the other files prove of values holds of the pointers the program
    hands around. *)

From S2P Require Import Prelude CString CJson JsonTree JsonTreeFacts.
Import CJson JsonTree.
Local Open Scope list_scope.
Local Open Scope Z_scope.

#[local] Existing Instance J_ret.
#[local] Existing Instance J_bind.

Section Values.

Context {dbl : Type}.

Abbreviation jtree := (@jtree dbl).
Abbreviation value := (json dbl).
Abbreviation cell := (addr * @block dbl)%type.

(** A member is a named item.  What a reference shows belongs to another tree. *)
Fixpoint value_of (t : jtree) : option value :=
  match t with
  | Ref _ _ _ _ _ _ _ => None
  | Node _ ty vi vd v _ k =>
    if ty =? cJSON_NULL then Some JNull
    else if ty =? cJSON_False then Some JFalse
    else if ty =? cJSON_True then Some JTrue
    else if ty =? cJSON_Number then Some (JNumber vd vi)
    else if ty =? cJSON_String then (fun p : addr * cstring => JString p.2) <$> v
    else if ty =? cJSON_Array then JArray <$> mapM value_of k
    else if ty =? cJSON_Object then
      JObject <$> mapM (fun u : jtree => j ← value_of u; (fun p : addr * cstring => (p.2, j)) <$> name_of u) k
    else None
  end.

Definition member (u : jtree) : option (cstring * value) := j ← value_of u; (fun p : addr * cstring => (p.2, j)) <$> name_of u.

Definition is_object (j : value) : bool := match j with JObject _ => true | _ => false end.
Definition is_container (j : value) : bool := match j with JArray _ | JObject _ => true | _ => false end.

(** The item a pointer leads to carries a value; null stands for none. *)
Definition leads (k : list jtree) (r : addr) (j : option value) : Prop :=
  match j with Some j => exists u, u ∈ k /\ r = root u /\ value_of u = Some j | None => r = NULL end.

(** ** Searching lists *)

(** Looking changes nothing. *)
Lemma leaves_same {A} (m : J A) s M (l : list cell) r : leaves m M l r l -> owns s M l -> m s = Done (r, s).
Proof.
  intros Hm Hs. destruct (Hm s Hs) as (r' & s' & E & M' & l' & Ho & -> & -> & Hp). rewrite E. do 2 f_equal.
  apply (owns_perm _ _ _ _ Hp) in Ho. destruct Ho as [-> _], Hs as [-> _]. done.
Qed.

(** What is read off the items one by one. *)
Lemma read_leads {A} (f : jtree -> option A) (g : A -> value) k l n :
  (forall u x, f u = Some x -> value_of u = Some (g x)) -> mapM f k = Some l -> leads k (head_or (drop n k) NULL) (g <$> l !! n).
Proof.
  intros Hf Hm%mapM_Some. destruct (k !! n) as [u|] eqn:Eu.
  - destruct (Forall2_lookup_l _ _ _ _ _ Hm Eu) as (x & -> & Hx). rewrite (drop_S _ _ _ Eu). exists u. split; [by eapply list_elem_of_lookup_2|]. auto.
  - apply lookup_ge_None in Eu. rewrite drop_ge by done. rewrite lookup_ge_None_2; [done|]. by rewrite <- (Forall2_length _ _ _ Hm).
Qed.

Lemma member_value u p : member u = Some p -> value_of u = Some p.2.
Proof. unfold member. destruct (value_of u) as [j|]; [|done]. cbn. destruct (name_of u) as [[x s]|]; [|done]. by intros [= <-]. Qed.

Lemma member_named u p str : member u = Some p -> named str u = strcasecmp_eq p.1 str.
Proof. unfold member, named. destruct (value_of u) as [j|]; [|done]. cbn. destruct (name_of u) as [[x s]|]; [|done]. by intros [= <-]. Qed.

(** The place of a name is where the value has its first member of the name. *)
Lemma find_leads str k l : mapM member k = Some l ->
  leads k (head_or (drop (place str k) k) NULL) (snd <$> List.find (fun p => strcasecmp_eq (fst p) str) l).
Proof.
  intros H. assert (List.find (fun p => strcasecmp_eq p.1 str) l = l !! place str k) as ->; [|by apply (read_leads member); [apply member_value|]].
  apply mapM_Some in H. induction H as [|u p k l Hu H IH]; [done|]. cbn [List.find place]. rewrite (member_named _ _ str Hu).
  by destruct (strcasecmp_eq p.1 str).
Qed.

Lemma container_items t j : value_of t = Some j -> is_container j = true ->
  exists a ty vi vd v nm k, t = Node a ty vi vd v nm k /\
    ((exists l, j = JArray l /\ mapM value_of k = Some l) \/ (exists l, j = JObject l /\ mapM member k = Some l)).
Proof.
  destruct t as [a ty vi vd v nm k|]; [|done]. cbn [value_of]. intros H Hc. exists a, ty, vi, vd, v, nm, k. split; [done|].
  repeat case_match; try (injection H as <-; done).
  - destruct v as [[x s]|]; [|done]. by injection H as <-.
  - destruct (mapM value_of k) as [l|]; [|done]. injection H as <-. left. by exists l.
  - right. change (JObject <$> mapM member k = Some j) in H. destruct (mapM member k) as [l|]; [|done]. injection H as <-. by exists l.
  - done.
Qed.

(** C27. On an array or object that lies in memory, the functions that follow
    pointers find what the functions on values find: the number of items, the
    item at a place, the first member of a name; null where there is none; and
    they change nothing. *)
Theorem accessors_agree t j s M F :
  value_of t = Some j -> is_container j = true -> CJson.cJSON_GetArraySize j < 2 ^ 31 -> owns s M (seg NULL [t] NULL ++ F) ->
  cJSON_GetArraySize (root t) s = Done (CJson.cJSON_GetArraySize j, s) /\
  (forall i, exists r, cJSON_GetArrayItem (root t) i s = Done (r, s) /\ leads (kids_of t) r (CJson.cJSON_GetArrayItem j i)) /\
  (is_object j = true -> forall str, exists r,
    cJSON_GetObjectItem (root t) str s = Done (r, s) /\ leads (kids_of t) r (CJson.cJSON_GetObjectItem j str)).
Proof.
  intros Hv Hc Hb Hs. destruct (container_items _ _ Hv Hc) as (a & ty & vi & vd & v & nm & k & -> & Hk). cbn [root kids_of].
  set (F' := text_blocks v ++ text_blocks nm ++ F). assert (owns s M (arr NULL NULL a ty vi vd v nm k :: seg NULL k NULL ++ F')) as Ho.
  { eapply owns_perm; [|exact Hs]. cbn [seg]. rewrite rest_node. unfold F'. cbn [root head_or]. unfold arr. solve_Permutation. }
  assert (CJson.cJSON_GetArraySize j = Z.of_nat (length k)) as El.
  { destruct Hk as [(l & -> & H)|(l & -> & H)]; apply mapM_Some, Forall2_length in H; cbn; by rewrite H. }
  rewrite El in Hb |- *. split; [|split].
  - apply (leaves_same _ _ _ _ _ (size_spec _ _ _ _ _ _ _ _ k M F' Hb) Ho).
  - intros i. eexists. split; [apply (leaves_same _ _ _ _ _ (item_spec _ _ _ _ _ _ _ _ k i M F') Ho)|].
    destruct Hk as [(l & -> & H)|(l & -> & H)]; cbn [CJson.cJSON_GetArrayItem].
    + rewrite <- (option_fmap_id (l !! _)). apply (read_leads value_of id); [by intros u x ->|exact H].
    + apply (read_leads member); [apply member_value|exact H].
  - intros Hobj str. eexists. split; [apply (leaves_same _ _ _ _ _ (named_item_spec _ _ _ _ _ _ _ _ str k M F' Hb) Ho)|].
    destruct Hk as [(l & -> & H)|(l & -> & H)]; [done|]. by apply find_leads.
Qed.

End Values.

Definition sample_object : jtree (dbl := Z) :=
  Node 10 6 0 0 None None [Node 20 3 7 7 None (Some (21, [107])) []; Node 30 5 0 0 None (Some (31, [97])) [Node 40 0 0 0 None None []]].

(** [{ "k": 7, "a": [false] }] in memory: the member [A] is the array. *)
Lemma accessors_agree_witness : exists s : heap (dbl := Z),
  cJSON_GetArraySize 10 s = Done (2, s) /\ exists r, cJSON_GetObjectItem 10 [65] s = Done (r, s) /\ leads (kids_of sample_object) r (Some (JArray [JFalse])).
Proof.
  exists (Heap (list_to_map (seg NULL [sample_object] NULL ++ [])) []).
  destruct (accessors_agree sample_object (JObject [([107], JNumber 7 7); ([97], JArray [JFalse])])
    (Heap (list_to_map (seg NULL [sample_object] NULL ++ [])) []) [] []) as (H1 & _ & H3); [done|done|done| |].
  - apply owns_intro; [apply (bool_decide_unpack _); by vm_compute|by repeat constructor].
  - split; [exact H1|]. destruct (H3 eq_refl [65]) as (r & E & H). exists r. split; [exact E|exact H].
Defined.
