(* ===== verification/JsonParse.v ===== *)
(** * JsonParse: the parser of [cJSON.c] on memory

    [CJson] parses texts to values.  Here the same functions fill items of
    [JsonTree]'s memory, link new ones and stop when [cJSON_malloc] has no more;
    [cJSON_Parse] then releases what was built.  What is read off the text (the
    unescaped string, the number, white space) is taken from [CJson]. *)

From S2P Require Import Prelude CString CJson JsonTree.
Import CJson JsonTree.
Local Open Scope list_scope.
Local Open Scope Z_scope.

Module JsonParse.

(** What a parser function returns: the text behind what it read, or null with
    what it left in [ep], if anything.  [ep] is written only on the way to a
    null that every caller passes on. *)
Inductive at_ := At (value : cstring) | Stop (ep : option cstring).

Section Parse.

Context {dbl : Type} (zero : dbl) (of_dec : bool -> Z -> Z -> dbl) (to_int : dbl -> Z).

Abbreviation J := (@J dbl).

#[local] Existing Instance J_ret.
#[local] Existing Instance J_bind.

Definition set_type (a ty : Z) : J unit :=
  x ← get a; JsonTree.put a (Item (next x) (prev x) (child x) ty (JsonTree.valuestring x) (valueint x) (valuedouble x) (string x)).
Definition set_valueint (a i : Z) : J unit :=
  x ← get a; JsonTree.put a (Item (next x) (prev x) (child x) (type x) (JsonTree.valuestring x) i (valuedouble x) (string x)).
Definition set_valuedouble (a : Z) (d : dbl) : J unit :=
  x ← get a; JsonTree.put a (Item (next x) (prev x) (child x) (type x) (JsonTree.valuestring x) (valueint x) d (string x)).
Definition set_valuestring (a t : Z) : J unit :=
  x ← get a; JsonTree.put a (Item (next x) (prev x) (child x) (type x) t (valueint x) (valuedouble x) (string x)).

(** The block is allocated before the text is copied. *)
Definition parse_string (item : addr) (str : cstring) : J at_ :=
  match str with
  | c :: s =>
    if negb (c =? QUOTE) then mret (Stop (Some str))
    else match string_len s with
    | None => fault_ OutOfBounds
    | Some len =>
      out ← alloc (BText []);
      if out =? NULL then mret (Stop None)
      else match string_copy (S (length s)) (S len) s [] (None, None) with
      | POk t rest =>
        _ ← set_text out t;
        _ ← set_valuestring item out;
        _ ← set_type item cJSON_String;
        mret (At rest)
      | PFault f => fault_ f
      | _ => fault_ OutOfBounds
      end
    end
  | [] => mret (Stop (Some str))
  end.

Definition parse_number (item : addr) (num : cstring) : J at_ :=
  match CJson.parse_number of_dec to_int num with
  | POk (JNumber d i) rest =>
    _ ← set_valuedouble item d;
    _ ← set_valueint item i;
    _ ← set_type item cJSON_Number;
    mret (At rest)
  | PFault f => fault_ f
  | _ => fault_ OutOfBounds
  end.

Definition then_ (m : J at_) (k : cstring -> J at_) : J at_ := r ← m; match r with At v => k v | Stop ep => mret (Stop ep) end.

(** [parse_array] and [parse_object]; [elems] and [members] parse the first
    child and what follows it. *)
Definition parse_array (elems : addr -> cstring -> J at_) (item : addr) (value : cstring) : J at_ :=
  _ ← set_type item cJSON_Array;
  let value := skip value in
  if char_at value 0 =? 93 then mret (At (tail value))
  else
    c ← cJSON_New_Item zero;
    _ ← set_child item c;
    if c =? NULL then mret (Stop None) else elems c value.

Definition parse_object (members : addr -> cstring -> J at_) (item : addr) (value : cstring) : J at_ :=
  _ ← set_type item cJSON_Object;
  let value := skip value in
  if char_at value 0 =? 125 then mret (At (tail value))
  else
    c ← cJSON_New_Item zero;
    _ ← set_child item c;
    if c =? NULL then mret (Stop None) else members c value.

(** Behind a child: a comma and a new one, or the closing bracket. *)
Definition next_child (more : addr -> cstring -> J at_) (close : Z) (child : addr) (value : cstring) : J at_ :=
  if char_at value 0 =? 44 then
    n ← cJSON_New_Item zero;
    if n =? NULL then mret (Stop None)
    else
      _ ← set_next child n;
      _ ← set_prev n child;
      more n (tail value)
  else if char_at value 0 =? close then mret (At (tail value))
  else mret (Stop (Some value)).

Definition array_turn (parse elems : addr -> cstring -> J at_) (child : addr) (value : cstring) : J at_ :=
  then_ (parse child (skip value)) (fun value => next_child elems 93 child (skip value)).

(** [child->string=child->valuestring;child->valuestring=0;] *)
Definition take_name (child : addr) : J unit :=
  x ← get child;
  _ ← set_string child (JsonTree.valuestring x);
  set_valuestring child NULL.

Definition object_turn (parse members : addr -> cstring -> J at_) (child : addr) (value : cstring) : J at_ :=
  then_ (parse_string child (skip value)) (fun value =>
    _ ← take_name child;
    let value := skip value in
    if negb (char_at value 0 =? 58) then mret (Stop (Some value))
    else then_ (parse child (skip (tail value))) (fun value => next_child members 125 child (skip value))).

(** Fuel as in [CJson]. *)
Fixpoint parse_value (fuel : nat) (item : addr) (value : cstring) {struct fuel} : J at_ :=
  match fuel with
  | O => fault_ OutOfBounds
  | S fuel =>
    if is_prefix str_null value then _ ← set_type item cJSON_NULL; mret (At (drop 4 value))
    else if is_prefix str_false value then _ ← set_type item cJSON_False; mret (At (drop 5 value))
    else if is_prefix str_true value then _ ← set_type item cJSON_True; _ ← set_valueint item 1; mret (At (drop 4 value))
    else if char_at value 0 =? QUOTE then parse_string item value
    else if (char_at value 0 =? 45) || is_digit (char_at value 0) then parse_number item value
    else if char_at value 0 =? 91 then parse_array (parse_elems fuel) item (tail value)
    else if char_at value 0 =? 123 then parse_object (parse_members fuel) item (tail value)
    else mret (Stop (Some value))
  end
with parse_elems (fuel : nat) (child : addr) (value : cstring) {struct fuel} : J at_ :=
  match fuel with O => fault_ OutOfBounds | S fuel => array_turn (parse_value fuel) (parse_elems fuel) child value end
with parse_members (fuel : nat) (child : addr) (value : cstring) {struct fuel} : J at_ :=
  match fuel with O => fault_ OutOfBounds | S fuel => object_turn (parse_value fuel) (parse_members fuel) child value end.

(** The item and [ep]. *)
Definition cJSON_Parse (value : cstring) : J (addr * option cstring) :=
  c ← cJSON_New_Item zero;
  if c =? NULL then mret (NULL, None)
  else
    r ← parse_value (2 * length value + 2) c (skip value);
    match r with
    | At _ => mret (c, None)
    | Stop ep => _ ← cJSON_Delete c; mret (NULL, ep)
    end.

End Parse.

End JsonParse.
