(* ===== verification/JsonParseFacts.v ===== *)
(** * JsonParseFacts: parsing builds the value or leaves nothing

    The parser on memory agrees with the parser of values as long as there is
    memory, and when it fails, for lack of memory or on a malformed text, every
    block it took is released. *)

From S2P Require Import Prelude CString CJson JsonTree JsonTreeFacts JsonValues JsonParse.
Import CJson JsonTree JsonParse.
Local Open Scope list_scope.
Local Open Scope Z_scope.

#[local] Existing Instance J_ret.
#[local] Existing Instance J_bind.

Section Facts.

Context {dbl : Type} (zero : dbl) (of_dec : bool -> Z -> Z -> dbl) (to_int : dbl -> Z).

Abbreviation heap := (@heap dbl).
Abbreviation J := (@J dbl).
Abbreviation jtree := (@jtree dbl).
Abbreviation value := (json dbl).
Abbreviation cell := (addr * @block dbl)%type.
Abbreviation text := (option (addr * cstring)).
Abbreviation parse_value := (JsonParse.parse_value zero of_dec to_int).
Abbreviation parse_elems := (JsonParse.parse_elems zero of_dec to_int).
Abbreviation parse_members := (JsonParse.parse_members zero of_dec to_int).

(** ** Results *)

(** [r] is what the parser of values says, or there was no memory. *)
Definition answers {X} (spec : parsed X) (good : X -> Prop) (M M' : list addr) (r : at_) : Prop :=
  match r with
  | At rest => exists x, spec = POk x rest /\ good x
  | Stop (Some _) => spec = PErr
  | Stop None => short M M'
  end.

(** The item at [a] has been filled. *)
Definition fills {X} (spec : parsed X) (read : jtree -> X -> Prop) (p a : addr) (nm : text) M F (r : at_) M' l' : Prop :=
  exists t, root t = a /\ name_of t = nm /\ typed t /\ l' ≡ₚ seg p [t] NULL ++ F /\ M' ⊆ M /\ answers spec (read t) M M' r.

(** Items have been linked behind [ks], the first of them the one at [c]. *)
Definition extends {X} (spec : parsed (list X)) (read : jtree -> option X) ks (c : addr) M F (r : at_) M' l' : Prop :=
  exists ts, head_or ts NULL = c /\ Forall typed ts /\ l' ≡ₚ seg NULL (ks ++ ts) NULL ++ F /\ M' ⊆ M /\
    answers spec (fun l => mapM read ts = Some l) M M' r.

(** The parser of values ends without a fault. *)
Definition sound {X} (spec : parsed X) : Prop := match spec with POk _ _ | PErr => True | _ => False end.

Lemma sound_bind {X Y} (m : parsed X) (k : X -> cstring -> parsed Y) : sound (pbind m k) -> sound m /\ forall x r, m = POk x r -> sound (k x r).
Proof. destruct m; cbn; try done. intros H. split; [done|]. by intros x r [= <- <-]. Qed.

Abbreviation blank a ty nm := (Node a ty 0 zero None nm []).

Lemma seg_one p (t : jtree) F : seg p [t] NULL ++ F = (root t, BItem (item_of p NULL t)) :: rest t ++ F.
Proof. cbn [seg head_or]. by rewrite app_nil_r. Qed.

(** Fields of an item. *)
Lemma set_type_spec p a ty vi (vd : dbl) v nm k y M F :
  leaves (set_type a y) M (seg p [Node a ty vi vd v nm k] NULL ++ F) tt (seg p [Node a y vi vd v nm k] NULL ++ F).
Proof. rewrite !seg_one. eapply leaves_bind; [apply leaves_get|]. apply leaves_put. Qed.

Lemma set_valueint_spec p a ty vi (vd : dbl) v nm k y M F :
  leaves (set_valueint a y) M (seg p [Node a ty vi vd v nm k] NULL ++ F) tt (seg p [Node a ty y vd v nm k] NULL ++ F).
Proof. rewrite !seg_one. eapply leaves_bind; [apply leaves_get|]. apply leaves_put. Qed.

Lemma set_valuedouble_spec p a ty vi (vd : dbl) v nm k y M F :
  leaves (set_valuedouble a y) M (seg p [Node a ty vi vd v nm k] NULL ++ F) tt (seg p [Node a ty vi y v nm k] NULL ++ F).
Proof. rewrite !seg_one. eapply leaves_bind; [apply leaves_get|]. apply leaves_put. Qed.

Lemma set_valuestring_spec p a ty vi (vd : dbl) nm x s M F :
  leaves (set_valuestring a x) M (seg p [Node a ty vi vd None nm []] NULL ++ (x, BText s) :: F) tt (seg p [Node a ty vi vd (Some (x, s)) nm []] NULL ++ F).
Proof.
  rewrite !seg_one. eapply leaves_bind; [apply leaves_get|]. eapply leaves_perm; [reflexivity| |apply leaves_put].
  rewrite !rest_node. cbn [text_blocks seg app]. rewrite !app_nil_r. cbn [item_of root]. cbn. solve_Permutation.
Qed.

(** ** Strings and numbers *)

Lemma does_stop {X} (spec : parsed X) read p (t : jtree) ep M0 M F :
  typed t -> M ⊆ M0 -> answers spec (read t) M0 M (Stop ep) ->
  does (mret (Stop ep)) M (seg p [t] NULL ++ F) (fills spec read p (root t) (name_of t) M0 F).
Proof. intros Ht Hs Ha. apply does_ret. by exists t. Qed.

Lemma does_at {X} (spec : parsed X) read p (t : jtree) x rest M0 M F :
  typed t -> M ⊆ M0 -> spec = POk x rest -> read t x ->
  does (mret (At rest)) M (seg p [t] NULL ++ F) (fills spec read p (root t) (name_of t) M0 F).
Proof. intros Ht Hs -> Hr. apply does_ret. exists t. split_and!; try done. by exists x. Qed.

Lemma copy_no_error n : forall cap s out uc, string_copy n cap s out uc <> PErr.
Proof. induction n as [|n IH]; intros cap s out uc; [done|]. cbn [string_copy]. repeat (case_match; try done). Qed.

Lemma string_spec p a ty vi vd nm str M F :
  is_type ty -> sound (CJson.parse_string str) ->
  does (JsonParse.parse_string a str) M (seg p [Node a ty vi vd None nm []] NULL ++ F)
    (fills (CJson.parse_string str) (fun t s => exists x, t = Node a cJSON_String vi vd (Some (x, s)) nm []) p a nm M F).
Proof.
  intros Hty Hs. assert (typed (Node a ty vi vd None nm [])) as Ht by done. unfold JsonParse.parse_string, CJson.parse_string in *.
  destruct str as [|c s]; [by apply (does_stop _ _ _ (Node _ _ _ _ _ _ _))|]. destruct (negb (c =? QUOTE)); [by apply (does_stop _ _ _ (Node _ _ _ _ _ _ _))|].
  destruct (string_len s) as [len|]; [|done]. set (spec := string_copy _ _ _ _ _) in *.
  eapply does_bind; [apply alloc_any|]. cbn beta. intros out M' l' (Hsub & [(-> & -> & Hshort)|(Hout & ->)]).
  { by apply (does_stop _ _ _ (Node _ _ _ _ _ _ _)). }
  destruct (Z.eqb_spec out NULL); [done|]. destruct spec as [t rest| | |] eqn:E; try done; [|by apply copy_no_error in E].
  eapply leaves_bind; [apply set_text_spec|].
  apply (does_perm _ _ _ (seg p [Node a ty vi vd None nm []] NULL ++ (out, BText t) :: F)); [solve_Permutation|].
  eapply leaves_bind; [apply set_valuestring_spec|]. eapply leaves_bind; [apply set_type_spec|].
  eapply (does_at _ _ _ (Node _ _ _ _ _ _ _)); [done|done|done|by eexists].
Qed.

Lemma number_spec p a ty vi vd nm num M F :
  sound (CJson.parse_number of_dec to_int num) ->
  does (JsonParse.parse_number of_dec to_int a num) M (seg p [Node a ty vi vd None nm []] NULL ++ F)
    (fills (CJson.parse_number of_dec to_int num) (fun t v => value_of t = Some v) p a nm M F).
Proof.
  intros Hs. unfold JsonParse.parse_number.
  assert (forall r, CJson.parse_number of_dec to_int num = r -> sound r -> exists d i rest, r = POk (JNumber d i) rest) as Hn.
  { intros r <-. unfold CJson.parse_number. repeat case_match; intros; try done; eauto. }
  destruct (Hn _ eq_refl Hs) as (d & i & rest & E). rewrite E.
  eapply leaves_bind; [apply set_valuedouble_spec|]. eapply leaves_bind; [apply set_valueint_spec|]. eapply leaves_bind; [apply set_type_spec|].
  eapply (does_at _ _ _ (Node _ _ _ _ _ _ _)); done.
Qed.

(** ** Lists *)

Lemma answers_mono {X} (spec : parsed X) good M M1 M' r : M1 ⊆ M -> answers spec good M1 M' r -> answers spec good M M' r.
Proof. intros Hs. destruct r as [rest|[e|]]; try done. by apply short_mono. Qed.

(** The answer to a part is passed on. *)
Lemma answers_bind {X Y} (spec : parsed X) (k : X -> cstring -> parsed Y) good good' M M' e :
  answers spec good M M' (Stop e) -> answers (pbind spec k) good' M M' (Stop e).
Proof. destruct e; cbn; [by intros ->|done]. Qed.

Lemma extends_mono {X} (spec : parsed (list X)) read ks c M M1 F r M' l' : M1 ⊆ M -> extends spec read ks c M1 F r M' l' -> extends spec read ks c M F r M' l'.
Proof.
  intros Hs (ts & H1 & H2 & H3 & H5 & H6). exists ts. split_and!; try done; [by etransitivity|by apply (answers_mono _ _ _ M1)].
Qed.

Lemma does_assoc {A B C} (m : J A) (k : A -> J B) (h : B -> J C) M l Q :
  does ((m ≫= k) ≫= h) M l Q -> does (m ≫= fun x => k x ≫= h) M l Q.
Proof.
  intros H s Hs. destruct (H s Hs) as (a & s' & E & HQ). exists a, s'. split; [|done]. revert E. unfold mbind, J_bind. by destruct (m s) as [[x s1]|].
Qed.

Abbreviation elem c := (blank c 0 None).

(** What parses the rest of a list, from its first item on. *)
Definition parses_list {X} (more : addr -> cstring -> J at_) (spec : cstring -> parsed (list X)) (read : jtree -> option X) : Prop :=
  forall ks c str M F, sound (spec str) ->
    does (more c str) M (seg NULL (ks ++ [elem c]) NULL ++ F) (extends (spec str) read ks c M F).

(** The choice behind an item, on values. *)
Definition tail_spec {X} (spec : cstring -> parsed (list X)) (close : Z) (x : X) (str : cstring) : parsed (list X) :=
  match str with
  | c :: r => if c =? 44 then pbind (spec r) (fun l r => POk (x :: l) r) else if c =? close then POk [x] r else PErr
  | [] => PErr
  end.

Lemma new_item_any M l :
  does (cJSON_New_Item zero) M l (fun r M' l' => M' ⊆ M /\ ((r = NULL /\ l' = l /\ short M M') \/ (r <> NULL /\ l' = seg NULL [elem r] NULL ++ l))).
Proof. exact (alloc_any _ M l). Qed.

Lemma next_spec {X} (more : addr -> cstring -> J at_) (spec : cstring -> parsed (list X)) read close x str ks t M F :
  close <> 0 -> parses_list more spec read -> read t = Some x -> typed t -> sound (tail_spec spec close x str) ->
  does (next_child zero more close (root t) str) M (seg NULL (ks ++ [t]) NULL ++ F) (extends (tail_spec spec close x str) read ks (root t) M F).
Proof.
  intros Hclose Hmore Hx Ht Hs. assert (forall r M' l', M' ⊆ M -> l' ≡ₚ seg NULL (ks ++ [t]) NULL ++ F ->
    answers (tail_spec spec close x str) (fun l => l = [x]) M M' r -> extends (tail_spec spec close x str) read ks (root t) M F r M' l') as Hend.
  { intros r M' l' H1 H2 H4. exists [t]. split; [done|]. split; [by constructor|]. split_and!; try done. cbn [mapM]. rewrite Hx. cbn.
    destruct r as [rest|[e|]]; try done. destruct H4 as (l & -> & ->). by exists [x]. }
  unfold next_child, tail_spec in *. destruct str as [|c r]; cbn [char_at nth tail] in *.
  { destruct (Z.eqb_spec 0 44); [done|]. destruct (Z.eqb_spec 0 close); [done|]. by apply does_ret, Hend. }
  destruct (Z.eqb_spec c 44) as [->|].
  - apply sound_bind in Hs as [Hs _]. eapply does_bind; [apply new_item_any|]. cbn beta. intros n M1 l1 (Hsub & [(-> & -> & Hshort)|(Hn & ->)]).
    { by apply does_ret, Hend. }
    destruct (Z.eqb_spec n NULL); [done|].
    apply (does_perm _ _ _ (seg NULL (ks ++ [t]) NULL ++ seg NULL [elem n] NULL ++ F)); [solve_Permutation|].
    pose proof (link_end (ks ++ [t]) (elem n) M1 F) as Hl. rewrite last_or_app in Hl.
    apply does_assoc. eapply leaves_bind; [apply Hl; by destruct ks|]. eapply does_mono; [by apply Hmore|].
    intros r' M' l' H. apply (extends_mono _ _ _ _ _ _ _ _ _ _ Hsub) in H. destruct H as (ts & H1 & H2 & H3 & H5 & H6).
    exists (t :: ts). split; [done|]. split; [by constructor|]. split; [by rewrite <- app_assoc in H3|]. split_and!; try done.
    destruct r' as [rest|e]; [|by apply (answers_bind _ _ _ _ _ _ _ H6)]. destruct H6 as (l & E & Hl'). exists (x :: l). rewrite E. split; [done|].
    cbn [mapM]. by rewrite Hx, Hl'.
  - destruct (c =? close); apply does_ret, Hend; try done. by exists [x].
Qed.

(** What parses a value into an item. *)
Definition parses_value (parse : addr -> cstring -> J at_) (spec : cstring -> parsed value) : Prop :=
  forall p a ty nm str M F, is_type ty -> sound (spec str) ->
    does (parse a str) M (seg p [blank a ty nm] NULL ++ F) (fills (spec str) (fun t v => value_of t = Some v) p a nm M F).

(** The last item of a list, alone. *)
Lemma seg_last ks (t : jtree) F : seg NULL (ks ++ [t]) NULL ++ F ≡ₚ seg (last_or ks NULL) [t] NULL ++ (seg NULL ks (root t) ++ F).
Proof. rewrite seg_app. cbn [head_or]. solve_Permutation. Qed.

(** A part that fails leaves its item as the last of the list. *)
Lemma fills_last {X Y} (spec : parsed X) read (k : X -> cstring -> parsed (list Y)) (rd : jtree -> option Y) ks c nm M F e M' l' :
  fills spec read (last_or ks NULL) c nm M (seg NULL ks c ++ F) (Stop e) M' l' -> extends (pbind spec k) rd ks c M F (Stop e) M' l'.
Proof.
  intros (t & <- & Hnm & H1 & H2 & H4 & H5). exists [t]. split; [done|]. split; [by constructor|]. split; [by rewrite seg_last|].
  split; [done|]. by apply (answers_bind _ _ _ _ _ _ _ H5).
Qed.

Lemma array_turn_spec parse elems spec specs :
  parses_value parse spec -> parses_list elems specs value_of ->
  parses_list (JsonParse.array_turn zero parse elems) (CJson.array_turn spec specs) value_of.
Proof.
  intros Hv Hl ks c str M F Hs. unfold JsonParse.array_turn, CJson.array_turn, then_ in *. apply sound_bind in Hs as [Hs Hk].
  apply (does_perm _ _ _ _ _ (seg_last _ _ _)). eapply does_bind; [apply Hv; done|].
  intros r M1 l1 Hr. destruct r as [rest|e]; [|by apply does_ret, (fills_last _ _ _ _ _ _ _ _ _ _ _ _ Hr)].
  destruct Hr as (t & Hroot & Hnm & Ht & Hl1 & Hsub & v & E & Hval). cbn [root] in Hl1, Hroot. subst c.
  apply (does_perm _ _ _ (seg NULL (ks ++ [t]) NULL ++ F)); [by rewrite Hl1, seg_last|]. rewrite E. cbn [pbind].
  eapply does_mono; [apply (next_spec elems specs value_of 93 v); try done|].
  - by apply (Hk _ _ E).
  - intros r' M' l' H. by apply (extends_mono _ _ _ _ _ M1).
Qed.

Lemma take_name_spec p a ty vi (vd : dbl) x s M F :
  leaves (take_name a) M (seg p [Node a ty vi vd (Some (x, s)) None []] NULL ++ F) tt (seg p [Node a ty vi vd None (Some (x, s)) []] NULL ++ F).
Proof.
  rewrite !seg_one. cbn [root]. unfold take_name. eapply leaves_bind; [apply leaves_get|]. eapply leaves_bind; [eapply leaves_bind; [apply leaves_get|apply leaves_put]|].
  eapply leaves_bind; [apply leaves_get|]. eapply leaves_perm; [reflexivity| |apply leaves_put]. done.
Qed.

(** A member behind its name. *)
Lemma member_spec parse members spec specs ks c x name str M F :
  let spec' := match skip str with
    | d :: r => if negb (d =? 58) then PErr else pbind (spec (skip r)) (fun v r => tail_spec specs 125 (name, v) (skip r))
    | [] => PErr end in
  parses_value parse spec -> parses_list members specs member -> sound spec' ->
  does (let value := skip str in
    if negb (char_at value 0 =? 58) then mret (Stop (Some value))
    else then_ (parse c (skip (tail value))) (fun value => next_child zero members 125 c (skip value))) M
    (seg NULL (ks ++ [blank c cJSON_String (Some (x, name))]) NULL ++ F) (extends spec' member ks c M F).
Proof.
  cbv zeta. intros Hv Hl Hs. set (spec' := match skip str with [] => _ | _ => _ end) in *.
  assert (forall v, spec' = PErr -> does (mret (Stop (Some v))) M (seg NULL (ks ++ [blank c cJSON_String (Some (x, name))]) NULL ++ F) (extends spec' member ks c M F)) as Hend.
  { intros v E. apply does_ret. exists [blank c cJSON_String (Some (x, name))]. split; [done|]. split; [by constructor|]. by split_and!. }
  unfold spec' in *. destruct (skip str) as [|d r]; cbn [char_at nth tail] in *; [by apply Hend|]. destruct (negb (d =? 58)); [by apply Hend|].
  unfold then_. apply sound_bind in Hs as [Hs Hk].
  apply (does_perm _ _ _ _ _ (seg_last _ _ _)). eapply does_bind; [apply Hv; done|].
  intros r' M1 l1 Hr. destruct r' as [rest|e]; [|by apply does_ret, (fills_last _ _ _ _ _ _ _ _ _ _ _ _ Hr)].
  destruct Hr as (t & Hroot & Hnm & Ht & Hl1 & Hsub & v & E & Hval). cbn [root] in Hl1, Hroot. subst c.
  apply (does_perm _ _ _ (seg NULL (ks ++ [t]) NULL ++ F)); [by rewrite Hl1, seg_last|]. rewrite E. cbn [pbind].
  eapply does_mono; [apply (next_spec members specs member 125 (name, v)); try done|].
  - unfold member. by rewrite Hval, Hnm.
  - by apply (Hk _ _ E).
  - intros r' M' l' H. by apply (extends_mono _ _ _ _ _ M1).
Qed.

Lemma object_turn_spec parse members spec specs :
  parses_value parse spec -> parses_list members specs member ->
  parses_list (JsonParse.object_turn zero parse members) (CJson.object_turn spec specs) member.
Proof.
  intros Hv Hl ks c str M F Hs. unfold JsonParse.object_turn, CJson.object_turn, then_ in *. apply sound_bind in Hs as [Hs Hk].
  apply (does_perm _ _ _ _ _ (seg_last _ _ _)). eapply does_bind; [apply string_spec; done|].
  intros r M1 l1 Hr. destruct r as [rest|e]; [|by apply does_ret, (fills_last _ _ _ _ _ _ _ _ _ _ _ _ Hr)].
  destruct Hr as (t & _ & _ & Ht & Hl1 & Hsub & name & E & x & ->). cbn [root] in Hl1. rewrite E. cbn [pbind].
  apply (does_perm _ _ _ _ _ Hl1). eapply leaves_bind; [apply take_name_spec|]. cbv zeta.
  apply (does_perm _ _ _ (seg NULL (ks ++ [blank c cJSON_String (Some (x, name))]) NULL ++ F)); [by rewrite (seg_last ks (blank c _ _))|].
  eapply does_mono; [apply (member_spec parse members spec specs ks c x name rest); try done|].
  - by apply (Hk _ _ E).
  - intros r' M' l' H. by apply (extends_mono _ _ _ _ _ M1).
Qed.

(** ** Arrays and objects *)

(** An item with its children apart from it. *)
Lemma seg_kids p a ty nm ks (F : list cell) :
  seg p [Node a ty 0 zero None nm ks] NULL ++ F ≡ₚ (a, BItem (item_of p NULL (Node a ty 0 zero None nm ks))) :: seg NULL ks NULL ++ text_blocks nm ++ F.
Proof. rewrite seg_one, rest_node. cbn [text_blocks app root]. solve_Permutation. Qed.

Lemma set_child_spec p a ty nm c F M l : l = (if c =? NULL then [] else [elem c]) ->
  leaves (set_child a c) M (seg p [blank a ty nm] NULL ++ F) tt ((a, BItem (item_of p NULL (Node a ty 0 zero None nm l))) :: text_blocks nm ++ F).
Proof.
  intros ->. eapply leaves_perm; [by rewrite seg_kids|reflexivity|]. cbn [seg app]. eapply leaves_perm; [reflexivity| |apply leaves_set_child].
  by destruct (Z.eqb_spec c NULL) as [->|].
Qed.

Definition container {X} (wrap : list X -> value) (specs : cstring -> parsed (list X)) (close : Z) (str : cstring) : parsed value :=
  let rest v := pbind (specs v) (fun l r => POk (wrap l) r) in
  match skip str with d :: s => if d =? close then POk (wrap []) s else rest (d :: s) | [] => rest [] end.

Lemma container_spec {X} wrap elems specs (read : jtree -> option X) ty' close str p a ty nm M F :
  close <> 0 -> is_type ty' -> (forall nm ts l, mapM read ts = Some l -> value_of (Node a ty' 0 zero None nm ts) = Some (wrap l)) ->
  parses_list elems specs read -> sound (container wrap specs close str) ->
  does (_ ← set_type a ty'; let value := skip str in
    if char_at value 0 =? close then mret (At (tail value))
    else c ← cJSON_New_Item zero; _ ← set_child a c; if c =? NULL then mret (Stop None) else elems c value) M
    (seg p [blank a ty nm] NULL ++ F) (fills (container wrap specs close str) (fun t v => value_of t = Some v) p a nm M F).
Proof.
  intros Hclose Hty Hwrap Hl Hs. eapply leaves_bind; [apply set_type_spec|]. cbv zeta.
  unfold container in *. set (v := skip str) in *. set (spec := match v with [] => _ | _ => _ end) in *.
  destruct (Z.eqb_spec (char_at v 0) close) as [Ev|Ev].
  { destruct v as [|d v']; [by cbn in Ev|]. cbn [char_at nth] in Ev. subst d. unfold spec. rewrite Z.eqb_refl.
    eapply (does_at _ _ _ (blank a ty' nm)); [done|done|done|]. by apply (Hwrap nm []). }
  assert (spec = pbind (specs v) (fun l r => POk (wrap l) r)) as Espec.
  { unfold spec. destruct v as [|d v']; [done|]. cbn in Ev. by destruct (Z.eqb_spec d close). }
  rewrite Espec in Hs |- *. apply sound_bind in Hs as [Hs _].
  eapply does_bind; [apply new_item_any|]. cbn beta. intros c M1 l1 (Hsub & [(-> & -> & Hshort)|(Hc & ->)]).
  - eapply leaves_bind; [by apply set_child_spec|]. apply (does_perm _ _ _ (seg p [blank a ty' nm] NULL ++ F)); [by rewrite seg_kids|].
    by apply (does_stop _ _ _ (blank a ty' nm)).
  - apply (does_perm _ _ _ (seg p [blank a ty' nm] NULL ++ seg NULL [elem c] NULL ++ F)); [solve_Permutation|].
    eapply leaves_bind; [by apply set_child_spec|]. destruct (Z.eqb_spec c NULL); [done|]. set (K := (a, BItem _)).
    apply (does_perm _ _ _ (seg NULL ([] ++ [elem c]) NULL ++ K :: text_blocks nm ++ F)); [cbn [app]; solve_Permutation|].
    eapply does_mono; [by apply Hl|].
    intros r M' l' (ts & Hh & Hts & Hl' & Hsub' & Ha). exists (Node a ty' 0 zero None nm ts). split; [done|]. split; [done|].
    split; [by apply typed_kids|]. split; [|split; [by etransitivity|]].
    + rewrite Hl', seg_kids. cbn [app]. unfold K. cbn [item_of head_or root]. rewrite Hh. solve_Permutation.
    + apply (answers_mono _ _ _ _ _ _ Hsub) in Ha. destruct r as [rest|e]; [|by apply (answers_bind _ _ _ _ _ _ _ Ha)].
      destruct Ha as (l & -> & Hm). exists (wrap l). split; [done|]. by apply Hwrap.
Qed.

Lemma array_spec elems specs str p a ty nm M F : parses_list elems specs value_of -> sound (CJson.parse_array specs str) ->
  does (JsonParse.parse_array zero elems a str) M (seg p [blank a ty nm] NULL ++ F) (fills (CJson.parse_array specs str) (fun t v => value_of t = Some v) p a nm M F).
Proof. intros Hl. apply (container_spec JArray elems specs value_of cJSON_Array 93); [done|done| |done]. intros nm' ts l E. cbn. by rewrite E. Qed.

Lemma object_spec members specs str p a ty nm M F : parses_list members specs member -> sound (CJson.parse_object specs str) ->
  does (JsonParse.parse_object zero members a str) M (seg p [blank a ty nm] NULL ++ F) (fills (CJson.parse_object specs str) (fun t v => value_of t = Some v) p a nm M F).
Proof. intros Hl. apply (container_spec JObject members specs member cJSON_Object 125); [done|done| |done]. intros nm' ts l E. cbn. unfold member in E. by rewrite E. Qed.

(** ** The parser *)

Lemma parses n : parses_value (parse_value n) (CJson.parse_value of_dec to_int n) /\
  parses_list (parse_elems n) (CJson.parse_elems of_dec to_int n) value_of /\
  parses_list (parse_members n) (CJson.parse_members of_dec to_int n) member.
Proof.
  induction n as [|n (IHv & IHe & IHm)]; [by split_and!; intros ??; intros|].
  split; [|split; [by apply array_turn_spec|by apply object_turn_spec]].
  intros p a ty nm str M F Hty Hs. cbn [JsonParse.parse_value CJson.parse_value] in *.
  assert (forall y i v rest, value_of (Node a y i zero None nm []) = Some v -> typed (Node a y i zero None nm []) ->
    does (mret (At rest)) M (seg p [Node a y i zero None nm []] NULL ++ F) (fills (POk v rest) (fun t v => value_of t = Some v) p a nm M F)) as Hdone.
  { intros y i v rest Hv Ht. eapply (does_at _ _ _ (Node a y i zero None nm [])); try done. }
  assert (forall e, does (mret (Stop (Some e))) M (seg p [blank a ty nm] NULL ++ F) (fills PErr (fun t v => value_of t = Some v) p a nm M F)) as Hstop
    by (intros e; by apply (does_stop _ _ _ (blank a ty nm))).
  destruct (is_prefix str_null str). { eapply leaves_bind; [apply set_type_spec|]. by apply Hdone. }
  destruct (is_prefix str_false str). { eapply leaves_bind; [apply set_type_spec|]. by apply Hdone. }
  destruct (is_prefix str_true str).
  { eapply leaves_bind; [apply set_type_spec|]. eapply leaves_bind; [apply set_valueint_spec|]. by apply Hdone. }
  destruct str as [|c s]; cbn [char_at nth tail] in *; [by apply Hstop|]. destruct (c =? QUOTE).
  { apply sound_bind in Hs as [Hs _]. eapply does_mono; [by apply string_spec|].
    intros r M' l' (t & H1 & H2 & H3 & H4 & H6 & H7). exists t. split_and!; try done. destruct r as [rest|e]; [|by apply (answers_bind _ _ _ _ _ _ _ H7)].
    destruct H7 as (v & -> & x & ->). by exists (JString v). }
  destruct ((c =? 45) || is_digit c); [by apply number_spec|].
  destruct (c =? 91); [by apply array_spec|]. destruct (c =? 123); [by apply object_spec|]. by apply Hstop.
Qed.


End Facts.

(** [[7,{"k":"x"}]] where ten blocks can be had; doubles are integers. *)
Definition sample_text : cstring := [91; 55; 44; 123; 34; 107; 34; 58; 34; 120; 34; 125; 93].
Definition sample_memory : list addr := [10; 11; 12; 13; 14; 15; 16; 17; 18; 19].

