(* ===== verification/JsonPrint.v ===== *)
(** * JsonPrint: the printer of [cJSON.c] on memory

    [CJson] prints values.  Here the functions that print walk the items of
    [JsonTree]'s memory, collect the texts of the children in arrays of
    pointers, compute how much room the whole will take, and release what they
    borrowed.  What is written at last is [CJson]'s text; that it fits into the
    block is checked at the writing. *)

From S2P Require Import Prelude CString CJson JsonTree.
Import CJson JsonTree.
Local Open Scope list_scope.
Local Open Scope Z_scope.

Module JsonPrint.

Section Print.

Context {dbl : Type} (near_int : Z -> dbl -> bool) (fmt_double : dbl -> cstring).

Abbreviation J := (@J dbl).

#[local] Existing Instance J_ret.
#[local] Existing Instance J_bind.

(** A text and its terminator into a block of [cap] bytes. *)
Definition write (out : addr) (cap : Z) (t : cstring) : J unit :=
  if Z.of_nat (length t) <? cap then set_text out t else fault_ OutOfBounds.

Definition print_in (cap : Z) (t : cstring) : J addr :=
  out ← alloc (BText []);
  _ ← (if out =? NULL then mret tt else write out cap t);
  mret out.

Definition print_number (item : addr) : J addr :=
  x ← get item;
  if near_int (valueint x) (valuedouble x) then print_in 21 (dec (valueint x)) else print_in 64 (fmt_double (valuedouble x)).

(** The first loop of [print_string_ptr]. *)
Definition char_size (c : Z) : Z :=
  1 + (if existsb (Z.eqb c) [QUOTE; BSLASH; 8; 12; 10; 13; 9] then 1 else if c <? 32 then 5 else 0).
Definition string_size (t : cstring) : Z := fold_left (fun len c => s32 (len + char_size c)) t 0.

Definition print_string_ptr (str : addr) : J addr :=
  if str =? NULL then cJSON_strdup []
  else t ← get_text str; print_in (string_size t + 3) (CJson.print_string_ptr t).

Definition release (a : addr) : J unit := if a =? NULL then mret tt else cJSON_free a.

Fixpoint free_all (l : list addr) : J unit :=
  match l with [] => mret tt | a :: l => _ ← release a; free_all l end.

Definition strlen_of (a : addr) : J Z := t ← get_text a; mret (Z.of_nat (length t)).

(** *** Arrays *)

(** "Retrieve all the results": the length and whether it failed. *)
Fixpoint array_entries (n : nat) (print : addr -> J addr) (child entries : addr) (i : nat) (len : Z) (fmt : bool) : J (Z * bool) :=
  if child =? NULL then mret (len, false)
  else match n with
  | O => fault_ OutOfBounds
  | S n =>
    ret ← print child;
    _ ← set_ptr entries i ret;
    if ret =? NULL then mret (len, true)
    else
      k ← strlen_of ret;
      x ← get child;
      array_entries n print (next x) entries (S i) (s32 (len + k + 2 + (if fmt then 1 else 0))) fmt
  end.

(** "Compose the output array": the entries are released on the way. *)
Fixpoint array_text (l : list addr) (fmt : bool) : J cstring :=
  match l with
  | [] => mret []
  | e :: l' =>
    t ← get_text e;
    _ ← cJSON_free e;
    r ← array_text l' fmt;
    mret (t ++ (match l' with [] => [] | _ => [44] ++ (if fmt then [32] else []) end) ++ r)
  end.

Definition print_array (print : addr -> J addr) (item : addr) (fmt : bool) : J addr :=
  x ← get item;
  n ← blocks_left;
  numentries ← count_loop n (child x) 0;
  entries ← alloc (BPtrs (replicate (Z.to_nat numentries) NULL));
  if entries =? NULL then mret NULL
  else
    r ← array_entries n print (child x) entries 0 5 fmt;
    out ← (if (r.2 : bool) then mret NULL else alloc (BText []));
    l ← get_ptrs entries;
    if out =? NULL then _ ← free_all l; _ ← cJSON_free entries; mret NULL
    else
      body ← array_text l fmt;
      _ ← cJSON_free entries;
      _ ← write out r.1 ([91] ++ body ++ [93]);
      mret out.

(** *** Objects *)

(** "Collect all the results into our arrays", to the end even if one fails. *)
Fixpoint object_entries (n : nat) (print : addr -> J addr) (child names entries : addr) (i : nat) (len : Z) (fail : bool) (depth : nat) (fmt : bool) :
  J (Z * bool) :=
  if child =? NULL then mret (len, fail)
  else match n with
  | O => fault_ OutOfBounds
  | S n =>
    x ← get child;
    str ← print_string_ptr (string x);
    _ ← set_ptr names i str;
    ret ← print child;
    _ ← set_ptr entries i ret;
    r ← (if negb (str =? NULL) && negb (ret =? NULL) then
           k ← strlen_of ret;
           j ← strlen_of str;
           mret (s32 (len + k + j + 2 + (if fmt then 2 + Z.of_nat depth else 0)), fail)
         else mret (len, true));
    x ← get child;
    object_entries n print (next x) names entries (S i) r.1 r.2 depth fmt
  end.

Fixpoint free_both (names entries : list addr) : J unit :=
  match names, entries with
  | s :: names, e :: entries => _ ← release s; _ ← release e; free_both names entries
  | _, _ => mret tt
  end.

Fixpoint object_text (names entries : list addr) (depth : nat) (fmt : bool) : J cstring :=
  match names, entries with
  | s :: names', e :: entries' =>
    name ← get_text s;
    t ← get_text e;
    _ ← cJSON_free s;
    _ ← cJSON_free e;
    r ← object_text names' entries' depth fmt;
    mret ((if fmt then tabs depth else []) ++ name ++ [58] ++ (if fmt then [9] else []) ++ t ++
          (match names' with [] => [] | _ => [44] end) ++ (if fmt then [10] else []) ++ r)
  | _, _ => mret []
  end.

Definition print_object (print : addr -> J addr) (item : addr) (depth : nat) (fmt : bool) : J addr :=
  x ← get item;
  n ← blocks_left;
  numentries ← count_loop n (child x) 0;
  entries ← alloc (BPtrs (replicate (Z.to_nat numentries) NULL));
  if entries =? NULL then mret NULL
  else
    names ← alloc (BPtrs (replicate (Z.to_nat numentries) NULL));
    if names =? NULL then _ ← cJSON_free entries; mret NULL
    else
      let len := if fmt then s32 (7 + Z.of_nat (S depth)) else 7 in
      r ← object_entries n print (child x) names entries 0 len false (S depth) fmt;
      out ← (if (r.2 : bool) then mret NULL else alloc (BText []));
      ns ← get_ptrs names;
      es ← get_ptrs entries;
      if out =? NULL then _ ← free_both ns es; _ ← cJSON_free names; _ ← cJSON_free entries; mret NULL
      else
        body ← object_text ns es (S depth) fmt;
        _ ← cJSON_free names;
        _ ← cJSON_free entries;
        _ ← write out r.1 ([123] ++ (if fmt then [10] else []) ++ body ++ (if fmt then tabs depth else []) ++ [125]);
        mret out.

(** *** Values *)

Fixpoint print_value (n : nat) (item : addr) (depth : nat) (fmt : bool) : J addr :=
  if item =? NULL then mret NULL
  else match n with
  | O => fault_ OutOfBounds
  | S n =>
    x ← get item;
    let ty := Z.land (type x) 255 in
    if ty =? cJSON_NULL then cJSON_strdup str_null
    else if ty =? cJSON_False then cJSON_strdup str_false
    else if ty =? cJSON_True then cJSON_strdup str_true
    else if ty =? cJSON_Number then print_number item
    else if ty =? cJSON_String then print_string_ptr (JsonTree.valuestring x)
    else if ty =? cJSON_Array then print_array (fun c => print_value n c (S depth) fmt) item fmt
    else if ty =? cJSON_Object then print_object (fun c => print_value n c (S depth) fmt) item depth fmt
    else mret NULL
  end.

Definition cJSON_Print (item : addr) : J addr := n ← blocks_left; print_value n item 0 true.
Definition cJSON_PrintUnformatted (item : addr) : J addr := n ← blocks_left; print_value n item 0 false.

End Print.

End JsonPrint.
