(* ===== verification/JsonPrintFacts.v ===== *)
(** * JsonPrintFacts: printing fits, and gives back what it borrowed

    What the printer on memory returns is the text of the parser's inverse in
    [CJson], or null when there was no memory; it never writes behind a block
    as long as the numbers fit into theirs, the tree is not touched, and
    nothing but the text returned is left of what was allocated. *)

From S2P Require Import Prelude CString CJson JsonTree JsonTreeFacts JsonValues JsonPrint.
Import CJson JsonTree JsonPrint.
Local Open Scope list_scope.
Local Open Scope Z_scope.

#[local] Existing Instance J_ret.
#[local] Existing Instance J_bind.

Section Facts.

Context {dbl : Type} (near_int : Z -> dbl -> bool) (fmt_double : dbl -> cstring).

Abbreviation J := (@J dbl).
Abbreviation jtree := (@jtree dbl).
Abbreviation value := (json dbl).
Abbreviation cell := (addr * @block dbl)%type.
Abbreviation text := (option (addr * cstring)).

(** [m] returns a block with [t], or null for want of memory. *)
Definition prints (m : J addr) (t : cstring) (M : list addr) (L : list cell) : Prop :=
  does m M L (fun r M' l' => M' ⊆ M /\ ((r = NULL /\ l' ≡ₚ L /\ short M M') \/ (r <> NULL /\ l' ≡ₚ (r, BText t) :: L))).

Lemma prints_perm (m : J addr) t M L L' : L ≡ₚ L' -> prints m t M L' -> prints m t M L.
Proof.
  intros Hp H. apply (does_perm _ _ _ _ _ Hp). eapply does_mono; [exact H|]. intros r M' l' (H1 & [(H2 & H3 & H4)|(H2 & H3)]); (split; [done|]).
  - left. by rewrite Hp.
  - right. by rewrite Hp.
Qed.

(** Reading first. *)
Lemma prints_read {A} (m : J A) (k : A -> J addr) a t M L : leaves m M L a L -> prints (k a) t M L -> prints (m ≫= k) t M L.
Proof. intros Hm Hk. eapply leaves_bind; [exact Hm|exact Hk]. Qed.

(** ** Numbers and strings *)

Lemma print_in_spec cap t M L : Z.of_nat (length t) < cap -> prints (print_in cap t) t M L.
Proof.
  intros Ht. unfold print_in, prints. eapply does_bind; [apply alloc_any|]. cbn beta. intros r M' l' (H1 & [(-> & -> & Hs)|(Hr & ->)]).
  - eapply leaves_bind; [by apply leaves_ret|]. apply does_ret. split; [done|]. by left.
  - destruct (Z.eqb_spec r NULL); [done|]. unfold write. destruct (Z.ltb_spec (Z.of_nat (length t)) cap); [|lia].
    eapply leaves_bind; [apply set_text_spec|]. apply does_ret. split; [done|]. by right.
Qed.

Lemma strdup_spec t M L : prints (cJSON_strdup t) t M L.
Proof.
  unfold prints, cJSON_strdup. eapply does_mono; [apply alloc_any|]. intros r M' l' (H1 & [(-> & -> & Hs)|(Hr & ->)]); (split; [done|]); [by left|by right].
Qed.

Lemma char_size_length c : Z.of_nat (length (print_char c)) <= char_size c.
Proof.
  unfold print_char, char_size. cbn [existsb]. destruct (Z.eqb_spec c QUOTE) as [->|H1]; [done|]. destruct (Z.eqb_spec c BSLASH) as [->|H2]; [done|].
  cbn [negb andb orb]. rewrite !andb_true_r. destruct (Z.ltb_spec 31 c).
  - cbn [length]. repeat case_match; lia.
  - cbn [length]. destruct (c =? 8); [done|]. destruct (c =? 12), (c =? 10), (c =? 13), (c =? 9); try done. cbn [orb length]. destruct (Z.ltb_spec c 32); lia.
Qed.

Lemma char_size_bounds c : 1 <= char_size c <= 6.
Proof. unfold char_size. repeat case_match; lia. Qed.

(** The room for a string is computed exactly, or generously for control
    characters. *)
Lemma string_size_spec t : 6 * Z.of_nat (length t) < 2 ^ 31 -> Z.of_nat (length (t ≫= print_char)) <= string_size t.
Proof.
  intros Hb. unfold string_size. enough (forall n, 0 <= n -> n + 6 * Z.of_nat (length t) < 2 ^ 31 ->
    n + Z.of_nat (length (t ≫= print_char)) <= fold_left (fun len c => s32 (len + char_size c)) t n) as H by (specialize (H 0); lia).
  induction t as [|c t IH]; intros n Hn H; [cbn; lia|]. cbn [length fold_left] in *. pose proof (char_size_bounds c). pose proof (char_size_length c).
  rewrite (wraps_small 32) by lia. change ((c :: t) ≫= print_char) with (print_char c ++ (t ≫= print_char)). rewrite length_app.
  specialize (IH ltac:(lia) (n + char_size c)). lia.
Qed.

Lemma string_text_spec x t M L : x <> NULL -> 6 * Z.of_nat (length t) < 2 ^ 31 ->
  prints (JsonPrint.print_string_ptr x) (CJson.print_string_ptr t) M ((x, BText t) :: L).
Proof.
  intros Hx Hb. unfold JsonPrint.print_string_ptr. destruct (Z.eqb_spec x NULL); [done|]. eapply prints_read; [apply leaves_get_text|].
  apply print_in_spec. unfold CJson.print_string_ptr. cbn [length]. rewrite length_app. pose proof (string_size_spec t Hb). cbn [length]. lia.
Qed.

(** ** Arrays of pointers to texts *)

Definition texts (tb : list text) : list cell := concat (map text_blocks tb).

Lemma release_spec (o : text) M (l : list cell) : Forall (fun a => a <> NULL) (@text_blocks dbl o).*1 -> leaves (release (ptr o)) M (text_blocks o ++ l) tt l.
Proof. intros H. pose proof (free_text o M l H) as Hf. unfold release. by destruct (ptr o =? NULL). Qed.

Lemma free_all_spec tb : forall M (F : list cell), leaves (free_all (map ptr tb)) M (texts tb ++ F) tt F.
Proof.
  induction tb as [|o tb IH]; intros M F; [by apply leaves_ret|]. cbn [map free_all texts concat]. rewrite <- app_assoc. apply does_nonnull. intros Hn.
  eapply leaves_bind; [by apply release_spec|]. apply IH.
Qed.

Lemma free_both_spec tb : forall tb' M (F : list cell), length tb = length tb' -> leaves (free_both (map ptr tb) (map ptr tb')) M (texts tb ++ texts tb' ++ F) tt F.
Proof.
  induction tb as [|o tb IH]; intros [|o' tb'] M F Hl; try done; [by apply leaves_ret|]. cbn [map free_both texts concat].
  apply (does_perm _ _ _ (text_blocks o ++ (text_blocks o' ++ (texts tb ++ texts tb' ++ F)))); [unfold texts; solve_Permutation|].
  apply does_nonnull. intros Hn. eapply leaves_bind; [by apply release_spec|]. apply does_nonnull. intros Hn'. eapply leaves_bind; [by apply release_spec|].
  apply IH. by injection Hl.
Qed.

Lemma strlen_spec x t M (l : list cell) : leaves (strlen_of x) M ((x, BText t) :: l) (Z.of_nat (length t)) ((x, BText t) :: l).
Proof. unfold strlen_of. eapply leaves_bind; [apply leaves_get_text|]. by apply leaves_ret. Qed.

Lemma ptrs_insert tb x k : <[length tb := x]> (map ptr tb ++ NULL :: replicate k NULL) = map ptr tb ++ x :: replicate k NULL.
Proof. rewrite insert_app_r_alt by (by rewrite length_map). by rewrite length_map, Nat.sub_diag. Qed.

Lemma texts_app tb tb' : texts (tb ++ tb') = texts tb ++ texts tb'.
Proof. unfold texts. by rewrite map_app, concat_app. Qed.

(** ** Arrays *)

(** [pr] prints the item as the text [t], wherever it lies. *)
Definition printed (pr : addr -> J addr) (u : jtree) (t : cstring) : Prop := forall p e M F, prints (pr (root u)) t M (seg p [u] e ++ F).

Fixpoint array_size (fmt : bool) (ts : list cstring) : Z :=
  match ts with [] => 0 | t :: ts => Z.of_nat (length t) + 2 + (if fmt then 1 else 0) + array_size fmt ts end.

Lemma array_size_nonneg fmt ts : 0 <= array_size fmt ts.
Proof. induction ts as [|t ts IH]; cbn [array_size]; [lia|]. destruct fmt; lia. Qed.

(** Pointers to [tb], some perhaps null, and room for [k] more. *)
Abbreviation ptr_block en tb k := (en, @BPtrs dbl (map ptr tb ++ replicate k NULL)).

Lemma set_entry en tb x k M (l : list cell) :
  leaves (set_ptr en (length tb) x) M (ptr_block en tb (S k) :: l) tt ((en, BPtrs (map ptr tb ++ x :: replicate k NULL)) :: l).
Proof.
  cbn [replicate]. rewrite <- (ptrs_insert tb x k). apply leaves_set_ptr. rewrite length_app, length_map. cbn. lia.
Qed.

Lemma seg_cons p (u : jtree) l e F : seg p (u :: l) e ++ F ≡ₚ seg p [u] (head_or l e) ++ (seg (root u) l e ++ F).
Proof. cbn [seg head_or]. rewrite app_nil_r. solve_Permutation. Qed.

Lemma get_first p (u : jtree) e M F : leaves (get (root u)) M (seg p [u] e ++ F) (item_of p e u) (seg p [u] e ++ F).
Proof. apply (get_mid p [] u [] e M F). Qed.

Lemma array_entries_spec pr en fmt : forall l ts n p tb len M F,
  Forall2 (printed pr) l ts -> (length l <= n)%nat -> 0 <= len -> len + array_size fmt ts < 2 ^ 31 ->
  does (array_entries n pr (head_or l NULL) en (length tb) len fmt) M (seg p l NULL ++ ptr_block en tb (length l) :: texts tb ++ F)
    (fun r M' l' => M' ⊆ M /\ exists tb', l' ≡ₚ seg p l NULL ++ ptr_block en (tb ++ tb') 0 :: texts (tb ++ tb') ++ F /\
      ((r.2 = true /\ short M M') \/
       (r.2 = false /\ exists xs, tb' = map Some xs /\ map snd xs = ts /\ r.1 = len + array_size fmt ts))).
Proof.
  induction l as [|u l IH]; intros ts n p tb len M F Hl Hn Hlen Hb.
  { apply Forall2_nil_inv_l in Hl as ->. assert (forall x, array_entries n pr NULL en (length tb) len fmt = x -> x = mret (len, false)) as Hx by (intros x <-; by destruct n).
    cbn [head_or]. rewrite (Hx _ eq_refl). apply does_ret. split; [done|]. exists []. split; [by rewrite (app_nil_r tb)|]. right. split; [done|]. exists []. split_and!; [done..|]. cbn. lia. }
  apply Forall2_cons_inv_l in Hl as (t & ts' & Hu & Hl & ->). destruct n as [|n]; [simpl in Hn; lia|]. cbn [head_or array_entries array_size length] in *.
  pose proof (array_size_nonneg fmt ts') as Hnn.
  apply (seg_root _ _ _ [] u l). intros Hr. cbn [app]. destruct (Z.eqb_spec (root u) NULL); [done|].
  apply (does_perm _ _ _ _ _ (seg_cons _ _ _ _ _)). eapply does_bind; [apply Hu|]. cbn beta. intros r M1 l1 (Hs1 & [(-> & Hl1 & Hsh)|(Hr1 & Hl1)]).
  - apply (does_perm _ _ _ (ptr_block en tb (S (length l)) :: seg p (u :: l) NULL ++ texts tb ++ F)).
    { rewrite Hl1, (seg_cons p u l). solve_Permutation. }
    eapply leaves_bind; [apply set_entry|]. apply does_ret. split; [done|]. exists (replicate (S (length l)) None). split; [|by left].
    rewrite map_app, texts_app. assert (texts (replicate (S (length l)) None) = []) as ->.
    { clear. generalize (S (length l)). intros k. by induction k. }
    assert (map ptr (replicate (S (length l)) None) = NULL :: replicate (length l) NULL) as ->.
    { clear. change (NULL :: replicate (length l) NULL) with (replicate (S (length l)) NULL). generalize (S (length l)). intros k. induction k; [done|]. cbn. by f_equal. }
    cbn [replicate]. rewrite !app_nil_r. solve_Permutation.
  - apply (does_perm _ _ _ (ptr_block en tb (S (length l)) :: (r, BText t) :: seg p (u :: l) NULL ++ texts tb ++ F)).
    { rewrite Hl1, (seg_cons p u l). solve_Permutation. }
    eapply leaves_bind; [apply set_entry|]. destruct (Z.eqb_spec r NULL); [done|]. set (P := (en, _)).
    apply (does_perm _ _ _ ((r, BText t) :: P :: seg p (u :: l) NULL ++ texts tb ++ F)); [solve_Permutation|].
    eapply leaves_bind; [apply strlen_spec|].
    apply (does_perm _ _ _ (seg p [u] (head_or l NULL) ++ (seg (root u) l NULL ++ P :: (r, BText t) :: texts tb ++ F))).
    { rewrite (seg_cons p u l). solve_Permutation. }
    eapply leaves_bind; [apply get_first|]. rewrite next_item, (wraps_small 32) by (destruct fmt; lia).
    set (B := seg p [u] (head_or l NULL)). replace (S (length tb)) with (length (tb ++ [Some (r, t)])) by (rewrite length_app; cbn; lia).
    apply (does_perm _ _ _ (seg (root u) l NULL ++ ptr_block en (tb ++ [Some (r, t)]) (length l) :: texts (tb ++ [Some (r, t)]) ++ (B ++ F))).
    { rewrite map_app, texts_app, <- app_assoc. cbn [map ptr texts concat text_blocks app]. fold P. solve_Permutation. }
    eapply does_mono; [apply (IH ts'); [done|lia|destruct fmt; lia|destruct fmt; lia]|]. cbn beta.
    intros r' M' l' (Hs' & tb' & Hl' & H). split; [by etransitivity|]. exists (Some (r, t) :: tb'). rewrite <- !app_assoc in Hl'. cbn [app] in Hl'. split.
    + rewrite Hl', (seg_cons p u l). unfold B. solve_Permutation.
    + destruct H as [[H1 H2]|(H1 & xs & -> & <- & ->)]; [left; split; [done|by apply (short_mono _ M1)]|right]. split; [done|].
      exists ((r, t) :: xs). split_and!; try done. lia.
Qed.

Fixpoint array_join (fmt : bool) (ts : list cstring) : cstring :=
  match ts with
  | [] => []
  | t :: ts' => t ++ (match ts' with [] => [] | _ => [44] ++ (if fmt then [32] else []) end) ++ array_join fmt ts'
  end.

Lemma array_join_length fmt ts : Z.of_nat (length (array_join fmt ts)) <= array_size fmt ts.
Proof.
  induction ts as [|t ts IH]; cbn [array_join array_size]; [cbn; lia|]. rewrite !length_app. destruct ts; [cbn in *; destruct fmt; cbn; lia|].
  rewrite length_app. destruct fmt; cbn [length]; lia.
Qed.

Lemma array_text_spec fmt xs : forall M (F : list cell), leaves (array_text (map ptr (map Some xs)) fmt) M (texts (map Some xs) ++ F) (array_join fmt (map snd xs)) F.
Proof.
  induction xs as [|[x t] xs IH]; intros M F; [by apply leaves_ret|]. cbn [map array_text ptr texts concat text_blocks app array_join snd].
  eapply leaves_bind; [apply leaves_get_text|]. eapply leaves_bind; [apply leaves_free|]. eapply leaves_bind; [apply IH|]. apply leaves_ret_eq; [|done].
  by destruct xs.
Qed.

(** The children of an item, and the rest. *)
Lemma seg_children p e a ty vi vd v nm k (F : list cell) :
  seg p [Node a ty vi vd v nm k] e ++ F ≡ₚ seg NULL k NULL ++ ((a, BItem (item_of p e (Node a ty vi vd v nm k))) :: text_blocks v ++ text_blocks nm ++ F).
Proof. cbn [seg head_or]. rewrite app_nil_r, rest_node. cbn [root]. solve_Permutation. Qed.

(** How the functions begin: the number of children. *)
Lemma count_children {A} (h : @item dbl -> nat -> Z -> J A) a it k G M Q :
  child it = head_or k NULL -> Z.of_nat (length k) < 2 ^ 31 ->
  (forall n, (length k <= n)%nat -> does (h it n (Z.of_nat (length k))) M (seg NULL k NULL ++ (a, BItem it) :: G) Q) ->
  does (x ← get a; n ← blocks_left; c ← count_loop n (child x) 0; h x n c) M (seg NULL k NULL ++ (a, BItem it) :: G) Q.
Proof.
  intros Hc Hk H. apply (does_perm _ _ _ ((a, BItem it) :: seg NULL k NULL ++ G)); [solve_Permutation|]. eapply leaves_bind; [apply leaves_get|].
  apply (does_perm _ _ _ (seg NULL k NULL ++ (a, BItem it) :: G)); [solve_Permutation|]. rewrite Hc. apply blocks_left_bound.
  set (n := length _). assert (length k <= n)%nat as Hn by (unfold n; rewrite length_app; pose proof (seg_length NULL k NULL); lia).
  eapply leaves_bind; [by apply count_loop_spec|]. by apply H.
Qed.

(** How they end without memory. *)
Lemma no_memory en tb t (L : list cell) M0 M : M ⊆ M0 -> short M0 M ->
  does (l ← get_ptrs en; _ ← free_all l; _ ← cJSON_free en; mret NULL) M (ptr_block en tb 0 :: texts tb ++ L)
    (fun r M' l' => M' ⊆ M0 /\ ((r = NULL /\ l' ≡ₚ L /\ short M0 M') \/ (r <> NULL /\ l' ≡ₚ (r, BText t) :: L))).
Proof.
  intros Hs Hsh. eapply leaves_bind; [apply leaves_get_ptrs|]. cbn [replicate]. rewrite app_nil_r.
  apply (does_perm _ _ _ (texts tb ++ (en, BPtrs (map ptr tb)) :: L)); [solve_Permutation|]. eapply leaves_bind; [apply free_all_spec|].
  eapply leaves_bind; [apply leaves_free|]. apply does_ret. split; [done|]. by left.
Qed.

Lemma print_array_spec pr fmt p e a ty vi vd v nm k ts M F :
  Forall2 (printed pr) k ts -> 5 + array_size fmt ts < 2 ^ 31 ->
  prints (print_array pr a fmt) ([91] ++ array_join fmt ts ++ [93]) M (seg p [Node a ty vi vd v nm k] e ++ F).
Proof.
  intros Hp Hb. assert (Z.of_nat (length k) < 2 ^ 31) as Hk.
  { rewrite (Forall2_length _ _ _ Hp). enough (Z.of_nat (length ts) <= array_size fmt ts) by lia. clear. induction ts; cbn [length array_size]; destruct fmt; lia. }
  eapply prints_perm; [apply seg_children|]. set (G := text_blocks v ++ text_blocks nm ++ F). set (it := item_of p e _).
  set (L := seg NULL k NULL ++ (a, BItem it) :: G). unfold prints, print_array.
  apply count_children; [done|done|]. intros n Hn. rewrite Nat2Z.id. fold L.
  eapply does_bind; [apply alloc_any|]. cbn beta. intros en M1 l1 (Hs1 & [(-> & -> & Hsh)|(Hen & ->)]).
  { apply does_ret. split; [done|]. by left. }
  destruct (Z.eqb_spec en NULL); [done|]. change (child it) with (head_or k NULL).
  apply (does_perm _ _ _ (seg NULL k NULL ++ ptr_block en [] (length k) :: texts [] ++ (a, BItem it) :: G)); [unfold L; cbn; solve_Permutation|].
  eapply does_bind; [apply (array_entries_spec pr en fmt k ts n NULL []); [done|done|lia|lia]|]. cbn beta. intros r M2 l2 (Hs2 & tb & Hl2 & Hr). cbn [app] in Hl2.
  assert (l2 ≡ₚ ptr_block en tb 0 :: texts tb ++ L) as Hl by (rewrite Hl2; unfold L; solve_Permutation). clear Hl2.
  apply (does_perm _ _ _ _ _ Hl). destruct Hr as [[-> Hsh]|(-> & xs & -> & Hxs & ->)].
  - apply (leaves_bind _ _ _ _ NULL (ptr_block en tb 0 :: texts tb ++ L)); [by apply leaves_ret|]. apply no_memory; [by etransitivity|by apply (short_mono _ M1)].
  - eapply does_bind; [apply alloc_any|]. cbn beta. intros out M3 l3 (Hs3 & [(-> & -> & Hsh)|(Hout & ->)]).
    { apply no_memory; [by do 2 (etransitivity; [eassumption|])|]. eapply short_mono; [|exact Hsh]. by etransitivity. }
    destruct (Z.eqb_spec out NULL); [done|]. set (o := (out, _)).
    apply (does_perm _ _ _ (ptr_block en (map Some xs) 0 :: texts (map Some xs) ++ o :: L)); [solve_Permutation|].
    eapply leaves_bind; [apply leaves_get_ptrs|]. cbn [replicate]. rewrite app_nil_r. set (P := (en, _)).
    apply (does_perm _ _ _ (texts (map Some xs) ++ P :: o :: L)); [solve_Permutation|].
    eapply leaves_bind; [apply array_text_spec|]. eapply leaves_bind; [apply leaves_free|]. rewrite Hxs. cbn [fst].
    pose proof (array_join_length fmt ts). unfold write. rewrite !length_app. cbn [length].
    destruct (Z.ltb_spec (Z.of_nat (1 + (length (array_join fmt ts) + 1))) (5 + array_size fmt ts)); [|lia].
    eapply leaves_bind; [apply set_text_spec|]. apply does_ret. split; [by do 2 (etransitivity; [eassumption|])|]. by right.
Qed.

(** ** Objects *)

(** The result of a printing function as a text that may be missing. *)
Lemma prints_text m t M L : prints m t M L ->
  does m M L (fun r M' l' => M' ⊆ M /\ exists o, r = ptr o /\ l' ≡ₚ text_blocks o ++ L /\ ((o = None /\ short M M') \/ exists x, o = Some (x, t))).
Proof.
  intros H. eapply does_mono; [exact H|]. cbn beta. intros r M' l' (Hs & [(-> & Hl & Hsh)|(Hr & Hl)]); (split; [done|]).
  - exists None. split_and!; try done. by left.
  - exists (Some (r, t)). split_and!; try done. right. by exists r.
Qed.

Lemma set_text_entry en tb o k M (l : list cell) :
  leaves (set_ptr en (length tb) (ptr o)) M (ptr_block en tb (S k) :: l) tt (ptr_block en (tb ++ [o]) k :: l).
Proof. eapply leaves_perm; [reflexivity| |apply set_entry]. by rewrite map_app, <- app_assoc. Qed.

Definition name_printed (u : jtree) (s : cstring) : Prop :=
  forall p e M F, prints (JsonPrint.print_string_ptr (ptr (name_of u))) s M (seg p [u] e ++ F).

Lemma name_prints (u : jtree) x s : name_of u = Some (x, s) -> 6 * Z.of_nat (length s) < 2 ^ 31 -> name_printed u (CJson.print_string_ptr s).
Proof.
  intros E Hb p e M F. cbn [seg head_or]. rewrite app_nil_r. pose proof (rest_name u) as Hr. rewrite E in Hr |- *. cbn [ptr text_blocks] in *.
  apply (prints_perm _ _ _ _ ((x, BText s) :: (root u, BItem (item_of p e u)) :: nameless u ++ F)); [cbn [app]; rewrite Hr; solve_Permutation|].
  intros h Hh. assert (x <> NULL) as Hx by (by apply owns_cons in Hh as [? _]). by apply (string_text_spec x s M _ Hx Hb).
Qed.

(** A member's part of the length. *)
Definition member_len (depth : nat) (fmt : bool) (s t : cstring) : Z :=
  Z.of_nat (length t) + Z.of_nat (length s) + 2 + (if fmt then 2 + Z.of_nat depth else 0).

Fixpoint object_size (depth : nat) (fmt : bool) (nts : list (cstring * cstring)) : Z :=
  match nts with [] => 0 | nt :: nts => member_len depth fmt nt.1 nt.2 + object_size depth fmt nts end.

Lemma member_len_pos depth fmt s t : 2 <= member_len depth fmt s t.
Proof. unfold member_len. destruct fmt; lia. Qed.

Lemma object_size_nonneg depth fmt nts : 0 <= object_size depth fmt nts.
Proof. induction nts as [|[s t] nts IH]; cbn [object_size]; [lia|]. pose proof (member_len_pos depth fmt (s, t).1 (s, t).2). lia. Qed.

Definition next_len (depth : nat) (fmt : bool) (len : Z) (fail : bool) (o o2 : text) : Z * bool :=
  match o with
  | Some (_, s) => match o2 with Some (_, t) => (s32 (len + member_len depth fmt s t), fail) | None => (len, true) end
  | None => (len, true)
  end.

Lemma add_len (o o2 : text) depth (fmt : bool) len (fail : bool) M (L : list cell) :
  leaves (if negb (ptr o =? NULL) && negb (ptr o2 =? NULL) then
            k ← strlen_of (ptr o2); j ← strlen_of (ptr o); mret (s32 (len + k + j + 2 + (if fmt then 2 + Z.of_nat depth else 0)), fail)
          else mret (len, true)) M (text_blocks o ++ text_blocks o2 ++ L)
    (next_len depth fmt len fail o o2) (text_blocks o ++ text_blocks o2 ++ L).
Proof.
  apply does_nonnull. intros Hn. destruct o as [[x s]|]; [|by apply leaves_ret]. apply Forall_cons in Hn as [Hx _]. cbn in Hx. cbn [ptr text_blocks app].
  destruct (Z.eqb_spec x NULL); [done|]. cbn [negb andb].
  apply (leaves_perm _ _ _ (text_blocks o2 ++ (x, BText s) :: L) _ (text_blocks o2 ++ (x, BText s) :: L)); [solve_Permutation|solve_Permutation|].
  apply does_nonnull. intros Hn. destruct o2 as [[y t]|]; [|by apply leaves_ret]. apply Forall_cons in Hn as [Hy _]. cbn in Hy. cbn [ptr text_blocks app].
  destruct (Z.eqb_spec y NULL); [done|]. cbn [negb]. eapply leaves_bind; [apply strlen_spec|].
  apply (does_perm _ _ _ ((x, BText s) :: (y, BText t) :: L)); [solve_Permutation|]. eapply leaves_bind; [apply strlen_spec|].
  apply leaves_ret_eq; [|solve_Permutation]. unfold next_len, member_len. do 2 f_equal. lia.
Qed.

Abbreviation collected na en tn te k X := (ptr_block na tn k :: ptr_block en te k :: texts tn ++ texts te ++ X).

(** One turn of the loop, up to the next child. *)
Lemma object_step pr depth fmt na en u l s t tn te len (fail : bool) p M (F : list cell) (h : Z * bool -> @item dbl -> J (Z * bool)) Q :
  length tn = length te -> name_printed u s -> printed pr u t ->
  (forall o o2 M', M' ⊆ M -> (forall x, o = Some x -> x.2 = s) -> (forall x, o2 = Some x -> x.2 = t) -> (o = None \/ o2 = None -> short M M') ->
    does (h (next_len depth fmt len fail o o2) (item_of p (head_or l NULL) u)) M'
      (seg p [u] (head_or l NULL) ++ seg (root u) l NULL ++ collected na en (tn ++ [o]) (te ++ [o2]) (length l) F) Q) ->
  does (x ← get (root u);
    str ← JsonPrint.print_string_ptr (string x);
    _ ← set_ptr na (length tn) str;
    ret ← pr (root u);
    _ ← set_ptr en (length tn) ret;
    r ← (if negb (str =? NULL) && negb (ret =? NULL) then
           k ← strlen_of ret; j ← strlen_of str; mret (s32 (len + k + j + 2 + (if fmt then 2 + Z.of_nat depth else 0)), fail)
         else mret (len, true));
    x ← get (root u);
    h r x) M (seg p (u :: l) NULL ++ collected na en tn te (S (length l)) F) Q.
Proof.
  intros Hlen Hname Hpr Hk. apply (does_perm _ _ _ _ _ (seg_cons _ _ _ _ _)). set (B := seg p [u] (head_or l NULL)) in *. set (L := seg (root u) l NULL) in *.
  eapply leaves_bind; [apply get_first|]. rewrite string_item. eapply does_bind; [by apply prints_text, Hname|]. cbn beta.
  intros str M1 l1 (Hs1 & o & -> & Hl1 & Ho). set (N k tn := ptr_block na tn k) in *. set (E k te := ptr_block en te k) in *.
  apply (does_perm _ _ _ (N (S (length l)) tn :: text_blocks o ++ B ++ L ++ E (S (length l)) te :: texts tn ++ texts te ++ F)).
  { rewrite Hl1. unfold N, E, B. solve_Permutation. }
  eapply leaves_bind; [apply set_text_entry|]. fold (N (length l) (tn ++ [o])).
  apply (does_perm _ _ _ (B ++ (N (length l) (tn ++ [o]) :: text_blocks o ++ L ++ E (S (length l)) te :: texts tn ++ texts te ++ F))); [solve_Permutation|].
  eapply does_bind; [by apply prints_text, Hpr|]. cbn beta. intros ret M2 l2 (Hs2 & o2 & -> & Hl2 & Ho2). rewrite Hlen.
  apply (does_perm _ _ _ (E (S (length l)) te :: text_blocks o2 ++ B ++ N (length l) (tn ++ [o]) :: text_blocks o ++ L ++ texts tn ++ texts te ++ F)).
  { rewrite Hl2. unfold B. solve_Permutation. }
  eapply leaves_bind; [apply set_text_entry|]. fold (E (length l) (te ++ [o2])).
  apply (does_perm _ _ _ (text_blocks o ++ text_blocks o2 ++ (E (length l) (te ++ [o2]) :: B ++ N (length l) (tn ++ [o]) :: L ++ texts tn ++ texts te ++ F))); [solve_Permutation|].
  eapply leaves_bind; [apply add_len|].
  apply (does_perm _ _ _ (B ++ (L ++ collected na en (tn ++ [o]) (te ++ [o2]) (length l) F))).
  { rewrite !texts_app. unfold N, E. cbn [texts map concat]. rewrite !app_nil_r. solve_Permutation. }
  eapply leaves_bind; [apply get_first|]. apply (Hk o o2 M2); [by etransitivity| | |].
  - intros x ->. by destruct Ho as [[? _]|[y [= ->]]].
  - intros x ->. by destruct Ho2 as [[? _]|[y [= ->]]].
  - intros [->| ->]; [destruct Ho as [[_ H]|[y ?]]|destruct Ho2 as [[_ H]|[y ?]]]; try done.
    + by apply (short_shrink _ M1).
    + by apply (short_mono _ M1).
Qed.

(** What the loop leaves: texts, some perhaps missing, and the length. *)
Definition object_done na en tn te nts p l F (fail : bool) len depth fmt M (r : Z * bool) M' l' : Prop :=
  M' ⊆ M /\ exists tn' te', length tn' = length te' /\ l' ≡ₚ seg p l NULL ++ collected na en (tn ++ tn') (te ++ te') 0 F /\
    ((r.2 = true /\ (fail = true \/ short M M')) \/
     (r.2 = false /\ fail = false /\ exists xs ys, tn' = map Some xs /\ te' = map Some ys /\ map snd xs = map fst nts /\ map snd ys = map snd nts /\
        r.1 = len + object_size depth fmt nts)).

Lemma object_next na en tn te nts s t p (u : jtree) l (F : list cell) fail len depth fmt M M' o o2 r M2 l2 :
  M' ⊆ M -> (forall x, o = Some x -> x.2 = s) -> (forall x, o2 = Some x -> x.2 = t) -> (o = None \/ o2 = None -> short M M') ->
  0 <= len -> len + member_len depth fmt s t < 2 ^ 31 ->
  object_done na en (tn ++ [o]) (te ++ [o2]) nts (root u) l (seg p [u] (head_or l NULL) ++ F) (next_len depth fmt len fail o o2).2 (next_len depth fmt len fail o o2).1
    depth fmt M' r M2 l2 ->
  object_done na en tn te ((s, t) :: nts) p (u :: l) F fail len depth fmt M r M2 l2.
Proof.
  intros Hs Ho Ho2 Hsh Hlen Hb (Hs2 & tn' & te' & Hl & Hp & H). split; [by etransitivity|]. exists (o :: tn'), (o2 :: te').
  rewrite <- !app_assoc in Hp. split; [cbn; by rewrite Hl|]. split; [rewrite Hp, (seg_cons p u l); solve_Permutation|].
  assert (next_len depth fmt len fail o o2 = (len, true) /\ short M M2 \/
    exists x y, o = Some x /\ o2 = Some y /\ next_len depth fmt len fail o o2 = (len + member_len depth fmt s t, fail)) as [[E Hsh2]|(x & y & -> & -> & E)].
  { destruct o as [[x s']|]; [|left; split; [done|]; apply (short_shrink _ M'); [done|]; apply Hsh; by left].
    destruct o2 as [[y t']|]; [|left; split; [done|]; apply (short_shrink _ M'); [done|]; apply Hsh; by right].
    right. exists (x, s'), (y, t'). split; [done|]. split; [done|]. cbn. rewrite <- (Ho _ eq_refl), <- (Ho2 _ eq_refl) in *. cbn [snd].
    pose proof (member_len_pos depth fmt s' t'). by rewrite (wraps_small 32) by (cbn [snd] in Hb; lia). }
  - rewrite E in H. cbn [fst snd] in H. left. destruct H as [[Hr _]|(_ & ? & _)]; [|done]. split; [done|]. by right.
  - rewrite E in H. cbn [fst snd] in H. destruct H as [[Hr H]|(Hr & Hf & xs & ys & -> & -> & Hxs & Hys & Hlen')].
    + left. split; [done|]. destruct H; [by left|]. right. by apply (short_mono _ M').
    + right. split; [done|]. split; [done|]. exists (x :: xs), (y :: ys). cbn [map fst snd object_size]. rewrite Hxs, Hys, (Ho _ eq_refl), (Ho2 _ eq_refl). split_and!; try done. lia.
Qed.

Lemma object_entries_spec pr na en depth fmt : forall l nts n p tn te len fail M F,
  Forall2 (fun u nt => name_printed u nt.1 /\ printed pr u nt.2) l nts -> (length l <= n)%nat -> length tn = length te ->
  0 <= len -> len + object_size depth fmt nts < 2 ^ 31 ->
  does (object_entries n pr (head_or l NULL) na en (length tn) len fail depth fmt) M (seg p l NULL ++ collected na en tn te (length l) F)
    (object_done na en tn te nts p l F fail len depth fmt M).
Proof.
  induction l as [|u l IH]; intros nts n p tn te len fail M F Hl Hn Hlt Hlen Hb.
  { apply Forall2_nil_inv_l in Hl as ->. assert (forall x, object_entries n pr NULL na en (length tn) len fail depth fmt = x -> x = mret (len, fail)) as Hx by (intros x <-; by destruct n).
    cbn [head_or]. rewrite (Hx _ eq_refl). apply does_ret. split; [done|]. exists [], []. split; [done|]. split; [by rewrite (app_nil_r tn), (app_nil_r te)|].
    destruct fail; [left; split; [done|by left]|right]. split; [done|]. split; [done|]. exists [], []. split_and!; try done. cbn. lia. }
  apply Forall2_cons_inv_l in Hl as ([s t] & nts' & [Hname Hpr] & Hl & ->). destruct n as [|n]; [simpl in Hn; lia|]. cbn [head_or object_entries object_size length fst snd] in *.
  pose proof (object_size_nonneg depth fmt nts'). pose proof (member_len_pos depth fmt s t).
  apply (seg_root _ _ _ [] u l). intros Hr. cbn [app]. destruct (Z.eqb_spec (root u) NULL); [done|].
  apply (object_step pr depth fmt na en u l s t tn te len fail p M F (fun r x => object_entries n pr (next x) na en (S (length tn)) r.1 r.2 depth fmt)); [done..|].
  intros o o2 M' H1 H2 H3 H4. rewrite next_item. set (nl := next_len depth fmt len fail o o2).
  assert (0 <= nl.1 /\ nl.1 + object_size depth fmt nts' < 2 ^ 31) as [Hnl1 Hnl2].
  { unfold nl, next_len. destruct o as [[x s']|]; cbn; [|lia]. destruct o2 as [[y t']|]; cbn; [|lia]. rewrite <- (H2 _ eq_refl), <- (H3 _ eq_refl) in *. cbn [snd] in *.
    rewrite (wraps_small 32) by lia. lia. }
  replace (S (length tn)) with (length (tn ++ [o])) by (rewrite length_app; cbn; lia).
  apply (does_perm _ _ _ (seg (root u) l NULL ++ collected na en (tn ++ [o]) (te ++ [o2]) (length l) (seg p [u] (head_or l NULL) ++ F))); [solve_Permutation|].
  eapply does_mono; [apply (IH nts'); [done|lia|rewrite !length_app; cbn; lia|done|done]|]. intros r M2 l2 H5.
  by apply (object_next _ _ _ _ nts' s t _ _ _ _ _ _ _ _ _ M' o o2); [..|lia|].
Qed.

Fixpoint object_join (depth : nat) (fmt : bool) (nts : list (cstring * cstring)) : cstring :=
  match nts with
  | [] => []
  | (s, t) :: nts' =>
    (if fmt then tabs depth else []) ++ s ++ [58] ++ (if fmt then [9] else []) ++ t ++
    (match nts' with [] => [] | _ => [44] end) ++ (if fmt then [10] else []) ++ object_join depth fmt nts'
  end.

Lemma object_join_length depth fmt nts : Z.of_nat (length (object_join depth fmt nts)) <= object_size depth fmt nts.
Proof.
  induction nts as [|[s t] nts IH]; cbn [object_join object_size fst snd]; [cbn; lia|]. unfold member_len, tabs. rewrite !length_app.
  destruct nts, fmt; cbn [length]; rewrite ?length_replicate; lia.
Qed.

Lemma object_text_spec depth fmt nts : forall xs ys M (F : list cell), map snd xs = map fst nts -> map snd ys = map snd nts ->
  leaves (object_text (map ptr (map Some xs)) (map ptr (map Some ys)) depth fmt) M (texts (map Some xs) ++ texts (map Some ys) ++ F) (object_join depth fmt nts) F.
Proof.
  induction nts as [|[s t] nts IH]; intros [|[x s'] xs] [|[y t'] ys] M F Hx Hy; try done; [by apply leaves_ret|].
  injection Hx as -> Hx. injection Hy as -> Hy. cbn [map object_text ptr object_join]. unfold texts. cbn [map concat text_blocks app]. fold (texts (map Some xs)) (texts (map Some ys)).
  eapply leaves_bind; [apply leaves_get_text|].
  apply (does_perm _ _ _ ((y, BText t) :: (x, BText s) :: texts (map Some xs) ++ texts (map Some ys) ++ F)); [solve_Permutation|].
  eapply leaves_bind; [apply leaves_get_text|].
  apply (does_perm _ _ _ ((x, BText s) :: (y, BText t) :: texts (map Some xs) ++ texts (map Some ys) ++ F)); [solve_Permutation|].
  eapply leaves_bind; [apply leaves_free|]. eapply leaves_bind; [apply leaves_free|]. eapply leaves_bind; [by apply IH|]. apply leaves_ret_eq; [|done].
  destruct xs, nts; done.
Qed.

Lemma no_memory_both na en tn te t (L : list cell) M0 M : length tn = length te -> M ⊆ M0 -> short M0 M ->
  does (ns ← get_ptrs na; es ← get_ptrs en; _ ← free_both ns es; _ ← cJSON_free na; _ ← cJSON_free en; mret NULL) M (collected na en tn te 0 L)
    (fun r M' l' => M' ⊆ M0 /\ ((r = NULL /\ l' ≡ₚ L /\ short M0 M') \/ (r <> NULL /\ l' ≡ₚ (r, BText t) :: L))).
Proof.
  intros Hl Hs Hsh. eapply leaves_bind; [apply leaves_get_ptrs|]. cbn [replicate]. rewrite !app_nil_r. set (N := (na, _)). set (E := (en, _)).
  apply (does_perm _ _ _ (E :: N :: texts tn ++ texts te ++ L)); [solve_Permutation|]. eapply leaves_bind; [apply leaves_get_ptrs|].
  apply (does_perm _ _ _ (texts tn ++ texts te ++ (N :: E :: L))); [solve_Permutation|]. eapply leaves_bind; [by apply free_both_spec|].
  eapply leaves_bind; [apply leaves_free|]. eapply leaves_bind; [apply leaves_free|]. apply does_ret. split; [done|]. by left.
Qed.

Definition object_whole (depth : nat) (fmt : bool) (nts : list (cstring * cstring)) : cstring :=
  [123] ++ (if fmt then [10] else []) ++ object_join (S depth) fmt nts ++ (if fmt then tabs depth else []) ++ [125].

(** The end of [print_object], with all texts collected. *)
Lemma object_end na en xs ys nts depth (fmt : bool) len M0 M (L : list cell) :
  M ⊆ M0 -> map snd xs = map fst nts -> map snd ys = map snd nts -> len = (if fmt then 7 + Z.of_nat (S depth) else 7) + object_size (S depth) fmt nts ->
  does (out ← alloc (BText []);
    ns ← get_ptrs na;
    es ← get_ptrs en;
    if out =? NULL then _ ← free_both ns es; _ ← cJSON_free na; _ ← cJSON_free en; mret NULL
    else
      body ← object_text ns es (S depth) fmt;
      _ ← cJSON_free na;
      _ ← cJSON_free en;
      _ ← write out len ([123] ++ (if fmt then [10] else []) ++ body ++ (if fmt then tabs depth else []) ++ [125]);
      mret out) M (collected na en (map Some xs) (map Some ys) 0 L)
    (fun r M' l' => M' ⊆ M0 /\ ((r = NULL /\ l' ≡ₚ L /\ short M0 M') \/ (r <> NULL /\ l' ≡ₚ (r, BText (object_whole depth fmt nts)) :: L))).
Proof.
  intros Hs Hx Hy Hlen. assert (length (map Some xs) = length (map Some ys)) as Hl.
  { rewrite !length_map. apply (f_equal length) in Hx, Hy. rewrite !length_map in Hx, Hy. congruence. }
  eapply does_bind; [apply alloc_any|]. cbn beta. intros out M3 l3 (Hs3 & [(-> & -> & Hsh)|(Hout & ->)]).
  { apply no_memory_both; [done|by etransitivity|by apply (short_mono _ M)]. }
  destruct (Z.eqb_spec out NULL); [done|]. set (o := (out, _)).
  apply (does_perm _ _ _ (collected na en (map Some xs) (map Some ys) 0 (o :: L))); [solve_Permutation|].
  eapply leaves_bind; [apply leaves_get_ptrs|]. cbn [replicate]. rewrite !app_nil_r. set (N := (na, _)). set (E := (en, _)).
  apply (does_perm _ _ _ (E :: N :: texts (map Some xs) ++ texts (map Some ys) ++ o :: L)); [solve_Permutation|]. eapply leaves_bind; [apply leaves_get_ptrs|].
  apply (does_perm _ _ _ (texts (map Some xs) ++ texts (map Some ys) ++ (N :: E :: o :: L))); [solve_Permutation|].
  eapply leaves_bind; [by apply object_text_spec|]. eapply leaves_bind; [apply leaves_free|]. eapply leaves_bind; [apply leaves_free|].
  fold (object_whole depth fmt nts). unfold write. destruct (Z.ltb_spec (Z.of_nat (length (object_whole depth fmt nts))) len) as [_|Hw].
  - eapply leaves_bind; [apply set_text_spec|]. apply does_ret. split; [by etransitivity|]. by right.
  - exfalso. pose proof (object_join_length (S depth) fmt nts). revert Hw. unfold object_whole, tabs. rewrite !length_app, Hlen.
    destruct fmt; cbn [length]; rewrite ?length_replicate; lia.
Qed.

Lemma print_object_spec pr depth (fmt : bool) p e a ty vi vd v nm k nts M F :
  Forall2 (fun u nt => name_printed u nt.1 /\ printed pr u nt.2) k nts -> (if fmt then 8 + Z.of_nat depth else 7) + object_size (S depth) fmt nts < 2 ^ 31 ->
  prints (print_object pr a depth fmt) (object_whole depth fmt nts) M (seg p [Node a ty vi vd v nm k] e ++ F).
Proof.
  intros Hp Hb. pose proof (object_size_nonneg (S depth) fmt nts). assert (Z.of_nat (length k) < 2 ^ 31) as Hk.
  { rewrite (Forall2_length _ _ _ Hp). enough (Z.of_nat (length nts) <= object_size (S depth) fmt nts) by (destruct fmt; lia). clear.
    induction nts as [|nt nts IH]; cbn [length object_size]; [lia|]. pose proof (member_len_pos (S depth) fmt nt.1 nt.2). lia. }
  eapply prints_perm; [apply seg_children|]. set (G := text_blocks v ++ text_blocks nm ++ F). set (it := item_of p e _).
  set (L := seg NULL k NULL ++ (a, BItem it) :: G). unfold prints, print_object.
  apply count_children; [done|done|]. intros n Hn. rewrite Nat2Z.id. fold L.
  eapply does_bind; [apply alloc_any|]. cbn beta. intros en M1 l1 (Hs1 & [(-> & -> & Hsh)|(Hen & ->)]).
  { apply does_ret. split; [done|]. by left. }
  destruct (Z.eqb_spec en NULL); [done|].
  eapply does_bind; [apply alloc_any|]. cbn beta. intros na M2 l2 (Hs2 & [(-> & -> & Hsh)|(Hna & ->)]).
  { eapply leaves_bind; [apply leaves_free|]. apply does_ret. split; [by etransitivity|]. left. split_and!; [done..|]. by apply (short_mono _ M1). }
  destruct (Z.eqb_spec na NULL); [done|]. change (child it) with (head_or k NULL).
  apply (does_perm _ _ _ (seg NULL k NULL ++ collected na en [] [] (length k) ((a, BItem it) :: G))); [unfold L; cbn; solve_Permutation|].
  set (len := if fmt then 7 + Z.of_nat (S depth) else 7). assert ((if fmt then s32 (7 + Z.of_nat (S depth)) else 7) = len) as ->.
  { unfold len. destruct fmt; [|done]. apply (wraps_small 32); lia. }
  eapply does_bind; [apply (object_entries_spec pr na en (S depth) fmt k nts n NULL [] []); [done|done|done|unfold len; destruct fmt; lia|unfold len; destruct fmt; lia]|].
  cbn beta. intros r M3 l3 (Hs3 & tn & te & Hlt & Hl3 & Hr). cbn [app] in Hl3.
  apply (does_perm _ _ _ (collected na en tn te 0 L)); [rewrite Hl3; unfold L; solve_Permutation|].
  destruct Hr as [[-> [? | Hsh]]|(-> & _ & xs & ys & -> & -> & Hxs & Hys & ->)]; [done| |].
  - apply (leaves_bind _ _ _ _ NULL (collected na en tn te 0 L)); [by apply leaves_ret|].
    apply no_memory_both; [done|by do 2 (etransitivity; [eassumption|])|]. eapply short_mono; [|exact Hsh]. by etransitivity.
  - by apply object_end; [do 2 (etransitivity; [eassumption|])| | |].
Qed.

(** ** Values *)

Abbreviation shown := (CJson.print_value near_int fmt_double).

Lemma array_shown l depth fmt : shown (JArray l) depth fmt = [91] ++ array_join fmt (map (fun v => shown v (S depth) fmt) l) ++ [93].
Proof.
  cbn [CJson.print_value app]. f_equal. f_equal. induction l as [|v l IH]; [done|]. cbn [map array_join]. destruct l; cbn [map app] in *.
  - by rewrite app_nil_r.
  - f_equal. rewrite IH. by destruct fmt.
Qed.

Lemma object_shown l depth fmt :
  shown (JObject l) depth fmt = object_whole depth fmt (map (fun m => (CJson.print_string_ptr m.1, shown m.2 (S depth) fmt)) l).
Proof.
  unfold object_whole. cbn [CJson.print_value]. f_equal. f_equal. rewrite !app_assoc. f_equal. f_equal. induction l as [|[s v] l IH]; [done|].
  cbn [map object_join fst snd]. rewrite IH. by destruct l.
Qed.

(** Every number fits into its block; with [%d] they always do. *)
Fixpoint fits (v : value) : Prop :=
  match v with
  | JNumber d i => if near_int i d then Z.of_nat (length (dec i)) < 21 else Z.of_nat (length (fmt_double d)) < 64
  | JArray l => (fix go l := match l with [] => True | v :: l => fits v /\ go l end) l
  | JObject l => (fix go l := match l with [] => True | (_, v) :: l => fits v /\ go l end) l
  | _ => True
  end.

Lemma fits_array l : fits (JArray l) <-> Forall fits l.
Proof.
  cbn [fits]. split; induction l as [|v l IH]; try done.
  - intros [H1 H2]. constructor; [done|by apply IH].
  - intros [H1 H2]%Forall_cons. split; [done|by apply IH].
Qed.

Lemma fits_object l : fits (JObject l) <-> Forall (fun m => fits m.2) l.
Proof.
  cbn [fits]. split; induction l as [|[s v] l IH]; try done.
  - intros [H1 H2]. constructor; [done|by apply IH].
  - intros [H1 H2]%Forall_cons. split; [done|by apply IH].
Qed.

(** The lengths the code computes are little more than what it writes. *)
Lemma array_size_bound fmt ts : array_size fmt ts <= 2 * Z.of_nat (length (array_join fmt ts)) + 3.
Proof.
  induction ts as [|t ts IH]; cbn [array_size array_join]; [lia|]. rewrite !length_app. destruct ts; [cbn in *; destruct fmt; lia|].
  rewrite length_app. destruct fmt; cbn [length]; lia.
Qed.

Lemma object_size_bound depth fmt nts : object_size depth fmt nts <= Z.of_nat (length (object_join depth fmt nts)) + 1.
Proof.
  induction nts as [|[s t] nts IH]; cbn [object_join object_size fst snd]; [cbn; lia|]. unfold member_len, tabs. rewrite !length_app.
  destruct nts; [cbn in *|]; destruct fmt; cbn [length]; rewrite ?length_replicate; lia.
Qed.

Lemma array_join_in fmt t ts : t ∈ ts -> (length t <= length (array_join fmt ts))%nat.
Proof.
  induction ts as [|u ts IH]; [by intros ?%elem_of_nil|]. cbn [array_join]. rewrite !length_app. intros [->|H]%elem_of_cons; [lia|]. specialize (IH H). lia.
Qed.

Lemma object_join_in depth fmt s t nts : (s, t) ∈ nts -> (length s + length t <= length (object_join depth fmt nts))%nat.
Proof.
  induction nts as [|[s' t'] nts IH]; [by intros ?%elem_of_nil|]. cbn [object_join]. rewrite !length_app. intros [[= -> ->]|H]%elem_of_cons; [lia|]. specialize (IH H). lia.
Qed.

Lemma seg_elem p q (u : jtree) l e e' : u ∈ l -> (length (seg q [u] e') <= length (seg p l e))%nat.
Proof.
  revert p. induction l as [|t l IH]; intros p; [by intros ?%elem_of_nil|]. cbn [seg length]. rewrite !length_app. intros [->|H]%elem_of_cons; [cbn; lia|].
  specialize (IH (root t) H). cbn [seg length] in IH. rewrite length_app in IH. cbn in *. lia.
Qed.

Lemma print_string_length s : (length s <= length (CJson.print_string_ptr s))%nat.
Proof.
  unfold CJson.print_string_ptr. cbn [length]. rewrite length_app. enough (length s <= length (s ≫= print_char))%nat by lia. induction s as [|c s IH]; [done|].
  change ((c :: s) ≫= print_char) with (print_char c ++ (s ≫= print_char)). rewrite length_app. cbn [length].
  assert (1 <= length (print_char c))%nat by (unfold print_char; repeat case_match; cbn; lia). lia.
Qed.

(** Both hold of every child when they hold of the whole. *)
Definition printable (n depth : nat) (fmt : bool) (u : jtree) (v : value) : Prop :=
  value_of u = Some v /\ (length (seg NULL [u] NULL) <= n)%nat /\ fits v /\ Z.of_nat (length (shown v depth fmt)) < 2 ^ 28.

Lemma array_printable n depth fmt a ty vi vd v nm k l :
  mapM value_of k = Some l -> (length (seg NULL [Node a ty vi vd v nm k] NULL) <= S n)%nat -> fits (JArray l) ->
  Z.of_nat (length (shown (JArray l) depth fmt)) < 2 ^ 28 ->
  Forall2 (printable n (S depth) fmt) k l /\ 5 + array_size fmt (map (fun v => shown v (S depth) fmt) l) < 2 ^ 31.
Proof.
  intros Hm%mapM_Some Hn Hf Hb. rewrite fits_array, Forall_forall in Hf. rewrite array_shown, !length_app in Hb. cbn [length] in Hb. split.
  - cbn [seg length app] in Hn. rewrite app_nil_r, rest_node, !length_app in Hn.
    apply Forall2_same_length_lookup. split; [by apply Forall2_length in Hm|]. intros i u w Hu Hw. split; [by eapply (Forall2_lookup_lr _ _ _ _ _ _ Hm)|]. split; [|split].
    + pose proof (seg_elem NULL NULL u k NULL NULL (list_elem_of_lookup_2 _ _ _ Hu)). lia.
    + by apply Hf, (list_elem_of_lookup_2 _ i).
    + pose proof (array_join_in fmt (shown w (S depth) fmt) (map (fun v => shown v (S depth) fmt) l)) as H. rewrite list_elem_of_fmap in H.
      specialize (H ltac:(exists w; split; [done|by apply (list_elem_of_lookup_2 _ i)])). lia.
  - pose proof (array_size_bound fmt (map (fun v => shown v (S depth) fmt) l)). lia.
Qed.

Lemma object_printable n depth fmt a ty vi vd v nm k l :
  mapM member k = Some l -> (length (seg NULL [Node a ty vi vd v nm k] NULL) <= S n)%nat -> fits (JObject l) ->
  Z.of_nat (length (shown (JObject l) depth fmt)) < 2 ^ 28 ->
  Forall2 (fun u m => printable n (S depth) fmt u m.2 /\ name_printed u (CJson.print_string_ptr m.1)) k l /\
  (if fmt then 8 + Z.of_nat depth else 7) + object_size (S depth) fmt (map (fun m => (CJson.print_string_ptr m.1, shown m.2 (S depth) fmt)) l) < 2 ^ 31.
Proof.
  intros Hm%mapM_Some Hn Hf Hb. rewrite fits_object, Forall_forall in Hf. rewrite object_shown in Hb. unfold object_whole, tabs in Hb. rewrite !length_app in Hb.
  set (nts := map (fun m => (CJson.print_string_ptr m.1, shown m.2 (S depth) fmt)) l) in *. cbn [length] in Hb. split.
  - cbn [seg length app] in Hn. rewrite app_nil_r, rest_node, !length_app in Hn.
    apply Forall2_same_length_lookup. split; [by apply Forall2_length in Hm|]. intros i u [s w] Hu Hw. pose proof (Forall2_lookup_lr _ _ _ _ _ _ Hm Hu Hw) as Hmem.
    apply list_elem_of_lookup_2 in Hu as Hin, Hw as Hwin. cbn [fst snd]. assert (length (CJson.print_string_ptr s) + length (shown w (S depth) fmt) <= length (object_join (S depth) fmt nts))%nat as Hj.
    { apply object_join_in. unfold nts. rewrite list_elem_of_fmap. by exists (s, w). }
    split; [split; [apply (member_value _ _ Hmem)|split; [|split]]|].
    + pose proof (seg_elem NULL NULL u k NULL NULL Hin). lia.
    + by apply (Hf _ Hwin).
    + lia.
    + unfold member in Hmem. destruct (value_of u); [|done]. cbn in Hmem. destruct (name_of u) as [[x s']|] eqn:En; [|done]. injection Hmem as -> ->.
      apply (name_prints _ _ _ En). pose proof (print_string_length s). lia.
  - pose proof (object_size_bound (S depth) fmt nts). destruct fmt; cbn [length] in *; rewrite ?length_replicate in Hb; lia.
Qed.

Lemma value_printed n : forall depth fmt u v, printable n depth fmt u v ->
  printed (fun c => JsonPrint.print_value near_int fmt_double n c depth fmt) u (shown v depth fmt).
Proof.
  induction n as [|n IH]; intros depth fmt u v (Hv & Hn & Hf & Hb) p e M F; [cbn in Hn; lia|].
  apply (seg_root _ _ _ [] u []). intros Hu. cbn [app JsonPrint.print_value]. destruct (Z.eqb_spec (root u) NULL); [done|].
  eapply prints_read; [apply get_first|]. destruct u as [a ty vi vd vs nm k|]; [|done]. cbn [value_of item_of type JsonTree.valuestring root] in *.
  destruct (Z.eqb_spec ty cJSON_NULL) as [->|_]; [injection Hv as <-; apply strdup_spec|].
  destruct (Z.eqb_spec ty cJSON_False) as [->|_]; [injection Hv as <-; apply strdup_spec|].
  destruct (Z.eqb_spec ty cJSON_True) as [->|_]; [injection Hv as <-; apply strdup_spec|].
  destruct (Z.eqb_spec ty cJSON_Number) as [->|_].
  { injection Hv as <-. cbn [fits CJson.print_value] in *. change (prints (JsonPrint.print_number near_int fmt_double a) (CJson.print_number near_int fmt_double vd vi) M (seg p [Node a cJSON_Number vi vd vs nm k] e ++ F)).
    unfold JsonPrint.print_number, CJson.print_number. eapply prints_read; [apply get_first|]. cbn [item_of valueint valuedouble].
    destruct (near_int vi vd); by apply print_in_spec. }
  destruct (Z.eqb_spec ty cJSON_String) as [->|_].
  { destruct vs as [[x s]|]; [|done]. injection Hv as <-. cbn [CJson.print_value] in *.
    change (prints (JsonPrint.print_string_ptr x) (CJson.print_string_ptr s) M (seg p [Node a cJSON_String vi vd (Some (x, s)) nm k] e ++ F)).
    eapply prints_perm; [apply seg_children|]. cbn [text_blocks app]. set (X := (a, _)).
    apply (prints_perm _ _ _ _ ((x, BText s) :: seg NULL k NULL ++ X :: text_blocks nm ++ F)); [solve_Permutation|].
    intros h Hh. assert (x <> NULL) as Hx by (by apply owns_cons in Hh as [? _]). pose proof (print_string_length s).
    by apply (string_text_spec x s M _ Hx ltac:(lia)). }
  destruct (Z.eqb_spec ty cJSON_Array) as [->|_].
  { destruct (mapM value_of k) as [l|] eqn:Em; [|done]. injection Hv as <-.
    destruct (array_printable n depth fmt _ _ _ _ _ _ _ _ Em Hn Hf Hb) as [Hk Hsize]. rewrite array_shown.
    apply print_array_spec; [|exact Hsize]. apply Forall2_fmap_r. eapply Forall2_impl; [exact Hk|]. intros u w Hw. by apply IH. }
  destruct (Z.eqb_spec ty cJSON_Object) as [->|_]; [|done].
  change (JObject <$> mapM member k = Some v) in Hv. destruct (mapM member k) as [l|] eqn:Em; [|done]. injection Hv as <-.
  destruct (object_printable n depth fmt _ _ _ _ _ _ _ _ Em Hn Hf Hb) as [Hk Hsize]. rewrite object_shown.
  apply print_object_spec; [|exact Hsize]. apply Forall2_fmap_r. eapply Forall2_impl; [exact Hk|]. intros u w [Hw Hs]. split; [exact Hs|]. by apply IH.
Qed.

(** C29. Printing a tree in memory, whatever [cJSON_malloc] answers: the text
    of the value it carries in a block of its own, or null for want of memory;
    never a byte behind a block, as long as every number fits into its one;
    the tree is untouched and everything borrowed on the way is given back. *)
Theorem print_exact t v (fmt : bool) s M F :
  value_of t = Some v -> fits v -> Z.of_nat (length (shown v 0 fmt)) < 2 ^ 28 -> owns s M (seg NULL [t] NULL ++ F) ->
  exists r s' M', (if fmt then JsonPrint.cJSON_Print near_int fmt_double (root t) s else JsonPrint.cJSON_PrintUnformatted near_int fmt_double (root t) s) = Done (r, s') /\
    ((r <> NULL /\ owns s' M' ((r, BText (shown v 0 fmt)) :: seg NULL [t] NULL ++ F)) \/
     (r = NULL /\ owns s' M' (seg NULL [t] NULL ++ F) /\ short M M')).
Proof.
  intros Hv Hf Hb Ho. pose proof (owns_length _ _ _ Ho) as Hl. rewrite length_app in Hl.
  destruct (value_printed (size (cells s)) 0 fmt t v ltac:(split_and!; [done|lia|done|done]) NULL NULL M F s Ho) as (r & s' & E & M' & l' & Ho' & _ & H).
  exists r, s', M'. split.
  - unfold JsonPrint.cJSON_Print, JsonPrint.cJSON_PrintUnformatted, mbind, J_bind, blocks_left. by destruct fmt.
  - destruct H as [(-> & Hp & Hsh)|(Hr & Hp)]; [right|left]; split_and!; try done; by apply (owns_perm _ _ _ _ Hp).
Qed.

End Facts.

(** A double that is no integer of 32 bits but whose digits do not fit, like
    1e300 with [%.0f], is written behind its block. *)
Lemma number_overruns (dbl : Type) near_int fmt_double (d : dbl) i a m :
  near_int i d = false -> 64 <= Z.of_nat (length (fmt_double d)) -> a <> NULL -> m <> NULL -> m <> a ->
  JsonPrint.cJSON_Print near_int fmt_double a (Heap {[ a := BItem (Item NULL NULL NULL cJSON_Number NULL i d NULL) ]} [m]) = Fault OutOfBounds.
Proof.
  intros Hn Hl Ha Hm Hma. apply Z.eqb_neq in Ha as Ea, Hm as Em. set (x := Item _ _ _ _ _ _ _ _). set (h := Heap _ _).
  assert (get a h = Done (x, h)) as Hg by (unfold get; rewrite Ea; cbn; by rewrite lookup_singleton_eq).
  change (JsonPrint.print_value near_int fmt_double (size (cells h)) a 0 true h = Fault OutOfBounds).
  assert (size (cells h) = 1%nat) as -> by apply map_size_singleton. cbn [JsonPrint.print_value]. rewrite Ea. unfold mbind at 1, J_bind at 1. rewrite Hg.
  change (JsonPrint.print_number near_int fmt_double a h = Fault OutOfBounds). unfold JsonPrint.print_number, mbind at 1, J_bind at 1. rewrite Hg.
  cbn [valueint valuedouble x]. rewrite Hn. unfold print_in, mbind at 1, J_bind at 1, alloc. cbn [mallocs pick cells h]. rewrite Em.
  rewrite bool_decide_eq_false_2 by (rewrite lookup_singleton_ne by done; by intros [? ?]). rewrite Em. unfold mbind at 1, J_bind at 1, write.
  destruct (Z.ltb_spec (Z.of_nat (length (fmt_double d))) 64); [lia|done].
Qed.

(** [{"k":7,"a":[false]}]; doubles are integers. *)
Lemma print_exact_witness : exists r s' M',
  JsonPrint.cJSON_PrintUnformatted (fun _ _ => true) (fun _ : Z => []) 10
    (Heap (list_to_map (seg NULL [sample_object] NULL ++ [])) [50; 51; 52; 53; 54; 55; 56; 57; 58]) = Done (r, s') /\
  ((r <> NULL /\ owns s' M' ((r, BText [123; 34; 107; 34; 58; 55; 44; 34; 97; 34; 58; 91; 102; 97; 108; 115; 101; 93; 125]) :: seg NULL [sample_object] NULL ++ [])) \/
   (r = NULL /\ owns s' M' (seg NULL [sample_object] NULL ++ []) /\ short [50; 51; 52; 53; 54; 55; 56; 57; 58] M')).
Proof.
  apply (print_exact (fun _ _ => true) (fun _ : Z => []) sample_object (JObject [([107], JNumber 7 7); ([97], JArray [JFalse])]) false _
    [50; 51; 52; 53; 54; 55; 56; 57; 58] []).
  - by vm_compute.
  - by vm_compute.
  - by vm_compute.
  - apply owns_intro; [apply (bool_decide_unpack _); by vm_compute|by repeat constructor].
Defined.
